(* ===== verification/_CoqProject ===== *)
-Q . S2P
Prelude.v
GoNum.v
Strconv.v
Redis.v
Json.v
JsonParse.v
JsonNumbers.v
Rounding.v
FloatText.v
Domain.v
Rfc3339.v
Config.v
RedisStore.v
Auth.v
Seed.v
Http.v
Tables.v
InitDb.v
Timescale.v
Dispatcher.v
Writers.v
Pipeline.v
StateWriters.v
AlertEvaluator.v
Evaluators.v
IngestHttp.v
Messages.v
Middleware.v
Events.v
Hub.v
Client.v
Subs.v
Sockets.v
EndToEnd.v
Geo.v
Heartbeat.v
StopDetector.v
Eta.v
Deviation.v
JobEvents.v
Jobs.v
Helpers.v
Alerts.v
Views.v
Vehicles.v
Trips.v
Analytics.v
AlertDetail.v
ServingHttp.v
Stores.v
Startup.v
Schema.v
