(* ===== verification/Prelude.v ===== *)
(** * Fleet Monitor: a verification development

    Fleet Monitor is two Go services that share Redis and a PostgreSQL/TimescaleDB
    database. The _ingestion_ service ([src/ingestion]) accepts telemetry of vehicles
    over HTTP, fans every message out to three bounded queues, stores it in batches,
    keeps the latest state of each vehicle in Redis and raises alerts. The _serving_
    service ([src/serving]) runs periodic jobs over that state (heartbeats, stops,
    arrival estimates, route deviations), pushes events to WebSocket clients through a
    hub, and answers the dashboard's HTTP requests. This library models both, file by
    file, as executable definitions, and proves what makes each part correct.

    ** The parts and where they are modelled

    Shared ground:
    - [Prelude]: results of fallible calls ([res]), the state monad [M] with [let!],
      list lemmas, the hint databases and the tactics every file uses.
    - [GoNum], [Strconv], [Json], [Rfc3339]: what the code uses of Go and of its
      standard library: 64-bit integers with wrap-around, durations, binary64 floats
      (the standard library's [SpecFloat]), [strconv], [encoding/json], [time] in JSON.
      [JsonParse] reads texts, and reads back what [Json.Marshal] wrote; [JsonNumbers]: the
      literals of integers and of all finite floats are JSON numbers.
    - [Redis], [Tables]: the interfaces of the two external servers. [RedisServer] and
      [Database] are parameters, [RedisLaws] and [DatabaseLaws] their documented
      behaviour; a failed call may or may not have taken effect where the protocol
      leaves that open. [Tables] also has the schema of [scripts/init_db/init_db.go]: rows as
      records, CHECK constraints and the exclusion constraint on alerts. [MemRedis] and
      [MemDB] are lawful instances with a schedule of outages; witnesses and examples
      run on them.
    - [Domain], [Config]: messages, alert rules, metrics, pagination; both
      configurations.
    - [Auth]: both authenticators (static keys, in-process cache, Redis), behind the
      interface [Validator] that all HTTP entry points are proved against.
    - [Http]: requests, responses, the multiplexer's patterns, decoding into structs.

    The ingestion service, in the order a message travels:
    - [IngestHttp] ([internal/transport/http]): middleware, telemetry, health and
      metrics handlers, the routes. An accepted message is handed to
    - [Dispatcher] ([internal/pipeline/dispatcher.go]): [Dispatch] and the [Run]
      goroutine as a step relation interleaved with handlers, workers and cancellation.
    - [Writers] ([db_writer.go], [state_writer.go]): the two select loops as folds
      over the events a select delivers.
    - [Pipeline] ([main.go]): the dispatcher and any number of database writers running
      together, one [BatchInsert] call a step; [StateWriters]: any number of state writers,
      one pipeline call a step.
    - [AlertEvaluator] ([alert_evaluator.go]): the rules on one message: claim the
      window in Redis, insert the row, publish or release; [Evaluators] ([main.go]): any
      number of them at once, one call a step.
    - [RedisStore], [Timescale] ([internal/store]): the stores these go through, and the
      narrow interfaces ([ApiKeyStore], [AlertDedupStore], [StateStore],
      [TelemetryStore], [AlertStore]) their clients are written against.

    The serving service:
    - [Geo], [Heartbeat], [StopDetector], [Eta], [Deviation] ([internal/jobs]): one
      tick of each job as a computation on a [World]: Redis, the database and the queue
      of events to broadcast.
    - [Events] ([internal/ws/events.go]): payloads, their JSON, and the decoders of
      what the ingestion service publishes, proved against its encoders.
    - [Hub] ([internal/ws/hub.go]): registration, fan-out, eviction, unregistration and
      shutdown as a step relation of all the goroutines; [Client] ([client.go]): the two
      pumps of a client, their frames and the [sync.Once] between them; [Subs] ([hub.go]):
      the Redis subscriptions of each fleet, beside the hub; [Sockets]: all of these as one
      system, from the request to the frames, with the broadcasts of the jobs.
    - [EndToEnd]: both services beside Redis as one system, from the body a device posts to
      the frames a browser gets; what travels in between is JSON text.
    - [JobEvents]: a program logic for the jobs' ticks, on which what they broadcast is
      followed to the sockets.
    - [Jobs]: the ticker loops around the ticks, and what both [main] functions start
      with which settings.
    - [Middleware] ([internal/middleware/auth.go]), [Helpers] ([handler/helpers.go]),
      [Alerts], [AlertDetail] ([handler/alert.go]), [Views], [Vehicles]
      ([handler/vehicle.go]), [Trips] ([handler/trip.go]), [Analytics]
      ([handler/analytics.go]): the HTTP handlers, on the same [World].
    - [ServingHttp] ([main.go], [handler/health.go]): the table of routes with the
      middlewares of each route.

    Around them:
    - [Stores] ([internal/store] of both services): the connections, and the monad of a
      process, which records the calls it makes, with deferred calls, [log.Fatalf] and
      panics; [Startup] ([main.go] of both services): the two [main] functions in it.
    - [InitDb] ([scripts/init_db]): every statement of the schema script on a system
      catalogue; [Schema]: the constraints it creates, as an invariant of both services.
    - [Seed] ([scripts/seed_redis]): the seeding script.

    A Go function or method [f] of a type [T] is a definition [f], or [T_f] where two
    types have it; a struct is a record whose fields carry a short prefix; SQL text is
    a function on the tables, named after what it selects. Each handler is the whole
    handler: its guards, reads, writes and answers in the source's order.

    ** What the theorems show

    - Tenancy. Telemetry is admitted only for the fleet of its key; scoped routes serve
      only the key's fleet; the hub gives a client its own fleet's messages only; an
      accepted key was accepted by Redis no longer ago than the cache lifetime.
    - The pipeline. What was admitted is, in every reachable state, in exactly one place
      per destination and in order (nothing lost or duplicated before cancellation), and is
      delivered when the workers keep taking; the writers store, count or retry exactly
      their batches, in order; what shutdown and a poisoned batch lose is stated exactly.
      With all writers running together every message handed to them is written, counted
      as failed or still held, exactly once, and once nothing more arrives they drain;
      the state of a vehicle in Redis is always all of one message.
    - Alerts. The evaluator refines an abstract specification of alert windows; what is
      published was stored, a failed insert gives the claim back, and whatever calls
      are made the exclusion constraint keeps alerts of a kind apart. Evaluators running
      at once claim and publish alerts of a kind five minutes apart, unless one stalls
      past the expiry of its own claim.
    - The jobs. For a tick, which transitions, stop events, estimates and deviations
      it announces and stores, for any state of Redis and of the tables; over many ticks
      a vehicle's announcements alternate; within the range of the settings all start.
    - The hub. No reachable state panics on a closed channel, whatever the interleaving;
      a client's pumps always come to rest, unregister it once and refine the hub's view
      of it; subscriptions exist exactly for the fleets with an entry, and end with it.
      End to end, a socket shows a gap-free run of what its own fleet's subscriptions and
      the jobs broadcast, and the jobs broadcast events of a fleet's vehicles to it alone.
    - From a device to a browser. A message on a socket is a position or an alert decoded from
      a message that was posted under a key accepted for the socket's fleet, or the event of
      a job; whatever was admitted can be marshalled, and the texts are read as written.
    - The processes. Both [main] functions keep a protocol on their connections: nothing
      is started before both servers have answered, and what was acquired is released in
      the reverse order, after the HTTP server is down.
    - The schema. Every operation of both services, whatever fails in it, keeps all
      constraints; the script can be cut off and run again, and brings an older
      deployment up to date exactly when its alerts allow it.
    - The dashboard. The workflow's updates on every branch; pages that partition their
      listing in order; panels and details that show what was stored, and degrade as
      the code means them to; no API request changes anything but the workflow's columns.
    - Round trips. What the ingestion service publishes and stores in Redis is what the
      hub and the panel read back.

    The examples named in the file of each part also fix where the code differs from
    its comments or from what it seems to mean.

    ** Bounds, fuel and idealisations

    - [Json.shortest_from] tries up to 17 significant digits, which always identify a
      binary64 number; its fuel 16 starts from the one-digit attempt. The other
      recursions are structural, or folds over a list of events or rows; the JSON reader has
      two units of fuel for each character, and more changes nothing ([JsonParse.Unmarshal_fuel]).
    - Channels have the capacities the code gives them, zero included.
    - A handler, a store call or a tick of a job runs at instants given to it: one
      per call where a theorem depends on the difference (key cache, alert claims,
      flush and retry), one for the whole otherwise. Another process's statements
      therefore fall between handlers or ticks, not inside them.
    - A query without ORDER BY reads the tables' rows in list order, about which nothing
      is assumed; with LIMIT 1 that is some row. Times are UTC, strings valid UTF-8.
    - A time in a query parameter is read by the strict RFC 3339 reader of JSON.
    - Trigonometric functions ([Geo.Trig]) are a parameter; nothing is assumed of them.

    ** What is not modelled

    What the answers of a ping are (parameters of the health handlers, and of [Outside]);
    reading .env; the connections of the two scripts beyond their settings; the deadlines
    of the sockets, which show as reads and writes that fail at any time; log and progress
    output; exhaustion of memory, so that any non-negative size of a queue can be made.
    The structs of [serving/internal/domain] for rows of the registries are used by no code.
    They are calls into libraries and the operating system, without decisions of the
    program's own. *)
From Stdlib Require Export ZArith Lia.
From stdpp Require Export base numbers list strings gmap relations sorting.

Declare Scope fleet_scope.
Delimit Scope fleet_scope with fleet.

(** ** Results of fallible Go calls

    A Go function returning [(T, error)] is modelled by [res T]; the text of the
    error is kept because some handlers print it. *)
Inductive res (A : Type) : Type :=
| Ok (a : A)
| Err (msg : string).
Arguments Ok {A} a.
Arguments Err {A} msg.

Definition is_ok {A} (r : res A) : bool :=
  match r with Ok _ => true | Err _ => false end.

#[export] Instance res_eq_dec {A} `{EqDecision A} : EqDecision (res A).
Proof. solve_decision. Defined.

#[export] Instance res_fmap : FMap res :=
  fun A B f r => match r with Ok a => Ok (f a) | Err e => Err e end.

(** ** Stateful computations

    Sequential Go code that reads and writes a world [W] is written in the
    state monad [M W A = W -> A * W]. *)
Definition M (W A : Type) : Type := W -> A * W.
Definition retM {W A} (a : A) : M W A := fun w => (a, w).
Definition bindM {W A B} (c : M W A) (k : A -> M W B) : M W B :=
  fun w => let '(a, w') := c w in k a w'.

Notation "'let!' x ':=' c 'in' k" := (bindM c (fun x => k))
  (at level 10, x name, c at level 100, k at level 200,
   format "'[v' 'let!'  x  ':='  c  'in' '/' k ']'") : fleet_scope.
Notation "c '>>' k" := (bindM c (fun _ => k))
  (at level 100, right associativity) : fleet_scope.

(** A [for ... range] loop whose body only has effects. *)
Fixpoint forM {W A} (f : A -> M W unit) (l : list A) : M W unit :=
  match l with
  | [] => retM tt
  | x :: l' => bindM (f x) (fun _ => forM f l')
  end.

Lemma bindM_run {W A B} (c : M W A) (k : A -> M W B) w a w' :
  c w = (a, w') -> bindM c k w = k a w'.
Proof. unfold bindM. intros ->. reflexivity. Qed.

Lemma forM_app {W A} (f : A -> M W unit) l1 l2 w :
  forM f (l1 ++ l2) w = forM f l2 (forM f l1 w).2.
Proof.
  revert w. induction l1 as [|x l1 IH]; intros w; cbn; [done|].
  unfold bindM. destruct (f x w) as [u w1]. apply IH.
Qed.

(** A loop preserves what every iteration preserves. *)
Lemma forM_invariant {W A} (I : W -> Prop) (f : A -> M W unit) l w :
  (forall x w0, x ∈ l -> I w0 -> I (f x w0).2) -> I w -> I (forM f l w).2.
Proof.
  revert w. induction l as [|x l IH]; intros w Hf Hw; cbn; [done|].
  unfold bindM. specialize (Hf x w (list_elem_of_here x l) Hw) as Hx.
  destruct (f x w) as [u w1]. apply IH; [|exact Hx].
  intros y w0 Hy. apply Hf. by apply list_elem_of_further.
Qed.

(** ** Invariants of step relations, by rule induction on [rtc]. *)
Lemma rtc_invariant {S} (R : relation S) (I : S -> Prop) s s' :
  (forall a b, R a b -> I a -> I b) -> rtc R s s' -> I s -> I s'.
Proof. intros Hstep. induction 1; eauto. Qed.

(** ** Lists *)

(** The queue discipline of a bounded Go channel: a non-blocking send
    ([select { case ch <- x: ... default: ... }]) succeeds when there is room. *)
Definition chan_try_send {A} (cap : nat) (x : A) (ch : list A) : bool * list A :=
  if length ch <? cap then (true, ch ++ [x]) else (false, ch).

Lemma chan_try_send_true {A} cap (x : A) ch ch' :
  chan_try_send cap x ch = (true, ch') <-> length ch < cap /\ ch' = ch ++ [x].
Proof.
  unfold chan_try_send. destruct (Nat.ltb_spec (length ch) cap); split.
  - intros [= <-]. auto.
  - intros [_ ->]. done.
  - done.
  - lia.
Qed.

Lemma chan_try_send_false {A} cap (x : A) ch ch' :
  chan_try_send cap x ch = (false, ch') <-> cap <= length ch /\ ch' = ch.
Proof.
  unfold chan_try_send. destruct (Nat.ltb_spec (length ch) cap); split.
  - done.
  - lia.
  - intros [= <-]. auto.
  - intros [_ ->]. done.
Qed.

Lemma chan_try_send_bound {A} cap (x : A) ch b ch' :
  chan_try_send cap x ch = (b, ch') -> length ch <= cap -> length ch' <= cap.
Proof.
  destruct b.
  - intros [Hlt ->]%chan_try_send_true _. rewrite length_app. simpl. lia.
  - by intros [_ ->]%chan_try_send_false.
Qed.

(** The state of a result; [injection] would look into large ones. *)
Lemma some_pair_inj {A B} (a a' : A) (b b' : B) : Some (a, b) = Some (a', b') -> b' = b.
Proof. by intros [= _ ->]. Qed.

(** Replacing one element changes its part of what is gathered from the list only. *)
Lemma gather_insert {A} (l : list A) k x :
  l !! k = Some x -> exists rest, forall {B} (f : A -> list B),
    concat (map f l) ≡ₚ f x ++ concat (map f rest) /\
    forall y, concat (map f (<[k := y]> l)) ≡ₚ f y ++ concat (map f rest).
Proof.
  intros Hk. exists (take k l ++ drop (S k) l). intros B f.
  split; [rewrite <- (take_drop_middle l k x Hk) at 1|intros y; rewrite insert_take_drop by (by eapply lookup_lt_Some)];
    rewrite !map_app, !concat_app; simpl; solve_Permutation.
Qed.

Lemma Forall2_impl_in {A B} (P Q : A -> B -> Prop) l k :
  Forall2 P l k -> (forall x y, x ∈ l -> P x y -> Q x y) -> Forall2 Q l k.
Proof.
  induction 1 as [|x y l k Hxy _ IH]; intros HQ; constructor.
  - apply HQ; [by left|done].
  - apply IH. intros x' y' Hin. apply HQ. by right.
Qed.

(** Counting with a Boolean test, as the counting loops of the handlers do. *)
Definition count_if {A} (p : A -> bool) (l : list A) : nat :=
  length (List.filter p l).

Lemma count_if_cons {A} (p : A -> bool) x l :
  count_if p (x :: l) = (if p x then 1 else 0) + count_if p l.
Proof. unfold count_if. simpl. by destruct (p x). Qed.

Lemma count_if_app {A} (p : A -> bool) l1 l2 :
  count_if p (l1 ++ l2) = count_if p l1 + count_if p l2.
Proof. unfold count_if. by rewrite List.filter_app, length_app. Qed.

Lemma count_if_le {A} (p : A -> bool) l : count_if p l <= length l.
Proof.
  induction l as [|x l IH]; [done|]. rewrite count_if_cons. simpl.
  destruct (p x); lia.
Qed.

(** What a WHERE clause, a boolean filter, lets through. *)
Lemma elem_of_select {A} (p : A -> bool) (l : list A) x : x ∈ List.filter p l <-> x ∈ l /\ p x = true.
Proof. by rewrite list_elem_of_In, List.filter_In, <- list_elem_of_In. Qed.

(** A key tells the rows of a table apart. *)
Lemma NoDup_map_inj {A K} (key : A -> K) (l : list A) x y :
  NoDup (map key l) -> x ∈ l -> y ∈ l -> key x = key y -> x = y.
Proof.
  induction l as [|a l IH]; [by intros _ ?%elem_of_nil|].
  intros Hnd. simpl in Hnd. apply NoDup_cons in Hnd as [Hn Hnd].
  intros [->|Hx]%elem_of_cons [->|Hy]%elem_of_cons E; [done| | |by apply IH].
  - destruct Hn. rewrite E. by apply (list_elem_of_fmap_2 key).
  - destruct Hn. rewrite <- E. by apply (list_elem_of_fmap_2 key).
Qed.

(** ** Hints and tactics *)
Create HintDb fleet discriminated.
Create Rewrite HintDb fleet_rw.
#[export] Hint Resolve count_if_le chan_try_send_bound : fleet.

(** Case analysis on every [match] of the goal, keeping the equations. *)
Ltac split_match :=
  repeat match goal with
  | |- context [match ?x with _ => _ end] => destruct x eqn:?; simplify_eq/=
  end.

(** The same on a hypothesis, which is used up. *)
Ltac split_match_in H := revert H; split_match; intros H; simplify_eq/=.

(** Membership in a list given by its elements. *)
Ltac in_list := repeat (first [by left | right]).
