(* ===== verification/GoNum.v ===== *)
(** * Go numbers: fixed-width integers, [time.Duration], [float64]

    Fixed-width integers are values of [Z] with their wrap-around written out.
    [float64] is the IEEE-754 binary64 format of the standard library's
    [SpecFloat] (precision 53, exponents below 1024, round to nearest even), so
    arithmetic and comparisons compute inside the kernel. The Go specification
    lets a compiler fuse [x*y + z]; as on amd64, no operation is fused here. *)
From Stdlib Require Import SpecFloat.
From S2P Require Import Prelude.
Local Open Scope Z_scope.

(** ** Fixed-width integers *)
Definition int64_min : Z := - 2 ^ 63.
Definition int64_max : Z := 2 ^ 63 - 1.
Definition wrap64 (z : Z) : Z := (z + 2 ^ 63) mod 2 ^ 64 - 2 ^ 63.
Definition wrap32 (z : Z) : Z := (z + 2 ^ 31) mod 2 ^ 32 - 2 ^ 31.
Definition in_int64 (z : Z) : Prop := int64_min <= z <= int64_max.

#[export] Instance in_int64_dec z : Decision (in_int64 z).
Proof. unfold in_int64. apply _. Defined.

(** Go's [int] is 64 bits wide on the platforms the service is built for. *)
Definition int_add (a b : Z) : Z := wrap64 (a + b).
Definition int_sub (a b : Z) : Z := wrap64 (a - b).
Definition int_mul (a b : Z) : Z := wrap64 (a * b).

(** [time.Duration] is an [int64] number of nanoseconds. *)
Definition Millisecond : Z := 1000000.
Definition Second : Z := 1000000000.
Definition Minute : Z := 60 * Second.

(** ** float64 *)
Definition float64 : Type := spec_float.
Definition f_zero : float64 := S754_zero false.
Definition f_of_Z (z : Z) : float64 := binary_normalize 53 1024 z 0 false.
Definition f_add (x y : float64) : float64 := SFadd 53 1024 x y.
Definition f_sub (x y : float64) : float64 := SFsub 53 1024 x y.
Definition f_mul (x y : float64) : float64 := SFmul 53 1024 x y.
Definition f_div (x y : float64) : float64 := SFdiv 53 1024 x y.
Definition f_sqrt (x : float64) : float64 := SFsqrt 53 1024 x.
Definition f_eqb (x y : float64) : bool := SFeqb x y.
Definition f_ltb (x y : float64) : bool := SFltb x y.
Definition f_leb (x y : float64) : bool := SFleb x y.
Definition f_gtb (x y : float64) : bool := SFltb y x.
Definition is_finite (x : float64) : bool :=
  match x with S754_zero _ | S754_finite _ _ _ => true | _ => false end.
Definition is_nan (x : float64) : bool :=
  match x with S754_nan => true | _ => false end.

#[export] Instance float64_eq_dec : EqDecision spec_float.
Proof. unfold EqDecision, Decision. decide equality; solve [apply Z.eq_dec | apply Pos.eq_dec | apply bool_dec]. Defined.

(** [math.Min] and [math.Max], with their special cases in the order of the Go
    documentation. *)
Definition math_Max (x y : float64) : float64 :=
  match x, y with
  | S754_infinity false, _ | _, S754_infinity false => S754_infinity false
  | S754_nan, _ | _, S754_nan => S754_nan
  | S754_zero sx, S754_zero _ => if sx then y else x
  | _, _ => if f_gtb x y then x else y
  end.
Definition math_Min (x y : float64) : float64 :=
  match x, y with
  | S754_infinity true, _ | _, S754_infinity true => S754_infinity true
  | S754_nan, _ | _, S754_nan => S754_nan
  | S754_zero sx, S754_zero _ => if sx then x else y
  | _, _ => if f_ltb x y then x else y
  end.

(** The integer part of a finite float, truncated toward zero. *)
Definition f_trunc (x : float64) : Z :=
  match x with
  | S754_finite s m e =>
      let q := if 0 <=? e then Zpos m * 2 ^ e else Zpos m / 2 ^ (- e) in
      if s then - q else q
  | _ => 0
  end.
(** The conversion [int64(x)]. Its result for a NaN or a value out of range is
    implementation-defined; as on amd64 it is the minimal integer. *)
Definition int64_of_float (x : float64) : Z :=
  if is_finite x && (int64_min <=? f_trunc x) && (f_trunc x <=? int64_max)
  then f_trunc x else int64_min.

(** ** Lemmas on integers *)
Lemma wrap64_range z : in_int64 (wrap64 z).
Proof.
  unfold in_int64, int64_min, int64_max, wrap64.
  pose proof (Z.mod_pos_bound (z + 2 ^ 63) (2 ^ 64)). lia.
Qed.

Lemma wrap64_id z : in_int64 z -> wrap64 z = z.
Proof.
  unfold in_int64, int64_min, int64_max, wrap64. intros H.
  rewrite Z.mod_small; lia.
Qed.

Lemma wrap64_wrap64 z : wrap64 (wrap64 z) = wrap64 z.
Proof. apply wrap64_id, wrap64_range. Qed.

Lemma wrap32_range z : - 2 ^ 31 <= wrap32 z <= 2 ^ 31 - 1.
Proof. unfold wrap32. pose proof (Z.mod_pos_bound (z + 2 ^ 31) (2 ^ 32)). lia. Qed.

Lemma wrap32_id z : - 2 ^ 31 <= z <= 2 ^ 31 - 1 -> wrap32 z = z.
Proof. unfold wrap32. intros H. rewrite Z.mod_small; lia. Qed.

(** ** Lemmas on floats *)
Lemma f_ltb_irrefl x : f_ltb x x = false.
Proof.
  unfold f_ltb, SFltb. destruct x as [b|b| |b m e]; simpl; try done.
  - by destruct b.
  - rewrite Z.compare_refl. change (Pos.compare_cont Eq m m) with (Pos.compare m m).
    rewrite Pos.compare_refl. by destruct b.
Qed.

Lemma f_ltb_nan_l x : f_ltb S754_nan x = false.
Proof. by destruct x. Qed.

Lemma f_ltb_nan_r x : f_ltb x S754_nan = false.
Proof. by destruct x as [|[]| |]. Qed.

Lemma f_sub_diag x : is_finite x = true -> f_sub x x = S754_zero false.
Proof.
  unfold f_sub. destruct x as [b|b| |b m e]; try done; intros _; simpl.
  - by destruct b.
  - rewrite Z.min_id. rewrite Z.sub_diag. done.
Qed.

(** The order on finite floats is the order of sign, exponent and mantissa. *)
Lemma SFcompare_finite s1 m1 e1 s2 m2 e2 :
  SFcompare (S754_finite s1 m1 e1) (S754_finite s2 m2 e2) =
  Some (match s1, s2 with
        | true, false => Lt
        | false, true => Gt
        | true, true => match e1 ?= e2 with
                        | Lt => Gt | Gt => Lt | Eq => CompOpp (Pos.compare m1 m2) end
        | false, false => match e1 ?= e2 with
                          | Lt => Lt | Gt => Gt | Eq => Pos.compare m1 m2 end
        end).
Proof. by destruct s1, s2; simpl; try destruct (e1 ?= e2). Qed.

Lemma f_ltb_finite s1 m1 e1 s2 m2 e2 :
  f_ltb (S754_finite s1 m1 e1) (S754_finite s2 m2 e2) =
  match s1, s2 with
  | true, false => true
  | false, true => false
  | true, true => (e2 <? e1) || ((e1 =? e2) && (m2 <? m1)%positive)
  | false, false => (e1 <? e2) || ((e1 =? e2) && (m1 <? m2)%positive)
  end.
Proof.
  unfold f_ltb, SFltb. rewrite SFcompare_finite. destruct s1, s2; try done.
  - destruct (Z.compare_spec e1 e2) as [->|H|H].
    + rewrite Z.ltb_irrefl, Z.eqb_refl. simpl.
      destruct (Pos.compare_spec m1 m2), (Pos.ltb_spec m2 m1); simpl; try done; lia.
    + destruct (Z.ltb_spec e2 e1), (Z.eqb_spec e1 e2); simpl; try done; lia.
    + destruct (Z.ltb_spec e2 e1); simpl; [done|lia].
  - destruct (Z.compare_spec e1 e2) as [->|H|H].
    + rewrite Z.ltb_irrefl, Z.eqb_refl. simpl.
      destruct (Pos.compare_spec m1 m2), (Pos.ltb_spec m1 m2); simpl; try done; lia.
    + destruct (Z.ltb_spec e1 e2); simpl; [done|lia].
    + destruct (Z.ltb_spec e1 e2), (Z.eqb_spec e1 e2); simpl; try done; lia.
Qed.

Lemma f_ltb_trans x y z : f_ltb x y = true -> f_ltb y z = true -> f_ltb x z = true.
Proof.
  destruct x as [a|[]| |a m e], y as [b|[]| |b n f], z as [c|[]| |c p g];
    rewrite ?f_ltb_finite; try done; unfold f_ltb, SFltb; simpl;
    repeat match goal with b : bool |- _ => destruct b end; try done; rewrite ?f_ltb_finite;
    rewrite ?orb_true_iff, ?andb_true_iff, ?Z.ltb_lt, ?Z.eqb_eq, ?Pos.ltb_lt;
    intros [?|[? ?]] [?|[? ?]]; lia.
Qed.

Lemma f_ltb_asym x y : f_ltb x y = true -> f_ltb y x = false.
Proof.
  intros H. apply not_true_is_false. intros H'.
  assert (Hxx : f_ltb x x = true) by (by eapply f_ltb_trans). by rewrite f_ltb_irrefl in Hxx.
Qed.

#[export] Hint Resolve wrap64_range wrap64_id f_ltb_irrefl f_sub_diag : fleet.
#[export] Hint Rewrite wrap64_wrap64 f_ltb_irrefl f_ltb_nan_l f_ltb_nan_r : fleet_rw.
