(* ===== verification/Strconv.v ===== *)
(** * The parts of [strconv], [strings] and [fmt] the services use

    Integers in base 10 ([Atoi], [ParseInt(s, 10, 64)], [%d]), decimal floats
    ([ParseFloat(s, 64)] and the [%f] verb of [Sscanf]) and [strings.Split] on a
    one-character separator. Hexadecimal float literals are outside the scanner:
    neither Redis nor the services produce them. *)
From Stdlib Require Import Ascii SpecFloat Decimal DecimalString DecimalN DecimalZ DecimalFacts.
From S2P Require Import Prelude GoNum.
Local Open Scope Z_scope.

(** ** Integers *)

(** [%d], [strconv.Itoa], [strconv.FormatInt(z, 10)]. *)
Definition FormatInt (z : Z) : string := NilZero.string_of_int (Z.to_int z).

(** An optional sign, as accepted by [ParseInt] and [ParseFloat]. *)
Definition split_sign (s : string) : bool * string :=
  match s with
  | String a s' =>
      if (a =? "-")%char then (true, s')
      else if (a =? "+")%char then (false, s') else (false, s)
  | EmptyString => (false, s)
  end.

(** [strconv.ParseInt(s, 10, 64)]; [None] is a non-nil error. *)
Definition ParseInt (s : string) : option Z :=
  let '(neg, digits) := split_sign s in
  match NilZero.uint_of_string digits with
  | None => None
  | Some u =>
      let n := Z.of_N (N.of_uint u) in
      let z := if neg : bool then - n else n in
      if bool_decide (in_int64 z) then Some z else None
  end.

(** [strconv.Atoi] on a 64-bit platform. *)
Definition Atoi (s : string) : option Z := ParseInt s.

(** ** Floats *)
Definition digit_val (a : ascii) : option Z :=
  let n := Z.of_nat (nat_of_ascii a) - 48 in
  if (0 <=? n) && (n <=? 9) then Some n else None.

(** Reads a run of digits: the accumulated value, how many there were, the rest. *)
Fixpoint scan_digits (acc count : Z) (s : string) : Z * Z * string :=
  match s with
  | String a s' =>
      match digit_val a with
      | Some d => scan_digits (10 * acc + d) (count + 1) s'
      | None => (acc, count, s)
      end
  | EmptyString => (acc, count, s)
  end.

Definition lower (a : ascii) : ascii :=
  let n := nat_of_ascii a in
  if (65 <=? n)%nat && (n <=? 90)%nat then ascii_of_nat (n + 32) else a.
Fixpoint lower_string (s : string) : string :=
  match s with
  | String a s' => String (lower a) (lower_string s')
  | EmptyString => EmptyString
  end.

(** The binary64 nearest to [(-1)^neg * m * 10^e]. *)
Definition float_of_decimal (neg : bool) (m e : Z) : float64 :=
  match m with
  | Zpos p =>
      if 0 <=? e then binary_normalize 53 1024 (if neg then - (m * 10 ^ e) else m * 10 ^ e) 0 neg
      else let '(q, e', l) := SFdiv_core_binary 53 1024 m 0 (10 ^ (- e)) 0 in
           binary_round_aux 53 1024 neg q e' l
  | _ => S754_zero neg
  end.

(** The exponent part [e[+-]digits]; [None] when malformed. The exponent is cut
    at 10000 as in Go's reader. *)
Definition scan_exponent (s : string) : option (Z * string) :=
  match s with
  | String a s' =>
      if (lower a =? "e")%char then
        let '(neg, ds) := split_sign s' in
        let '(v, n, rest) := scan_digits 0 0 ds in
        if n =? 0 then None
        else Some ((if neg : bool then - Z.min v 10000 else Z.min v 10000), rest)
      else Some (0, s)
  | EmptyString => Some (0, s)
  end.

(** A decimal float literal without its sign: mantissa, decimal exponent, rest. *)
Definition scan_decimal (s : string) : option (Z * Z * string) :=
  let '(ip, ni, r1) := scan_digits 0 0 s in
  let '(m, nf, r2) :=
    match r1 with
    | String a r => if (a =? ".")%char then scan_digits ip 0 r else (ip, 0, r1)
    | EmptyString => (ip, 0, r1)
    end in
  if ni + nf =? 0 then None
  else match scan_exponent r2 with
       | Some (e, r3) => Some (m, e - nf, r3)
       | None => None
       end.

(** [strconv.ParseFloat(s, 64)]: the float and whether the error is nil. A syntax
    error gives 0, an out-of-range value gives an infinity. *)
Definition ParseFloat (s : string) : float64 * bool :=
  let '(neg, body) := split_sign s in
  if bool_decide (lower_string s = "nan"%string) then (S754_nan, true)
  else if bool_decide (lower_string body = "inf"%string \/ lower_string body = "infinity"%string)
  then (S754_infinity neg, true)
  else match scan_decimal body with
       | Some (m, e, EmptyString) =>
           let f := float_of_decimal neg m e in (f, is_finite f)
       | _ => (f_zero, false)
       end.

(** The longest prefix the [%f] verb of [fmt.Sscanf] reads as a number: it
    differs from [ParseFloat] in ignoring what follows the number. Any error
    leaves the target at its zero value. *)
Fixpoint skip_spaces (s : string) : string :=
  match s with
  | String a s' => if (a =? " ")%char then skip_spaces s' else s
  | EmptyString => s
  end.
Definition Sscanf_f (s : string) : float64 :=
  let s := skip_spaces s in
  let '(neg, body) := split_sign s in
  let l := lower_string body in
  if String.prefix "nan" (lower_string s) then S754_nan
  else if String.prefix "inf" l then S754_infinity neg
  else match scan_decimal body with
       | Some (m, e, _) =>
           let f := float_of_decimal neg m e in if is_finite f then f else f_zero
       | None => f_zero
       end.

(** ** [strings.Split(s, sep)] for a separator of one character *)
Fixpoint Split (sep : ascii) (s : string) : list string :=
  match s with
  | EmptyString => [""%string]
  | String a s' =>
      if (a =? sep)%char then ""%string :: Split sep s'
      else match Split sep s' with
           | w :: ws => String a w :: ws
           | [] => [String a ""]
           end
  end.
Fixpoint Join (sep : ascii) (l : list string) : string :=
  match l with
  | [] => ""
  | [w] => w
  | w :: ws => (w ++ String sep (Join sep ws))%string
  end.
Fixpoint char_in (c : ascii) (s : string) : bool :=
  match s with
  | EmptyString => false
  | String a s' => (a =? c)%char || char_in c s'
  end.

(** ** Tests *)
Example Atoi_test : (Atoi "42", Atoi "-7", Atoi "+7", Atoi "bad", Atoi "", Atoi "-",
  Atoi "9223372036854775807", Atoi "9223372036854775808")
  = (Some 42, Some (-7), Some 7, None, None, None, Some int64_max, None).
Proof. vm_compute. reflexivity. Qed.

Example ParseFloat_test :
  (ParseFloat "42.5", ParseFloat "100", ParseFloat "1e2", ParseFloat "x", ParseFloat "-.5e1")
  = ((f_div (f_of_Z 85) (f_of_Z 2), true), (f_of_Z 100, true), (f_of_Z 100, true),
     (f_zero, false), (f_of_Z (-5), true)).
Proof. vm_compute. reflexivity. Qed.

Example Sscanf_test : (Sscanf_f "12.5", Sscanf_f " 3kg", Sscanf_f "", Sscanf_f "kg")
  = (f_div (f_of_Z 25) (f_of_Z 2), f_of_Z 3, f_zero, f_zero).
Proof. vm_compute. reflexivity. Qed.

Example Split_test : Split "," "" = [""%string] /\ Split "," "a,,b" = ["a"; ""; "b"]%string.
Proof. split; reflexivity. Qed.

(** ** Lemmas *)

(** No decimal rendering starts with a plus sign or, for a natural, a minus. *)
Lemma split_sign_digits u :
  split_sign (NilZero.string_of_uint u) = (false, NilZero.string_of_uint u).
Proof. by destruct u. Qed.

Lemma uint_of_string_of_N n :
  NilZero.uint_of_string (NilZero.string_of_uint (N.to_uint n)) = Some (N.to_uint n).
Proof.
  apply NilZero.usu.
  destruct n as [|p]; [done|]. apply DecimalPos.Unsigned.to_uint_nonnil.
Qed.

Lemma FormatInt_N n : FormatInt (Z.of_N n) = NilZero.string_of_uint (N.to_uint n).
Proof. by destruct n. Qed.

(** Parsing what was printed gives the integer back. *)
Lemma ParseInt_FormatInt z : in_int64 z -> ParseInt (FormatInt z) = Some z.
Proof.
  intros Hz. destruct (Z.lt_ge_cases z 0) as [Hneg|Hpos].
  - destruct z as [|p|p]; try lia. unfold FormatInt, ParseInt. simpl.
    change (Pos.to_uint p) with (N.to_uint (Npos p)).
    rewrite uint_of_string_of_N, DecimalN.Unsigned.of_to. simpl.
    by rewrite bool_decide_true.
  - rewrite <- (Z2N.id z) in Hz |- * by done. rewrite FormatInt_N. unfold ParseInt.
    rewrite split_sign_digits, uint_of_string_of_N, DecimalN.Unsigned.of_to.
    by rewrite bool_decide_true.
Qed.

Lemma ParseInt_range s z : ParseInt s = Some z -> in_int64 z.
Proof.
  unfold ParseInt. destruct (split_sign s) as [neg ds].
  destruct (NilZero.uint_of_string ds); [|done]. case_bool_decide; [|done].
  by intros [= <-].
Qed.

Lemma Split_nonempty sep s : Split sep s <> [].
Proof. destruct s as [|a s]; simpl; split_match; done. Qed.

(** [Split] undoes [Join], and its segments contain no separator. *)
Lemma Join_Split sep s : Join sep (Split sep s) = s.
Proof.
  induction s as [|a s IH]; [done|]. simpl.
  destruct (Ascii.eqb_spec a sep) as [->|Hne].
  - pose proof (Split_nonempty sep s).
    destruct (Split sep s) as [|w ws]; [done|].
    change (String sep (Join sep (w :: ws)) = String sep s). by rewrite IH.
  - pose proof (Split_nonempty sep s).
    destruct (Split sep s) as [|w [|w' ws]]; [done| |]; rewrite <- IH; reflexivity.
Qed.

Lemma Split_segments sep s w : w ∈ Split sep s -> char_in sep w = false.
Proof.
  revert w. induction s as [|a s IH]; intros w; simpl.
  - intros ->%list_elem_of_singleton. done.
  - destruct (Ascii.eqb_spec a sep) as [->|Hne].
    + intros [->|Hw]%elem_of_cons; [done|auto].
    + destruct (Split sep s) as [|v ws]; intros [->|Hw]%elem_of_cons; simpl.
      * rewrite (proj2 (Ascii.eqb_neq _ _) Hne). done.
      * by apply elem_of_nil in Hw.
      * rewrite (proj2 (Ascii.eqb_neq _ _) Hne). apply IH. by left.
      * apply IH. by right.
Qed.

#[export] Hint Resolve ParseInt_FormatInt ParseInt_range : fleet.
