(* ===== verification/Redis.v ===== *)
(** * The Redis service, as the two programs rely on it

    Redis and its client are not part of the repository: they are a parameter.
    [RedisServer R] is the client interface on server states [R], [RedisLaws]
    states the documented behaviour of the commands the source issues
    (https://redis.io/commands), in terms of the observable contents [rstate] of
    a server. [MemRedis] is a lawful in-memory instance used by the witnesses; it
    follows a schedule of outages, so that error paths can be evaluated too.

    Times are server times in nanoseconds; a key with an expiry is present at [t]
    when [t] is before it. *)
From S2P Require Import Prelude GoNum.
Local Open Scope Z_scope.

(** The state of a [context.Context]: go-redis and pgx refuse to start a command
    on a context that is done. *)
Inductive context := Live | Cancelled.

Inductive rval := RStr (s : string) | RHash (h : gmap string string).
Record rstate := MkRstate {
  rs_kv : gmap string (rval * option Z);
  rs_pub : list (string * string)    (* messages published so far, in order *)
}.

Inductive rcmd :=
| GET (k : string)
| SET (k v : string) (ttl : Z)                  (* ttl 0: no expiry *)
| SETNX (k v : string) (ttl : Z)
| DEL (k : string)
| HGET (k f : string)
| HMGET (k : string) (fs : list string)
| HGETALL (k : string)
| HSET (k : string) (fields : list (string * string))
| EXPIRE (k : string) (ttl : Z)
| PUBLISH (ch payload : string).

Inductive reply :=
| RpOK
| RpNil
| RpStr (s : string)
| RpBool (b : bool)
| RpList (l : list (option string))
| RpMap (m : gmap string string).

(** ** Documented command behaviour *)
Definition live (t : Z) (k : string) (st : rstate) : option rval :=
  match rs_kv st !! k with
  | Some (v, None) => Some v
  | Some (v, Some e) => if t <? e then Some v else None
  | None => None
  end.
Definition put (k : string) (v : rval) (e : option Z) (st : rstate) : rstate :=
  MkRstate (<[k := (v, e)]> (rs_kv st)) (rs_pub st).
Definition expiry (t ttl : Z) : option Z := if ttl =? 0 then None else Some (t + ttl).
Definition hmerge (fields : list (string * string)) (h : gmap string string)
  : gmap string string := foldl (fun h p => <[p.1 := p.2]> h) h fields.

(** [None] is the WRONGTYPE error, which has no effect. *)
Definition cmd_sem (t : Z) (c : rcmd) (st : rstate) : option (reply * rstate) :=
  match c with
  | GET k => match live t k st with
             | Some (RStr s) => Some (RpStr s, st)
             | Some (RHash _) => None
             | None => Some (RpNil, st)
             end
  | SET k v ttl => Some (RpOK, put k (RStr v) (expiry t ttl) st)
  | SETNX k v ttl => match live t k st with
                     | Some _ => Some (RpBool false, st)
                     | None => Some (RpBool true, put k (RStr v) (expiry t ttl) st)
                     end
  | DEL k => Some (RpOK, MkRstate (delete k (rs_kv st)) (rs_pub st))
  | HGET k f => match live t k st with
                | Some (RHash h) =>
                    Some (match h !! f with Some s => RpStr s | None => RpNil end, st)
                | Some (RStr _) => None
                | None => Some (RpNil, st)
                end
  | HMGET k fs => match live t k st with
                  | Some (RHash h) => Some (RpList (map (fun f => h !! f) fs), st)
                  | Some (RStr _) => None
                  | None => Some (RpList (map (fun _ => None) fs), st)
                  end
  | HGETALL k => match live t k st with
                 | Some (RHash h) => Some (RpMap h, st)
                 | Some (RStr _) => None
                 | None => Some (RpMap ∅, st)
                 end
  | HSET k fields =>
      match live t k st, rs_kv st !! k with
      | Some (RHash h), Some (_, e) => Some (RpOK, put k (RHash (hmerge fields h)) e st)
      | Some (RStr _), _ => None
      | _, _ => Some (RpOK, put k (RHash (hmerge fields ∅)) None st)
      end
  | EXPIRE k ttl => match live t k st with
                    | Some v => Some (RpBool true, put k v (Some (t + ttl)) st)
                    | None => Some (RpBool false, st)
                    end
  | PUBLISH ch m => Some (RpOK, MkRstate (rs_kv st) (rs_pub st ++ [(ch, m)]))
  end.

(** A pipeline: commands run in order, one that fails has no effect. *)
Definition run_cmds (t : Z) (cs : list rcmd) (st : rstate) : rstate :=
  foldl (fun st c => match cmd_sem t c st with Some (_, st') => st' | None => st end) st cs.

(** ** The client interface and its laws *)
Class RedisServer (R : Type) := {
  contents : R -> rstate;
  redis_do : context -> Z -> rcmd -> R -> res reply * R;
  redis_exec : context -> Z -> list rcmd -> R -> res unit * R
}.

Class RedisLaws (R : Type) `{RedisServer R} : Prop := {
  redis_do_ok : forall cx t c r rep r',
    redis_do cx t c r = (Ok rep, r') ->
    cmd_sem t c (contents r) = Some (rep, contents r');
  redis_do_err : forall cx t c r e r',
    redis_do cx t c r = (Err e, r') ->
    contents r' = contents r \/
    exists rep, cmd_sem t c (contents r) = Some (rep, contents r');
  redis_exec_ok : forall cx t cs r r',
    redis_exec cx t cs r = (Ok tt, r') -> contents r' = run_cmds t cs (contents r);
  redis_exec_err : forall cx t cs r e r',
    redis_exec cx t cs r = (Err e, r') ->
    exists cs', cs' `prefix_of` cs /\ contents r' = run_cmds t cs' (contents r);
  redis_do_cancelled : forall t c r,
    is_ok (redis_do Cancelled t c r).1 = false /\
    contents (redis_do Cancelled t c r).2 = contents r;
  redis_exec_cancelled : forall t cs r,
    is_ok (redis_exec Cancelled t cs r).1 = false /\
    contents (redis_exec Cancelled t cs r).2 = contents r
}.

(** ** Typed calls, as go-redis offers them *)
Section Client.
Context {R : Type} `{RedisServer R}.

Definition unexpected {A} : res A := Err "unexpected reply".
(** [redis.Nil] is the reply [Ok None]. *)
Definition redis_get (cx : context) (t : Z) (k : string) (r : R) : res (option string) * R :=
  match redis_do cx t (GET k) r with
  | (Ok (RpStr s), r') => (Ok (Some s), r')
  | (Ok RpNil, r') => (Ok None, r')
  | (Ok _, r') => (unexpected, r')
  | (Err e, r') => (Err e, r')
  end.
Definition redis_hget (cx : context) (t : Z) (k f : string) (r : R)
  : res (option string) * R :=
  match redis_do cx t (HGET k f) r with
  | (Ok (RpStr s), r') => (Ok (Some s), r')
  | (Ok RpNil, r') => (Ok None, r')
  | (Ok _, r') => (unexpected, r')
  | (Err e, r') => (Err e, r')
  end.
Definition redis_hmget (cx : context) (t : Z) (k : string) (fs : list string) (r : R)
  : res (list (option string)) * R :=
  match redis_do cx t (HMGET k fs) r with
  | (Ok (RpList l), r') => (Ok l, r')
  | (Ok _, r') => (unexpected, r')
  | (Err e, r') => (Err e, r')
  end.
Definition redis_hgetall (cx : context) (t : Z) (k : string) (r : R)
  : res (gmap string string) * R :=
  match redis_do cx t (HGETALL k) r with
  | (Ok (RpMap m), r') => (Ok m, r')
  | (Ok _, r') => (unexpected, r')
  | (Err e, r') => (Err e, r')
  end.
Definition redis_setnx (cx : context) (t : Z) (k v : string) (ttl : Z) (r : R)
  : res bool * R :=
  match redis_do cx t (SETNX k v ttl) r with
  | (Ok (RpBool b), r') => (Ok b, r')
  | (Ok _, r') => (unexpected, r')
  | (Err e, r') => (Err e, r')
  end.
Definition redis_unit (cx : context) (t : Z) (c : rcmd) (r : R) : res unit * R :=
  match redis_do cx t c r with
  | (Ok _, r') => (Ok tt, r')
  | (Err e, r') => (Err e, r')
  end.
End Client.

(** ** An in-memory instance *)
Record MemRedis := MkMemRedis {
  mem : rstate;
  outages : list bool     (* [true]: the next command fails without being executed *)
}.
Definition mem_outage (r : MemRedis) : bool := default false (head (outages r)).

#[export] Instance MemRedis_server : RedisServer MemRedis := {|
  contents := mem;
  redis_do := fun cx t c r =>
    match cx with
    | Cancelled => (Err "context canceled", r)
    | Live =>
        let rest := tail (outages r) in
        if mem_outage r then (Err "connection refused", MkMemRedis (mem r) rest)
        else match cmd_sem t c (mem r) with
             | Some (rep, st') => (Ok rep, MkMemRedis st' rest)
             | None => (Err "WRONGTYPE", MkMemRedis (mem r) rest)
             end
    end;
  redis_exec := fun cx t cs r =>
    match cx with
    | Cancelled => (Err "context canceled", r)
    | Live =>
        let rest := tail (outages r) in
        if mem_outage r then (Err "connection refused", MkMemRedis (mem r) rest)
        else (Ok tt, MkMemRedis (run_cmds t cs (mem r)) rest)
    end
|}.

#[export] Instance MemRedis_laws : RedisLaws MemRedis.
Proof.
  split.
  - intros [] t c r rep r' H; simpl in H; [|done]. split_match_in H. done.
  - intros [] t c r e r' H; simpl in *; left; [|by simplify_eq].
    destruct (mem_outage r); [by simplify_eq|].
    destruct (cmd_sem t c (mem r)) as [[]|]; by simplify_eq.
  - intros [] t cs r r' H; simpl in H; [|done]. split_match_in H. done.
  - intros cx t cs r e r' H. exists []. split; [apply prefix_nil|].
    destruct cx; simpl in *; [destruct (mem_outage r)|]; by simplify_eq.
  - done.
  - done.
Qed.

Definition empty_redis : MemRedis := MkMemRedis (MkRstate ∅ []) [].

(** ** What the typed calls promise *)
Section Laws.
Context {R : Type} `{RedisLaws R}.

Lemma redis_get_ok cx t k r v r' :
  redis_get cx t k r = (Ok v, r') ->
  contents r' = contents r /\
  (live t k (contents r)) = RStr <$> v.
Proof.
  unfold redis_get. destruct (redis_do cx t (GET k) r) as [[rep|e] r1] eqn:E; [|done].
  apply redis_do_ok in E. simpl in E. intros Heq.
  destruct (live t k (contents r)) as [[s|h]|]; by simplify_eq.
Qed.

Lemma redis_read_contents cx t c r :
  (forall st rep st', cmd_sem t c st = Some (rep, st') -> st' = st) ->
  contents (redis_do cx t c r).2 = contents r.
Proof.
  intros Hc. destruct (redis_do cx t c r) as [[rep|e] r1] eqn:E.
  - apply redis_do_ok in E. by apply Hc in E.
  - apply redis_do_err in E as [E|[rep E]]; [done|]. by apply Hc in E.
Qed.

Lemma redis_get_contents cx t k r : contents (redis_get cx t k r).2 = contents r.
Proof.
  rewrite <- (redis_read_contents cx t (GET k) r).
  - unfold redis_get. by destruct (redis_do cx t (GET k) r) as [[[]|] r1].
  - intros st rep st' Hs. simpl in Hs. repeat case_match; by simplify_eq/=.
Qed.

Lemma redis_hmget_contents cx t k fs r : contents (redis_hmget cx t k fs r).2 = contents r.
Proof.
  rewrite <- (redis_read_contents cx t (HMGET k fs) r).
  - unfold redis_hmget. by destruct (redis_do cx t (HMGET k fs) r) as [[[]|] r1].
  - intros st rep st' Hs. simpl in Hs. repeat case_match; by simplify_eq/=.
Qed.

Lemma redis_hgetall_contents cx t k r : contents (redis_hgetall cx t k r).2 = contents r.
Proof.
  rewrite <- (redis_read_contents cx t (HGETALL k) r).
  - unfold redis_hgetall. by destruct (redis_do cx t (HGETALL k) r) as [[[]|] r1].
  - intros st rep st' Hs. simpl in Hs. repeat case_match; by simplify_eq/=.
Qed.

Lemma redis_hget_ok cx t k f r v r' :
  redis_hget cx t k f r = (Ok v, r') ->
  contents r' = contents r /\
  match live t k (contents r) with
  | Some (RHash h) => v = h !! f
  | None => v = None
  | Some (RStr _) => False
  end.
Proof.
  unfold redis_hget. destruct (redis_do cx t (HGET k f) r) as [[rep|e] r1] eqn:E; [|done].
  apply redis_do_ok in E. simpl in E. intros Heq.
  repeat case_match; by simplify_eq/=.
Qed.

Lemma redis_hmget_ok cx t k fs r l r' :
  redis_hmget cx t k fs r = (Ok l, r') ->
  contents r' = contents r /\
  match live t k (contents r) with
  | Some (RHash h) => l = map (fun f => h !! f) fs
  | None => l = map (fun _ => None) fs
  | Some (RStr _) => False
  end.
Proof.
  unfold redis_hmget. destruct (redis_do cx t (HMGET k fs) r) as [[rep|e] r1] eqn:E; [|done].
  apply redis_do_ok in E. simpl in E. intros Heq.
  repeat case_match; by simplify_eq/=.
Qed.

Lemma redis_setnx_ok cx t k v ttl r b r' :
  redis_setnx cx t k v ttl r = (Ok b, r') ->
  (b = true /\ live t k (contents r) = None /\
   contents r' = put k (RStr v) (expiry t ttl) (contents r)) \/
  (b = false /\ is_Some (live t k (contents r)) /\ contents r' = contents r).
Proof.
  unfold redis_setnx. destruct (redis_do cx t (SETNX k v ttl) r) as [[rep|e] r1] eqn:E; [|done].
  apply redis_do_ok in E. simpl in E. intros Heq.
  destruct (live t k (contents r)) eqn:Hl; simplify_eq.
  - right. split_and!; [done|eauto|done].
  - left. done.
Qed.

Lemma redis_unit_ok cx t c r r' :
  redis_unit cx t c r = (Ok tt, r') ->
  exists rep, cmd_sem t c (contents r) = Some (rep, contents r').
Proof.
  unfold redis_unit. destruct (redis_do cx t c r) as [[rep|e] r1] eqn:E; [|done].
  intros [= <-]. exists rep. by apply redis_do_ok in E.
Qed.
End Laws.

(** ** Contents lemmas *)
Lemma live_put_eq t k v e st :
  live t k (put k v e st) = match e with
                            | None => Some v
                            | Some e => if t <? e then Some v else None
                            end.
Proof. unfold live, put; simpl. rewrite lookup_insert_eq. done. Qed.

Lemma live_put_ne t k k' v e st : k <> k' -> live t k' (put k v e st) = live t k' st.
Proof. intros Hne. unfold live, put; simpl. by rewrite lookup_insert_ne. Qed.

Lemma live_delete_eq t k st p : live t k (MkRstate (delete k (rs_kv st)) p) = None.
Proof. unfold live; simpl. by rewrite lookup_delete_eq. Qed.

Lemma live_delete_ne t k k' st p :
  k <> k' -> live t k' (MkRstate (delete k (rs_kv st)) p) = live t k' st.
Proof. intros Hne. unfold live; simpl. by rewrite lookup_delete_ne. Qed.

(** A key that is gone stays gone until a command writes it. *)
Lemma live_mono t t' k st : t <= t' -> live t k st = None -> live t' k st = None.
Proof.
  unfold live. intros Ht. destruct (rs_kv st !! k) as [[v [e|]]|]; [|done|done].
  destruct (Z.ltb_spec t e); [done|]. destruct (Z.ltb_spec t' e); [lia|done].
Qed.

#[export] Hint Resolve live_mono redis_get_contents : fleet.
#[export] Hint Rewrite live_put_eq live_delete_eq : fleet_rw.
