(* ===== verification/Json.v ===== *)
(** * JSON values and the text [encoding/json] writes for them

    A number is kept as its literal, as the decoder sees it. Strings are byte
    sequences assumed to be valid UTF-8. Also here: the shortest float rendering
    of [strconv.FormatFloat(x, 'f', -1, 64)], which go-redis uses for the fields
    of a hash, and the variant of it used by [encoding/json]. *)
From Stdlib Require Import Ascii SpecFloat DecimalString.
From S2P Require Import Prelude GoNum Strconv.
Local Open Scope Z_scope.

#[warnings="-register-all"]
Inductive json :=
| JNull
| JBool (b : bool)
| JNum (lit : string)
| JStr (s : string)
| JArr (l : list json)
| JObj (fields : list (string * json)).

(** ** Shortest decimal rendering of a float *)

(** The number of decimal digits of a positive integer. *)
Definition decimal_digits (z : Z) : Z := Z.of_nat (String.length (FormatInt z)).

(** The decimal exponent [k] of [x = m * 2^e], with [10^(k-1) <= x < 10^k]. *)
Definition decimal_exponent (m e : Z) : Z :=
  if 0 <=? e then decimal_digits (m * 2 ^ e)
  else decimal_digits (m * 10 ^ 400 / 2 ^ (- e)) - 400.

Definition round_half_even (num den : Z) : Z :=
  let q := num / den in
  let r := num mod den in
  if 2 * r <? den then q
  else if den <? 2 * r then q + 1
  else if Z.even q then q else q + 1.

(** [x = m * 2^e] rounded to [n] significant digits, [d * 10^(k-n)]; a carry to the
    next power of ten is renormalised. *)
Definition round_digits (m e k n : Z) : Z * Z :=
  let ex := k - n in
  let num := m * (if 0 <=? e then 2 ^ e else 1) * (if ex <=? 0 then 10 ^ (- ex) else 1) in
  let den := (if 0 <=? e then 1 else 2 ^ (- e)) * (if ex <=? 0 then 1 else 10 ^ ex) in
  let d := round_half_even num den in
  if d =? 10 ^ n then (d / 10, ex + 1) else (d, ex).

(** The first precision whose rounding reads back as the same float; 17 digits
    always do. *)
Fixpoint shortest_from (fuel : nat) (m : positive) (e k n : Z) : Z * Z :=
  let '(d, ex) := round_digits (Zpos m) e k n in
  match fuel with
  | O => (d, ex)
  | S fuel' =>
      if bool_decide (float_of_decimal false d ex = S754_finite false m e) then (d, ex)
      else shortest_from fuel' m e k (n + 1)
  end.
Definition shortest (m : positive) (e : Z) : Z * Z :=
  shortest_from 16 m e (decimal_exponent (Zpos m) e) 1.

Fixpoint zeros (n : nat) : string :=
  match n with O => "" | S n' => String "0" (zeros n') end.

(** The decimal [d * 10^ex] without an exponent. *)
Definition place_point (d ex : Z) : string :=
  let s := FormatInt d in
  let n := Z.of_nat (String.length s) in
  if 0 <=? ex then (s ++ zeros (Z.to_nat ex))%string
  else let ip := n + ex in
       if 0 <? ip
       then (String.substring 0 (Z.to_nat ip) s ++ "." ++ String.substring (Z.to_nat ip) (Z.to_nat (- ex)) s)%string
       else ("0." ++ zeros (Z.to_nat (- ip)) ++ s)%string.

(** [strconv.FormatFloat(x, 'f', -1, 64)]. *)
Definition FormatFloat (x : float64) : string :=
  match x with
  | S754_zero s => if s then "-0" else "0"
  | S754_infinity s => if s then "-Inf" else "+Inf"
  | S754_nan => "NaN"
  | S754_finite s m e =>
      let '(d, ex) := shortest m e in
      ((if s then "-" else "") ++ place_point d ex)%string
  end.

(** The number [encoding/json] writes: as above, but with an exponent when the
    magnitude is below 1e-6 or at least 1e21. *)
Definition json_exponent (d ex : Z) : string :=
  let s := FormatInt d in
  let n := Z.of_nat (String.length s) in
  let x := ex + n - 1 in
  let frac := if 1 <? n then ("." ++ String.substring 1 (Z.to_nat (n - 1)) s)%string else ""%string in
  let sign := if x <? 0 then "-"%string else "+"%string in
  (String.substring 0 1 s ++ frac ++ "e" ++ sign ++ FormatInt (Z.abs x))%string.
Definition json_float (x : float64) : string :=
  match x with
  | S754_finite s m e =>
      let '(d, ex) := shortest m e in
      let k := ex + decimal_digits d in
      if (k <? -5) || (21 <? k)
      then ((if s then "-" else "") ++ json_exponent d ex)%string
      else FormatFloat x
  | _ => FormatFloat x
  end.

(** ** Marshalling *)
Definition hex_digit (n : nat) : ascii :=
  if (n <? 10)%nat then ascii_of_nat (48 + n) else ascii_of_nat (87 + n).
Definition escape_char (a : ascii) : string :=
  let n := nat_of_ascii a in
  if (n =? 34)%nat then String "092" (String a "")
  else if (n =? 92)%nat then String a (String a "")
  else if (n =? 8)%nat then "\b" else if (n =? 12)%nat then "\f"
  else if (n =? 10)%nat then "\n" else if (n =? 13)%nat then "\r"
  else if (n =? 9)%nat then "\t"
  else if (n <? 32)%nat || (n =? 60)%nat || (n =? 62)%nat || (n =? 38)%nat
  then ("\u00" ++ String (hex_digit (n / 16)) (String (hex_digit (n mod 16)) ""))%string
  else String a "".
(** U+2028 and U+2029, in UTF-8, with their last digit. *)
Definition line_separator (a b c : ascii) : option ascii :=
  if (a =? "226")%char && (b =? "128")%char
  then if (c =? "168")%char then Some "8"%char
       else if (c =? "169")%char then Some "9"%char else None
  else None.
Fixpoint escape (s : string) : string :=
  match s with
  | EmptyString => ""
  | String a s' =>
      match s' with
      | String b (String c s'') =>
          match line_separator a b c with
          | Some x => ("\u202" ++ String x (escape s''))%string
          | None => (escape_char a ++ escape s')%string
          end
      | _ => (escape_char a ++ escape s')%string
      end
  end.
Definition quote (s : string) : string :=
  (String "034" (escape s) ++ String "034" "")%string.

Fixpoint concat_sep (sep : string) (l : list string) : string :=
  match l with
  | [] => ""
  | [x] => x
  | x :: l' => (x ++ sep ++ concat_sep sep l')%string
  end.
Fixpoint Marshal (v : json) : string :=
  match v with
  | JNull => "null"
  | JBool b => if b then "true" else "false"
  | JNum lit => lit
  | JStr s => quote s
  | JArr l => ("[" ++ concat_sep "," (map Marshal l) ++ "]")%string
  | JObj fs =>
      ("{" ++ concat_sep "," (map (fun p => quote p.1 ++ ":" ++ Marshal p.2)%string fs)
           ++ "}")%string
  end.

(** Marshalling fails on a float that is not finite. *)
Definition not_finite : list string := ["NaN"; "+Inf"; "-Inf"]%string.
Fixpoint json_ok (v : json) : bool :=
  match v with
  | JNum lit => negb (bool_decide (lit ∈ not_finite))
  | JArr l => forallb json_ok l
  | JObj fs => forallb (fun p => json_ok p.2) fs
  | _ => true
  end.

(** A Go map is marshalled with its keys in increasing order. *)
Fixpoint insert_key (p : string * json) (l : list (string * json)) : list (string * json) :=
  match l with
  | [] => [p]
  | q :: l' => if String.leb p.1 q.1 then p :: l else q :: insert_key p l'
  end.
Definition json_map (fields : list (string * json)) : json :=
  JObj (foldr insert_key [] fields).
Definition jint (z : Z) : json := JNum (FormatInt z).
Definition jfloat (x : float64) : json := JNum (json_float x).
Definition jopt {A} (f : A -> json) (o : option A) : json :=
  match o with Some a => f a | None => JNull end.

(** A field lookup in an object. *)
Fixpoint jfield (k : string) (fs : list (string * json)) : option json :=
  match fs with
  | [] => None
  | (k', v) :: fs' => if bool_decide (k = k') then Some v else jfield k fs'
  end.

Example FormatFloat_test :
  map FormatFloat [f_div (f_of_Z 85) (f_of_Z 2); f_of_Z (-120); f_div (f_of_Z 1) (f_of_Z 10);
                   f_div (f_of_Z 129716) (f_of_Z 10000); f_of_Z (2 ^ 70); f_zero;
                   f_div (f_of_Z 1) (f_of_Z 3)]
  = ["42.5"; "-120"; "0.1"; "12.9716"; "1180591620717411300000"; "0";
     "0.3333333333333333"]%string.
Proof. vm_compute. reflexivity. Qed.

Example json_float_test :
  map json_float [f_of_Z (2 ^ 70); f_div (f_of_Z 1) (f_of_Z 10000000); f_of_Z 42]
  = ["1.1805916207174113e+21"; "1e-7"; "42"]%string.
Proof. vm_compute. reflexivity. Qed.

Example Marshal_test :
  Marshal (json_map [("lat", jfloat (f_of_Z 12)); ("id", JStr "a<b")])
  = String.concat "" ["{"; quote "id"; ":"; String "034" "a\u003cb"; String "034" ",";
                      quote "lat"; ":12}"].
Proof. vm_compute. reflexivity. Qed.

(** [json_map] only reorders the fields. *)
Lemma insert_key_perm p l : insert_key p l ≡ₚ p :: l.
Proof.
  induction l as [|q l IH]; simpl; [done|]. destruct (String.leb p.1 q.1); [done|].
  rewrite IH. apply Permutation_swap.
Qed.

Lemma json_map_perm fields : exists fs, json_map fields = JObj fs /\ fs ≡ₚ fields.
Proof.
  eexists. split; [done|]. induction fields as [|p l IH]; simpl; [done|].
  by rewrite insert_key_perm, IH.
Qed.
