(* ===== verification/JsonParse.v ===== *)
(** * JSON texts: what [json.Unmarshal] reads

    The grammar of [encoding/json]: white space, literals, numbers kept as they are
    written, strings with their escapes, arrays and objects with their fields in order,
    nested 10000 deep at most. As in [Json], strings are taken to be valid UTF-8. What is
    proved is that the fuel is always enough and that a text [Marshal] wrote is read back. *)
From Stdlib Require Import Ascii SpecFloat Decimal DecimalString DecimalN DecimalPos DecimalZ.
From S2P Require Import Prelude GoNum Strconv Json.
Local Open Scope string_scope.
Local Open Scope nat_scope.

(** ** The reader *)
Fixpoint skip_ws (s : string) : string :=
  match s with
  | String a s' =>
      if (a =? " ")%char || (a =? "009")%char || (a =? "010")%char || (a =? "013")%char
      then skip_ws s' else s
  | EmptyString => s
  end.
(** A word at the front of the input, and what follows it. *)
Fixpoint strip (word s : string) : option string :=
  match word, s with
  | EmptyString, _ => Some s
  | String a w, String b s' => if (a =? b)%char then strip w s' else None
  | String _ _, EmptyString => None
  end.

(** *** Numbers *)
Definition is_digit (a : ascii) : bool := (48 <=? nat_of_ascii a) && (nat_of_ascii a <=? 57).
Fixpoint take_digits (s : string) : string * string :=
  match s with
  | String a s' =>
      if is_digit a then let '(ds, r) := take_digits s' in (String a ds, r) else ("", s)
  | EmptyString => ("", s)
  end.
(** A sign of those allowed, if there is one. *)
Definition take_sign (plus : bool) (s : string) : string * string :=
  match s with
  | String a s' =>
      if (a =? "-")%char || (plus && (a =? "+")%char) then (String a "", s') else ("", s)
  | EmptyString => ("", s)
  end.
Definition take_integer (s : string) : option (string * string) :=
  match s with
  | String a s' =>
      if (a =? "0")%char then Some ("0", s')
      else if is_digit a then let '(ds, r) := take_digits s' in Some (String a ds, r) else None
  | EmptyString => None
  end.
Definition take_fraction (s : string) : option (string * string) :=
  match s with
  | String a s' =>
      if (a =? ".")%char
      then match take_digits s' with (EmptyString, _) => None | (ds, r) => Some (String a ds, r) end
      else Some ("", s)
  | EmptyString => Some ("", s)
  end.
Definition take_exponent (s : string) : option (string * string) :=
  match s with
  | String a s' =>
      if (lower a =? "e")%char
      then let '(sg, r) := take_sign true s' in
           match take_digits r with (EmptyString, _) => None | (ds, r') => Some (String a (sg ++ ds), r') end
      else Some ("", s)
  | EmptyString => Some ("", s)
  end.
Definition pnumber (s : string) : option (string * string) :=
  let '(sg, r0) := take_sign false s in
  '(ip, r1) ← take_integer r0;
  '(fr, r2) ← take_fraction r1;
  '(ex, r3) ← take_exponent r2;
  Some (sg ++ ip ++ fr ++ ex, r3).

(** *** Strings *)
Definition hex_val (a : ascii) : option N :=
  let n := nat_of_ascii a in
  if (48 <=? n) && (n <=? 57) then Some (N.of_nat (n - 48))
  else if (97 <=? n) && (n <=? 102) then Some (N.of_nat (n - 87))
  else if (65 <=? n) && (n <=? 70) then Some (N.of_nat (n - 55)) else None.
Definition hex4 (a b c d : ascii) : option N :=
  w ← hex_val a; x ← hex_val b; y ← hex_val c; z ← hex_val d;
  Some (((w * 16 + x) * 16 + y) * 16 + z)%N.
Definition utf8 (u : N) : string :=
  let ch n := ascii_of_N n in
  (if u <? 128 then String (ch u) ""
   else if u <? 2048 then String (ch (192 + u / 64)) (String (ch (128 + u mod 64)) "")
   else if u <? 65536
   then String (ch (224 + u / 4096)) (String (ch (128 + (u / 64) mod 64)) (String (ch (128 + u mod 64)) ""))
   else String (ch (240 + u / 262144)) (String (ch (128 + (u / 4096) mod 64))
          (String (ch (128 + (u / 64) mod 64)) (String (ch (128 + u mod 64)) ""))))%N.
Definition is_high (u : N) : bool := (55296 <=? u)%N && (u <? 56320)%N.
Definition is_low (u : N) : bool := (56320 <=? u)%N && (u <? 57344)%N.
Definition pair_code (hi lo : N) : N := (65536 + (hi - 55296) * 1024 + (lo - 56320))%N.
(** A code unit on its own: half a pair becomes U+FFFD. *)
Definition unit_text (u : N) : string := utf8 (if is_high u || is_low u then 65533%N else u).

Definition simple_escape (a : ascii) : option ascii :=
  let n := nat_of_ascii a in
  if (n =? 34) || (n =? 92) || (n =? 47) then Some a
  else if n =? 98 then Some "008"%char
  else if n =? 102 then Some "012"%char
  else if n =? 110 then Some "010"%char
  else if n =? 114 then Some "013"%char
  else if n =? 116 then Some "009"%char else None.
Definition onto (x : string) (o : option (string * string)) : option (string * string) :=
  '(s, r) ← o; Some (x ++ s, r).

(** What follows the opening quote. *)
Fixpoint pstring (s : string) : option (string * string) :=
  match s with
  | EmptyString => None
  | String a s1 =>
      if (a =? "034")%char then Some ("", s1)
      else if (a =? "092")%char then
        match s1 with
        | EmptyString => None
        | String e s2 =>
            match simple_escape e with
            | Some c => onto (String c "") (pstring s2)
            | None =>
                if negb (e =? "u")%char then None
                else match s2 with
                | String a1 (String a2 (String a3 (String a4 s3))) =>
                    match hex4 a1 a2 a3 a4 with
                    | None => None
                    | Some u =>
                        match s3 with
                        | String e1 (String e2 (String b1 (String b2 (String b3 (String b4 s4))))) =>
                            match (if (e1 =? "092")%char && (e2 =? "u")%char then hex4 b1 b2 b3 b4 else None) with
                            | Some v =>
                                if is_high u && is_low v then onto (utf8 (pair_code u v)) (pstring s4)
                                else onto (unit_text u) (pstring s3)
                            | None => onto (unit_text u) (pstring s3)
                            end
                        | _ => onto (unit_text u) (pstring s3)
                        end
                    end
                | _ => None
                end
            end
        end
      else if nat_of_ascii a <? 32 then None
      else onto (String a "") (pstring s1)
  end.

(** *** Values *)
Definition maxNestingDepth : nat := Z.to_nat 10000.
(** Of a literal the first letter has been seen. *)
Definition pword (word : string) (v : json) (s : string) : option (json * string) :=
  r ← strip word s; Some (v, r).
Fixpoint pvalue (fuel depth : nat) (s : string) {struct fuel} : option (json * string) :=
  match fuel with
  | O => None
  | S n =>
      match skip_ws s with
      | EmptyString => None
      | String a r =>
          if (a =? "034")%char then '(x, r') ← pstring r; Some (JStr x, r')
          else if (a =? "[")%char then
            match depth with
            | O => None
            | S d =>
                match strip "]" (skip_ws r) with
                | Some r' => Some (JArr [], r')
                | None => '(l, r') ← pelements n d r; Some (JArr l, r')
                end
            end
          else if (a =? "{")%char then
            match depth with
            | O => None
            | S d =>
                match strip "}" (skip_ws r) with
                | Some r' => Some (JObj [], r')
                | None => '(l, r') ← pmembers n d r; Some (JObj l, r')
                end
            end
          else if (a =? "t")%char then pword "rue" (JBool true) r
          else if (a =? "f")%char then pword "alse" (JBool false) r
          else if (a =? "n")%char then pword "ull" JNull r
          else '(lit, r') ← pnumber (String a r); Some (JNum lit, r')
      end
  end
with pelements (fuel depth : nat) (s : string) {struct fuel} : option (list json * string) :=
  match fuel with
  | O => None
  | S n =>
      '(v, r) ← pvalue n depth s;
      match skip_ws r with
      | String a r' =>
          if (a =? ",")%char then '(l, r'') ← pelements n depth r'; Some (v :: l, r'')
          else if (a =? "]")%char then Some ([v], r') else None
      | EmptyString => None
      end
  end
with pmembers (fuel depth : nat) (s : string) {struct fuel} : option (list (string * json) * string) :=
  match fuel with
  | O => None
  | S n =>
      r0 ← strip (String "034" "") (skip_ws s);
      '(k, r1) ← pstring r0;
      r2 ← strip ":" (skip_ws r1);
      '(v, r3) ← pvalue n depth r2;
      match skip_ws r3 with
      | String a r' =>
          if (a =? ",")%char then '(l, r'') ← pmembers n depth r'; Some ((k, v) :: l, r'')
          else if (a =? "}")%char then Some ([(k, v)], r') else None
      | EmptyString => None
      end
  end.

(** Two units of fuel for each character. *)
Definition fuel_for (s : string) : nat := 2 * String.length s + 2.
Definition Unmarshal (s : string) : option json :=
  '(v, r) ← pvalue (fuel_for s) maxNestingDepth s;
  match skip_ws r with EmptyString => Some v | _ => None end.
(** [json.NewDecoder(r).Decode]: the first value; what follows it is not looked at. *)
Definition Decode (s : string) : option json :=
  '(v, _) ← pvalue (fuel_for s) maxNestingDepth s; Some v.

Definition in_quotes (s : string) : string := String "034" (s ++ String "034" "").
Example Unmarshal_test :
  (Unmarshal (" { " ++ in_quotes "a" ++ " : [1, -2.5e+3 ,0], " ++ in_quotes "b" ++ ":" ++ in_quotes "x\u00e9\n\ud83d\ude00\udc00" ++ "} "),
   Unmarshal "[01]", Unmarshal "[1,]", Unmarshal "true x", Unmarshal "{}", Unmarshal (in_quotes "\x"))
  = (Some (JObj [("a", JArr [JNum "1"; JNum "-2.5e+3"; JNum "0"]);
       ("b", JStr ("x" ++ String "195" (String "169" (String "010" (String "240" (String "159"
              (String "152" (String "128" (String "239" (String "191" (String "189" "")))))))))))]),
     None, None, None, Some (JObj []), None).
Proof. vm_compute. reflexivity. Qed.

(** ** The reader always ends, and more fuel changes nothing *)
Lemma app_cons a (x y : string) : String a x ++ y = String a (x ++ y).
Proof. done. Qed.
Lemma app_empty (y : string) : "" ++ y = y.
Proof. done. Qed.
Lemma string_app_assoc (a b c : string) : a ++ b ++ c = (a ++ b) ++ c.
Proof. induction a as [|x a IH]; [done|]. by rewrite !app_cons, IH. Qed.
Lemma string_app_nil (a : string) : a ++ "" = a.
Proof. induction a as [|x a IH]; [done|]. by rewrite app_cons, IH. Qed.
Lemma string_app_length (a b : string) : String.length (a ++ b) = String.length a + String.length b.
Proof. induction a as [|x a IH]; [done|]. rewrite app_cons. simpl. by rewrite IH. Qed.

Lemma skip_ws_length s : String.length (skip_ws s) <= String.length s.
Proof. induction s as [|a s IH]; simpl; [done|]. destruct (_ || _); simpl; lia. Qed.
Lemma strip_length w s r : strip w s = Some r -> String.length s = String.length w + String.length r.
Proof.
  revert s. induction w as [|a w IH]; intros [|b s]; simpl; [by intros [= <-]..|done|].
  destruct (_ =? _)%char; [|done]. intros E%IH. lia.
Qed.
Lemma take_digits_split s : s = (take_digits s).1 ++ (take_digits s).2.
Proof.
  induction s as [|a s IH]; simpl; [done|]. destruct (is_digit a); [|done].
  destruct (take_digits s) as [ds r]. simpl in *. by rewrite app_cons, <- IH.
Qed.
Lemma take_sign_split plus s : s = (take_sign plus s).1 ++ (take_sign plus s).2.
Proof. destruct s as [|a s]; simpl; [done|]. by destruct (_ || _). Qed.

Lemma take_integer_split s l r : take_integer s = Some (l, r) -> s = l ++ r /\ 0 < String.length l.
Proof.
  destruct s as [|a s]; simpl; [done|].
  destruct (Ascii.eqb_spec a "0") as [->|]; [intros [= <- <-]; simpl; auto|].
  destruct (is_digit a); [|done]. pose proof (take_digits_split s) as E.
  destruct (take_digits s) as [ds r']. intros [= <- <-]. simpl in *. split; [by rewrite app_cons, <- E|lia].
Qed.
Lemma take_fraction_split s l r : take_fraction s = Some (l, r) -> s = l ++ r.
Proof.
  destruct s as [|a s]; simpl; [by intros [= <- <-]|]. destruct (_ =? _)%char; [|by intros [= <- <-]].
  pose proof (take_digits_split s) as E. destruct (take_digits s) as [[|x ds] r']; [done|].
  intros [= <- <-]. simpl in *. by rewrite app_cons, <- E.
Qed.
Lemma take_exponent_split s l r : take_exponent s = Some (l, r) -> s = l ++ r.
Proof.
  destruct s as [|a s]; simpl; [by intros [= <- <-]|]. destruct (_ =? _)%char; [|by intros [= <- <-]].
  pose proof (take_sign_split true s) as E. destruct (take_sign true s) as [sg s'].
  pose proof (take_digits_split s') as E'. destruct (take_digits s') as [[|x ds] r']; [done|].
  intros [= <- <-]. simpl in *. by rewrite app_cons, <- string_app_assoc, <- E', <- E.
Qed.
Lemma pnumber_split s l r : pnumber s = Some (l, r) -> s = l ++ r /\ 0 < String.length l.
Proof.
  unfold pnumber. pose proof (take_sign_split false s) as E0. destruct (take_sign false s) as [sg r0].
  destruct (take_integer r0) as [[ip r1]|] eqn:E1; [|done]. simpl.
  destruct (take_fraction r1) as [[fr r2]|] eqn:E2; [|done]. simpl.
  destruct (take_exponent r2) as [[ex r3]|] eqn:E3; [|done]. simpl. intros [= <- <-].
  apply take_integer_split in E1 as [E1 ?]. apply take_fraction_split in E2. apply take_exponent_split in E3.
  simpl in *. subst. rewrite !string_app_length. split; [|lia]. by rewrite <- !string_app_assoc.
Qed.

Lemma onto_some x o y r : onto x o = Some (y, r) -> exists y', o = Some (y', r).
Proof. destruct o as [[z r']|]; [|done]. intros [= _ <-]. by eexists. Qed.
Lemma pstring_length s x r : pstring s = Some (x, r) -> String.length r < String.length s.
Proof.
  revert x r. induction s as [s IH] using (induction_ltof1 _ String.length). unfold ltof in IH.
  assert (Hn : forall t y x r, String.length t < String.length s ->
    onto y (pstring t) = Some (x, r) -> String.length r < String.length s).
  { intros t y x r Ht (y' & E)%onto_some. apply IH in E; lia. }
  intros x r. destruct s as [|a s]; [done|]. simpl.
  destruct (_ =? "034")%char; [intros [= _ <-]; lia|].
  destruct (_ =? "092")%char; [|destruct (_ <? 32); [done|]; apply Hn; simpl; lia].
  destruct s as [|e s]; [done|]. destruct (simple_escape e); [apply Hn; simpl; lia|].
  destruct (negb _); [done|]. destruct s as [|a1 [|a2 [|a3 [|a4 s]]]]; try done.
  destruct (hex4 a1 a2 a3 a4); [|done].
  assert (Hs : forall y, onto y (pstring s) = Some (x, r) ->
    String.length r < String.length (String a (String e (String a1 (String a2 (String a3 (String a4 s)))))))
    by (intros y; apply Hn; simpl; lia).
  destruct s as [|e1 [|e2 [|b1 [|b2 [|b3 [|b4 s]]]]]]; try apply Hs.
  destruct (if (e1 =? _)%char && _ then _ else _); [|apply Hs]. destruct (_ && _); [|apply Hs]. apply Hn. simpl. lia.
Qed.
#[local] Arguments strip : simpl never.
#[local] Arguments pnumber : simpl never.
Lemma pword_length w v s x r : pword w v s = Some (x, r) -> String.length r <= String.length s.
Proof. unfold pword. destruct (strip w s) eqn:E; [|done]. intros [= _ <-]. apply strip_length in E. lia. Qed.

(** Every part of the reader leaves less than it was given. *)
Record consumes (n : nat) : Prop := {
  cs_value d (s : string) v r : pvalue n d s = Some (v, r) -> String.length r < String.length s;
  cs_elements d (s : string) l r : pelements n d s = Some (l, r) -> String.length r < String.length s;
  cs_members d (s : string) l r : pmembers n d s = Some (l, r) -> String.length r < String.length s
}.
(** What is left after white space and one character. *)
Lemma skip_length s a r : skip_ws s = String a r -> String.length r < String.length s.
Proof. intros E. pose proof (skip_ws_length s) as Hl. rewrite E in Hl. simpl in Hl. lia. Qed.
Lemma strip_skip_length c w s r :
  strip (String c w) (skip_ws s) = Some r -> String.length r < String.length s.
Proof. intros E%strip_length. pose proof (skip_ws_length s). simpl in E. lia. Qed.

Lemma consumes_S n : consumes n -> consumes (S n).
Proof.
  intros [Hv He Hm]. split; intros d s v r; simpl.
  - destruct (skip_ws s) as [|a t] eqn:Es; [done|]. pose proof (skip_length _ _ _ Es) as Hl.
    destruct (_ =? "034")%char.
    { destruct (pstring t) as [[x r']|] eqn:E; [|done]. intros [= _ <-]. apply pstring_length in E. lia. }
    destruct (_ =? "[")%char.
    { destruct d; [done|]. destruct (strip _ (skip_ws t)) eqn:E; [intros [= _ <-]; apply strip_skip_length in E; lia|].
      destruct (pelements n d t) as [[l r']|] eqn:E'; [|done]. intros [= _ <-]. apply He in E'. lia. }
    destruct (_ =? "{")%char.
    { destruct d; [done|]. destruct (strip _ (skip_ws t)) eqn:E; [intros [= _ <-]; apply strip_skip_length in E; lia|].
      destruct (pmembers n d t) as [[l r']|] eqn:E'; [|done]. intros [= _ <-]. apply Hm in E'. lia. }
    do 3 (destruct (_ =? _)%char; [intros E%pword_length; lia|]).
    destruct (pnumber (String a t)) as [[lit r']|] eqn:E; [|done]. intros [= _ <-].
    apply pnumber_split in E as [E ?]. apply (f_equal String.length) in E.
    rewrite string_app_length in E. simpl in E. lia.
  - destruct (pvalue n d s) as [[x r']|] eqn:E; [|done]. simpl. apply Hv in E.
    destruct (skip_ws r') as [|a t] eqn:Es; [done|]. apply skip_length in Es.
    destruct (_ =? ",")%char.
    + destruct (pelements n d t) as [[l r'']|] eqn:E'; [|done]. intros [= _ <-]. apply He in E'. lia.
    + destruct (_ =? _)%char; [|done]. intros [= _ <-]. lia.
  - destruct (strip _ (skip_ws s)) as [r0|] eqn:E0; [|done]. simpl. apply strip_skip_length in E0.
    destruct (pstring r0) as [[k r1]|] eqn:E1; [|done]. simpl. apply pstring_length in E1.
    destruct (strip ":" (skip_ws r1)) as [r2|] eqn:E2; [|done]. simpl. apply strip_skip_length in E2.
    destruct (pvalue n d r2) as [[x r3]|] eqn:E3; [|done]. simpl. apply Hv in E3.
    destruct (skip_ws r3) as [|a t] eqn:Es; [done|]. apply skip_length in Es.
    destruct (_ =? ",")%char.
    + destruct (pmembers n d t) as [[l r'']|] eqn:E'; [|done]. intros [= _ <-]. apply Hm in E'. lia.
    + destruct (_ =? _)%char; [|done]. intros [= _ <-]. lia.
Qed.
Lemma consumes_all n : consumes n.
Proof. induction n as [|n IH]; [by split|by apply consumes_S]. Qed.

(** The results do not depend on the fuel, once it is enough for the text. *)
Record steady (n : nat) : Prop := {
  st_value m d (s : string) : 2 * String.length s < n -> 2 * String.length s < m -> pvalue n d s = pvalue m d s;
  st_elements m d (s : string) : 2 * String.length s + 1 < n -> 2 * String.length s + 1 < m ->
    pelements n d s = pelements m d s;
  st_members m d (s : string) : 2 * String.length s + 1 < n -> 2 * String.length s + 1 < m ->
    pmembers n d s = pmembers m d s
}.
Lemma steady_S n : steady n -> steady (S n).
Proof.
  intros [Hv He Hm]. split; intros [|m] d s Hn Hm'; try lia; simpl.
  - destruct (skip_ws s) as [|a t] eqn:Es; [done|]. pose proof (skip_length _ _ _ Es) as Hl.
    destruct d as [|d]; [done|]. rewrite (He m d t), (Hm m d t) by lia. done.
  - rewrite (Hv m d s) by lia. destruct (pvalue m d s) as [[x r']|] eqn:E; [|done]. simpl.
    apply (cs_value _ (consumes_all m)) in E.
    destruct (skip_ws r') as [|a t] eqn:Es; [done|]. apply skip_length in Es.
    by rewrite (He m d t) by lia.
  - destruct (strip _ (skip_ws s)) as [r0|] eqn:E0; [|done]. simpl. apply strip_skip_length in E0.
    destruct (pstring r0) as [[k r1]|] eqn:E1; [|done]. simpl. apply pstring_length in E1.
    destruct (strip ":" (skip_ws r1)) as [r2|] eqn:E2; [|done]. simpl. apply strip_skip_length in E2.
    rewrite (Hv m d r2) by lia. destruct (pvalue m d r2) as [[x r3]|] eqn:E3; [|done]. simpl.
    apply (cs_value _ (consumes_all m)) in E3.
    destruct (skip_ws r3) as [|a t] eqn:Es; [done|]. apply skip_length in Es.
    by rewrite (Hm m d t) by lia.
Qed.
Lemma steady_all n : steady n.
Proof. induction n as [|n IH]; [split; intros; lia|by apply steady_S]. Qed.
(** So [Unmarshal] reads with any fuel that is enough. *)
Theorem Unmarshal_fuel n s :
  2 * String.length s < n ->
  Unmarshal s = ('(v, r) ← pvalue n maxNestingDepth s; match skip_ws r with EmptyString => Some v | _ => None end).
Proof.
  intros Hn. unfold Unmarshal, fuel_for.
  by rewrite (st_value _ (steady_all (2 * String.length s + 2)) n) by lia.
Qed.

(** ** Strings are read back *)
Lemma pstring_unit a1 a2 a3 a4 u t :
  hex4 a1 a2 a3 a4 = Some u -> is_high u = false ->
  pstring ("\u" ++ String a1 (String a2 (String a3 (String a4 t)))) = onto (unit_text u) (pstring t).
Proof.
  intros Hu Hh. rewrite !app_cons, app_empty. simpl. rewrite Hu.
  destruct t as [|e1 [|e2 [|b1 [|b2 [|b3 [|b4 t]]]]]]; try done.
  destruct (if (e1 =? _)%char && _ then _ else _); [|done]. by rewrite Hh.
Qed.
Lemma pstring_char a t : pstring (escape_char a ++ t) = onto (String a "") (pstring t).
Proof.
  destruct a as [[] [] [] [] [] [] [] []]; try reflexivity;
    (etrans; [by apply pstring_unit|reflexivity]).
Qed.
Lemma line_separator_text a b c x :
  line_separator a b c = Some x ->
  exists u, hex4 "2" "0" "2" x = Some u /\ is_high u = false /\
    unit_text u = String a (String b (String c "")).
Proof.
  unfold line_separator. destruct (Ascii.eqb_spec a "226") as [->|]; [|done].
  destruct (Ascii.eqb_spec b "128") as [->|]; [|done].
  destruct (Ascii.eqb_spec c "168") as [->|]; [|destruct (Ascii.eqb_spec c "169") as [->|]; [|done]];
    intros [= <-]; eexists; by split_and!.
Qed.
Lemma escape_step a s :
  escape (String a s) = escape_char a ++ escape s \/
  exists b c x s', s = String b (String c s') /\ line_separator a b c = Some x /\
    escape (String a s) = "\u202" ++ String x (escape s').
Proof.
  destruct s as [|b [|c s]]; [by left..|]. simpl.
  destruct (line_separator a b c) as [x|] eqn:E; [|by left]. right. by exists b, c, x, s.
Qed.
Lemma pstring_escape s r : pstring (escape s ++ String "034" r) = Some (s, r).
Proof.
  induction s as [s IH] using (induction_ltof1 _ String.length). unfold ltof in IH.
  destruct s as [|a s]; [done|].
  destruct (escape_step a s) as [->|(b & c & x & s' & -> & Hx & ->)].
  - rewrite <- string_app_assoc, pstring_char, IH by (simpl; lia). done.
  - destruct (line_separator_text _ _ _ _ Hx) as (u & Hu & Hh & Ht).
    rewrite <- string_app_assoc, app_cons.
    change (pstring ("\u" ++ String "2" (String "0" (String "2" (String x (escape s' ++ String "034" r))))) =
      Some (String a (String b (String c s')), r)).
    rewrite (pstring_unit _ _ _ _ u), IH by (done || (simpl; lia)). by rewrite Ht.
Qed.
Lemma pstring_quote s r : strip (String "034" "") (quote s ++ r) = Some (escape s ++ String "034" r).
Proof. unfold quote. by rewrite !app_cons, <- string_app_assoc. Qed.

(** ** Numbers are read back *)
Definition all_digits (s : string) : Prop := take_digits s = (s, "").
Definition ends_number (r : string) : Prop :=
  match r with
  | EmptyString => True
  | String a _ => is_digit a = false /\ a <> "."%char /\ lower a <> "e"%char
  end.
Definition integer_part (s : string) : Prop :=
  s = "0" \/ exists a ds, s = String a ds /\ a <> "0"%char /\ is_digit a = true /\ all_digits ds.
Definition fraction_part (s : string) : Prop :=
  s = "" \/ exists ds, s = String "." ds /\ ds <> "" /\ all_digits ds.
Definition exponent_part (s : string) : Prop :=
  s = "" \/ exists a sg ds, s = String a (sg ++ ds) /\ lower a = "e"%char /\
    (sg = "-" \/ sg = "+" \/ sg = "") /\ ds <> "" /\ all_digits ds.
(** The number literals of JSON. *)
Definition number (lit : string) : Prop := exists sg ip fr ex,
  lit = sg ++ ip ++ fr ++ ex /\ (sg = "-" \/ sg = "") /\
  integer_part ip /\ fraction_part fr /\ exponent_part ex.

Lemma all_digits_cons a s : all_digits (String a s) <-> is_digit a = true /\ all_digits s.
Proof.
  unfold all_digits. simpl. destruct (is_digit a); [|by split; [intros [=]|intros [? _]]].
  destruct (take_digits s) as [ds r]. split; [intros [= -> ->]; done|by intros [_ [= -> ->]]].
Qed.
Lemma all_digits_app s t : all_digits (s ++ t) <-> all_digits s /\ all_digits t.
Proof.
  induction s as [|a s IH]; [by split; [|intros [_ ?]]|]. rewrite app_cons, !all_digits_cons. tauto.
Qed.
Lemma take_digits_all ds r :
  all_digits ds -> (forall a r', r = String a r' -> is_digit a = false) -> take_digits (ds ++ r) = (ds, r).
Proof.
  intros Hd Hr. induction ds as [|a ds IH].
  - rewrite app_empty. destruct r as [|a r]; [done|]. simpl. by rewrite (Hr a r).
  - apply all_digits_cons in Hd as [Ha Hd]. rewrite app_cons. simpl. by rewrite Ha, IH.
Qed.
Lemma take_exponent_part ex r : exponent_part ex -> ends_number r -> take_exponent (ex ++ r) = Some (ex, r).
Proof.
  intros [->|(a & sg & ds & -> & Ha & Hsg & Hne & Hd)] Hr.
  - rewrite app_empty. destruct r as [|a r]; [done|]. simpl. destruct Hr as (_ & _ & Hr).
    by destruct (Ascii.eqb_spec (lower a) "e").
  - assert (Ht : take_digits (ds ++ r) = (ds, r)).
    { apply take_digits_all; [done|]. intros x r' ->. apply Hr. }
    rewrite app_cons, <- string_app_assoc. unfold take_exponent. rewrite Ha. simpl.
    assert (Hsig : take_sign true (sg ++ ds ++ r) = (sg, ds ++ r)).
    { destruct Hsg as [->|[->| ->]]; [done..|]. rewrite app_empty. destruct ds as [|x ds]; [done|].
      apply all_digits_cons in Hd as [Hx _]. rewrite app_cons. simpl.
      destruct (Ascii.eqb_spec x "-") as [->|]; [done|]. by destruct (Ascii.eqb_spec x "+") as [->|]. }
    rewrite Hsig, Ht. by destruct ds.
Qed.
(** The fraction and the exponent do not begin with a digit. *)
Lemma take_fraction_part fr ex r :
  fraction_part fr -> exponent_part ex -> ends_number r ->
  take_fraction (fr ++ ex ++ r) = Some (fr, ex ++ r).
Proof.
  intros Hf He Hr.
  assert (Hx : forall a r', ex ++ r = String a r' -> is_digit a = false /\ a <> "."%char).
  { destruct He as [->|(x & sg & ds & -> & Hx & _)]; intros a r'.
    - rewrite app_empty. intros ->. split; apply Hr.
    - rewrite app_cons. intros [= -> _]. revert Hx. clear. destruct a as [[] [] [] [] [] [] [] []]; done. }
  destruct Hf as [->|(ds & -> & Hne & Hd)].
  - rewrite app_empty. destruct (ex ++ r) as [|a r']; [done|]. simpl.
    destruct (Hx a r' eq_refl) as [_ Ha]. by destruct (Ascii.eqb_spec a ".").
  - rewrite app_cons. simpl. rewrite take_digits_all; [by destruct ds|done|]. intros a r' E. by apply (Hx a r').
Qed.
Lemma no_digit_after fr ex r a t :
  fraction_part fr -> exponent_part ex -> ends_number r -> fr ++ ex ++ r = String a t -> is_digit a = false.
Proof.
  intros [->|(ds & -> & _)] He Hr; [|by rewrite app_cons; intros [= <- _]]. rewrite app_empty.
  destruct He as [->|(x & sg & ds & -> & Hx & _)].
  - rewrite app_empty. intros ->. apply Hr.
  - rewrite app_cons. intros [= -> _]. revert Hx. clear. destruct a as [[] [] [] [] [] [] [] []]; done.
Qed.
Lemma take_integer_part ip r :
  integer_part ip -> (forall a r', r = String a r' -> is_digit a = false) ->
  take_integer (ip ++ r) = Some (ip, r) /\ exists a t, ip = String a t /\ is_digit a = true.
Proof.
  intros [->|(a & ds & -> & Ha & Hda & Hd)] Hr; [by eauto|]. split; [|eauto].
  rewrite app_cons. simpl. destruct (Ascii.eqb_spec a "0"); [done|]. by rewrite Hda, take_digits_all.
Qed.
Lemma pnumber_number lit r : number lit -> ends_number r -> pnumber (lit ++ r) = Some (lit, r).
Proof.
  intros (sg & ip & fr & ex & -> & Hsg & Hip & Hfr & Hex) Hr. rewrite <- !string_app_assoc. unfold pnumber.
  destruct (take_integer_part ip (fr ++ ex ++ r)) as [Hi (a & t & -> & Ha)];
    [done|by eauto using no_digit_after|].
  assert (Hs : take_sign false (sg ++ String a t ++ fr ++ ex ++ r) = (sg, String a t ++ fr ++ ex ++ r)).
  { destruct Hsg as [->| ->]; [done|]. rewrite app_empty, app_cons. simpl.
    by destruct (Ascii.eqb_spec a "-") as [->|]. }
  rewrite Hs, Hi. simpl. rewrite take_fraction_part by done. simpl. by rewrite take_exponent_part.
Qed.

(** ** Values are read back *)

(** Nested [d] deep at most, and every number a JSON number. *)
Inductive fits : nat -> json -> Prop :=
| fits_null d : fits d JNull
| fits_bool d b : fits d (JBool b)
| fits_num d lit : number lit -> fits d (JNum lit)
| fits_str d s : fits d (JStr s)
| fits_arr d l : Forall (fits d) l -> fits (S d) (JArr l)
| fits_obj d fs : Forall (fun p => fits d p.2) fs -> fits (S d) (JObj fs).

Definition begins_number (a : ascii) : bool := is_digit a || (a =? "-")%char.
Definition begins_value (a : ascii) : bool :=
  begins_number a || (a =? "034")%char || (a =? "[")%char || (a =? "{")%char || (a =? "t")%char ||
  (a =? "f")%char || (a =? "n")%char.
Lemma begins_spec a t :
  begins_value a = true -> skip_ws (String a t) = String a t /\
    strip "]" (String a t) = None /\ strip "}" (String a t) = None.
Proof. destruct a as [[] [] [] [] [] [] [] []]; intros Ha; first [discriminate Ha|by split_and!]. Qed.
Lemma number_begins lit : number lit -> exists a t, lit = String a t /\ begins_number a = true.
Proof.
  intros (sg & ip & fr & ex & -> & [->| ->] & Hip & _); [by eexists _, _|]. rewrite app_empty.
  destruct (take_integer_part ip "" Hip) as [_ (a & t & -> & Ha)]; [done|].
  rewrite app_cons. exists a. unfold begins_number. rewrite Ha. eauto.
Qed.
Lemma Marshal_begins d v : fits d v -> exists a t, Marshal v = String a t /\ begins_value a = true.
Proof.
  intros [| ? []|? lit Hn| | |]; simpl; unfold quote; try (by eexists _, _).
  destruct (number_begins lit Hn) as (a & t & -> & Ha). exists a, t. split; [done|].
  unfold begins_value. by rewrite Ha.
Qed.
Lemma pvalue_number n d a t :
  begins_number a = true ->
  pvalue (S n) d (String a t) = ('(lit, r) ← pnumber (String a t); Some (JNum lit, r)).
Proof. destruct a as [[] [] [] [] [] [] [] []]; intros Ha; first [discriminate Ha|reflexivity]. Qed.

Definition reads_value (d : nat) (v : json) : Prop := forall n r,
  ends_number r -> 2 * String.length (Marshal v ++ r) < n -> pvalue n d (Marshal v ++ r) = Some (v, r).

(** A non-empty list, element by element. *)
Lemma concat_sep_next x y l : concat_sep "," (x :: y :: l) = x ++ String "," (concat_sep "," (y :: l)).
Proof. done. Qed.
Lemma concat_sep_last x : concat_sep "," [x] = x.
Proof. done. Qed.
#[local] Arguments concat_sep : simpl never.

Lemma pelements_Marshal d l r :
  l <> [] -> Forall (reads_value d) l -> forall n,
  2 * String.length (concat_sep "," (map Marshal l) ++ String "]" r) + 1 < n ->
  pelements n d (concat_sep "," (map Marshal l) ++ String "]" r) = Some (l, r).
Proof.
  intros Hne Hl. induction Hl as [|v l Hv Hl IH]; [done|]. intros [|n] Hn; [lia|].
  destruct l as [|w l]; cbn [map] in *.
  - rewrite concat_sep_last in *. simpl. rewrite (Hv n) by (done || lia). done.
  - rewrite concat_sep_next, <- string_app_assoc, app_cons in *. simpl.
    rewrite (Hv n) by (done || lia). simpl.
    rewrite IH; [done..|]. rewrite string_app_length in Hn. simpl in Hn. lia.
Qed.
Definition member_text (p : string * json) : string := quote p.1 ++ ":" ++ Marshal p.2.
Lemma pmembers_step n d p t :
  pmembers (S n) d (member_text p ++ t) = ('(v, r) ← pvalue n d (Marshal p.2 ++ t);
    match skip_ws r with
    | String a r' =>
        if (a =? ",")%char then '(l, r'') ← pmembers n d r'; Some ((p.1, v) :: l, r'')
        else if (a =? "}")%char then Some ([(p.1, v)], r') else None
    | EmptyString => None
    end).
Proof.
  destruct p as [k v]. unfold member_text, quote. rewrite <- !string_app_assoc, !app_cons. cbn [fst snd].
  cbn [pmembers].
  change (strip _ (skip_ws (String "034" ?x))) with (Some x). cbn [mbind option_bind].
  by rewrite pstring_escape.
Qed.
Lemma pmembers_Marshal d fs r :
  fs <> [] -> Forall (fun p => reads_value d p.2) fs -> forall n,
  2 * String.length (concat_sep "," (map member_text fs) ++ String "}" r) + 1 < n ->
  pmembers n d (concat_sep "," (map member_text fs) ++ String "}" r) = Some (fs, r).
Proof.
  intros Hne Hl. induction Hl as [|p l Hv Hl IH]; [done|]. intros [|n] Hn; [lia|].
  assert (Hm : forall t, String.length (Marshal p.2 ++ t) < String.length (member_text p ++ t)).
  { intros t. unfold member_text. rewrite !string_app_length. simpl. lia. }
  destruct l as [|w l]; cbn [map] in *.
  - rewrite concat_sep_last in *. specialize (Hm (String "}" r)). rewrite pmembers_step.
    rewrite (Hv n) by (done || lia). by destruct p.
  - rewrite concat_sep_next, <- string_app_assoc, app_cons in *. rewrite pmembers_step.
    specialize (Hm (String "," (concat_sep "," (member_text w :: map member_text l) ++ String "}" r))).
    rewrite (Hv n) by (done || lia). simpl.
    rewrite IH; [by destruct p|done|]. rewrite string_app_length in Hn. simpl in Hn. lia.
Qed.
Lemma no_empty_list a t x l r :
  x = String a t -> begins_value a = true ->
  strip "]" (skip_ws (concat_sep "," (x :: l) ++ r)) = None /\
  strip "}" (skip_ws (concat_sep "," (x :: l) ++ r)) = None.
Proof.
  intros -> Ha. assert (exists t', concat_sep "," (String a t :: l) ++ r = String a t') as [t' ->].
  { destruct l as [|y l]; [rewrite concat_sep_last|rewrite concat_sep_next];
      rewrite !app_cons; by eexists. }
  by destruct (begins_spec a t' Ha) as (-> & -> & ->).
Qed.
Lemma reads_back d v : fits d v -> reads_value d v.
Proof.
  revert v. induction d as [d IH] using lt_wf_ind. intros v Hv [|n] r Hr Hn; [lia|].
  destruct Hv as [| ? []|? lit Hnum|? s|d l Hl|d fs Hl]; try reflexivity; cbn [Marshal] in *.
  - destruct (number_begins lit Hnum) as (a & t & E & Ha).
    pose proof (pnumber_number lit r Hnum Hr) as Hp. rewrite E, app_cons in *.
    rewrite pvalue_number, Hp by done. done.
  - pose proof (pstring_quote s r) as Hq. unfold quote in *. rewrite !app_cons in *.
    injection Hq as Hq. simpl. rewrite Hq, pstring_escape. done.
  - assert (Hl' : Forall (reads_value d) l) by (eapply Forall_impl; [exact Hl|]; intros v; apply IH; lia).
    destruct l as [|v l]; [done|].
    rewrite <- !string_app_assoc, (app_cons "["), (app_cons "]"), !app_empty in *. simpl in Hn |- *.
    destruct (Marshal_begins d v) as (a & t & E & Ha); [by inversion Hl|].
    rewrite (proj1 (no_empty_list a t _ _ _ E Ha)), (pelements_Marshal d (v :: l)) by (done || (simpl; lia)).
    done.
  - assert (Hl' : Forall (fun p => reads_value d p.2) fs)
      by (eapply Forall_impl; [exact Hl|]; intros p; apply IH; lia).
    destruct fs as [|p fs]; [done|].
    rewrite <- !string_app_assoc, (app_cons "{"), (app_cons "}"), !app_empty in *. simpl in Hn |- *.
    change (quote p.1 ++ ":" ++ Marshal p.2) with (member_text p) in *.
    change (fun p : string * json => quote p.1 ++ ":" ++ Marshal p.2) with member_text in *.
    assert (exists t, member_text p = String "034" t) as [t E]
      by (unfold member_text, quote; rewrite !app_cons; by eexists).
    rewrite (proj2 (no_empty_list _ _ _ _ _ E eq_refl)).
    rewrite (pmembers_Marshal d (p :: fs)) by (done || (simpl; lia)). done.
Qed.

(** A text [Marshal] wrote is read back as the value it was written for. *)
Theorem Unmarshal_Marshal v : fits maxNestingDepth v -> Unmarshal (Marshal v) = Some v.
Proof.
  intros Hv. pose proof (reads_back _ _ Hv (fuel_for (Marshal v)) "" I) as Hr.
  rewrite string_app_nil in Hr. unfold Unmarshal. rewrite Hr by (unfold fuel_for; lia). done.
Qed.

(** ** What the reader returns is nested at most so deep, with JSON numbers *)
Lemma take_digits_digits s : all_digits (take_digits s).1.
Proof.
  induction s as [|a s IH]; simpl; [done|]. destruct (is_digit a) eqn:Ha; [|done].
  destruct (take_digits s) as [ds r]. by apply all_digits_cons.
Qed.
Lemma take_integer_sound s l r : take_integer s = Some (l, r) -> integer_part l.
Proof.
  destruct s as [|a s]; simpl; [done|]. destruct (Ascii.eqb_spec a "0"); [intros [= <- _]; by left|].
  destruct (is_digit a) eqn:Ha; [|done]. pose proof (take_digits_digits s) as Hd.
  destruct (take_digits s) as [ds r']. intros [= <- _]. right. by exists a, ds.
Qed.
Lemma take_fraction_sound s l r : take_fraction s = Some (l, r) -> fraction_part l.
Proof.
  destruct s as [|a s]; simpl; [intros [= <- _]; by left|].
  destruct (Ascii.eqb_spec a "."); [subst|intros [= <- _]; by left]. pose proof (take_digits_digits s) as Hd.
  destruct (take_digits s) as [[|x ds] r']; [done|]. intros [= <- _]. right. by eexists.
Qed.
Lemma take_exponent_sound s l r : take_exponent s = Some (l, r) -> exponent_part l.
Proof.
  destruct s as [|a s]; simpl; [intros [= <- _]; by left|].
  destruct (Ascii.eqb_spec (lower a) "e"); [|intros [= <- _]; by left].
  assert (Hs : let sg := (take_sign true s).1 in sg = "-" \/ sg = "+" \/ sg = "").
  { destruct s as [|b s]; simpl; [auto|]. destruct (Ascii.eqb_spec b "-"), (Ascii.eqb_spec b "+"); subst; simpl; auto. }
  destruct (take_sign true s) as [sg s']. pose proof (take_digits_digits s') as Hd.
  destruct (take_digits s') as [[|x ds] r']; [done|]. intros [= <- _]. right. by eexists a, sg, _.
Qed.
Lemma pnumber_sound s l r : pnumber s = Some (l, r) -> number l.
Proof.
  unfold pnumber. assert (Hs : let sg := (take_sign false s).1 in sg = "-" \/ sg = "").
  { destruct s as [|b s]; simpl; [auto|]. destruct (Ascii.eqb_spec b "-"); subst; simpl; auto. }
  destruct (take_sign false s) as [sg r0].
  destruct (take_integer r0) as [[ip r1]|] eqn:E1; [|done]. simpl.
  destruct (take_fraction r1) as [[fr r2]|] eqn:E2; [|done]. simpl.
  destruct (take_exponent r2) as [[ex r3]|] eqn:E3; [|done]. simpl. intros [= <- _].
  exists sg, ip, fr, ex.
  split_and!; [done|done|by eapply take_integer_sound|by eapply take_fraction_sound|by eapply take_exponent_sound].
Qed.
Record sound (n : nat) : Prop := {
  sd_value d (s : string) v r : pvalue n d s = Some (v, r) -> fits d v;
  sd_elements d (s : string) l r : pelements n d s = Some (l, r) -> Forall (fits d) l;
  sd_members d (s : string) l r : pmembers n d s = Some (l, r) -> Forall (fun p => fits d p.2) l
}.
Lemma pword_sound w v s x r d : fits d v -> pword w v s = Some (x, r) -> fits d x.
Proof. unfold pword. destruct (strip w s); [|done]. by intros Hv [= <- _]. Qed.
Lemma sound_S n : sound n -> sound (S n).
Proof.
  intros [Hv He Hm]. split; intros d s v r; simpl.
  - destruct (skip_ws s) as [|a t]; [done|].
    destruct (_ =? "034")%char; [destruct (pstring t) as [[x r']|]; [|done]; intros [= <- _]; constructor|].
    destruct (_ =? "[")%char.
    { destruct d; [done|]. destruct (strip _ (skip_ws t)); [intros [= <- _]; by repeat constructor|].
      destruct (pelements n d t) as [[l r']|] eqn:E; [|done]. intros [= <- _]. constructor. by eapply He. }
    destruct (_ =? "{")%char.
    { destruct d; [done|]. destruct (strip _ (skip_ws t)); [intros [= <- _]; by repeat constructor|].
      destruct (pmembers n d t) as [[l r']|] eqn:E; [|done]. intros [= <- _]. constructor. by eapply Hm. }
    do 3 (destruct (_ =? _)%char; [apply pword_sound; constructor|]).
    destruct (pnumber (String a t)) as [[lit r']|] eqn:E; [|done]. intros [= <- _]. constructor.
    by eapply pnumber_sound.
  - destruct (pvalue n d s) as [[x r']|] eqn:E; [|done]. simpl. apply Hv in E.
    destruct (skip_ws r') as [|a t]; [done|]. destruct (_ =? ",")%char.
    + destruct (pelements n d t) as [[l r'']|] eqn:E'; [|done]. intros [= <- _]. constructor; [done|by eapply He].
    + destruct (_ =? _)%char; [|done]. intros [= <- _]. by repeat constructor.
  - destruct (strip _ (skip_ws s)) as [r0|]; [|done]. simpl.
    destruct (pstring r0) as [[k r1]|]; [|done]. simpl.
    destruct (strip ":" (skip_ws r1)) as [r2|]; [|done]. simpl.
    destruct (pvalue n d r2) as [[x r3]|] eqn:E; [|done]. simpl. apply Hv in E.
    destruct (skip_ws r3) as [|a t]; [done|]. destruct (_ =? ",")%char.
    + destruct (pmembers n d t) as [[l r'']|] eqn:E'; [|done]. intros [= <- _]. constructor; [done|by eapply Hm].
    + destruct (_ =? _)%char; [|done]. intros [= <- _]. by repeat constructor.
Qed.
Lemma sound_all n : sound n.
Proof. induction n as [|n IH]; [by split|by apply sound_S]. Qed.
(** So what was read can be written and read again. *)
Theorem Decode_fits s v : Decode s = Some v -> fits maxNestingDepth v.
Proof.
  unfold Decode. destruct (pvalue _ _ s) as [[x r]|] eqn:E; [|done]. intros [= <-].
  by eapply (sd_value _ (sound_all _)).
Qed.
Theorem Unmarshal_fits s v : Unmarshal s = Some v -> fits maxNestingDepth v.
Proof.
  unfold Unmarshal. destruct (pvalue _ _ s) as [[x r]|] eqn:E; [|done]. simpl.
  destruct (skip_ws r); [|done]. intros [= <-]. by eapply (sd_value _ (sound_all _)).
Qed.
