(* ===== verification/JsonNumbers.v ===== *)
(** * The numbers the services write are JSON numbers

    Integers by [strconv.FormatInt] and floats in the shortest form, with or without an
    exponent: whatever finite float a Go program holds, [encoding/json] writes a literal
    that JSON readers take, so that what the services publish can be read back. *)
From Stdlib Require Import Ascii SpecFloat Decimal DecimalString DecimalN DecimalPos DecimalZ DecimalFacts.
From S2P Require Import Prelude GoNum Strconv Json JsonParse.
Local Open Scope string_scope.
Local Open Scope Z_scope.

(** ** Integers *)
Lemma uint_digits u : all_digits (NilEmpty.string_of_uint u).
Proof. induction u; [done|..]; by apply all_digits_cons. Qed.
(** No leading zero. *)
Lemma to_uint_head p u : Pos.to_uint p <> D0 u.
Proof.
  pose proof (DecimalN.Unsigned.to_of (Pos.to_uint p)) as E.
  change (N.of_uint (Pos.to_uint p)) with (N.of_uint (N.to_uint (Npos p))) in E.
  rewrite DecimalN.Unsigned.of_to in E. simpl in E. rewrite E.
  destruct (nzhead (Pos.to_uint p)) eqn:En; unfold unorm; rewrite En; try done.
  - intros [= <-]. unfold unorm in E. rewrite En in E.
    apply (f_equal Pos.of_uint) in E. by rewrite DecimalPos.Unsigned.of_to in E.
  - by destruct (nzhead_nonzero _ _ En).
Qed.
Definition leading (s : string) : Prop :=
  exists a ds, s = String a ds /\ a <> "0"%char /\ is_digit a = true /\ all_digits ds.
Lemma leading_digits s : leading s -> all_digits s.
Proof. intros (a & ds & -> & _ & Ha & Hd). by apply all_digits_cons. Qed.
Lemma FormatInt_leading p : leading (FormatInt (Zpos p)).
Proof.
  unfold FormatInt. simpl. pose proof (to_uint_head p) as Hh.
  pose proof (DecimalPos.Unsigned.to_uint_nonnil p) as Hn.
  destruct (Pos.to_uint p); try done; simpl; try (by destruct (Hh u));
    eexists _, _; (split; [reflexivity|]); split_and!; try done; apply uint_digits.
Qed.
Lemma FormatInt_neg p : FormatInt (Zneg p) = "-" ++ FormatInt (Zpos p).
Proof. done. Qed.
Lemma number_integer sg ip : sg = "-" \/ sg = "" -> integer_part ip -> number (sg ++ ip).
Proof.
  intros Hs Hi. exists sg, ip, "", "". rewrite !string_app_nil. split; [done|]. split; [done|].
  split; [done|]. by split; left.
Qed.
Lemma number_FormatInt z : number (FormatInt z).
Proof.
  destruct z as [|p|p].
  - apply (number_integer "" "0"); [by right|by left].
  - apply (number_integer "" _); [by right|]. right. apply FormatInt_leading.
  - rewrite FormatInt_neg. apply number_integer; [by left|]. right. apply FormatInt_leading.
Qed.

(** ** How many digits *)
Lemma of_uint_acc_lower u acc :
  Zpos acc * 10 ^ Z.of_nat (nb_digits u) <= Zpos (Pos.of_uint_acc u acc).
Proof.
  revert acc. induction u as [|u IH|u IH|u IH|u IH|u IH|u IH|u IH|u IH|u IH|u IH]; intros acc;
    cbn [nb_digits Pos.of_uint_acc]; [lia|..];
    (etrans; [|apply IH]); rewrite Nat2Z.inj_succ, Z.pow_succ_r by lia;
    rewrite Z.mul_assoc; apply Z.mul_le_mono_nonneg_r; lia.
Qed.
Lemma uint_length u : String.length (NilEmpty.string_of_uint u) = nb_digits u.
Proof. induction u; simpl; congruence. Qed.
Lemma decimal_digits_lower p : 1 <= decimal_digits (Zpos p) /\ 10 ^ (decimal_digits (Zpos p) - 1) <= Zpos p.
Proof.
  unfold decimal_digits, FormatInt. simpl. pose proof (to_uint_head p) as Hh.
  pose proof (DecimalPos.Unsigned.of_to p) as Ho.
  pose proof (DecimalPos.Unsigned.to_uint_nonnil p) as Hn.
  destruct (Pos.to_uint p) as [|u|u|u|u|u|u|u|u|u|u]; try done; [by destruct (Hh u)|..];
    simpl; rewrite uint_length; (split; [lia|]);
    replace (Z.of_nat (S (nb_digits u)) - 1) with (Z.of_nat (nb_digits u)) by lia;
    simpl in Ho; injection Ho as <-; (etrans; [|apply of_uint_acc_lower]); nia.
Qed.

(** ** Floats: the digits kept are never all zero *)
Lemma decimal_exponent_up m e :
  0 <= e -> 10 ^ (decimal_exponent (Zpos m) e - 1) <= Zpos m * 2 ^ e.
Proof.
  intros He. unfold decimal_exponent. rewrite (proj2 (Z.leb_le _ _) He).
  assert (Hp : 0 < Zpos m * 2 ^ e) by (apply Z.mul_pos_pos; [done|by apply Z.pow_pos_nonneg]).
  destruct (Zpos m * 2 ^ e) as [|p|p]; try done. apply decimal_digits_lower.
Qed.
(** [10^400] exceeds every power of two that divides a binary64. *)
Lemma big_enough e : -1074 <= e -> 2 ^ (- e) <= 10 ^ 400.
Proof.
  intros He. transitivity (2 ^ (3 * 358)); [apply Z.pow_le_mono_r; lia|].
  rewrite Z.pow_mul_r by lia. change (2 ^ 3) with 8.
  transitivity (10 ^ 358); [apply Z.pow_le_mono_l; lia|apply Z.pow_le_mono_r; lia].
Qed.
Lemma decimal_exponent_down m e :
  -1074 <= e -> e < 0 ->
  let k := decimal_exponent (Zpos m) e in
  -400 < k /\ 10 ^ (k + 399) * 2 ^ (- e) <= Zpos m * 10 ^ 400.
Proof.
  intros Hmin He k. subst k. unfold decimal_exponent. rewrite (proj2 (Z.leb_gt _ _) He).
  assert (H2 : 0 < 2 ^ (- e)) by (apply Z.pow_pos_nonneg; lia).
  pose proof (big_enough e Hmin) as Hbig. generalize dependent (10 ^ 400). intros B Hbig.
  set (v := Zpos m * B / 2 ^ (- e)).
  assert (Hv : 0 < v) by (apply Z.div_str_pos; nia).
  assert (Hle : v * 2 ^ (- e) <= Zpos m * B) by (rewrite Z.mul_comm; by apply Z.mul_div_le).
  clearbody v. destruct v as [|p|p]; try done. destruct (decimal_digits_lower p) as [Hk Hl]. split; [lia|].
  replace (decimal_digits (Zpos p) - 400 + 399) with (decimal_digits (Zpos p) - 1) by lia. nia.
Qed.
Lemma round_half_even_pos num den : 0 < den -> den <= num -> 0 < round_half_even num den.
Proof.
  intros Hd Hn. unfold round_half_even. assert (1 <= num / den) by (by apply Z.div_le_lower_bound; lia).
  destruct (_ <? _); [lia|]. destruct (_ <? _); [lia|]. destruct (Z.even _); lia.
Qed.
(** The digits before rounding are at least [10^(n-1)], so at least 1. *)
Lemma scaled_num_den m e n :
  1 <= n -> -1074 <= e ->
  let k := decimal_exponent (Zpos m) e in
  let num := Zpos m * (if 0 <=? e then 2 ^ e else 1) * (if k - n <=? 0 then 10 ^ (- (k - n)) else 1) in
  let den := (if 0 <=? e then 1 else 2 ^ (- e)) * (if k - n <=? 0 then 1 else 10 ^ (k - n)) in
  0 < den <= num.
Proof.
  intros Hn He k num den. subst num den. destruct (Z.leb_spec 0 e) as [H0|H0].
  - pose proof (decimal_exponent_up m e H0) as Hk. fold k in Hk.
    assert (0 < 2 ^ e) by (by apply Z.pow_pos_nonneg).
    destruct (Z.leb_spec (k - n) 0) as [H1|H1].
    + assert (0 < 10 ^ (- (k - n))) by (apply Z.pow_pos_nonneg; lia). nia.
    + assert (0 < 10 ^ (k - n)) by (apply Z.pow_pos_nonneg; lia).
      assert (10 ^ (k - n) <= 10 ^ (k - 1)) by (apply Z.pow_le_mono_r; lia). lia.
  - destruct (decimal_exponent_down m e He H0) as [Hk1 Hk]. fold k in Hk1, Hk.
    assert (H2 : 0 < 2 ^ (- e)) by (apply Z.pow_pos_nonneg; lia).
    set (t := 2 ^ (- e)) in *. destruct (Z.leb_spec (k - n) 0) as [H1|H1].
    + assert (H3 : 0 < 10 ^ (- (k - n))) by (apply Z.pow_pos_nonneg; lia). split; [lia|].
      assert (H4 : 10 ^ 400 <= 10 ^ (k + 399) * 10 ^ (- (k - n))).
      { rewrite <- Z.pow_add_r by lia. apply Z.pow_le_mono_r; lia. }
      assert (H5 : 0 < 10 ^ 400) by (by apply Z.pow_pos_nonneg).
      generalize dependent (10 ^ 400). generalize dependent (10 ^ (k + 399)).
      generalize dependent (10 ^ (- (k - n))). intros c H3 b a Hk H4 H5.
      apply (Z.mul_le_mono_pos_r _ _ a H5).
      transitivity (b * c * t); [nia|]. transitivity (b * t * c); [lia|]. nia.
    + assert (H3 : 0 < 10 ^ (k - n)) by (apply Z.pow_pos_nonneg; lia). split; [nia|].
      assert (H4 : 10 ^ (k - n) * 10 ^ 400 <= 10 ^ (k + 399)).
      { rewrite <- Z.pow_add_r by lia. apply Z.pow_le_mono_r; lia. }
      assert (H5 : 0 < 10 ^ 400) by (by apply Z.pow_pos_nonneg).
      generalize dependent (10 ^ 400). generalize dependent (10 ^ (k + 399)).
      generalize dependent (10 ^ (k - n)). intros c H3 b a Hk H4 H5.
      apply (Z.mul_le_mono_pos_r _ _ a H5). nia.
Qed.
Lemma round_digits_pos m e n :
  1 <= n -> -1074 <= e -> 0 < (round_digits (Zpos m) e (decimal_exponent (Zpos m) e) n).1.
Proof.
  intros Hn He. destruct (scaled_num_den m e n Hn He) as [H1 H2]. unfold round_digits.
  pose proof (round_half_even_pos _ _ H1 H2) as Hp.
  cbv zeta. generalize dependent (round_half_even (Zpos m * (if 0 <=? e then 2 ^ e else 1) *
    (if decimal_exponent (Zpos m) e - n <=? 0 then 10 ^ (- (decimal_exponent (Zpos m) e - n)) else 1))
    ((if 0 <=? e then 1 else 2 ^ (- e)) *
     (if decimal_exponent (Zpos m) e - n <=? 0 then 1 else 10 ^ (decimal_exponent (Zpos m) e - n)))).
  intros d Hp. destruct (Z.eqb_spec d (10 ^ n)) as [E|]; simpl; [|done].
  rewrite E. replace n with (n - 1 + 1) by lia. rewrite Z.pow_add_r by lia. change (10 ^ 1) with 10.
  rewrite Z.div_mul by done. apply Z.pow_pos_nonneg; lia.
Qed.
Lemma shortest_from_pos fuel m e n :
  1 <= n -> -1074 <= e -> 0 < (shortest_from fuel m e (decimal_exponent (Zpos m) e) n).1.
Proof.
  intros Hn He. revert n Hn. induction fuel as [|fuel IH]; intros n Hn; cbn [shortest_from];
    pose proof (round_digits_pos m e n Hn He) as Hp;
    destruct (round_digits (Zpos m) e (decimal_exponent (Zpos m) e) n) as [d ex]; [done|].
  destruct (bool_decide _); [done|]. apply IH. lia.
Qed.

(** ** Their texts *)
Lemma all_digits_zeros n : all_digits (zeros n).
Proof. induction n; [done|]. by apply all_digits_cons. Qed.
Lemma substring_parts k s :
  (k <= String.length s)%nat ->
  let a := String.substring 0 k s in
  let b := String.substring k (String.length s - k) s in
  s = a ++ b /\ String.length a = k /\ String.length b = (String.length s - k)%nat.
Proof.
  revert k. induction s as [|x s IH]; intros [|k] Hk; simpl in *; try lia; [done| |].
  - destruct (IH 0%nat ltac:(lia)) as (E & _ & El). rewrite Nat.sub_0_r in *. destruct s; simpl in *.
    + done.
    + rewrite app_empty in *. simpl in *. split_and!; [congruence|done|congruence].
  - destruct (IH k ltac:(lia)) as (E & Ea & Eb). rewrite app_cons, <- E. split_and!; [done|congruence|done].
Qed.
Lemma leading_app a b : leading (a ++ b) -> a <> "" -> leading a /\ all_digits b.
Proof.
  intros (x & ds & E & Hx & Hd & Hds) Ha. destruct a as [|y a]; [done|].
  rewrite app_cons in E. injection E as -> <-. apply all_digits_app in Hds as [? ?]. split; [|done]. by exists x, a.
Qed.
Lemma leading_split k s :
  leading s -> (1 <= k <= String.length s)%nat ->
  leading (String.substring 0 k s) /\ all_digits (String.substring k (String.length s - k) s) /\
  String.length (String.substring k (String.length s - k) s) = (String.length s - k)%nat.
Proof.
  intros Hs Hk. destruct (substring_parts k s) as (E & Ea & Eb); [lia|]. rewrite E in Hs.
  apply leading_app in Hs as [? ?]; [done|]. intros E0. rewrite E0 in Ea. simpl in Ea. lia.
Qed.
Lemma number_parts (neg : bool) ip fr ex :
  integer_part ip -> fraction_part fr -> exponent_part ex ->
  number ((if neg then "-" else "") ++ ip ++ fr ++ ex).
Proof. intros Hi Hf He. eexists _, ip, fr, ex. split; [reflexivity|]. split; [destruct neg; auto|done]. Qed.
Lemma some_digits s : (0 < String.length s)%nat -> s <> "".
Proof. by destruct s; simpl; [lia|]. Qed.

Lemma number_place_point (neg : bool) d ex :
  0 < d -> number ((if neg then "-" else "") ++ place_point d ex).
Proof.
  intros Hd. destruct d as [|p|p]; try done. pose proof (FormatInt_leading p) as Hl.
  unfold place_point. set (s := FormatInt (Zpos p)) in *.
  destruct (Z.leb_spec 0 ex) as [H0|H0].
  - rewrite <- (string_app_nil (s ++ _)), <- (string_app_nil ((s ++ _) ++ "")), <- string_app_assoc.
    apply number_parts; [|by left..]. right. destruct Hl as (a & ds & -> & ? & ? & ?). exists a, (ds ++ zeros (Z.to_nat ex)).
    rewrite app_cons. split_and!; try done. apply all_digits_app. split; [done|apply all_digits_zeros].
  - destruct (Z.ltb_spec 0 (Z.of_nat (String.length s) + ex)) as [H1|H1].
    + destruct (leading_split (Z.to_nat (Z.of_nat (String.length s) + ex)) s Hl) as (Ha & Hb & Hn); [lia|].
      replace (String.length s - Z.to_nat (Z.of_nat (String.length s) + ex))%nat with (Z.to_nat (- ex)) in * by lia.
      rewrite <- (string_app_nil ("." ++ _)). apply number_parts; [by right|right|by left].
      eexists. split; [reflexivity|]. split; [|done]. apply some_digits. lia.
    + change ("0." ++ zeros (Z.to_nat (- (Z.of_nat (String.length s) + ex))) ++ s) with
        ("0" ++ "." ++ zeros (Z.to_nat (- (Z.of_nat (String.length s) + ex))) ++ s).
      rewrite <- (string_app_nil ("." ++ _)). apply number_parts; [by left|right|by left].
      eexists. split; [reflexivity|]. split.
      * apply some_digits. rewrite string_app_length. destruct Hl as (a & ds & -> & _). simpl. lia.
      * apply all_digits_app. split; [apply all_digits_zeros|by apply leading_digits].
Qed.
Lemma FormatInt_natural z : 0 <= z -> FormatInt z <> "" /\ all_digits (FormatInt z).
Proof.
  intros Hz. destruct z as [|p|p]; [done| |done]. destruct (FormatInt_leading p) as (a & ds & E & H).
  split; [by rewrite E|]. apply leading_digits. by exists a, ds.
Qed.
Lemma number_json_exponent (neg : bool) d ex :
  0 < d -> number ((if neg then "-" else "") ++ json_exponent d ex).
Proof.
  intros Hd. destruct d as [|p|p]; try done. pose proof (FormatInt_leading p) as Hl.
  unfold json_exponent. set (s := FormatInt (Zpos p)) in *. set (x := ex + _ - 1).
  assert (H1 : (1 <= String.length s)%nat) by (destruct Hl as (a & ds & -> & _); simpl; lia).
  destruct (leading_split 1 s Hl) as (Ha & Hb & Hn); [lia|].
  destruct (FormatInt_natural (Z.abs x)) as [Hx1 Hx2]; [lia|].
  apply number_parts; [by right| |].
  - destruct (Z.ltb_spec 1 (Z.of_nat (String.length s))); [right|by left].
    replace (Z.to_nat (Z.of_nat (String.length s) - 1)) with (String.length s - 1)%nat by lia.
    eexists. split; [reflexivity|]. split; [|done]. apply some_digits. lia.
  - right. eexists "e"%char, (if x <? 0 then "-" else "+"), (FormatInt (Z.abs x)).
    split; [reflexivity|]. split; [done|]. split; [|done]. destruct (x <? 0); auto.
Qed.
