(* ===== verification/Rounding.v ===== *)
(** * Reading a decimal close to a float gives the float

    [float_of_decimal] rounds a decimal to the nearest binary64, ties to even. Here: a
    decimal less than half a unit in the last place away from a float (a quarter below a
    power of two, where the floats are twice as dense) is read as that float; and
    seventeen significant digits are always that close. So the shortest rendering
    [strconv.FormatFloat] searches for exists, and reads back as the float it renders.
    All is in integers: a value stands for the multiple of [2^-1074] it is. *)
From Stdlib Require Import Ascii SpecFloat Decimal DecimalString DecimalPos.
From S2P Require Import Prelude GoNum Strconv Json JsonParse JsonNumbers.
Local Open Scope Z_scope.

(** ** Digits *)
Lemma digits2_bounds p : 2 ^ (Zpos (digits2_pos p) - 1) <= Zpos p < 2 ^ Zpos (digits2_pos p).
Proof.
  induction p as [p IH|p IH|]; cbn [digits2_pos]; [| |done];
    rewrite Pos2Z.inj_succ; replace (Z.succ (Zpos (digits2_pos p)) - 1) with (Z.succ (Zpos (digits2_pos p) - 1)) by lia;
    rewrite !Z.pow_succ_r by lia; lia.
Qed.
Lemma Zdigits2_bounds q :
  0 <= q -> 0 <= Zdigits2 q /\ q < 2 ^ Zdigits2 q /\ (0 < q -> 1 <= Zdigits2 q /\ 2 ^ (Zdigits2 q - 1) <= q).
Proof.
  intros Hq. destruct q as [|p|p]; try done. pose proof (digits2_bounds p). simpl. lia.
Qed.
Lemma Zdigits2_unique q n : 1 <= n -> 2 ^ (n - 1) <= q < 2 ^ n -> Zdigits2 q = n.
Proof.
  intros Hn Hq. assert (0 < 2 ^ (n - 1)) by (apply Z.pow_pos_nonneg; lia).
  destruct (Zdigits2_bounds q) as (H0 & Hu & Hl); [lia|]. destruct Hl as [H1 Hl]; [lia|].
  assert (n - 1 < Zdigits2 q) by (apply (Z.pow_lt_mono_r_iff 2); lia).
  assert (Zdigits2 q - 1 < n) by (apply (Z.pow_lt_mono_r_iff 2); lia). lia.
Qed.

(** ** Shifting and rounding *)

(** The record [(m, r, s)] of the rounding routine stands for [N / D]: the integer part,
    whether the rest is at least a half, and whether anything is left beyond that. *)
Definition stands (mrs : shr_record) (N D : Z) : Prop :=
  let '(Build_shr_record m r s) := mrs in
  0 <= m /\
  match r, s with
  | false, false => N = m * D
  | false, true => m * D < N /\ 2 * N < (2 * m + 1) * D
  | true, false => 2 * N = (2 * m + 1) * D
  | true, true => (2 * m + 1) * D < 2 * N /\ N < (m + 1) * D
  end.
Lemma stands_scale c mrs N D : 0 < c -> stands mrs N D -> stands mrs (N * c) (D * c).
Proof. destruct mrs as [m [] []]; simpl; nia. Qed.
Lemma stands_floor mrs N D : 0 < D -> stands mrs N D -> 0 <= shr_m mrs /\ shr_m mrs * D <= N < (shr_m mrs + 1) * D.
Proof. destruct mrs as [m [] []]; simpl; nia. Qed.
Lemma stands_shr_1 mrs N D : 0 < D -> stands mrs N D -> stands (shr_1 mrs) N (D * 2).
Proof.
  destruct mrs as [m r s]. intros HD [Hm H]. destruct m as [|[p|p|]|p]; [..|done];
    destruct r, s; simpl in *; (split; [lia|]); nia.
Qed.
Lemma stands_iter p mrs N D : 0 < D -> stands mrs N D -> stands (SpecFloat.iter_pos shr_1 p mrs) N (D * 2 ^ Zpos p).
Proof.
  revert mrs D. induction p as [p IH|p IH|]; intros mrs D HD H; cbn [SpecFloat.iter_pos].
  - pose proof (IH _ (D * 2) ltac:(lia) (stands_shr_1 _ _ _ HD H)) as H1.
    assert (0 < 2 ^ Zpos p) by (by apply Z.pow_pos_nonneg).
    pose proof (IH _ (D * 2 * 2 ^ Zpos p) ltac:(nia) H1) as H2.
    replace (Zpos p~1) with (1 + Zpos p + Zpos p) by lia. rewrite !Z.pow_add_r by lia.
    by rewrite !Z.mul_assoc.
  - assert (0 < 2 ^ Zpos p) by (by apply Z.pow_pos_nonneg).
    pose proof (IH _ (D * 2 ^ Zpos p) ltac:(nia) (IH _ _ HD H)) as H2.
    replace (Zpos p~0) with (Zpos p + Zpos p) by lia. rewrite Z.pow_add_r by lia.
    by rewrite Z.mul_assoc.
  - apply stands_shr_1; done.
Qed.
Lemma stands_shr n mrs e N D :
  0 < D -> 0 <= n -> stands mrs N D -> stands (shr mrs e n).1 N (D * 2 ^ n) /\ (shr mrs e n).2 = e + n.
Proof.
  intros HD Hn H. destruct n as [|p|p]; try done; simpl.
  - rewrite Z.mul_1_r. split; [done|lia].
  - split; [by apply stands_iter|done].
Qed.
(** The only integer less than a half away is the one rounded to. *)
Lemma round_nearest mrs N D M :
  0 < D -> stands mrs N D -> 2 * Z.abs (N - M * D) < D ->
  round_nearest_even (shr_m mrs) (loc_of_shr_record mrs) = M.
Proof.
  destruct mrs as [m r s]. intros HD [Hm H] HM.
  assert (Hr : -D < 2 * (N - M * D) < D) by lia. clear HM.
  destruct r, s; simpl in *.
  - assert (m < M + 0 /\ M < m + 2 \/ M <= m \/ m + 2 <= M) as [?|[?|?]] by lia; nia.
  - assert (M <= m \/ m + 1 <= M) as [?|?] by lia; nia.
  - assert (M = m \/ M < m \/ m < M) as [?|[?|?]] by lia; nia.
  - assert (M = m \/ M < m \/ m < M) as [?|[?|?]] by lia; nia.
Qed.

(** ** A decimal close to a float *)

(** The unit in the last place of a float of exponent [t], in multiples of [2^-1074]. *)
Definition ulp (t : Z) : Z := 2 ^ (t + 1074).
Lemma ulp_pos t : -1074 <= t -> 0 < ulp t.
Proof. intros. apply Z.pow_pos_nonneg; lia. Qed.
Lemma ulp_add n t : 0 <= n -> -1074 <= t -> ulp (n + t) = 2 ^ n * ulp t.
Proof. intros. unfold ulp. rewrite <- Z.pow_add_r by lia. f_equal. lia. Qed.
Lemma ulp_mono t u : -1074 <= t <= u -> ulp t <= ulp u.
Proof. intros. apply Z.pow_le_mono_r; lia. Qed.
Lemma ulp_lt t u : -1074 <= t -> ulp t < ulp u -> t < u.
Proof.
  intros Ht Hl. destruct (Z.lt_ge_cases t u) as [|Hu]; [done|].
  destruct (Z.lt_ge_cases u (-1074)).
  - unfold ulp in *. rewrite (Z.pow_neg_r 2 (u + 1074)) in Hl by lia.
    pose proof (ulp_pos t Ht). unfold ulp in *. lia.
  - pose proof (ulp_mono u t). lia.
Qed.

(** [Y / D] is within half a unit of [m * 2^e], a quarter below a power of two. *)
Definition close (m : positive) (e Y D : Z) : Prop :=
  2 * Z.abs (Y - Zpos m * (D * ulp e)) < D * ulp e /\
  (Zpos m = 2 ^ 52 -> 4 * (Zpos m * (D * ulp e) - Y) < D * ulp e).

Lemma bounded_spec m e :
  bounded 53 1024 m e = true ->
  let n := Zpos (digits2_pos m) in
  -1074 <= e <= 971 /\ n <= 53 /\ (n = 53 \/ e = -1074) /\ fexp 53 1024 (n + e) = e.
Proof.
  unfold bounded, canonical_mantissa, fexp. change (emin 53 1024) with (-1074).
  intros [H1%Z.eqb_eq H2%Z.leb_le]%andb_prop. lia.
Qed.

(** The binade [b] of the number rounded, of which the digits kept are computed. *)
Lemma binade q e' mrs Y D :
  0 < D -> -1074 <= e' -> stands mrs Y (D * ulp e') -> shr_m mrs = q ->
  let b := Zdigits2 q + e' in
  0 <= Zdigits2 q /\ Y < D * ulp b /\ (0 < q -> e' < b /\ D * ulp (b - 1) <= Y).
Proof.
  intros HD He' H <- b. pose proof (ulp_pos e' He') as Hu.
  assert (HDu : 0 < D * ulp e') by (by apply Z.mul_pos_pos).
  destruct (stands_floor _ _ _ HDu H) as (Hq & Hl & Hh).
  destruct (Zdigits2_bounds (shr_m mrs) Hq) as (H0 & H1 & H2). split; [done|]. split.
  - unfold b. rewrite ulp_add by done. nia.
  - intros Hp. destruct (H2 Hp) as [H3 H4]. split; [lia|].
    unfold b. replace (Zdigits2 (shr_m mrs) + e' - 1) with (Zdigits2 (shr_m mrs) - 1 + e') by lia.
    rewrite ulp_add by lia. nia.
Qed.
(** The exponent chosen for it is that of the float, or one less when the float is the
    power of two just above. *)
Lemma binade_close m e b q e' Y D :
  0 < D -> bounded 53 1024 m e = true -> close m e Y D ->
  -1074 <= e' -> e' <= fexp 53 1024 b ->
  (q = 0 -> b = e') -> 0 <= q -> Y < D * ulp b -> (0 < q -> e' < b /\ D * ulp (b - 1) <= Y) ->
  fexp 53 1024 b = e \/ fexp 53 1024 b = e - 1 /\ Zpos m = 2 ^ 52 /\ -1074 < e.
Proof.
  intros HD Hb Hc He' Hf H0 Hq Hh Hl.
  destruct (bounded_spec m e Hb) as (He & Hn & Hne & Hfe). set (n := Zpos (digits2_pos m)) in *.
  destruct (digits2_bounds m) as [Hm1 Hm2]. fold n in Hm1, Hm2.
  destruct Hc as [Hc1 Hc2]. pose proof (ulp_pos e ltac:(lia)) as Hu.
  assert (Hn1 : 1 <= n) by (subst n; lia).
  unfold fexp in *. change (emin 53 1024) with (-1074) in *.
  assert (Hle : b <= n + e).
  { destruct (Z.eq_dec q 0) as [->|Hq0]; [specialize (H0 eq_refl); lia|].
    destruct (Hl ltac:(lia)) as [H1 H2]. destruct (Z.le_gt_cases b (n + e)) as [|Hgt]; [done|].
    pose proof (ulp_mono (n + e) (b - 1) ltac:(lia)) as H3. rewrite ulp_add in H3 by lia. nia. }
  destruct (Z.eq_dec (Z.max (b - 53) (-1074)) e) as [|Hx]; [by left|right].
  assert (Hn53 : n = 53) by lia. clearbody n. subst n. change (2 ^ (53 - 1)) with (2 ^ 52) in Hm1.
  assert (Hb1 : ulp b <= ulp (52 + e)) by (apply ulp_mono; lia). rewrite ulp_add in Hb1 by lia.
  assert (Hm : Zpos m = 2 ^ 52) by nia.
  specialize (Hc2 Hm). rewrite Hm in *. clear Hc1.
  assert (51 + e < b).
  { apply ulp_lt; [lia|]. rewrite ulp_add by lia. change (2 ^ 52) with (2 * 2 ^ 51) in *. nia. }
  lia.
Qed.

(** Rounding such a number gives the float. *)
Lemma round_back neg m e q e' l Y D :
  0 < D -> bounded 53 1024 m e = true -> close m e Y D ->
  stands (shr_record_of_loc q l) Y (D * ulp e') ->
  -1074 <= e' -> e' <= fexp 53 1024 (Zdigits2 q + e') ->
  binary_round_aux 53 1024 neg q e' l = S754_finite neg m e.
Proof.
  intros HD Hb Hc Hs He' Hf. pose proof (ulp_pos e' He') as Hu.
  assert (HDu : 0 < D * ulp e') by (by apply Z.mul_pos_pos).
  assert (Hq : shr_m (shr_record_of_loc q l) = q) by (by destruct l as [|[]]).
  destruct (binade q e' _ Y D HD He' Hs Hq) as (_ & Hh & Hl).
  destruct (stands_floor _ _ _ HDu Hs) as [Hq0 _]. rewrite Hq in Hq0.
  pose proof (binade_close m e (Zdigits2 q + e') q e' Y D HD Hb Hc He' Hf
    ltac:(intros ->; simpl; lia) Hq0 Hh Hl) as He1.
  destruct (bounded_spec m e Hb) as (He & Hn & _ & Hfe).
  destruct Hc as [Hc1 Hc2]. unfold binary_round_aux. unfold shr_fexp at 1.
  remember (fexp 53 1024 (Zdigits2 q + e')) as e1 eqn:E1.
  destruct (stands_shr (e1 - e') _ e' Y _ HDu ltac:(lia) Hs) as [Hs1 Hsn].
  destruct (shr (shr_record_of_loc q l) e' (e1 - e')) as [mrs1 e2]. simpl in Hs1, Hsn.
  rewrite <- Z.mul_assoc, (Z.mul_comm (ulp e')), <- ulp_add in Hs1 by lia.
  replace (e1 - e' + e') with e1 in Hs1 by lia. replace e2 with e1 by lia. clear Hsn e2.
  destruct He1 as [-> | (-> & Hm & Hmin)].
  - rewrite (round_nearest mrs1 Y (D * ulp e) (Zpos m)) by (done || (apply Z.mul_pos_pos; [done|apply ulp_pos; lia])).
    unfold shr_fexp. simpl Zdigits2. rewrite Hfe, Z.sub_diag. simpl.
    by rewrite (proj2 (Z.leb_le _ _)) by lia.
  - specialize (Hc2 Hm). replace (ulp e) with (2 * ulp (e - 1)) in Hc1, Hc2.
    2:{ replace e with (1 + (e - 1)) at 2 by lia. rewrite ulp_add by lia. done. }
    pose proof (ulp_pos (e - 1) ltac:(lia)) as Hu1. set (u := ulp (e - 1)) in *.
    rewrite Hm in Hc1, Hc2. assert (HDu1 : 0 < D * u) by (by apply Z.mul_pos_pos).
    rewrite (round_nearest mrs1 Y (D * u) (2 ^ 53) HDu1 Hs1).
    2:{ assert (Hb1 : ulp (Zdigits2 q + e') <= ulp (53 + (e - 1))).
        { unfold ulp. apply Z.pow_le_mono_r; [done|]. unfold fexp in E1.
          change (emin 53 1024) with (-1074) in E1. lia. }
        rewrite (ulp_add 53) in Hb1 by lia. fold u in Hb1. change (2 ^ 53) with (2 * 2 ^ 52) in *.
        set (h := 2 ^ 52) in *. assert (Y < D * (2 * h * u)) by nia. lia. }
    assert (m = 4503599627370496%positive) as -> by lia.
    unfold shr_fexp. change (Zdigits2 (2 ^ 53)) with 54.
    replace (fexp 53 1024 (54 + (e - 1)) - (e - 1)) with 1
      by (unfold fexp; change (emin 53 1024) with (-1074); lia).
    simpl. replace (e - 1 + 1) with e by lia. by rewrite (proj2 (Z.leb_le _ _)) by lia.
Qed.

(** ** Reading a decimal *)

(** The two parts of a power with an exponent of either sign. *)
Definition pow_up (b x : Z) : Z := if 0 <=? x then b ^ x else 1.
Definition pow_down (b x : Z) : Z := if 0 <=? x then 1 else b ^ (- x).
Lemma pow_parts b x : 0 < b -> 0 < pow_up b x /\ 0 < pow_down b x.
Proof. intros. unfold pow_up, pow_down. destruct (Z.leb_spec 0 x); split; try done; apply Z.pow_pos_nonneg; lia. Qed.

Lemma new_location_stands q B r : 0 < B -> 0 <= q -> 0 <= r < B ->
  stands (shr_record_of_loc q (new_location B r)) (B * q + r) B.
Proof.
  intros HB Hq Hr. unfold new_location, new_location_even, new_location_odd.
  destruct (Z.even B) eqn:Ev; destruct (Z.eqb_spec r 0) as [->|].
  - simpl. lia.
  - destruct (Z.compare_spec (2 * r) B); simpl; lia.
  - simpl. lia.
  - destruct (Z.compare_spec (2 * r + 1) B) as [E|E|E]; simpl; try lia.
    rewrite <- (negb_involutive (Z.even B)), Z.negb_even in Ev. apply negb_false_iff, Z.odd_spec in Ev as [j ->]. lia.
Qed.

Lemma iter_xO a n : Zpos (Pos.iter xO a n) = Zpos a * 2 ^ Zpos n /\
  Zpos (digits2_pos (Pos.iter xO a n)) = Zpos (digits2_pos a) + Zpos n.
Proof.
  induction n as [|n [IH1 IH2]] using Pos.peano_ind; [simpl; lia|].
  rewrite Pos.iter_succ. cbn [digits2_pos]. rewrite Pos2Z.inj_succ, Z.pow_succ_r by lia. lia.
Qed.
(** What [binary_round_aux] is given: a number [Y / D] cut at an exponent fine enough. *)
Definition cut (q e' : Z) (l : location) (Y D : Z) : Prop :=
  stands (shr_record_of_loc q l) Y (D * ulp e') /\ -1074 <= e' /\ e' <= fexp 53 1024 (Zdigits2 q + e').
(** An integer is aligned exactly. *)
Lemma binary_round_cut neg a :
  exists q e' l, binary_round 53 1024 neg a 0 = binary_round_aux 53 1024 neg q e' l /\
    cut q e' l (Zpos a * 2 ^ 1074) 1.
Proof.
  unfold binary_round, shl_align.
  assert (Hf : -1074 <= fexp 53 1024 (Zpos (digits2_pos a) + 0))
    by (unfold fexp; change (emin 53 1024) with (-1074); lia).
  destruct (fexp 53 1024 (Zpos (digits2_pos a) + 0) - 0) as [|f|f] eqn:Ef;
    eexists _, _, _; (split; [reflexivity|]).
  1,2: unfold cut; simpl Zdigits2; split; [done|lia].
  destruct (iter_xO a f) as [H1 H2]. remember (fexp 53 1024 (Zpos (digits2_pos a) + 0)) as t eqn:E.
  assert (Et : t = Zneg f) by lia. split_and!; [|done|].
  - simpl. split; [lia|]. rewrite H1, Z.mul_1_l, <- Z.mul_assoc. f_equal. unfold ulp.
    rewrite <- Z.pow_add_r by lia. f_equal. lia.
  - simpl Zdigits2. rewrite H2. replace (_ + _ + t) with (Zpos (digits2_pos a) + 0) by lia. lia.
Qed.
Lemma division_cut p B :
  0 < B -> let '(q, e', l) := SFdiv_core_binary 53 1024 (Zpos p) 0 B 0 in
  cut q e' l (Zpos p * 2 ^ 1074) B.
Proof.
  intros HB. unfold SFdiv_core_binary. destruct B as [|b|b]; try done.
  pose proof (digits2_bounds p) as [Hp _]. pose proof (digits2_bounds b) as [_ Hq].
  simpl Zdigits2. rewrite !Z.add_0_r, Z.sub_0_l, Z.sub_0_r.
  set (d1 := Zpos (digits2_pos p)) in *. set (d2 := Zpos (digits2_pos b)) in *.
  set (e' := Z.min (fexp 53 1024 (d1 - d2)) 0).
  assert (He' : -1074 <= e' <= 0) by (subst e'; unfold fexp; change (emin 53 1024) with (-1074); lia).
  assert (Hm' : match - e' with Zpos _ => Z.shiftl (Zpos p) (- e') | Z0 => Zpos p | Zneg _ => 0 end
                = Zpos p * 2 ^ (- e')).
  { destruct (- e') as [|x|x] eqn:E; [simpl; lia| |lia]. by rewrite Z.shiftl_mul_pow2. }
  rewrite Hm'. clear Hm'. set (N := Zpos p * 2 ^ (- e')).
  assert (HN : 0 <= N) by (subst N; apply Z.mul_nonneg_nonneg; [done|apply Z.pow_nonneg; done]).
  pose proof (Z_div_mod N (Zpos b) ltac:(done)) as Hdiv.
  destruct (Z.div_eucl N (Zpos b)) as [q r]. destruct Hdiv as [EN Hr].
  assert (Hq0 : 0 <= q) by nia.
  pose proof (ulp_pos e' ltac:(lia)) as Hu.
  split_and!; [|lia|].
  - replace (Zpos p * 2 ^ 1074) with (N * ulp e').
    + apply stands_scale; [done|]. rewrite EN. by apply new_location_stands.
    + subst N. rewrite <- Z.mul_assoc. f_equal. unfold ulp. rewrite <- Z.pow_add_r by lia. f_equal. lia.
  - destruct (Zdigits2_bounds q Hq0) as (H0 & H1 & _).
    assert (Hd : d1 - 1 - e' < Zdigits2 q + d2).
    { apply (Z.pow_lt_mono_r_iff 2); [done|lia|]. rewrite Z.pow_add_r by lia.
      replace (d1 - 1 - e') with (d1 - 1 + - e') by lia. rewrite Z.pow_add_r by lia.
      apply Z.le_lt_trans with N; [subst N; apply Z.mul_le_mono_nonneg_r; [apply Z.pow_nonneg|]; done|].
      apply Z.lt_le_trans with ((q + 1) * Zpos b); [lia|].
      apply Z.mul_le_mono_nonneg; lia. }
    subst e'. unfold fexp in *. change (emin 53 1024) with (-1074) in *. lia.
Qed.
Lemma float_of_decimal_cut neg d ex :
  0 < d -> exists q e' l, float_of_decimal neg d ex = binary_round_aux 53 1024 neg q e' l /\
    cut q e' l (d * pow_up 10 ex * 2 ^ 1074) (pow_down 10 ex).
Proof.
  intros Hd. unfold pow_up, pow_down, float_of_decimal. destruct d as [|p|p]; try done.
  destruct (Z.leb_spec 0 ex) as [Hex|Hex].
  - assert (Hp : 0 < Zpos p * 10 ^ ex) by (by apply Z.mul_pos_pos, Z.pow_pos_nonneg).
    destruct (Zpos p * 10 ^ ex) as [|a|a]; try done. clear Hp.
    assert (binary_normalize 53 1024 (if neg then - Zpos a else Zpos a) 0 neg = binary_round 53 1024 neg a 0)
      as -> by (by destruct neg).
    apply binary_round_cut.
  - rewrite Z.mul_1_r. pose proof (division_cut p (10 ^ (- ex)) ltac:(apply Z.pow_pos_nonneg; lia)) as Hc.
    destruct (SFdiv_core_binary _ _ _ _ _ _) as [[q e'] l]. by exists q, e', l.
Qed.
(** A decimal close to a float is read as the float. *)
Lemma float_of_decimal_close neg d ex m e :
  0 < d -> bounded 53 1024 m e = true ->
  close m e (d * pow_up 10 ex * 2 ^ 1074) (pow_down 10 ex) ->
  float_of_decimal neg d ex = S754_finite neg m e.
Proof.
  intros Hd Hb Hc. destruct (float_of_decimal_cut neg d ex Hd) as (q & e' & l & -> & Hs & He & Hf).
  eapply round_back; [|done|exact Hc|exact Hs|done|done]. by apply pow_parts.
Qed.

(** Whatever is read is a float of the format. *)
Lemma shr_fexp_valid M e1 :
  0 < M <= 2 ^ 53 -> -1074 <= e1 -> 2 ^ 52 <= M \/ e1 = -1074 ->
  let r := shr_fexp 53 1024 M e1 loc_Exact in
  exists m, shr_m r.1 = Zpos m /\ canonical_mantissa 53 1024 m r.2 = true.
Proof.
  intros HM He H. destruct M as [|m|m]; try lia. pose proof (digits2_bounds m) as [Hm1 Hm2].
  unfold shr_fexp, canonical_mantissa, fexp. change (emin 53 1024) with (-1074). simpl Zdigits2.
  destruct (Z.eq_dec (Zpos m) (2 ^ 53)) as [E|E].
  - assert (m = 9007199254740992%positive) as -> by lia. change (Zpos (digits2_pos 9007199254740992)) with 54.
    replace (Z.max (54 + e1 - 53) (-1074) - e1) with 1 by lia. exists 4503599627370496%positive.
    split; [done|]. change (Zpos (digits2_pos 4503599627370496)) with 53. apply Z.eqb_eq. cbn [snd shr]. lia.
  - assert (Zpos (digits2_pos m) - 1 < 53) by (apply (Z.pow_lt_mono_r_iff 2); lia).
    assert (2 ^ 52 <= Zpos m -> 52 < Zpos (digits2_pos m)) by (intros; apply (Z.pow_lt_mono_r_iff 2); lia).
    replace (Z.max (Zpos (digits2_pos m) + e1 - 53) (-1074) - e1) with 0 by lia.
    exists m. split; [done|]. apply Z.eqb_eq. simpl. lia.
Qed.
Lemma round_nearest_range mrs N D :
  0 < D -> stands mrs N D ->
  shr_m mrs <= round_nearest_even (shr_m mrs) (loc_of_shr_record mrs) <= shr_m mrs + 1.
Proof. destruct mrs as [m [] []]; simpl; intros; try lia. destruct (Z.even m); lia. Qed.
Lemma binary_round_aux_valid neg q e' l Y D :
  0 < D -> cut q e' l Y D -> valid_binary 53 1024 (binary_round_aux 53 1024 neg q e' l) = true.
Proof.
  intros HD (Hs & He' & Hf). pose proof (ulp_pos e' He') as Hu.
  assert (HDu : 0 < D * ulp e') by (by apply Z.mul_pos_pos).
  assert (Hq : shr_m (shr_record_of_loc q l) = q) by (by destruct l as [|[]]).
  destruct (binade q e' _ Y D HD He' Hs Hq) as (Hq0 & Hh & Hl).
  unfold binary_round_aux. unfold shr_fexp at 1.
  remember (fexp 53 1024 (Zdigits2 q + e')) as e1 eqn:E1.
  unfold fexp in E1. change (emin 53 1024) with (-1074) in E1.
  destruct (stands_shr (e1 - e') _ e' Y _ HDu ltac:(lia) Hs) as [Hs1 Hsn].
  destruct (shr (shr_record_of_loc q l) e' (e1 - e')) as [mrs1 e2]. simpl in Hs1, Hsn.
  rewrite <- Z.mul_assoc, (Z.mul_comm (ulp e')), <- ulp_add in Hs1 by lia.
  replace (e1 - e' + e') with e1 in Hs1 by lia. replace e2 with e1 by lia. clear Hsn e2.
  assert (HDu1 : 0 < D * ulp e1) by (apply Z.mul_pos_pos; [done|apply ulp_pos; lia]).
  destruct (stands_floor _ _ _ HDu1 Hs1) as (Hm0 & Hm1 & Hm2).
  pose proof (round_nearest_range mrs1 _ _ HDu1 Hs1) as HM.
  set (M := round_nearest_even (shr_m mrs1) (loc_of_shr_record mrs1)) in *.
  assert (Hup : ulp (Zdigits2 q + e') <= 2 ^ 53 * ulp e1).
  { rewrite <- ulp_add by lia. unfold ulp. apply Z.pow_le_mono_r; lia. }
  assert (Hm53 : shr_m mrs1 < 2 ^ 53).
  { apply (Z.mul_lt_mono_pos_r (D * ulp e1)); [done|]. apply Z.le_lt_trans with Y; [done|]. nia. }
  destruct (Z.eq_dec M 0) as [->|HM0].
  { unfold shr_fexp. simpl Zdigits2. unfold fexp. change (emin 53 1024) with (-1074).
    destruct (_ - e1) as [|n|n] eqn:En; try done. lia. }
  destruct (shr_fexp_valid M e1) as (m & Em & Hc); [lia|lia| |].
  { destruct (Z.eq_dec e1 (-1074)) as [|Hne]; [by right|left].
    assert (Hq1 : 0 < q).
    { destruct (Z.eq_dec q 0) as [->|]; [|destruct (stands_floor _ _ _ HDu Hs); lia]. simpl in *. lia. }
    destruct (Hl Hq1) as [Hl1 Hl2]. replace (Zdigits2 q + e' - 1) with (52 + e1) in Hl2 by lia.
    rewrite ulp_add in Hl2 by lia. nia. }
  destruct (shr_fexp 53 1024 M e1 loc_Exact) as [mrs2 e2]. simpl in Em, Hc. rewrite Em.
  destruct (Z.leb_spec e2 (1024 - 53)); [|done]. simpl. unfold bounded. rewrite Hc. by apply Z.leb_le.
Qed.
Lemma float_of_decimal_valid neg d ex : valid_binary 53 1024 (float_of_decimal neg d ex) = true.
Proof.
  destruct (Z.lt_ge_cases 0 d) as [Hd|Hd].
  - destruct (float_of_decimal_cut neg d ex Hd) as (q & e' & l & -> & Hc).
    eapply binary_round_aux_valid; [|done]. by apply pow_parts.
  - by destruct d.
Qed.

(** ** Seventeen digits *)
Lemma round_half_even_error num den :
  0 < den -> 2 * Z.abs (round_half_even num den * den - num) <= den.
Proof.
  intros Hd. unfold round_half_even.
  pose proof (Z.div_mod num den ltac:(lia)) as E. pose proof (Z.mod_pos_bound num den Hd) as Hr.
  destruct (Z.ltb_spec (2 * (num mod den)) den); [lia|].
  destruct (Z.ltb_spec den (2 * (num mod den))); [lia|]. destruct (Z.even _); lia.
Qed.
Lemma pow_shift b n x : 0 < b -> 0 <= n -> 0 <= n + x -> b ^ n * pow_up b x = b ^ (n + x) * pow_down b x.
Proof.
  intros. unfold pow_up, pow_down. destruct (Z.leb_spec 0 x); rewrite ?Z.mul_1_r, <- Z.pow_add_r by lia; f_equal; lia.
Qed.
Lemma ulp_parts e : -1074 <= e -> ulp e * pow_down 2 e = 2 ^ 1074 * pow_up 2 e.
Proof.
  intros. unfold pow_up, pow_down, ulp. destruct (Z.leb_spec 0 e); rewrite ?Z.mul_1_r, <- Z.pow_add_r by lia; f_equal; lia.
Qed.
(** Seventeen digits place the unit of the last one sixteen orders below the float. *)
Lemma last_digit_small m e :
  -1074 <= e -> let ex := decimal_exponent (Zpos m) e - 17 in
  10 ^ 16 * (2 ^ 1074 * pow_up 10 ex) <= Zpos m * (pow_down 10 ex * ulp e).
Proof.
  intros He ex. pose proof (ulp_parts e He) as Hu. destruct (pow_parts 10 ex) as [Hc Hb]; [done|].
  unfold pow_up, pow_down in Hu. destruct (Z.leb_spec 0 e) as [H0|H0].
  - pose proof (decimal_exponent_up m e H0) as Hk. rewrite Z.mul_1_r in Hu. rewrite Hu.
    assert (Hk1 : 1 <= decimal_exponent (Zpos m) e).
    { unfold decimal_exponent. rewrite (proj2 (Z.leb_le _ _) H0).
      assert (Hp : 0 < Zpos m * 2 ^ e) by (by apply Z.mul_pos_pos, Z.pow_pos_nonneg).
      destruct (Zpos m * 2 ^ e); try done. apply decimal_digits_lower. }
    pose proof (pow_shift 10 16 ex ltac:(done) ltac:(done) ltac:(lia)) as E.
    replace (16 + ex) with (decimal_exponent (Zpos m) e - 1) in E by lia.
    assert (0 < 2 ^ 1074) by (by apply Z.pow_pos_nonneg).
    generalize dependent (2 ^ 1074). intros T Hu HT. nia.
  - destruct (decimal_exponent_down m e He H0) as [Hk1 Hk].
    pose proof (pow_shift 10 416 ex ltac:(done) ltac:(done) ltac:(lia)) as E.
    replace (416 + ex) with (decimal_exponent (Zpos m) e + 399) in E by lia.
    replace 416 with (16 + 400) in E by lia. rewrite Z.pow_add_r in E by lia.
    assert (H4 : 0 < 10 ^ 400) by (by apply Z.pow_pos_nonneg).
    assert (Hp : 0 < 2 ^ (- e)) by (apply Z.pow_pos_nonneg; lia). pose proof (ulp_pos e He).
    rewrite Z.mul_1_r in Hu. rewrite <- Hu.
    generalize dependent (10 ^ 400). generalize dependent (10 ^ (decimal_exponent (Zpos m) e + 399)).
    intros P B Hk E HB. apply (Z.mul_le_mono_pos_l _ _ B HB). clear Hu Hk1.
    set (c := pow_up 10 ex) in *. set (b := pow_down 10 ex) in *. set (t := 2 ^ (- e)) in *. set (u := ulp e) in *.
    set (h := 10 ^ 16) in *. transitivity (h * B * c * (u * t)); [lia|]. rewrite E.
    transitivity (P * t * (b * u)); [lia|]. transitivity (Zpos m * B * (b * u)); [nia|lia].
Qed.

Lemma pow_flip x : (if x <=? 0 then 10 ^ (- x) else 1) = pow_down 10 x /\ (if x <=? 0 then 1 else 10 ^ x) = pow_up 10 x.
Proof.
  unfold pow_up, pow_down. destruct (Z.leb_spec x 0), (Z.leb_spec 0 x); try done; try lia.
  by assert (x = 0) as -> by lia.
Qed.
Lemma scaled_error U L T u m b d c :
  0 <= u -> 0 <= T -> u * L = T * U -> U = 1 \/ L = 1 ->
  2 * Z.abs (d * (L * c) - m * U * b) <= L * c ->
  2 * Z.abs (d * c * T - m * (b * u)) <= T * c.
Proof.
  intros Hu HT E [-> | ->] H.
  - replace T with (u * L) by lia.
    replace (d * c * (u * L) - m * (b * u)) with ((d * (L * c) - m * 1 * b) * u) by lia.
    rewrite Z.abs_mul, (Z.abs_eq u) by done. nia.
  - replace u with (T * U) by lia.
    replace (d * c * T - m * (b * (T * U))) with ((d * (1 * c) - m * U * b) * T) by lia.
    rewrite Z.abs_mul, (Z.abs_eq T) by done. nia.
Qed.
(** The digits before a carry is renormalised. *)
Definition kept (m e ex : Z) : Z :=
  round_half_even (m * pow_up 2 e * pow_down 10 ex) (pow_down 2 e * pow_up 10 ex).
Lemma kept_close m e :
  bounded 53 1024 m e = true -> let ex := decimal_exponent (Zpos m) e - 17 in
  close m e (kept (Zpos m) e ex * pow_up 10 ex * 2 ^ 1074) (pow_down 10 ex).
Proof.
  intros Hb ex. destruct (bounded_spec m e Hb) as (He & Hn & _ & _).
  pose proof (last_digit_small m e ltac:(lia)) as Hsm. cbv zeta in Hsm. fold ex in Hsm.
  destruct (pow_parts 10 ex) as [Hc Hd]; [done|]. destruct (pow_parts 2 e) as [HU HL]; [done|].
  pose proof (round_half_even_error (Zpos m * pow_up 2 e * pow_down 10 ex) (pow_down 2 e * pow_up 10 ex)
    ltac:(by apply Z.mul_pos_pos)) as Herr. fold (kept (Zpos m) e ex) in Herr.
  pose proof (ulp_pos e ltac:(lia)) as Hu. assert (HT : 0 < 2 ^ 1074) by (by apply Z.pow_pos_nonneg).
  apply (scaled_error _ _ (2 ^ 1074) (ulp e)) in Herr; [|lia|lia|by apply ulp_parts; lia|].
  2:{ unfold pow_up, pow_down. destruct (0 <=? e); auto. }
  destruct (digits2_bounds m) as [_ Hm].
  assert (Hm53 : Zpos m < 2 ^ 53) by (eapply Z.lt_le_trans; [done|apply Z.pow_le_mono_r; lia]).
  assert (HD : 0 < pow_down 10 ex * ulp e) by (by apply Z.mul_pos_pos).
  generalize dependent (2 ^ 1074). intros T Hsm Herr HT. set (D := pow_down 10 ex * ulp e) in *.
  set (c := pow_up 10 ex) in *. set (Y := kept (Zpos m) e ex * c * T) in *.
  change (2 ^ 53) with 9007199254740992 in *. change (10 ^ 16) with 10000000000000000 in *. unfold close. fold D. split.
  - assert (T * c < D) by nia. lia.
  - change (2 ^ 52) with 4503599627370496. intros Em. rewrite Em in *.
    assert (2 * (T * c) < D) by nia. lia.
Qed.
(** Renormalising does not change the value. *)
Lemma close_carry m e d ex :
  0 < d -> close m e (d * 10 * pow_up 10 ex * 2 ^ 1074) (pow_down 10 ex) ->
  close m e (d * pow_up 10 (ex + 1) * 2 ^ 1074) (pow_down 10 (ex + 1)).
Proof.
  intros Hd. destruct (Z.le_gt_cases 0 ex) as [H0|H0].
  - unfold pow_up, pow_down. rewrite !(proj2 (Z.leb_le _ _)) by lia. rewrite Z.pow_add_r by lia.
    by replace (d * 10 * 10 ^ ex) with (d * (10 ^ ex * 10 ^ 1)) by lia.
  - replace (pow_down 10 ex) with (10 * pow_down 10 (ex + 1)).
    2:{ unfold pow_down. rewrite (proj2 (Z.leb_gt _ _) H0). destruct (Z.leb_spec 0 (ex + 1)).
        - by assert (ex = -1) as -> by lia.
        - replace (- ex) with (1 + - (ex + 1)) by lia. by rewrite Z.pow_add_r by lia. }
    assert (pow_up 10 ex = 1 /\ pow_up 10 (ex + 1) = 1) as [-> ->].
    { unfold pow_up. rewrite (proj2 (Z.leb_gt _ _) H0). destruct (Z.leb_spec 0 (ex + 1)); [|done].
      by assert (ex = -1) as -> by lia. }
    unfold close. generalize (2 ^ 1074) (pow_down 10 (ex + 1)) (ulp e). intros T D u. lia.
Qed.
(** The shortest rendering is found: it reads back as the float. *)
Lemma round_digits_17 m e :
  bounded 53 1024 m e = true ->
  let '(d, ex) := round_digits (Zpos m) e (decimal_exponent (Zpos m) e) 17 in
  0 < d /\ close m e (d * pow_up 10 ex * 2 ^ 1074) (pow_down 10 ex).
Proof.
  intros Hb. destruct (bounded_spec m e Hb) as (He & _).
  pose proof (round_digits_pos m e 17 ltac:(done) ltac:(lia)) as Hp. revert Hp.
  pose proof (kept_close m e Hb) as Hc. unfold round_digits.
  destruct (pow_flip (decimal_exponent (Zpos m) e - 17)) as [-> ->].
  fold (pow_up 2 e) (pow_down 2 e).
  fold (kept (Zpos m) e (decimal_exponent (Zpos m) e - 17)). cbv zeta in Hc |- *.
  destruct (Z.eqb_spec (kept (Zpos m) e (decimal_exponent (Zpos m) e - 17)) (10 ^ 17)) as [E|]; simpl fst; [|done].
  rewrite E in Hc |- *. change (10 ^ 17 / 10) with (10 ^ 16). change (10 ^ 17) with (10 ^ 16 * 10) in Hc.
  intros _. split; [done|]. by apply close_carry.
Qed.
Lemma binary_round_aux_sign s s' q e' l m e :
  binary_round_aux 53 1024 s q e' l = S754_finite s m e ->
  binary_round_aux 53 1024 s' q e' l = S754_finite s' m e.
Proof.
  unfold binary_round_aux. destruct (shr_fexp 53 1024 q e' l) as [mrs1 e1].
  destruct (shr_fexp _ _ _ e1 _) as [mrs2 e2]. destruct (shr_m mrs2); [done| |done].
  destruct (e2 <=? _); [|done]. by intros [= -> ->].
Qed.
Lemma float_of_decimal_sign neg d ex m e :
  float_of_decimal false d ex = S754_finite false m e -> float_of_decimal neg d ex = S754_finite neg m e.
Proof.
  unfold float_of_decimal. destruct d as [|p|p]; [done| |done]. destruct (Z.leb_spec 0 ex).
  - assert (Hp : 0 < Zpos p * 10 ^ ex) by (by apply Z.mul_pos_pos, Z.pow_pos_nonneg).
    destruct (Zpos p * 10 ^ ex) as [|a|a]; [done| |done]. unfold binary_normalize.
    assert (match (if neg then - Zpos a else Zpos a) with
            | 0 => S754_zero neg | Zpos p => binary_round 53 1024 false p 0
            | Zneg p => binary_round 53 1024 true p 0 end = binary_round 53 1024 neg a 0) as -> by (by destruct neg).
    unfold binary_round. destruct (shl_align _ _ _) as [mz ez]. apply binary_round_aux_sign.
  - destruct (SFdiv_core_binary _ _ _ _ _ _) as [[q e'] l]. apply binary_round_aux_sign.
Qed.
Lemma shortest_from_reads_back fuel m e n :
  bounded 53 1024 m e = true -> 1 <= n -> n + Z.of_nat fuel = 17 ->
  let r := shortest_from fuel m e (decimal_exponent (Zpos m) e) n in
  float_of_decimal false r.1 r.2 = S754_finite false m e.
Proof.
  intros Hb. revert n. induction fuel as [|fuel IH]; intros n Hn Hf; cbn [shortest_from].
  - assert (n = 17) as -> by lia. pose proof (round_digits_17 m e Hb) as H.
    destruct (round_digits _ _ _ _) as [d ex]. destruct H as [Hd Hc]. by apply float_of_decimal_close.
  - destruct (round_digits _ _ _ _) as [d ex]. case_bool_decide; [done|]. apply IH; lia.
Qed.
Lemma shortest_reads_back neg m e :
  bounded 53 1024 m e = true ->
  0 < (shortest m e).1 /\ float_of_decimal neg (shortest m e).1 (shortest m e).2 = S754_finite neg m e.
Proof.
  intros Hb. destruct (bounded_spec m e Hb) as (He & _). split; [apply shortest_from_pos; lia|].
  apply float_of_decimal_sign. by apply (shortest_from_reads_back 16).
Qed.

(** ** How large the digits and the exponent can be *)
Lemma round_half_even_le num den : 0 <= num -> 0 < den -> round_half_even num den <= num + 1.
Proof.
  intros Hn Hd. unfold round_half_even.
  assert (num / den <= num) by (apply Z.div_le_upper_bound; nia).
  destruct (_ <? _); [lia|]. destruct (_ <? _); [lia|]. destruct (Z.even _); lia.
Qed.
Lemma pow10_ge b : 0 <= b -> 2 ^ b <= 10 ^ b.
Proof. intros. by apply Z.pow_le_mono_l. Qed.
Lemma mantissa_small m e : bounded 53 1024 m e = true -> Zpos m <= 10 ^ 53.
Proof.
  intros Hb. destruct (bounded_spec m e Hb) as (He & Hn & _). destruct (digits2_bounds m) as [_ Hm].
  transitivity (2 ^ 53); [|by apply pow10_ge].
  apply Z.lt_le_incl. eapply Z.lt_le_trans; [done|]. apply Z.pow_le_mono_r; lia.
Qed.
Lemma decimal_exponent_range m e :
  bounded 53 1024 m e = true -> -400 < decimal_exponent (Zpos m) e <= 1025.
Proof.
  intros Hb. destruct (bounded_spec m e Hb) as (He & _). pose proof (mantissa_small m e Hb) as Hm.
  assert (Hdig : 0 <= e -> 1 <= decimal_exponent (Zpos m) e).
  { intros H0. unfold decimal_exponent. rewrite (proj2 (Z.leb_le _ _) H0).
    assert (Hp : 0 < Zpos m * 2 ^ e) by (by apply Z.mul_pos_pos, Z.pow_pos_nonneg).
    destruct (Zpos m * 2 ^ e); try done. apply decimal_digits_lower. }
  destruct (Z.leb_spec 0 e) as [H0|H0].
  - specialize (Hdig H0). pose proof (decimal_exponent_up m e H0) as Hk. split; [lia|].
    assert (10 ^ (decimal_exponent (Zpos m) e - 1) <= 10 ^ (53 + e)).
    { rewrite Z.pow_add_r by lia. etrans; [exact Hk|]. apply Z.mul_le_mono_nonneg; [done..| |by apply pow10_ge].
      by apply Z.pow_nonneg. }
    assert (decimal_exponent (Zpos m) e - 1 <= 53 + e) by (apply (Z.pow_le_mono_r_iff 10); lia). lia.
  - destruct (decimal_exponent_down m e ltac:(lia) H0) as [Hk1 Hk]. split; [done|].
    assert (10 ^ (decimal_exponent (Zpos m) e + 399) <= 10 ^ (53 + 400)).
    { assert (0 < 2 ^ (- e)) by (apply Z.pow_pos_nonneg; lia).
      assert (0 < 10 ^ (decimal_exponent (Zpos m) e + 399)) by (apply Z.pow_pos_nonneg; lia).
      rewrite (Z.pow_add_r 10 53 400) by done. assert (0 < 10 ^ 400) by (by apply Z.pow_pos_nonneg).
      generalize dependent (10 ^ 400). intros B Hk HB. generalize dependent (10 ^ 53). intros M HM. nia. }
    assert (decimal_exponent (Zpos m) e + 399 <= 53 + 400) by (apply (Z.pow_le_mono_r_iff 10); lia). lia.
Qed.
(** The exponent of the scientific notation. *)
Definition modest (d ex : Z) : Prop := -10000 < ex + decimal_digits d - 1 < 10000.
Lemma pow_nonneg_le b x n : 1 < b -> 0 <= n -> x <= n -> pow_up b x <= b ^ n.
Proof.
  intros. unfold pow_up. destruct (Z.leb_spec 0 x); [apply Z.pow_le_mono_r; lia|].
  assert (0 < b ^ n) by (apply Z.pow_pos_nonneg; lia). lia.
Qed.
Lemma pow_down_le b x n : 1 < b -> 0 <= n -> - n <= x -> pow_down b x <= b ^ n.
Proof.
  intros. unfold pow_down. destruct (Z.leb_spec 0 x); [|apply Z.pow_le_mono_r; lia].
  assert (0 < b ^ n) by (apply Z.pow_pos_nonneg; lia). lia.
Qed.
Lemma kept_small m e ex :
  bounded 53 1024 m e = true -> -417 <= ex -> kept (Zpos m) e ex <= 10 ^ 1442.
Proof.
  intros Hb Hex. destruct (bounded_spec m e Hb) as (He & _). pose proof (mantissa_small m e Hb) as Hm.
  destruct (pow_parts 10 ex) as [Hc Hd]; [done|]. destruct (pow_parts 2 e) as [HU HL]; [done|].
  unfold kept. etrans; [apply round_half_even_le; [|by apply Z.mul_pos_pos]|].
  - apply Z.mul_nonneg_nonneg; [|lia]. apply Z.mul_nonneg_nonneg; lia.
  - assert (H1 : pow_up 2 e <= 10 ^ 971).
    { etrans; [apply (pow_nonneg_le _ _ 971); lia|]. by apply pow10_ge. }
    assert (H2 : pow_down 10 ex <= 10 ^ 417) by (apply pow_down_le; lia).
    assert (H3 : Zpos m * pow_up 2 e * pow_down 10 ex <= 10 ^ 53 * 10 ^ 971 * 10 ^ 417).
    { apply Z.mul_le_mono_nonneg; [|apply Z.mul_le_mono_nonneg| |]; try lia. }
    rewrite <- !Z.pow_add_r in H3 by done. change 1442 with (53 + 971 + 417 + 1).
    rewrite (Z.pow_add_r _ _ 1) by done. change (10 ^ 1) with 10.
    assert (0 < 10 ^ (53 + 971 + 417)) by (by apply Z.pow_pos_nonneg).
    generalize dependent (10 ^ (53 + 971 + 417)). intros B H3 HB. lia.
Qed.
Lemma round_digits_modest m e n :
  bounded 53 1024 m e = true -> 1 <= n <= 17 ->
  let r := round_digits (Zpos m) e (decimal_exponent (Zpos m) e) n in modest r.1 r.2.
Proof.
  intros Hb Hn. destruct (bounded_spec m e Hb) as (He & _). pose proof (decimal_exponent_range m e Hb) as Hk.
  pose proof (round_digits_pos m e n ltac:(lia) ltac:(lia)) as Hp. revert Hp. cbv zeta.
  unfold round_digits. destruct (pow_flip (decimal_exponent (Zpos m) e - n)) as [-> ->].
  fold (pow_up 2 e) (pow_down 2 e). fold (kept (Zpos m) e (decimal_exponent (Zpos m) e - n)).
  pose proof (kept_small m e (decimal_exponent (Zpos m) e - n) Hb ltac:(lia)) as Hs.
  generalize dependent (kept (Zpos m) e (decimal_exponent (Zpos m) e - n)). intros d Hs.
  assert (Hmod : forall d', 0 < d' -> d' <= 10 ^ 1442 -> 1 <= decimal_digits d' <= 1443).
  { intros [|p|p] Hp Hle; try done. destruct (decimal_digits_lower p) as [H1 H2]. split; [done|].
    assert (decimal_digits (Zpos p) - 1 <= 1442); [|lia]. apply (Z.pow_le_mono_r_iff 10); [done|done|].
    by etrans. }
  unfold modest. destruct (_ =? _); simpl; intros Hp.
  - assert (d / 10 <= 10 ^ 1442).
    { etrans; [|exact Hs]. apply Z.div_le_upper_bound; [done|]. pose proof (Z.mul_div_le d 10). lia. }
    specialize (Hmod _ Hp ltac:(done)). lia.
  - specialize (Hmod _ Hp Hs). lia.
Qed.
Lemma shortest_modest m e : bounded 53 1024 m e = true -> modest (shortest m e).1 (shortest m e).2.
Proof.
  intros Hb. unfold shortest. assert (H : forall fuel n, 1 <= n -> n + Z.of_nat fuel = 17 ->
    let r := shortest_from fuel m e (decimal_exponent (Zpos m) e) n in modest r.1 r.2); [|by apply (H 16%nat)].
  induction fuel as [|fuel IH]; intros n Hn Hf; cbn [shortest_from];
    pose proof (round_digits_modest m e n Hb ltac:(lia)) as Hr; destruct (round_digits _ _ _ _) as [d ex]; [done|].
  case_bool_decide; [done|]. apply IH; lia.
Qed.
