(* ===== verification/FloatText.v ===== *)
(** * The text of a float reads back as the float

    The decimals [strconv.FormatFloat(x, 'f', -1, 64)] writes, which go-redis stores, and
    the ones [encoding/json] writes are scanned by [strconv.ParseFloat] into the same
    decimal, which rounds to the float they were written for: every finite float64 a
    service stores or publishes is read back unchanged. *)
From Stdlib Require Import Ascii SpecFloat Decimal DecimalString DecimalN DecimalPos.
From S2P Require Import Prelude GoNum Strconv Json JsonParse JsonNumbers Rounding.
Local Open Scope string_scope.
Local Open Scope Z_scope.

(** ** Scanning digits *)

(** The number a run of digits denotes when [acc] is what stands before it. *)
Fixpoint digits_from (acc : Z) (s : string) : Z :=
  match s with
  | EmptyString => acc
  | String a s' => digits_from (10 * acc + default 0 (digit_val a)) s'
  end.
Definition len (s : string) : Z := Z.of_nat (String.length s).

Lemma digit_val_digit a : is_digit a = true -> exists d, digit_val a = Some d.
Proof.
  unfold is_digit, digit_val. intros [H1%Nat.leb_le H2%Nat.leb_le]%andb_prop.
  rewrite !(proj2 (Z.leb_le _ _)) by lia. simpl. by eexists.
Qed.
Lemma digit_val_other a : is_digit a = false -> digit_val a = None.
Proof.
  unfold is_digit, digit_val. intros H. destruct (Z.leb_spec 0 (Z.of_nat (nat_of_ascii a) - 48)); [|done].
  destruct (Z.leb_spec (Z.of_nat (nat_of_ascii a) - 48) 9); [|done]. simpl.
  rewrite !(proj2 (Nat.leb_le _ _)) in H by lia. done.
Qed.
Lemma scan_digits_app acc n s r :
  all_digits s -> scan_digits acc n (s ++ r) = scan_digits (digits_from acc s) (n + len s) r.
Proof.
  revert acc n. induction s as [|a s IH]; intros acc n Hs.
  - rewrite app_empty. simpl. by rewrite Z.add_0_r.
  - apply all_digits_cons in Hs as [Ha Hs]. destruct (digit_val_digit a Ha) as [d Hd].
    rewrite app_cons. simpl. rewrite Hd, IH by done. simpl. f_equal. unfold len. simpl. lia.
Qed.
(** Where the digits end. *)
Definition no_digit (r : string) : Prop := match r with EmptyString => True | String a _ => is_digit a = false end.
Lemma scan_digits_stop acc n r : no_digit r -> scan_digits acc n r = (acc, n, r).
Proof. destruct r as [|a r]; [done|]. simpl. intros Ha. by rewrite digit_val_other. Qed.
Lemma scan_digits_all acc n s r :
  all_digits s -> no_digit r -> scan_digits acc n (s ++ r) = (digits_from acc s, n + len s, r).
Proof. intros. rewrite scan_digits_app by done. by apply scan_digits_stop. Qed.
Lemma digits_from_app acc a b : digits_from acc (a ++ b) = digits_from (digits_from acc a) b.
Proof. revert acc. induction a as [|x a IH]; intros acc; [done|]. rewrite app_cons. simpl. apply IH. Qed.
Lemma digits_from_zeros acc n : digits_from acc (zeros n) = acc * 10 ^ Z.of_nat n.
Proof.
  revert acc. induction n as [|n IH]; intros acc; [simpl; lia|]. cbn [zeros digits_from].
  change (default 0 (digit_val "0")) with 0. rewrite IH, Nat2Z.inj_succ, Z.pow_succ_r by lia. lia.
Qed.
Lemma zeros_length n : String.length (zeros n) = n.
Proof. induction n; simpl; congruence. Qed.
(** The digits of a positive integer denote it. *)
Lemma digits_from_uint acc u :
  digits_from (Zpos acc) (NilEmpty.string_of_uint u) = Zpos (Pos.of_uint_acc u acc).
Proof.
  revert acc. induction u as [|u IH|u IH|u IH|u IH|u IH|u IH|u IH|u IH|u IH|u IH]; intros acc;
    cbn [NilEmpty.string_of_uint digits_from Pos.of_uint_acc]; [done|..];
    rewrite <- IH; f_equal;
    match goal with |- context [default 0 ?d] =>
      let v := eval compute in (default 0 d) in change (default 0 d) with v end; lia.
Qed.
Lemma digits_from_FormatInt p : digits_from 0 (FormatInt (Zpos p)) = Zpos p.
Proof.
  unfold FormatInt. simpl. pose proof (to_uint_head p) as Hh.
  pose proof (DecimalPos.Unsigned.of_to p) as Ho.
  pose proof (DecimalPos.Unsigned.to_uint_nonnil p) as Hn.
  destruct (Pos.to_uint p) as [|u|u|u|u|u|u|u|u|u|u]; try done; [by destruct (Hh u)|..];
    simpl in Ho |- *; injection Ho as <-; apply digits_from_uint.
Qed.
Lemma digits_from_natural z : 0 <= z -> digits_from 0 (FormatInt z) = z.
Proof. intros Hz. destruct z; [done|apply digits_from_FormatInt|done]. Qed.

(** ** Scanning decimals *)
Lemma scan_exponent_none : scan_exponent "" = Some (0, "").
Proof. done. Qed.
Lemma scan_exponent_text x :
  -10000 < x < 10000 ->
  scan_exponent ("e" ++ (if x <? 0 then "-" else "+") ++ FormatInt (Z.abs x)) = Some (x, "").
Proof.
  intros Hx. destruct (FormatInt_natural (Z.abs x)) as [Hn Hd]; [lia|].
  assert (Hl : 0 < len (FormatInt (Z.abs x))) by (unfold len; pose proof (some_digits (FormatInt (Z.abs x))); destruct (FormatInt (Z.abs x)); [done|simpl; lia]).
  pose proof (scan_digits_all 0 0 _ "" Hd I) as Es. rewrite string_app_nil, digits_from_natural in Es by lia.
  destruct (Z.ltb_spec x 0); simpl; rewrite ?app_cons, ?app_empty; simpl; rewrite Es;
    (destruct (Z.eqb_spec (0 + len (FormatInt (Z.abs x))) 0); [lia|]); do 2 f_equal; lia.
Qed.
(** What may follow the digits: nothing, or an exponent, which denotes [x]. *)
Definition ends_at (x : Z) (ex : string) : Prop :=
  scan_exponent ex = Some (x, "") /\ match ex with EmptyString => True | String a _ => is_digit a = false /\ a <> "."%char end.
Lemma ends_at_no_digit x ex : ends_at x ex -> no_digit ex.
Proof. intros [_ H]. by destruct ex; [|destruct H]. Qed.
Lemma len_pos s : s <> "" -> 0 < len s.
Proof. destruct s; [done|]. unfold len. simpl. lia. Qed.
Lemma len_nonneg s : 0 <= len s.
Proof. unfold len. lia. Qed.
Lemma scan_decimal_whole ip ex x :
  all_digits ip -> ip <> "" -> ends_at x ex -> scan_decimal (ip ++ ex) = Some (digits_from 0 ip, x, "").
Proof.
  intros Hd Hn He. unfold scan_decimal. rewrite scan_digits_all by (done || by eapply ends_at_no_digit).
  destruct He as [He Hh]. pose proof (len_pos ip Hn).
  assert (E : match ex with
              | "" => (digits_from 0 ip, 0, ex)
              | String a r => if (a =? ".")%char then scan_digits (digits_from 0 ip) 0 r else (digits_from 0 ip, 0, ex)
              end = (digits_from 0 ip, 0, ex)).
  { destruct ex as [|a r]; [done|]. destruct Hh as [_ Hh]. by rewrite (proj2 (Ascii.eqb_neq _ _) Hh). }
  rewrite E, (proj2 (Z.eqb_neq _ _)), He by lia. by rewrite Z.sub_0_r.
Qed.
Lemma scan_decimal_point ip fr ex x :
  all_digits ip -> ip <> "" -> all_digits fr -> ends_at x ex ->
  scan_decimal (ip ++ "." ++ fr ++ ex) = Some (digits_from 0 (ip ++ fr), x - len fr, "").
Proof.
  intros Hd Hn Hf He. unfold scan_decimal. rewrite scan_digits_all by done.
  rewrite app_cons, app_empty. simpl. rewrite scan_digits_all by (done || by eapply ends_at_no_digit).
  destruct He as [He _]. pose proof (len_pos ip Hn). pose proof (len_nonneg fr).
  rewrite (proj2 (Z.eqb_neq _ _)), He by lia. rewrite digits_from_app. do 3 f_equal. 
Qed.
Lemma ends_at_nothing : ends_at 0 "".
Proof. by split. Qed.
Lemma scan_decimal_integer ip :
  all_digits ip -> ip <> "" -> scan_decimal ip = Some (digits_from 0 ip, 0, "").
Proof.
  intros. rewrite <- (string_app_nil ip) at 1. apply scan_decimal_whole; [done..|apply ends_at_nothing].
Qed.
Lemma scan_decimal_fraction ip fr :
  all_digits ip -> ip <> "" -> all_digits fr ->
  scan_decimal (ip ++ "." ++ fr) = Some (digits_from 0 (ip ++ fr), - len fr, "").
Proof.
  intros. rewrite <- (string_app_nil fr) at 1.
  rewrite (scan_decimal_point ip fr "" 0); [done..|apply ends_at_nothing].
Qed.
Lemma ends_at_exponent x :
  -10000 < x < 10000 -> ends_at x ("e" ++ (if x <? 0 then "-" else "+") ++ FormatInt (Z.abs x)).
Proof. intros Hx. split; [by apply scan_exponent_text|done]. Qed.

(** The decimal of a rendering is the one rendered, up to trailing zeros. *)
Definition denotes (body : string) (d ex : Z) : Prop :=
  (exists a t, body = String a t /\ is_digit a = true) /\
  exists m e, scan_decimal body = Some (m, e, "") /\
    forall neg, float_of_decimal neg m e = float_of_decimal neg d ex.
Lemma float_of_decimal_zeros neg d ex :
  0 < d -> 0 <= ex -> float_of_decimal neg (d * 10 ^ ex) 0 = float_of_decimal neg d ex.
Proof.
  intros Hd Hex. assert (0 < d * 10 ^ ex) by (by apply Z.mul_pos_pos, Z.pow_pos_nonneg).
  unfold float_of_decimal. rewrite (proj2 (Z.leb_le _ _) Hex).
  destruct d as [|p|p]; try done. destruct (Zpos p * 10 ^ ex) as [|a|a]; try done.
  change (0 <=? 0) with true. cbv iota. by rewrite Z.mul_1_r.
Qed.
Lemma denotes_ParseFloat neg body d ex x :
  denotes body d ex -> float_of_decimal neg d ex = x -> is_finite x = true ->
  ParseFloat ((if neg then "-" else "") ++ body) = (x, true).
Proof.
  intros ((a & t & -> & Ha) & m & e & Hs & Hf) Hx Hfin.
  unfold ParseFloat.
  assert (split_sign ((if neg : bool then "-" else "") ++ String a t) = (neg, String a t)) as ->.
  { destruct neg; [done|]. rewrite app_empty. simpl.
    destruct (Ascii.eqb_spec a "-") as [->|]; [done|]. by destruct (Ascii.eqb_spec a "+") as [->|]. }
  rewrite bool_decide_false.
  2:{ destruct neg; rewrite ?app_cons, ?app_empty; simpl; intros [= E _].
      revert Ha E. clear. by destruct a as [[] [] [] [] [] [] [] []]. }
  rewrite bool_decide_false.
  2:{ simpl. intros [[= E _]|[= E _]]; revert Ha E; clear; by destruct a as [[] [] [] [] [] [] [] []]. }
  rewrite Hs. cbv zeta. by rewrite Hf, Hx, Hfin.
Qed.

Lemma denotes_place_point d ex : 0 < d -> denotes (place_point d ex) d ex.
Proof.
  intros Hd. destruct d as [|p|p]; try done. pose proof (FormatInt_leading p) as Hl.
  unfold place_point. pose proof (digits_from_FormatInt p) as Hv. set (s := FormatInt (Zpos p)) in *.
  pose proof (leading_digits s Hl) as Hs.
  assert (Hh : exists a t, s = String a t /\ is_digit a = true) by (destruct Hl as (a & t & ? & ? & ? & ?); by exists a, t).
  destruct (Z.leb_spec 0 ex) as [H0|H0].
  - split; [destruct Hh as (a & t & -> & ?); rewrite app_cons; by eexists _, _|].
    eexists _, _. split.
    + apply scan_decimal_integer; [|by destruct Hh as (? & ? & -> & _)].
      apply all_digits_app. split; [done|apply all_digits_zeros].
    + intros neg. rewrite digits_from_app, digits_from_zeros, Hv, Z2Nat.id by done. by apply float_of_decimal_zeros.
  - destruct (Z.ltb_spec 0 (Z.of_nat (String.length s) + ex)) as [H1|H1].
    + destruct (leading_split (Z.to_nat (Z.of_nat (String.length s) + ex)) s Hl) as (Ha & Hb & Hn); [lia|].
      destruct (substring_parts (Z.to_nat (Z.of_nat (String.length s) + ex)) s) as (E & _ & _); [lia|].
      replace (String.length s - Z.to_nat (Z.of_nat (String.length s) + ex))%nat with (Z.to_nat (- ex)) in * by lia.
      set (n := Z.to_nat (Z.of_nat (String.length s) + ex)) in *.
      generalize dependent (String.substring 0 n s). intros ip Ha E.
      generalize dependent (String.substring n (Z.to_nat (- ex)) s). intros fr Hb Hn E.
      pose proof (leading_digits ip Ha) as Hip.
      split; [destruct Ha as (a & t & -> & _ & ? & _); rewrite app_cons; by eexists _, _|].
      eexists _, _. split.
      * apply scan_decimal_fraction; [done| |done]. by destruct Ha as (? & ? & -> & _).
      * intros neg. rewrite <- E, Hv. f_equal. unfold len. lia.
    + change ("0." ++ zeros (Z.to_nat (- (Z.of_nat (String.length s) + ex))) ++ s) with
        ("0" ++ "." ++ zeros (Z.to_nat (- (Z.of_nat (String.length s) + ex))) ++ s).
      split; [by eexists _, _|]. eexists _, _. split.
      * apply scan_decimal_fraction; [done|done|]. apply all_digits_app. split; [apply all_digits_zeros|done].
      * intros neg. rewrite !digits_from_app. change (digits_from 0 "0") with 0.
        rewrite digits_from_zeros, Z.mul_0_l, Hv. f_equal. unfold len. rewrite string_app_length, zeros_length. lia.
Qed.
Lemma denotes_json_exponent d ex : 0 < d -> modest d ex -> denotes (json_exponent d ex) d ex.
Proof.
  intros Hd. destruct d as [|p|p]; try done. pose proof (FormatInt_leading p) as Hl.
  unfold modest, decimal_digits, json_exponent. pose proof (digits_from_FormatInt p) as Hv.
  set (s := FormatInt (Zpos p)) in *. set (x := ex + _ - 1). intros Hx.
  assert (H1 : (1 <= String.length s)%nat) by (destruct Hl as (a & ds & -> & _); simpl; lia).
  destruct (leading_split 1 s Hl) as (Ha & Hb & Hn); [lia|].
  destruct (substring_parts 1 s) as (E & _ & _); [lia|].
  replace (Z.to_nat (Z.of_nat (String.length s) - 1)) with (String.length s - 1)%nat by lia.
  set (ip := String.substring 0 1 s) in *. set (fr := String.substring 1 _ s) in *.
  pose proof (leading_digits ip Ha) as Hip.
  split; [destruct Ha as (a & t & -> & _ & ? & _); rewrite app_cons; by eexists _, _|].
  assert (Hne : ip <> "") by (by destruct Ha as (? & ? & -> & _)).
  pose proof (ends_at_exponent x Hx) as He.
  destruct (Z.ltb_spec 1 (Z.of_nat (String.length s))) as [H2|H2]; eexists _, _; split.
  - rewrite <- string_app_assoc. by apply scan_decimal_point.
  - intros neg. rewrite <- E, Hv. f_equal. unfold len, x. lia.
  - rewrite app_empty. by apply scan_decimal_whole.
  - intros neg. assert (fr = "") as Hfr by (destruct fr; [done|simpl in Hn; lia]).
    rewrite Hfr, string_app_nil in E. rewrite <- E, Hv. f_equal. unfold x. lia.
Qed.

(** ** Which floats occur *)

(** A finite float64: one of the pairs of mantissa and exponent the format has. *)
Definition f_ok (x : float64) : Prop := is_finite x = true /\ valid_binary 53 1024 x = true.
Lemma f_ok_zero : f_ok f_zero.
Proof. done. Qed.
(** A finite float is written as a JSON number. *)
Theorem number_json_float x : f_ok x -> number (json_float x).
Proof.
  intros [Hx Hv]. destruct x as [[]| | |neg m e]; try done.
  - by apply (number_parts true "0" "" ""); left.
  - by apply (number_parts false "0" "" ""); left.
  - destruct (bounded_spec m e Hv) as (He & _).
    pose proof (shortest_from_pos 16 m e 1 ltac:(lia) ltac:(lia)) as Hd. simpl. unfold shortest.
    destruct (shortest_from _ _ _ _ _) as [d ex]. simpl in Hd.
    destruct (_ || _); [by apply number_json_exponent|by apply number_place_point].
Qed.

Lemma number_body lit :
  number lit -> exists a t, (split_sign lit).2 = String a t /\ is_digit a = true.
Proof.
  intros (sg & ip & fr & ex & -> & Hsg & Hip & _).
  destruct (take_integer_part ip "" Hip) as [_ (a & t & -> & Ha)]; [done|].
  exists a, (t ++ fr ++ ex). split; [|done]. destruct Hsg as [->| ->]; [done|].
  rewrite app_empty, app_cons. simpl.
  destruct (Ascii.eqb_spec a "-") as [->|]; [done|]. by destruct (Ascii.eqb_spec a "+") as [->|].
Qed.
(** What is read from a JSON number, without an error, is such a float. *)
Theorem ParseFloat_number lit x : number lit -> ParseFloat lit = (x, true) -> f_ok x.
Proof.
  intros Hn. unfold ParseFloat. destruct (number_body lit Hn) as (a & t & Eb & Ha).
  destruct (number_begins lit Hn) as (b & u & El & Hb).
  destruct (split_sign lit) as [neg body]. simpl in Eb. subst body.
  rewrite bool_decide_false.
  2:{ rewrite El. simpl. intros [= E _]. revert Hb E. clear. by destruct b as [[] [] [] [] [] [] [] []]. }
  rewrite bool_decide_false.
  2:{ simpl. intros [[= E _]|[= E _]]; revert Ha E; clear; by destruct a as [[] [] [] [] [] [] [] []]. }
  destruct (scan_decimal (String a t)) as [[[m e] [|c r]]|]; [|done..]. intros [= <- Hf].
  split; [done|apply float_of_decimal_valid].
Qed.

(** ** The round trips *)

(** What go-redis stores for a float is read back as the float. *)
Lemma ParseFloat_FormatFloat x : f_ok x -> ParseFloat (FormatFloat x) = (x, true).
Proof.
  intros [Hx Hb]. destruct x as [neg| | |neg m e]; try done; [by destruct neg|].
  simpl in Hb. destruct (shortest_reads_back neg m e Hb) as [Hd Hr]. simpl.
  destruct (shortest m e) as [d ex]. by apply (denotes_ParseFloat _ _ d ex); [apply denotes_place_point|..].
Qed.
(** What [encoding/json] writes for a float is read back as the float. *)
Lemma ParseFloat_json_float x : f_ok x -> ParseFloat (json_float x) = (x, true).
Proof.
  intros Hok. pose proof (ParseFloat_FormatFloat x Hok) as Hf. destruct Hok as [Hx Hb].
  destruct x as [neg| | |neg m e]; try done.
  simpl in Hb. destruct (shortest_reads_back neg m e Hb) as [Hd Hr].
  pose proof (shortest_modest m e Hb) as Hm. unfold json_float.
  destruct (shortest m e) as [d ex]. destruct (_ || _); [|done].
  by apply (denotes_ParseFloat _ _ d ex); [apply denotes_json_exponent|..].
Qed.
