(* ===== verification/Domain.v ===== *)
(** * The data of the two services

    [ingestion/internal/domain/telemetry.go], [ingestion/internal/metrics],
    [serving/internal/domain/types.go]. A [time.Time] is its UTC instant in
    nanoseconds since the Unix epoch. *)
From Stdlib Require Import SpecFloat.
From S2P Require Import Prelude GoNum Strconv Json.
Local Open Scope Z_scope.

Definition Time : Type := Z.
(** [t.Unix()] and [time.Unix(s, 0)]. *)
Definition Unix (t : Time) : Z := t / Second.
Definition of_Unix (s : Z) : Time := s * Second.
(** The zero [time.Time], year 1. *)
Definition zero_time : Time := -62135596800 * Second.

(** ** Telemetry *)
Record TelemetryMessage := MkTelemetryMessage {
  ReceivedAt : Time;
  Timestamp : Time;
  VehicleID : string;
  FleetID : string;
  Latitude : float64;
  Longitude : float64;
  SpeedKmh : float64;
  FuelPct : float64;
  EngineTempC : float64;
  BatteryVoltage : float64;
  OdometerKm : float64;
  IsMoving : bool;
  EngineOn : bool;
  RawPayload : string
}.

(** ** Alerts *)
Definition AlertType : Type := string.
Definition AlertSpeeding : AlertType := "SPEEDING".
Definition AlertLowFuel : AlertType := "LOW_FUEL".
Definition AlertEngineOverheat : AlertType := "ENGINE_OVERHEAT".
Definition AlertRouteDeviation : AlertType := "ROUTE_DEVIATION".

Definition AlertSeverity : Type := string.
Definition SeverityInfo : AlertSeverity := "INFO".
Definition SeverityWarning : AlertSeverity := "WARNING".
Definition SeverityCritical : AlertSeverity := "CRITICAL".

Record AlertRule := MkAlertRule {
  rule_Type : AlertType;
  rule_Severity : AlertSeverity;
  rule_Evaluator : TelemetryMessage -> bool
}.

Definition DefaultAlertRules : list AlertRule := [
  MkAlertRule AlertSpeeding SeverityWarning (fun m => f_gtb (SpeedKmh m) (f_of_Z 100));
  MkAlertRule AlertLowFuel SeverityWarning (fun m => f_ltb (FuelPct m) (f_of_Z 10));
  MkAlertRule AlertEngineOverheat SeverityCritical (fun m => f_gtb (EngineTempC m) (f_of_Z 100))
].

(** ** Trips *)
Definition TripScheduled : string := "SCHEDULED".
Definition TripInProgress : string := "IN_PROGRESS".
Definition TripCompleted : string := "COMPLETED".
Definition TripCancelled : string := "CANCELLED".
Definition StopPending : string := "PENDING".
Definition StopArrived : string := "ARRIVED".
Definition StopDeparted : string := "DEPARTED".
Definition StopMissed : string := "MISSED".
Definition StatusOnline : string := "online".
Definition StatusOffline : string := "offline".

(** ** Metrics counters

    The process-wide counters of the ingestion service that the modelled code
    updates; each is an [atomic.Int64]. *)
Record Metrics := MkMetrics {
  MessagesReceived : Z;
  DBWriteSuccess : Z;
  DBWriteFailures : Z;
  DBChannelDrops : Z;
  StateChannelDrops : Z;
  AlertChannelDrops : Z;
  DBDispatchRejected : Z
}.
Definition no_metrics : Metrics := MkMetrics 0 0 0 0 0 0 0.
Definition add_received (n : Z) (m : Metrics) : Metrics :=
  MkMetrics (wrap64 (MessagesReceived m + n)) (DBWriteSuccess m) (DBWriteFailures m)
    (DBChannelDrops m) (StateChannelDrops m) (AlertChannelDrops m) (DBDispatchRejected m).
Definition add_success (n : Z) (m : Metrics) : Metrics :=
  MkMetrics (MessagesReceived m) (wrap64 (DBWriteSuccess m + n)) (DBWriteFailures m)
    (DBChannelDrops m) (StateChannelDrops m) (AlertChannelDrops m) (DBDispatchRejected m).
Definition add_failures (n : Z) (m : Metrics) : Metrics :=
  MkMetrics (MessagesReceived m) (DBWriteSuccess m) (wrap64 (DBWriteFailures m + n))
    (DBChannelDrops m) (StateChannelDrops m) (AlertChannelDrops m) (DBDispatchRejected m).
Definition add_rejected (n : Z) (m : Metrics) : Metrics :=
  MkMetrics (MessagesReceived m) (DBWriteSuccess m) (DBWriteFailures m)
    (DBChannelDrops m) (StateChannelDrops m) (AlertChannelDrops m)
    (wrap64 (DBDispatchRejected m + n)).

Definition newline : string := String (Ascii.ascii_of_nat 10) "".
Definition metric_line (name : string) (v : Z) : string :=
  (name ++ " " ++ FormatInt v ++ newline)%string.
(** The body [HandleMetrics] writes. *)
Definition HandleMetrics (m : Metrics) : string :=
  (metric_line "ingestion_messages_received_total" (MessagesReceived m) ++
   metric_line "ingestion_db_write_success_total" (DBWriteSuccess m) ++
   metric_line "ingestion_db_write_failures_total" (DBWriteFailures m) ++
   metric_line "ingestion_db_channel_drops_total" (DBChannelDrops m) ++
   metric_line "ingestion_state_channel_drops_total" (StateChannelDrops m) ++
   metric_line "ingestion_alert_channel_drops_total" (AlertChannelDrops m) ++
   metric_line "ingestion_db_dispatch_rejected_total" (DBDispatchRejected m))%string.

(** ** Pagination metadata *)
Record PaginationMeta := MkPaginationMeta {
  pm_Page : Z; pm_Limit : Z; pm_Total : Z; pm_Pages : Z
}.
(** Go's integer division truncates toward zero. *)
Definition NewPagination (page limit total : Z) : PaginationMeta :=
  let pages := if 0 <? limit then Z.quot (int_sub (int_add total limit) 1) limit else 0 in
  MkPaginationMeta page limit total pages.

(** The rules do not fire at their thresholds nor on a NaN reading. *)
Example rules_thresholds :
  let m s f e := MkTelemetryMessage 0 0 "v" "f" f_zero f_zero s f e f_zero f_zero false false "" in
  map (fun r => rule_Evaluator r (m (f_of_Z 100) (f_of_Z 10) (f_of_Z 100))) DefaultAlertRules
    = [false; false; false] /\
  map (fun r => rule_Evaluator r (m (f_of_Z 101) (f_of_Z 9) (f_of_Z 101))) DefaultAlertRules
    = [true; true; true] /\
  map (fun r => rule_Evaluator r (m S754_nan S754_nan S754_nan)) DefaultAlertRules
    = [false; false; false].
Proof. vm_compute. done. Qed.

(** The page count is the ceiling of [total / limit]. *)
Lemma NewPagination_pages page limit total :
  0 < limit -> 0 <= total -> total + limit <= int64_max ->
  let p := pm_Pages (NewPagination page limit total) in
  limit * (p - 1) < total <= limit * p \/ (total = 0 /\ p = 0).
Proof.
  intros Hl Ht Hb. unfold NewPagination, int_sub, int_add, int64_max in *. simpl.
  rewrite (proj2 (Z.ltb_lt 0 limit) Hl).
  rewrite (wrap64_id (total + limit)) by (unfold in_int64, int64_min, int64_max; lia).
  rewrite wrap64_id by (unfold in_int64, int64_min, int64_max; lia).
  rewrite Z.quot_div_nonneg by lia.
  destruct (Z.eq_dec total 0) as [->|Hne].
  - right. split; [done|]. apply Z.div_small. lia.
  - left. pose proof (Z.div_mod (total + limit - 1) limit).
    pose proof (Z.mod_pos_bound (total + limit - 1) limit). nia.
Qed.
