(* ===== verification/Rfc3339.v ===== *)
(** * [time.Time] in JSON: RFC 3339 with nanoseconds

    [time.Time.MarshalJSON] and [UnmarshalJSON], which the telemetry payload and the
    responses of the serving handlers go through. A [zoned] time is an instant with
    the offset of its location in seconds. Dates are proleptic Gregorian, counted in
    days since 1970-01-01. *)
From Stdlib Require Import Ascii.
From S2P Require Import Prelude GoNum Strconv Domain.
Local Open Scope Z_scope.

Record zoned := MkZoned { zt_instant : Time; zt_offset : Z }.
Definition UTC (t : Time) : zoned := MkZoned t 0.

(** ** Dates *)
Definition days_from_civil (y m d : Z) : Z :=
  let y := if m <=? 2 then y - 1 else y in
  let yoe := y mod 400 in
  let doy := (153 * (if 2 <? m then m - 3 else m + 9) + 2) / 5 + d - 1 in
  let doe := yoe * 365 + yoe / 4 - yoe / 100 + doy in
  y / 400 * 146097 + doe - 719468.
Definition civil_from_days (z : Z) : Z * Z * Z :=
  let z := z + 719468 in
  let doe := z mod 146097 in
  let yoe := (doe - doe / 1460 + doe / 36524 - doe / 146096) / 365 in
  let doy := doe - (365 * yoe + yoe / 4 - yoe / 100) in
  let mp := (5 * doy + 2) / 153 in
  let d := doy - (153 * mp + 2) / 5 + 1 in
  let m := if mp <? 10 then mp + 3 else mp - 9 in
  let y := yoe + z / 146097 * 400 in
  (if m <=? 2 then y + 1 else y, m, d).
Definition is_leap (y : Z) : bool :=
  (y mod 4 =? 0) && (negb (y mod 100 =? 0) || (y mod 400 =? 0)).
Definition days_in (y m : Z) : Z :=
  if m =? 2 then (if is_leap y then 29 else 28)
  else if (m =? 4) || (m =? 6) || (m =? 9) || (m =? 11) then 30 else 31.

(** ** Printing *)
Definition digit (z : Z) : ascii := ascii_of_nat (Z.to_nat (48 + z mod 10)).
(** The last [n] digits of [z]. *)
Fixpoint pad (n : nat) (z : Z) : string :=
  match n with
  | O => EmptyString
  | S k => String (digit (z / 10 ^ Z.of_nat k)) (pad k z)
  end.
(** The same without trailing zeros. *)
Fixpoint trimmed (n : nat) (z : Z) : string :=
  match n with
  | O => EmptyString
  | S k => if z mod 10 ^ Z.of_nat n =? 0 then EmptyString
           else String (digit (z / 10 ^ Z.of_nat k)) (trimmed k z)
  end.
Definition print_frac (ns : Z) : string :=
  if ns =? 0 then EmptyString else String "."%char (trimmed 9 ns).
Definition print_zone (off : Z) : string :=
  if off =? 0 then "Z"
  else String (if off <? 0 then "-"%char else "+"%char)
         (pad 2 (Z.abs off / 60 / 60) ++ String ":"%char (pad 2 (Z.abs off / 60 mod 60))).
(** [None]: the year has more than four digits, which [MarshalJSON] refuses. *)
Definition format_rfc3339 (t : zoned) : option string :=
  let local := zt_instant t + zt_offset t * Second in
  let secs := local / Second in
  let '(y, m, d) := civil_from_days (secs / 86400) in
  let sod := secs mod 86400 in
  if (0 <=? y) && (y <=? 9999) then
    Some (pad 4 y ++ String "-"%char (pad 2 m ++ String "-"%char (pad 2 d ++ String "T"%char
      (pad 2 (sod / 3600) ++ String ":"%char (pad 2 (sod / 60 mod 60) ++ String ":"%char
      (pad 2 (sod mod 60) ++ print_frac (local mod Second) ++ print_zone (zt_offset t)))))))%string
  else None.

(** ** Parsing *)
Fixpoint scan_fixed (n : nat) (acc : Z) (s : string) : option (Z * string) :=
  match n, s with
  | O, _ => Some (acc, s)
  | S k, String a s' => match digit_val a with
                        | Some d => scan_fixed k (10 * acc + d) s'
                        | None => None
                        end
  | S _, EmptyString => None
  end.
(** [n] digits of weight [10^(n-1)] and below count, more are skipped. *)
Fixpoint scan_frac (n : nat) (s : string) : Z * string :=
  match s with
  | String a s' =>
      match digit_val a with
      | Some d => match n with
                  | O => scan_frac O s'
                  | S k => let '(v, r) := scan_frac k s' in (d * 10 ^ Z.of_nat k + v, r)
                  end
      | None => (0, s)
      end
  | EmptyString => (0, s)
  end.
Definition parse_frac (s : string) : option (Z * string) :=
  match s with
  | String a s' =>
      if (a =? ".")%char then
        match s' with
        | String b _ => match digit_val b with
                        | Some _ => Some (scan_frac 9 s')
                        | None => None
                        end
        | EmptyString => None
        end
      else Some (0, s)
  | EmptyString => Some (0, s)
  end.
(** A literal character. *)
Definition expect (a : ascii) (s : string) : option string :=
  match s with
  | String b s' => if (b =? a)%char then Some s' else None
  | EmptyString => None
  end.
Definition parse_zone (s : string) : option Z :=
  match s with
  | String a s' =>
      if (a =? "Z")%char then (if bool_decide (s' = ""%string) then Some 0 else None)
      else if ((a =? "+")%char || (a =? "-")%char) then
        h ← scan_fixed 2 0 s'; s2 ← expect ":"%char h.2; m ← scan_fixed 2 0 s2;
        if bool_decide (m.2 = ""%string) && (h.1 <=? 23) && (m.1 <=? 59)
        then Some (let off := (h.1 * 60 + m.1) * 60 in if (a =? "-")%char then - off else off)
        else None
      else None
  | EmptyString => None
  end.
Definition parse_rfc3339 (s : string) : option zoned :=
  y ← scan_fixed 4 0 s; s ← expect "-"%char y.2;
  m ← scan_fixed 2 0 s; s ← expect "-"%char m.2;
  d ← scan_fixed 2 0 s; s ← expect "T"%char d.2;
  h ← scan_fixed 2 0 s; s ← expect ":"%char h.2;
  mi ← scan_fixed 2 0 s; s ← expect ":"%char mi.2;
  se ← scan_fixed 2 0 s;
  f ← parse_frac se.2;
  off ← parse_zone f.2;
  if (1 <=? m.1) && (m.1 <=? 12) && (1 <=? d.1) && (d.1 <=? days_in y.1 m.1) &&
     (h.1 <=? 23) && (mi.1 <=? 59) && (se.1 <=? 59)
  then let secs := days_from_civil y.1 m.1 d.1 * 86400 + h.1 * 3600 + mi.1 * 60 + se.1 in
       Some (MkZoned ((secs - off) * Second + f.1) off)
  else None.

Example rfc3339_examples :
  parse_rfc3339 "2024-01-01T00:00:00Z" = Some (UTC (1704067200 * Second)) /\
  (parse_rfc3339 "2024-02-29T23:59:59.0125+05:30" ≫= format_rfc3339)
    = Some "2024-02-29T23:59:59.0125+05:30"%string /\
  parse_rfc3339 "2023-02-29T00:00:00Z" = None /\
  parse_rfc3339 "2024-1-01T00:00:00Z" = None /\
  format_rfc3339 (UTC (-1)) = Some "1969-12-31T23:59:59.999999999Z"%string.
Proof. vm_compute. done. Qed.
