(* ===== verification/Config.v ===== *)
(** * Configuration: [ingestion/internal/config], [serving/internal/config]

    The process environment is a function from names to values; [os.Getenv]
    gives the empty string for an unset variable. *)
From Stdlib Require Import Ascii.
From S2P Require Import Prelude GoNum Strconv.
Local Open Scope Z_scope.

Definition Env : Type := string -> string.

Definition getEnv (env : Env) (key fallback : string) : string :=
  if bool_decide (env key <> ""%string) then env key else fallback.

Definition getEnvInt (env : Env) (key : string) (fallback : Z) : Z :=
  let v := env key in
  if bool_decide (v = ""%string) then fallback
  else match Atoi v with
       | None => fallback
       | Some n => n
       end.

Definition comma : ascii := ","%char.

Module Ingestion.
Record Config := MkConfig {
  HTTPPort : string;
  DBHost : string; DBPort : string; DBUser : string; DBPassword : string; DBName : string;
  DBMaxConns : Z;
  RedisAddr : string; RedisPassword : string; RedisDB : Z;
  DBChannelSize : Z; StateChannelSize : Z; AlertChannelSize : Z;
  DBBatchSize : Z; DBFlushIntervalMS : Z;
  DBWriterWorkers : Z; StateWriterWorkers : Z; AlertWorkers : Z;
  AuthCacheTTLSeconds : Z;
  ValidAPIKeys : list string
}.
Definition Load (env : Env) : Config := {|
  HTTPPort := getEnv env "HTTP_PORT" "8001";
  DBHost := getEnv env "DB_HOST" "localhost";
  DBPort := getEnv env "DB_PORT" "5432";
  DBUser := getEnv env "DB_USER" "fleet_user";
  DBPassword := getEnv env "DB_PASSWORD" "fleet_password";
  DBName := getEnv env "DB_NAME" "fleet_monitor";
  DBMaxConns := wrap32 (getEnvInt env "DB_MAX_CONNS" 15);
  RedisAddr := getEnv env "REDIS_ADDR" "localhost:6379";
  RedisPassword := getEnv env "REDIS_PASSWORD" "";
  RedisDB := getEnvInt env "REDIS_DB" 0;
  DBChannelSize := getEnvInt env "DB_CHANNEL_SIZE" 10000;
  StateChannelSize := getEnvInt env "STATE_CHANNEL_SIZE" 50000;
  AlertChannelSize := getEnvInt env "ALERT_CHANNEL_SIZE" 10000;
  DBBatchSize := getEnvInt env "DB_BATCH_SIZE" 500;
  DBFlushIntervalMS := getEnvInt env "DB_FLUSH_INTERVAL_MS" 100;
  DBWriterWorkers := getEnvInt env "DB_WRITER_WORKERS" 10;
  StateWriterWorkers := getEnvInt env "STATE_WRITER_WORKERS" 5;
  AlertWorkers := getEnvInt env "ALERT_WORKERS" 3;
  AuthCacheTTLSeconds := getEnvInt env "AUTH_CACHE_TTL_SECONDS" 300;
  ValidAPIKeys := Split comma (getEnv env "VALID_API_KEYS" "")
|}.
End Ingestion.

Module Serving.
Record Config := MkConfig {
  HTTPPort : string;
  DBHost : string; DBPort : string; DBUser : string; DBPassword : string; DBName : string;
  DBMaxConns : Z;
  RedisAddr : string; RedisPassword : string; RedisDB : Z;
  ValidAPIKeys : list string;
  AuthCacheTTLSeconds : Z;
  HeartbeatIntervalSeconds : Z;
  StalenessThresholdSeconds : Z;
  StopDetectorIntervalSeconds : Z;
  DeviationDetectorIntervalSeconds : Z
}.
Definition Load (env : Env) : Config := {|
  HTTPPort := getEnv env "HTTP_PORT" "8002";
  DBHost := getEnv env "DB_HOST" "localhost";
  DBPort := getEnv env "DB_PORT" "5432";
  DBUser := getEnv env "DB_USER" "fleet_user";
  DBPassword := getEnv env "DB_PASSWORD" "fleet_password";
  DBName := getEnv env "DB_NAME" "fleet_monitor";
  DBMaxConns := wrap32 (getEnvInt env "DB_MAX_CONNS" 10);
  RedisAddr := getEnv env "REDIS_ADDR" "localhost:6379";
  RedisPassword := getEnv env "REDIS_PASSWORD" "";
  RedisDB := getEnvInt env "REDIS_DB" 0;
  ValidAPIKeys := Split comma (getEnv env "VALID_API_KEYS" "");
  AuthCacheTTLSeconds := getEnvInt env "AUTH_CACHE_TTL_SECONDS" 300;
  HeartbeatIntervalSeconds := getEnvInt env "HEARTBEAT_INTERVAL_SECONDS" 30;
  StalenessThresholdSeconds := getEnvInt env "STALENESS_THRESHOLD_SECONDS" 60;
  StopDetectorIntervalSeconds := getEnvInt env "STOP_DETECTOR_INTERVAL_SECONDS" 30;
  DeviationDetectorIntervalSeconds := getEnvInt env "DEVIATION_DETECTOR_INTERVAL_SECONDS" 60
|}.
End Serving.

(** Every integer setting is a 64-bit integer, whatever the environment holds. *)
Lemma getEnvInt_range env key fallback :
  in_int64 fallback -> in_int64 (getEnvInt env key fallback).
Proof.
  intros Hf. unfold getEnvInt. case_bool_decide; [done|].
  destruct (Atoi (env key)) eqn:E; [|done]. by apply ParseInt_range in E.
Qed.

(** Writing an integer to a variable and loading it gives it back. *)
Lemma getEnvInt_set env key fallback n :
  in_int64 n -> env key = FormatInt n -> FormatInt n <> ""%string ->
  getEnvInt env key fallback = n.
Proof.
  intros Hn Hk Hne. unfold getEnvInt. rewrite Hk. rewrite bool_decide_false by done.
  unfold Atoi. by rewrite ParseInt_FormatInt.
Qed.
