(* ===== verification/RedisStore.v ===== *)
(** * [ingestion/internal/store/redis.go]

    The operations of [RedisStore], written against the Redis client interface,
    and the narrow interfaces through which the rest of the ingestion service
    uses them: [ApiKeyStore] for the authenticator, [AlertDedupStore] for the
    alert evaluator, [StateStore] for the state writer. *)
From S2P Require Import Prelude GoNum Strconv Json Redis Domain.
Local Open Scope Z_scope.

(** ** The interfaces of the clients *)
Class ApiKeyStore (S : Type) := {
  GetAPIKey : context -> Time -> string -> S -> res string * S
}.
Class StateStore (S : Type) := {
  PipelineStateUpdates : context -> Time -> list TelemetryMessage -> S -> res unit * S
}.
Class AlertDedupStore (S : Type) := {
  TryClaimAlertDedup : context -> Time -> string -> AlertType -> S -> res bool * S;
  ReleaseAlertDedup : context -> Time -> string -> AlertType -> S -> res unit * S;
  PublishAlert : context -> Time -> string -> string -> S -> res unit * S
}.

(** ** Keys and channels *)
Definition auth_key (apiKey : string) : string := ("vehicle:auth:" ++ apiKey)%string.
Definition state_key (vehicleID : string) : string := ("vehicle:" ++ vehicleID ++ ":state")%string.
Definition alert_key (vehicleID : string) (t : AlertType) : string :=
  ("alert:" ++ vehicleID ++ ":" ++ t)%string.
Definition telemetry_channel (fleetID : string) : string :=
  ("fleet:" ++ fleetID ++ ":telemetry")%string.
Definition alerts_channel (fleetID : string) : string :=
  ("fleet:" ++ fleetID ++ ":alerts")%string.

(** The fields of [stateData], as go-redis stores them in a hash and as
    [encoding/json] writes them. *)
Definition bool_field (b : bool) : string := if b then "1" else "0".
Definition state_fields (m : TelemetryMessage) : list (string * string) := [
  ("vehicle_id", VehicleID m); ("fleet_id", FleetID m);
  ("lat", FormatFloat (Latitude m)); ("lng", FormatFloat (Longitude m));
  ("speed_kmh", FormatFloat (SpeedKmh m)); ("fuel_pct", FormatFloat (FuelPct m));
  ("engine_temp", FormatFloat (EngineTempC m)); ("battery", FormatFloat (BatteryVoltage m));
  ("is_moving", bool_field (IsMoving m)); ("engine_on", bool_field (EngineOn m));
  ("timestamp", FormatInt (Unix (Timestamp m)));
  ("received_at", FormatInt (Unix (ReceivedAt m)))
]%string.
Definition state_json (m : TelemetryMessage) : json := json_map [
  ("vehicle_id", JStr (VehicleID m)); ("fleet_id", JStr (FleetID m));
  ("lat", jfloat (Latitude m)); ("lng", jfloat (Longitude m));
  ("speed_kmh", jfloat (SpeedKmh m)); ("fuel_pct", jfloat (FuelPct m));
  ("engine_temp", jfloat (EngineTempC m)); ("battery", jfloat (BatteryVoltage m));
  ("is_moving", JBool (IsMoving m)); ("engine_on", JBool (EngineOn m));
  ("timestamp", jint (Unix (Timestamp m)));
  ("received_at", jint (Unix (ReceivedAt m)))
]%string.
(** [json.Marshal] fails on a value that is not a finite number. *)
Definition state_marshals (m : TelemetryMessage) : bool :=
  forallb is_finite [Latitude m; Longitude m; SpeedKmh m; FuelPct m; EngineTempC m;
                     BatteryVoltage m].

(** The commands one message adds to the pipeline; 30 seconds of life. *)
Definition state_ttl : Z := 30 * Second.
Definition state_cmds (m : TelemetryMessage) : list rcmd := [
  HSET (state_key (VehicleID m)) (state_fields m);
  EXPIRE (state_key (VehicleID m)) state_ttl;
  PUBLISH (telemetry_channel (FleetID m)) (Marshal (state_json m))
].
Fixpoint state_pipeline (msgs : list TelemetryMessage) : res (list rcmd) :=
  match msgs with
  | [] => Ok []
  | m :: msgs' =>
      if state_marshals m
      then match state_pipeline msgs' with
           | Ok cs => Ok (state_cmds m ++ cs)
           | Err e => Err e
           end
      else Err ("marshal state for " ++ VehicleID m)%string
  end.

Section RedisStore.
Context {R : Type} `{RedisServer R}.

Definition RedisStore_PipelineStateUpdates (cx : context) (now : Time)
    (msgs : list TelemetryMessage) (r : R) : res unit * R :=
  match state_pipeline msgs with
  | Err e => (Err e, r)
  | Ok cs => match redis_exec cx now cs r with
             | (Ok tt, r') => (Ok tt, r')
             | (Err e, r') => (Err ("redis state pipeline failed: " ++ e)%string, r')
             end
  end.

(** A batch of one; the state writer calls the batch form. *)
Definition RedisStore_PipelineStateUpdate (cx : context) (now : Time) (m : TelemetryMessage) (r : R)
  : res unit * R := RedisStore_PipelineStateUpdates cx now [m] r.
Definition RedisStore_GetAPIKey (cx : context) (now : Time) (apiKey : string) (r : R)
  : res string * R :=
  match redis_get cx now (auth_key apiKey) r with
  | (Ok None, r') => (Ok ""%string, r')
  | (Ok (Some val), r') => (Ok val, r')
  | (Err e, r') => (Err ("redis get api key failed: " ++ e)%string, r')
  end.

(** Five minutes. *)
Definition dedup_window : Z := 5 * Minute.
Definition RedisStore_TryClaimAlertDedup (cx : context) (now : Time) (vehicleID : string)
    (t : AlertType) (r : R) : res bool * R :=
  match redis_setnx cx now (alert_key vehicleID t) "1" dedup_window r with
  | (Ok claimed, r') => (Ok claimed, r')
  | (Err e, r') => (Err ("claim alert dedup window: " ++ e)%string, r')
  end.

Definition RedisStore_ReleaseAlertDedup (cx : context) (now : Time) (vehicleID : string)
    (t : AlertType) (r : R) : res unit * R :=
  match redis_unit cx now (DEL (alert_key vehicleID t)) r with
  | (Ok tt, r') => (Ok tt, r')
  | (Err e, r') => (Err ("release alert dedup window: " ++ e)%string, r')
  end.

Definition RedisStore_PublishAlert (cx : context) (now : Time) (fleetID payload : string)
    (r : R) : res unit * R :=
  redis_unit cx now (PUBLISH (alerts_channel fleetID) payload) r.

#[export] Instance RedisStore_ApiKeyStore : ApiKeyStore R :=
  {| GetAPIKey := RedisStore_GetAPIKey |}.
#[export] Instance RedisStore_StateStore : StateStore R :=
  {| PipelineStateUpdates := RedisStore_PipelineStateUpdates |}.
#[export] Instance RedisStore_AlertDedupStore : AlertDedupStore R := {|
  TryClaimAlertDedup := RedisStore_TryClaimAlertDedup;
  ReleaseAlertDedup := RedisStore_ReleaseAlertDedup;
  PublishAlert := RedisStore_PublishAlert
|}.
End RedisStore.

(** ** Lemmas *)

(** String concatenation is injective on both sides, so keys with a fixed prefix
    and suffix are. *)
Lemma list_ascii_app a b :
  String.list_ascii_of_string (a ++ b) =
  String.list_ascii_of_string a ++ String.list_ascii_of_string b.
Proof. induction a as [|x a IH]; simpl; [done|]. by rewrite IH. Qed.

Lemma string_app_inj_r p a b : (a ++ p)%string = (b ++ p)%string -> a = b.
Proof.
  intros Heq. apply (f_equal String.list_ascii_of_string) in Heq.
  rewrite !list_ascii_app in Heq. apply (inj (.++ _)) in Heq.
  apply (f_equal String.string_of_list_ascii) in Heq.
  by rewrite !String.string_of_list_ascii_of_string in Heq.
Qed.

Lemma state_key_inj a b : state_key a = state_key b -> a = b.
Proof. unfold state_key. intros Heq%(inj (String.app _)). by eapply string_app_inj_r. Qed.

Lemma auth_key_inj a b : auth_key a = auth_key b -> a = b.
Proof. apply (inj (String.app _)). Qed.

Lemma alert_key_inj_type v a b : alert_key v a = alert_key v b -> a = b.
Proof. unfold alert_key. by intros Heq%(inj (String.app _))%(inj (String.app _))%(inj (String.app _)). Qed.
