(* ===== verification/Auth.v ===== *)
(** * API-key authentication

    [ingestion/internal/auth/authenticator.go] (module [Ingestion]) and
    [serving/internal/auth/authenticator.go] (module [Serving]). An authenticator
    is its in-process cache, the cache lifetime and the static keys; a call also
    threads the store it consults. The interface [Validator] is what the HTTP
    middlewares and the WebSocket hub require of it. *)
From S2P Require Import Prelude GoNum Strconv Redis Domain Config RedisStore.
Local Open Scope Z_scope.

Record cacheEntry := MkCacheEntry { ce_fleetID : string; ce_expiresAt : Time }.

Record Authenticator := MkAuthenticator {
  localCache : gmap string cacheEntry;
  auth_ttl : Z;
  staticKeys : gset string
}.
Definition set_cache (a : Authenticator) (c : gmap string cacheEntry) : Authenticator :=
  MkAuthenticator c (auth_ttl a) (staticKeys a).

(** The three clock readings of one call: [time.Now()] when the cache is checked,
    the server's time when Redis answers, [time.Now()] when the answer is cached. *)
Record instants := MkInstants { at_check : Time; at_redis : Time; at_store : Time }.
Definition at_once (t : Time) : instants := MkInstants t t t.

(** What the middlewares need: the fleet a key may act for. *)
Class Validator (V : Type) := {
  v_FleetID : context -> instants -> string -> V -> (string * bool) * V
}.
Class ValidatorLaws (V : Type) `{Validator V} : Prop := {
  v_empty : forall cx i v, v_FleetID cx i "" v = (("", false), v)
}.

(** The loop of both constructors over the configured keys. *)
Definition static_key_set (keys : list string) : gset string :=
  foldl (fun s k => if bool_decide (k <> ""%string) then {[k]} ∪ s else s) ∅ keys.

(** The cache lookup both services start with: an entry that is still fresh, and
    the cache afterwards. *)
Definition cache_fresh (i : instants) (e : cacheEntry) : bool := at_check i <? ce_expiresAt e.

Module Ingestion.
Section Auth.
Context {S : Type} `{ApiKeyStore S}.

Definition NewAuthenticator (cfg : Config.Ingestion.Config) : Authenticator :=
  MkAuthenticator ∅ (int_mul (Config.Ingestion.AuthCacheTTLSeconds cfg) Second)
    (static_key_set (Config.Ingestion.ValidAPIKeys cfg)).

Definition FleetID (cx : context) (i : instants) (apiKey : string) (w : Authenticator * S)
  : (string * bool) * (Authenticator * S) :=
  let '(a, s) := w in
  if bool_decide (apiKey = ""%string) then (("", false), (a, s))
  else if bool_decide (apiKey ∈ staticKeys a) then (("", true), (a, s))
  else
    let lookup (a : Authenticator) :=
      match GetAPIKey cx (at_redis i) apiKey s with
      | (Err _, s') => (("", false), (a, s'))
      | (Ok fleetID, s') =>
          if bool_decide (fleetID = ""%string) then (("", false), (a, s'))
          else ((fleetID, true),
                (set_cache a (<[apiKey := MkCacheEntry fleetID (at_store i + auth_ttl a)]>
                                (localCache a)), s'))
      end in
    match localCache a !! apiKey with
    | Some entry =>
        if cache_fresh i entry then ((ce_fleetID entry, true), (a, s))
        else lookup (set_cache a (delete apiKey (localCache a)))
    | None => lookup a
    end.

Definition Validate (cx : context) (i : instants) (apiKey : string) (w : Authenticator * S)
  : bool * (Authenticator * S) :=
  let '((_, ok), w') := FleetID cx i apiKey w in (ok, w').

#[export] Instance Validator_ingestion : Validator (Authenticator * S) :=
  {| v_FleetID := FleetID |}.
#[export] Instance ValidatorLaws_ingestion : ValidatorLaws (Authenticator * S).
Proof. split. by intros cx i [a s]. Qed.
End Auth.
End Ingestion.

Module Serving.
Section Auth.
Context {R : Type} `{RedisServer R}.

(** [auth.Config], filled by [main] from the loaded configuration. *)
Record Config := MkConfig { ValidAPIKeys : list string; CacheTTLSeconds : Z }.

Definition NewAuthenticator (cfg : Config) : Authenticator :=
  let ttl := int_mul (CacheTTLSeconds cfg) Second in
  let ttl := if ttl =? 0 then 300 * Second else ttl in
  MkAuthenticator ∅ ttl (static_key_set (ValidAPIKeys cfg)).

Definition lookupRedis (cx : context) (now : Time) (apiKey : string) (r : R)
  : res string * R :=
  match redis_get cx now (auth_key apiKey) r with
  | (Ok None, r') => (Ok ""%string, r')
  | (Ok (Some val), r') => (Ok val, r')
  | (Err e, r') => (Err ("redis auth lookup failed: " ++ e)%string, r')
  end.

Definition Validate (cx : context) (i : instants) (apiKey : string) (w : Authenticator * R)
  : bool * (Authenticator * R) :=
  let '(a, r) := w in
  if bool_decide (apiKey = ""%string) then (false, (a, r))
  else if bool_decide (apiKey ∈ staticKeys a) then (true, (a, r))
  else
    let redis (a : Authenticator) :=
      match lookupRedis cx (at_redis i) apiKey r with
      | (Err _, r') => (false, (a, r'))
      | (Ok fleetID, r') =>
          if bool_decide (fleetID = ""%string) then (false, (a, r'))
          else (true,
                (set_cache a (<[apiKey := MkCacheEntry fleetID (at_store i + auth_ttl a)]>
                                (localCache a)), r'))
      end in
    match localCache a !! apiKey with
    | Some entry =>
        if cache_fresh i entry then (true, (a, r))
        else redis (set_cache a (delete apiKey (localCache a)))
    | None => redis a
    end.

Definition FleetID (cx : context) (i : instants) (apiKey : string) (w : Authenticator * R)
  : (string * bool) * (Authenticator * R) :=
  let '(a, r) := w in
  if bool_decide (apiKey = ""%string) then (("", false), (a, r))
  else if bool_decide (apiKey ∈ staticKeys a) then (("", true), (a, r))
  else
    let redis (a : Authenticator) :=
      match lookupRedis cx (at_redis i) apiKey r with
      | (Err _, r') => (("", false), (a, r'))
      | (Ok fleetID, r') =>
          if bool_decide (fleetID = ""%string) then (("", false), (a, r'))
          else ((fleetID, true),
                (set_cache a (<[apiKey := MkCacheEntry fleetID (at_store i + auth_ttl a)]>
                                (localCache a)), r'))
      end in
    match localCache a !! apiKey with
    | Some entry =>
        if cache_fresh i entry then ((ce_fleetID entry, true), (a, r))
        else redis (set_cache a (delete apiKey (localCache a)))
    | None => redis a
    end.

(** [lookupRedis] is the key store the cache stands in front of. *)
Definition lookupRedis_store : ApiKeyStore R := {| GetAPIKey := lookupRedis |}.
#[export] Instance Validator_serving : Validator (Authenticator * R) | 1 :=
  {| v_FleetID := FleetID |}.
#[export] Instance ValidatorLaws_serving : ValidatorLaws (Authenticator * R).
Proof. split. by intros cx i [a s]. Qed.
End Auth.
End Serving.

(** ** Histories of a running authenticator

    [answers] is the answer the store gave during a call, if the call consulted it. A
    history, of either service, is the list of answers so far, each with the instant the
    store gave it and the later one it was cached at. The store may change arbitrarily
    between calls. Calls of other goroutines interleave: what such a call does to the
    cache, which is to delete an entry or to store an answer it was given, may happen at
    any point on its own. *)
Record answer := MkAnswer { ans_key : string; ans_fleet : string; ans_given : Time; ans_cached : Time }.

Section History.
Context {S : Type}.
Variable FleetID : context -> instants -> string -> Authenticator * S ->
  (string * bool) * (Authenticator * S).
Variable lookup : context -> Time -> string -> S -> res string * S.

Definition consults (i : instants) (key : string) (a : Authenticator) : bool :=
  bool_decide (key <> ""%string) && bool_decide (key ∉ staticKeys a) &&
  match localCache a !! key with Some e => negb (cache_fresh i e) | None => true end.

Definition answers (cx : context) (i : instants) (key : string) (a : Authenticator) (s : S)
  : list answer :=
  if consults i key a then
    match (lookup cx (at_redis i) key s).1 with
    | Ok f => [MkAnswer key f (at_redis i) (at_store i)]
    | Err _ => []
    end
  else [].

Inductive history (a0 : Authenticator) : list answer -> Authenticator -> Prop :=
| history_start : history a0 [] a0
| history_call log a s cx i key r a' s' :
    history a0 log a ->
    FleetID cx i key (a, s) = (r, (a', s')) ->
    history a0 (answers cx i key a s ++ log) a'
| history_delete log a key :
    history a0 log a -> history a0 log (set_cache a (delete key (localCache a)))
| history_store log a cx i key s f :
    history a0 log a -> (lookup cx (at_redis i) key s).1 = Ok f -> f <> ""%string ->
    history a0 (MkAnswer key f (at_redis i) (at_store i) :: log)
      (set_cache a (<[key := MkCacheEntry f (at_store i + auth_ttl a)]> (localCache a))).
End History.

(** The copy of [FleetID] in either service does what the other does over its lookup. *)
Section Staleness.
Context {S : Type} (store : ApiKeyStore S).
Notation FleetID := (@Ingestion.FleetID S store).
Notation answers := (answers (@GetAPIKey S store)).
Notation history := (history FleetID (@GetAPIKey S store)).

(** Every cached fleet is an answer of the store, cached for [auth_ttl]. *)
Definition cache_sound (log : list answer) (a : Authenticator) : Prop :=
  forall k e, localCache a !! k = Some e ->
  ce_fleetID e <> ""%string /\
  exists t0 t1, MkAnswer k (ce_fleetID e) t0 t1 ∈ log /\ ce_expiresAt e = t1 + auth_ttl a.

Lemma cache_sound_mono log log' a :
  cache_sound log a -> log ⊆ log' -> cache_sound log' a.
Proof. intros Hs Hl k e He. destruct (Hs k e He) as (Hn & t0 & t1 & Hin & Ht). eauto 8. Qed.

Lemma cache_sound_delete log a k :
  cache_sound log a -> cache_sound log (set_cache a (delete k (localCache a))).
Proof.
  intros Hs k' e He. simpl in He. apply lookup_delete_Some in He as [_ He]. by apply Hs.
Qed.

Lemma cache_sound_insert log a k f t0 t :
  cache_sound log a -> f <> ""%string ->
  cache_sound (MkAnswer k f t0 t :: log)
    (set_cache a (<[k := MkCacheEntry f (t + auth_ttl a)]> (localCache a))).
Proof.
  intros Hs Hf k' e He. simpl in He.
  apply lookup_insert_Some in He as [[<- <-]|[Hne He]]; simpl.
  - split; [done|]. exists t0, t. split; [by left|done].
  - destruct (Hs k' e He) as (Hn & t1 & t2 & Hin & Ht). split; [done|].
    exists t1, t2. split; [by right|done].
Qed.

(** The cases of a call, in the vocabulary of histories. *)
Lemma FleetID_cases cx i key a s f ok a' s' :
  FleetID cx i key (a, s) = ((f, ok), (a', s')) ->
  (key = ""%string /\ f = ""%string /\ ok = false /\ a' = a) \/
  (key ∈ staticKeys a /\ f = ""%string /\ ok = true /\ a' = a) \/
  (consults i key a = false /\ ok = true /\ a' = a /\
   exists e, localCache a !! key = Some e /\ at_check i < ce_expiresAt e /\ f = ce_fleetID e) \/
  (consults i key a = true /\
   exists a1, (a1 = a \/ a1 = set_cache a (delete key (localCache a))) /\
     match (GetAPIKey cx (at_redis i) key s).1 with
     | Ok v => if bool_decide (v = ""%string)
               then f = ""%string /\ ok = false /\ a' = a1
               else f = v /\ ok = true /\
                    a' = set_cache a1 (<[key := MkCacheEntry v (at_store i + auth_ttl a1)]>
                                         (localCache a1))
     | Err _ => f = ""%string /\ ok = false /\ a' = a1
     end).
Proof.
  unfold Ingestion.FleetID, consults, cache_fresh. intros Heq.
  case_bool_decide as Hk; [by simplify_eq; left|].
  case_bool_decide as Hst; [by simplify_eq; right; left|].
  rewrite (bool_decide_true (key <> ""%string)), (bool_decide_true (key ∉ staticKeys a)) by done.
  simpl. destruct (localCache a !! key) as [e|] eqn:He.
  - destruct (Z.ltb_spec (at_check i) (ce_expiresAt e)).
    + simplify_eq. right; right; left. eauto 10.
    + right; right; right. split; [done|]. eexists. split; [by right|].
      destruct (GetAPIKey cx (at_redis i) key s) as [[v|msg] s1]; simpl; [|by simplify_eq].
      case_bool_decide; by simplify_eq.
  - right; right; right. split; [done|]. exists a. split; [by left|].
    destruct (GetAPIKey cx (at_redis i) key s) as [[v|msg] s1]; simpl; [|by simplify_eq].
    case_bool_decide; by simplify_eq.
Qed.

Lemma FleetID_frame cx i key a s r a' s' :
  FleetID cx i key (a, s) = (r, (a', s')) ->
  auth_ttl a' = auth_ttl a /\ staticKeys a' = staticKeys a.
Proof.
  destruct r as [f ok]. intros Hc%FleetID_cases.
  destruct Hc as [(_&_&_&->)|[(_&_&_&->)|[(_&_&->&_)|(_&a1&Ha1&Hc)]]]; [done..|].
  destruct (GetAPIKey cx (at_redis i) key s).1 as [v|]; [case_bool_decide|];
    destruct Hc as (_&_&->); destruct Ha1 as [->| ->]; done.
Qed.

Lemma cache_sound_call log cx i key a s r a' s' :
  cache_sound log a ->
  FleetID cx i key (a, s) = (r, (a', s')) ->
  cache_sound (answers cx i key a s ++ log) a'.
Proof.
  intros Hs Hc. destruct r as [f ok]. apply FleetID_cases in Hc.
  assert (Hmono : cache_sound (answers cx i key a s ++ log) a)
    by (eapply cache_sound_mono; [done|]; intros x Hx; apply elem_of_app; by right).
  destruct Hc as [(_&_&_&->)|[(_&_&_&->)|[(_&_&->&_)|(Hcon&a1&Ha1&Hc)]]]; [done..|].
  assert (Hs1 : cache_sound log a1)
    by (destruct Ha1 as [->| ->]; [done|by apply cache_sound_delete]).
  unfold answers. rewrite Hcon.
  destruct (GetAPIKey cx (at_redis i) key s).1 as [v|]; [|by destruct Hc as (_&_&->)].
  case_bool_decide as Hv; destruct Hc as (_&_&->).
  - eapply cache_sound_mono; [done|]. intros x Hx. by right.
  - by apply cache_sound_insert.
Qed.

Lemma history_sound a0 log a :
  history a0 log a -> localCache a0 = ∅ ->
  cache_sound log a /\ auth_ttl a = auth_ttl a0 /\ staticKeys a = staticKeys a0.
Proof.
  intros Hh H0. induction Hh as [|log a s cx i key r a' s' Hh IH Hcall|log a key Hh IH|
    log a cx i key s f Hh IH Hget Hf].
  - split_and!; [|done|done]. intros k e. rewrite H0. by rewrite lookup_empty.
  - destruct (IH) as (Hs & Ht & Hst). destruct (FleetID_frame _ _ _ _ _ _ _ _ Hcall) as [Ht' Hst'].
    split_and!; [by eapply cache_sound_call|congruence|congruence].
  - destruct IH as (Hs & Ht & Hst). split; [by apply cache_sound_delete|done].
  - destruct IH as (Hs & Ht & Hst). split; [by apply cache_sound_insert|done].
Qed.

(** An accepted key, against the history so far. *)
Lemma FleetID_accepted a0 log a cx i key s f a' s' :
  history a0 log a -> localCache a0 = ∅ ->
  FleetID cx i key (a, s) = ((f, true), (a', s')) ->
  key <> ""%string /\
  ((key ∈ staticKeys a0 /\ f = ""%string) \/
   (f <> ""%string /\
    ((@GetAPIKey S store cx (at_redis i) key s).1 = Ok f \/
     exists given cached, MkAnswer key f given cached ∈ log /\ at_check i < cached + auth_ttl a0))).
Proof.
  intros Hh H0 Hc. destruct (history_sound a0 log a Hh H0) as (Hs & Ht & Hst).
  split; [by intros ->; destruct a; simpl in Hc|].
  apply FleetID_cases in Hc.
  destruct Hc as [(_&_&Hf&_)|[(Hin&->&_&_)|[(_&_&_&e&He&Hlt&->)|(_&a1&_&Hc)]]]; [done| | |].
  - left. by rewrite <- Hst.
  - right. destruct (Hs key e He) as (Hn & t0 & t1 & Hlog & Hexp). split; [done|].
    right. exists t0, t1. split; [done|]. rewrite <- Ht. lia.
  - right. destruct (GetAPIKey cx (at_redis i) key s).1 as [v|]; [|by destruct Hc as (_&?&_)].
    case_bool_decide as Hv; destruct Hc as (-> & Hok & _); [done|]. by split; [|left].
Qed.
End Staleness.

(** ** The two services agree *)

(** The serving copy of the lookup is the ingestion one over [lookupRedis]. *)
Lemma Serving_FleetID_eq {R} `{RedisServer R} cx i key (w : Authenticator * R) :
  Serving.FleetID cx i key w = @Ingestion.FleetID R Serving.lookupRedis_store cx i key w.
Proof. by destruct w. Qed.

Lemma Serving_history_eq {R} `{RedisServer R} a0 log a :
  history (S:=R) Serving.FleetID Serving.lookupRedis a0 log a ->
  history (@Ingestion.FleetID R Serving.lookupRedis_store)
    (@GetAPIKey R Serving.lookupRedis_store) a0 log a.
Proof.
  induction 1 as [|log a s cx i key r a' s' Hh IH Hcall|log a key Hh IH|
    log a cx i key s f Hh IH Hget Hf]; [constructor| |by constructor|by econstructor].
  rewrite Serving_FleetID_eq in Hcall. by eapply history_call.
Qed.

(** The verdict on a key that was accepted as one of fleet [f], against the answers [log]
    of the calls before and the answer [now_given] of the store if it was asked now. *)
Definition acceptable (a0 : Authenticator) (log : list answer) (i : instants) (key f : string)
    (now_given : res string) : Prop :=
  key <> ""%string /\
  ((key ∈ staticKeys a0 /\ f = ""%string) \/
   (f <> ""%string /\
    (now_given = Ok f \/
     exists given cached, MkAnswer key f given cached ∈ log /\ at_check i < cached + auth_ttl a0) /\
    (forall revoked delay,
       now_given <> Ok f ->
       Forall (fun an => ans_cached an <= ans_given an + delay) log ->
       (forall an, an ∈ log -> ans_key an = key -> ans_fleet an = f -> ans_given an < revoked) ->
       at_check i < revoked + delay + auth_ttl a0))).
Lemma acceptable_intro a0 log i key f now_given :
  key <> ""%string /\
  ((key ∈ staticKeys a0 /\ f = ""%string) \/
   (f <> ""%string /\
    (now_given = Ok f \/
     exists given cached, MkAnswer key f given cached ∈ log /\ at_check i < cached + auth_ttl a0))) ->
  acceptable a0 log i key f now_given.
Proof.
  intros (Hk & [Hs|(Hf & Ha)]); (split; [done|]); [by left|right]. split; [done|]. split; [done|].
  intros revoked delay Hn Hd Hr. destruct Ha as [Ha|(given & cached & Hin & Hlt)]; [done|].
  rewrite Forall_forall in Hd. pose proof (Hd _ Hin) as H1.
  pose proof (Hr _ Hin eq_refl eq_refl) as H2. simpl in H1, H2. lia.
Qed.


(** In the serving service [Validate] repeats the code of [FleetID] instead of
    calling it; the two agree on every key, cache and Redis answer: the same
    verdict and the same cache and server state afterwards. *)
Theorem Serving_Validate_agrees {R} `{RedisServer R} cx i key (w : Authenticator * R) :
  Serving.Validate cx i key w =
  ((Serving.FleetID cx i key w).1.2, (Serving.FleetID cx i key w).2).
Proof.
  destruct w as [a r]. unfold Serving.Validate, Serving.FleetID.
  case_bool_decide; [done|]. case_bool_decide; [done|].
  destruct (localCache a !! key) as [e|]; [destruct (cache_fresh i e); [done|]|];
    destruct (Serving.lookupRedis cx (at_redis i) key r) as [[v|msg] r1];
    simpl; try case_bool_decide; done.
Qed.

(** ** Static keys *)
Lemma static_key_set_acc keys (s : gset string) k :
  k ∈ foldl (fun s k => if bool_decide (k <> ""%string) then {[k]} ∪ s else s) s keys
  <-> k ∈ s \/ (k <> ""%string /\ k ∈ keys).
Proof.
  revert s. induction keys as [|x keys IH]; intros s; simpl; [set_solver|].
  rewrite IH. case_bool_decide; set_solver.
Qed.

Lemma static_key_set_spec keys k : k ∈ static_key_set keys <-> k <> ""%string /\ k ∈ keys.
Proof. unfold static_key_set. rewrite static_key_set_acc. set_solver. Qed.

(** The static keys of either service are exactly the non-empty comma-separated
    segments of [VALID_API_KEYS]: a variable that is unset or empty configures no
    key, an empty segment is never a key, and nothing is trimmed. *)
Theorem static_keys_of_environment (env : Env) k :
  let segments := Split comma (env "VALID_API_KEYS"%string) in
  (k ∈ staticKeys (Ingestion.NewAuthenticator (Config.Ingestion.Load env)) <->
     k <> ""%string /\ k ∈ segments) /\
  (k ∈ staticKeys (Serving.NewAuthenticator
       (Serving.MkConfig (Config.Serving.ValidAPIKeys (Config.Serving.Load env))
          (Config.Serving.AuthCacheTTLSeconds (Config.Serving.Load env)))) <->
     k <> ""%string /\ k ∈ segments).
Proof.
  assert (Hg : getEnv env "VALID_API_KEYS" "" = env "VALID_API_KEYS"%string).
  { unfold getEnv. case_bool_decide as E; [done|]. by destruct (env _) eqn:?; [|destruct E]. }
  cbn. rewrite Hg. split; apply static_key_set_spec.
Qed.

(** ** Witnesses *)

(** A key seeded in Redis is looked up at 0, cached, and accepted again at 10 s
    from the cache although Redis is unreachable by then. *)
Definition demo_redis : MemRedis :=
  MkMemRedis (put (auth_key "k") (RStr "fleet-a") None (MkRstate ∅ [])) [].
Definition demo_down : MemRedis := MkMemRedis (MkRstate ∅ []) [true].
Definition demo_auth0 : Authenticator := MkAuthenticator ∅ (300 * Second) {["static"]}.
Definition demo_auth1 : Authenticator :=
  (Ingestion.FleetID Live (at_once 0) "k" (demo_auth0, demo_redis)).2.1.
Definition demo_log : list answer :=
  answers GetAPIKey Live (at_once 0) "k" demo_auth0 demo_redis ++ [].

(** A call whose answer takes 400 seconds to arrive: the cache then holds it for 300
    seconds more, although the store gave it 700 seconds before. *)
Example slow_answer_outlives_ttl :
  let slow := MkInstants 0 0 (400 * Second) in
  let '(_, (a, _)) := Ingestion.FleetID Live slow "k" (demo_auth0, demo_redis) in
  (Ingestion.FleetID Live (at_once (699 * Second)) "k" (a, demo_down)).1 = ("fleet-a", true) /\
  (Ingestion.FleetID Live (at_once (700 * Second)) "k" (a, demo_down)).1 = ("", false).
Proof. vm_compute. split; reflexivity. Qed.

