(* ===== verification/Seed.v ===== *)
(** * The seeding script: [ingestion/scripts/seed_redis/seed_redis.go]

    The script sets sample keys, in the order Go iterates its map literals, and then reads
    some of them back; any error ends the process. KEYS is a command no service issues:
    it is the parameter [RedisKeys]. The initial [Ping] is not modelled. *)
From Stdlib Require Import Ascii.
From S2P Require Import Prelude GoNum Domain Config Redis RedisStore Auth.
Local Open Scope Z_scope.
Local Open Scope string_scope.

(** ** KEYS *)

(** The patterns of KEYS, as far as the script uses them: [*] is any text. *)
Fixpoint glob (pat : list ascii) : list ascii -> bool :=
  match pat with
  | [] => fun s => match s with [] => true | _ => false end
  | a :: pat' =>
      if bool_decide (a = "*"%char) then
        fix star (s : list ascii) : bool :=
          glob pat' s || match s with [] => false | _ :: s' => star s' end
      else fun s => match s with [] => false | b :: s' => bool_decide (a = b) && glob pat' s' end
  end.
Definition matches (pat key : string) : bool :=
  glob (String.list_ascii_of_string pat) (String.list_ascii_of_string key).

Class RedisKeys (R : Type) := redis_keys : context -> Time -> string -> R -> res (list string) * R.
Class RedisKeysLaws (R : Type) `{RedisServer R} `{!RedisKeys R} : Prop := {
  redis_keys_ok : forall cx t pat r ks r', redis_keys cx t pat r = (Ok ks, r') ->
    NoDup ks /\ forall k, k ∈ ks <-> is_Some (live t k (contents r)) /\ matches pat k = true;
  redis_keys_reads : forall cx t pat r, contents (redis_keys cx t pat r).2 = contents r
}.

(** ** The script *)
Definition api_keys : list (string * string) := [
  ("vehicle:auth:fleet_delhi_jaipur_key", "fleet_delhi_jaipur");
  ("vehicle:auth:fleet_mumbai_pune_key", "fleet_mumbai_pune");
  ("vehicle:auth:fleet_bangalore_key", "fleet_bangalore");
  ("vehicle:auth:test_key", "test_fleet")].
Definition online_statuses : list (string * string) := [
  ("vehicle:VH_TEST_001:online_status", "online");
  ("vehicle:VH_TEST_002:online_status", "online");
  ("vehicle:VH_TEST_003:online_status", "offline")].
Definition deviation_flags : list (string * string) := [
  ("vehicle:VH_TEST_001:deviation", "false");
  ("vehicle:VH_TEST_002:deviation", "true");
  ("vehicle:VH_TEST_003:deviation", "false")].
Definition spot_checks : list (string * string) := [
  ("vehicle:auth:test_key", "test_fleet");
  ("vehicle:VH_TEST_001:online_status", "online");
  ("vehicle:VH_TEST_003:online_status", "offline");
  ("vehicle:VH_TEST_002:deviation", "true");
  ("vehicle:VH_TEST_001:deviation", "false")].

Record seed_order := MkSeedOrder {
  so_keys : list (string * string); so_status : list (string * string); so_flags : list (string * string)
}.
(** The order of the three iterations is not specified. *)
Record iterates (o : seed_order) : Prop := {
  it_keys : so_keys o ≡ₚ api_keys; it_status : so_status o ≡ₚ online_statuses;
  it_flags : so_flags o ≡ₚ deviation_flags
}.

Section Script.
Context {R : Type} `{RedisServer R} `{!RedisKeys R}.
Fixpoint set_all (cx : context) (now : Time) (kvs : list (string * string)) (r : R) : res unit * R :=
  match kvs with
  | [] => (Ok tt, r)
  | (key, val) :: kvs' =>
      match redis_unit cx now (SET key val 0) r with
      | (Ok _, r') => set_all cx now kvs' r'
      | (Err e, r') => (Err ("Failed to set key " ++ key ++ ": " ++ e), r')
      end
  end.
Fixpoint check_all (cx : context) (now : Time) (kvs : list (string * string)) (r : R) : res unit * R :=
  match kvs with
  | [] => (Ok tt, r)
  | (key, expected) :: kvs' =>
      match redis_get cx now key r with
      | (Ok (Some val), r') =>
          if bool_decide (val <> expected)
          then (Err ("Spot check mismatch for " ++ key), r')
          else check_all cx now kvs' r'
      | (Ok None, r') => (Err ("Spot check failed for " ++ key ++ ": redis: nil"), r')
      | (Err e, r') => (Err ("Spot check failed for " ++ key ++ ": " ++ e), r')
      end
  end.
(** [step4_verify], with the three numbers it prints. *)
Definition step4_verify (cx : context) (now : Time) (r : R) : res (nat * nat * nat) * R :=
  match redis_keys cx now "vehicle:auth:*" r with
  | (Err e, r1) => (Err e, r1)
  | (Ok auth, r1) =>
      match redis_keys cx now "vehicle:*:online_status" r1 with
      | (Err e, r2) => (Err e, r2)
      | (Ok status, r2) =>
          match redis_keys cx now "vehicle:*:deviation" r2 with
          | (Err e, r3) => (Err e, r3)
          | (Ok flags, r3) =>
              match check_all cx now spot_checks r3 with
              | (Err e, r4) => (Err e, r4)
              | (Ok _, r4) => (Ok (length auth, length status, length flags), r4)
              end
          end
      end
  end.
Definition seed_main (cx : context) (now : Time) (o : seed_order) (r : R)
  : res (nat * nat * nat) * R :=
  match set_all cx now (so_keys o) r with
  | (Err e, r1) => (Err e, r1)
  | (Ok _, r1) =>
      match set_all cx now (so_status o) r1 with
      | (Err e, r2) => (Err e, r2)
      | (Ok _, r2) =>
          match set_all cx now (so_flags o) r2 with
          | (Err e, r3) => (Err e, r3)
          | (Ok _, r3) => step4_verify cx now r3
          end
      end
  end.
End Script.

(** KEYS of the server in memory. *)
#[export] Instance MemRedis_keys : RedisKeys MemRedis := fun cx t pat r =>
  match cx with
  | Cancelled => (Err "context canceled", r)
  | Live =>
      let rest := tail (outages r) in
      if mem_outage r then (Err "connection refused", MkMemRedis (mem r) rest)
      else (Ok (List.filter (fun k => bool_decide (is_Some (live t k (mem r))) && matches pat k)
                  (map fst (map_to_list (rs_kv (mem r))))), MkMemRedis (mem r) rest)
  end.
#[export] Instance MemRedis_keys_laws : RedisKeysLaws MemRedis.
Proof.
  split; unfold redis_keys, MemRedis_keys; simpl.
  - intros [] t pat r ks r'; [|done]. destruct (mem_outage r); [done|]. intros [= <- _]. split.
    + apply NoDup_ListNoDup, List.NoDup_filter, NoDup_ListNoDup, NoDup_fst_map_to_list.
    + intros k. rewrite list_elem_of_In, filter_In, andb_true_iff, bool_decide_eq_true. split; [tauto|].
      intros [Hl ?]. split; [|done]. destruct Hl as [v Hl]. unfold live in Hl.
      destruct (rs_kv (mem r) !! k) as [x|] eqn:Hk; [|done].
      apply in_map_iff. exists (k, x). split; [done|]. by apply list_elem_of_In, elem_of_map_to_list.
  - intros [] t pat r; [|done]. by destruct (mem_outage r).
Qed.

(** ** What it leaves *)
Definition stored (kvs : list (string * string)) : gmap string (rval * option Z) :=
  list_to_map (map (fun p => (p.1, (RStr p.2, None))) kvs).
Definition all_seeds : list (string * string) := api_keys ++ online_statuses ++ deviation_flags.

Lemma stored_keys (kvs : list (string * string)) : (map (fun p => (p.1, (RStr p.2, @None Z))) kvs).*1 = kvs.*1.
Proof. induction kvs as [|p kvs IH]; [done|]. rewrite map_cons, !fmap_cons. by rewrite IH. Qed.
Lemma stored_perm l k : NoDup l.*1 -> l ≡ₚ k -> stored l = stored k.
Proof.
  intros Hnd Hp. apply list_to_map_proper; [by rewrite stored_keys|]. by apply Permutation_map.
Qed.
Lemma stored_app l k : stored (l ++ k) = stored l ∪ stored k.
Proof. unfold stored. by rewrite map_app, list_to_map_app. Qed.
Lemma stored_lookup kvs k v : NoDup kvs.*1 -> (k, v) ∈ kvs -> stored kvs !! k = Some (RStr v, None).
Proof.
  intros Hnd Hin. apply elem_of_list_to_map_1; [by rewrite stored_keys|].
  apply list_elem_of_fmap. by exists (k, v).
Qed.

Section Laws.
Context {R : Type} `{RedisLaws R} `{!RedisKeys R} `{!RedisKeysLaws R}.

Lemma set_all_ok cx now kvs (r r' : R) :
  NoDup kvs.*1 -> set_all cx now kvs r = (Ok tt, r') ->
  rs_kv (contents r') = stored kvs ∪ rs_kv (contents r).
Proof.
  revert r. induction kvs as [|[k v] kvs IH]; intros r Hnd; simpl.
  { intros [= <-]. unfold stored. simpl. by rewrite (left_id_L ∅ (∪)). }
  simpl in Hnd. apply NoDup_cons in Hnd as [Hn Hnd].
  destruct (redis_unit cx now (SET k v 0) r) as [[[]|e] r1] eqn:E; [|done].
  apply redis_unit_ok in E as [rep E]. simpl in E. injection E as _ E.
  intros ->%IH; [|done]. rewrite <- E. simpl.
  change (stored ((k, v) :: kvs)) with (<[k := (RStr v, None)]> (stored kvs)).
  rewrite <- insert_union_l. symmetry. apply insert_union_r.
  apply not_elem_of_list_to_map_1. by rewrite stored_keys.
Qed.
Lemma set_all_untouched cx now kvs (r : R) k :
  k ∉ kvs.*1 -> rs_kv (contents (set_all cx now kvs r).2) !! k = rs_kv (contents r) !! k.
Proof.
  revert r. induction kvs as [|[k' v] kvs IH]; intros r Hk; simpl; [done|].
  simpl in Hk. apply not_elem_of_cons in Hk as [Hne Hk].
  assert (Hone : rs_kv (contents (redis_unit cx now (SET k' v 0) r).2) !! k = rs_kv (contents r) !! k).
  { unfold redis_unit. destruct (redis_do cx now (SET k' v 0) r) as [[rep|e] r1] eqn:E; simpl.
    - apply redis_do_ok in E. simpl in E. injection E as _ <-. by apply lookup_insert_ne.
    - apply redis_do_err in E as [->|[rep E]]; [done|]. simpl in E. injection E as _ <-.
      by apply lookup_insert_ne. }
  destruct (redis_unit cx now (SET k' v 0) r) as [[[]|e] r1]; simpl in *; [by rewrite IH|done].
Qed.

Lemma check_all_reads cx now kvs (r : R) : contents (check_all cx now kvs r).2 = contents r.
Proof.
  revert r. induction kvs as [|[k v] kvs IH]; intros r; simpl; [done|].
  pose proof (redis_get_contents cx now k r) as Hc.
  destruct (redis_get cx now k r) as [[[val|]|e] r1]; simpl in *; [|done..].
  case_bool_decide; [done|]. by rewrite IH.
Qed.
Lemma keys_at_least cx now pat (r : R) ks r' kvs :
  redis_keys cx now pat r = (Ok ks, r') -> NoDup kvs.*1 ->
  (forall k v, (k, v) ∈ kvs -> rs_kv (contents r) !! k = Some (RStr v, None) /\ matches pat k = true) ->
  (length kvs <= length ks)%nat.
Proof.
  intros Hk Hnd Hall. apply redis_keys_ok in Hk as [_ Hk]. rewrite <- (length_fmap fst kvs).
  apply submseteq_length, NoDup_submseteq; [done|].
  intros k ([k' v] & -> & Hin)%list_elem_of_fmap. apply Hk. destruct (Hall k' v Hin) as [Hl Hm].
  split; [|done]. unfold live. simpl. rewrite Hl. eauto.
Qed.

Lemma seeds_nodup : NoDup all_seeds.*1.
Proof. apply (bool_decide_unpack _). vm_compute. reflexivity. Qed.
Lemma seeds_parts : NoDup api_keys.*1 /\ NoDup online_statuses.*1 /\ NoDup deviation_flags.*1.
Proof.
  pose proof seeds_nodup as Hn. unfold all_seeds in Hn. rewrite !fmap_app in Hn.
  apply NoDup_app in Hn as (? & _ & Hn). apply NoDup_app in Hn as (? & _ & ?). done.
Qed.
Lemma seeds_stored k v (m : gmap string (rval * option Z)) :
  (k, v) ∈ all_seeds -> (stored all_seeds ∪ m) !! k = Some (RStr v, None).
Proof. intros Hin. apply lookup_union_Some_l. by apply stored_lookup; [apply seeds_nodup|]. Qed.

(** The three iterations, in any order, leave the same contents. *)
Lemma set_three cx now o (r r1 r2 r3 : R) :
  iterates o -> set_all cx now (so_keys o) r = (Ok tt, r1) ->
  set_all cx now (so_status o) r1 = (Ok tt, r2) -> set_all cx now (so_flags o) r2 = (Ok tt, r3) ->
  rs_kv (contents r3) = stored all_seeds ∪ rs_kv (contents r).
Proof.
  intros [P1 P2 P3] H1 H2 H3. destruct seeds_parts as (N1 & N2 & N3).
  assert (Hnd : forall l k : list (string * string), l ≡ₚ k -> NoDup k.*1 -> NoDup l.*1)
    by (intros l k Hp Hn; by rewrite Hp).
  apply set_all_ok in H1, H2, H3; eauto.
  rewrite H3, H2, H1, (stored_perm _ _ (Hnd _ _ P1 N1) P1), (stored_perm _ _ (Hnd _ _ P2 N2) P2),
    (stored_perm _ _ (Hnd _ _ P3 N3) P3).
  rewrite !(assoc_L (∪)). f_equal.
Qed.

Lemma seeds_sub : api_keys ⊆ all_seeds /\ online_statuses ⊆ all_seeds /\ deviation_flags ⊆ all_seeds.
Proof. unfold all_seeds. split_and!; intros x Hx; rewrite !elem_of_app; auto. Qed.

Lemma verify_counts cx now (r : R) a s f r' (m : gmap string (rval * option Z)) :
  rs_kv (contents r) = stored all_seeds ∪ m -> step4_verify cx now r = (Ok (a, s, f), r') ->
  contents r' = contents r /\ (4 <= a)%nat /\ (3 <= s)%nat /\ (3 <= f)%nat.
Proof.
  intros Hr. unfold step4_verify. destruct seeds_parts as (N1 & N2 & N3), seeds_sub as (S1 & S2 & S3).
  assert (Hpart : forall (r0 : R) pat ks r1 (part : list (string * string)), contents r0 = contents r ->
            redis_keys cx now pat r0 = (Ok ks, r1) -> NoDup part.*1 -> part ⊆ all_seeds ->
            forallb (fun p => matches pat p.1) part = true ->
            contents r1 = contents r /\ (length part <= length ks)%nat).
  { intros r0 pat ks r1 part E0 Hk Hn Hsub Hm. split.
    - rewrite <- E0. pose proof (redis_keys_reads cx now pat r0) as Hc. by rewrite Hk in Hc.
    - eapply keys_at_least; [exact Hk|done|]. intros k v Hin. rewrite E0, Hr. split.
      + apply seeds_stored. by apply Hsub.
      + rewrite forallb_forall in Hm. apply (Hm (k, v)). by apply list_elem_of_In. }
  destruct (redis_keys cx now "vehicle:auth:*" r) as [[k1|e] r1] eqn:E1; [|done].
  destruct (Hpart _ _ _ _ api_keys eq_refl E1 N1 S1 eq_refl) as [C1 L1].
  destruct (redis_keys cx now _ r1) as [[k2|e] r2] eqn:E2; [|done].
  destruct (Hpart _ _ _ _ online_statuses C1 E2 N2 S2 eq_refl) as [C2 L2].
  destruct (redis_keys cx now _ r2) as [[k3|e] r3] eqn:E3; [|done].
  destruct (Hpart _ _ _ _ deviation_flags C2 E3 N3 S3 eq_refl) as [C3 L3].
  pose proof (check_all_reads cx now spot_checks r3) as C4.
  destruct (check_all cx now spot_checks r3) as [[[]|e] r4]; [|done]. simpl in C4.
  intros [= <- <- <- <-]. split; [congruence|]. done.
Qed.

Lemma step4_reads cx now (r : R) : contents (step4_verify cx now r).2 = contents r.
Proof.
  unfold step4_verify. generalize spot_checks. intros checks.
  pose proof (redis_keys_reads cx now "vehicle:auth:*" r) as C1.
  destruct (redis_keys cx now _ r) as [[k1|e] r1]; simpl in *; [|done].
  pose proof (redis_keys_reads cx now "vehicle:*:online_status" r1) as C2.
  destruct (redis_keys cx now "vehicle:*:online_status" r1) as [[k2|e] r2]; simpl in *; [|congruence].
  pose proof (redis_keys_reads cx now "vehicle:*:deviation" r2) as C3.
  destruct (redis_keys cx now "vehicle:*:deviation" r2) as [[k3|e] r3]; simpl in *; [|congruence].
  pose proof (check_all_reads cx now checks r3) as C4.
  destruct (check_all cx now checks r3) as [[[]|e] r4]; simpl in *; congruence.
Qed.

(** What seeding leaves, whatever order Go iterates the maps in. A run that ends well
    has stored exactly the sample keys, without expiry, over what was there, and nothing
    else; it reports at least the four API keys, three statuses and three flags it set;
    and each sample API key is then looked up by the serving service as its fleet's. A
    run that fails has touched no other key. *)
Theorem seed_outcome cx now o (r r' : R) res (Ho : iterates o) (Hrun : seed_main cx now o r = (res, r')) :
  (forall k, k ∉ all_seeds.*1 -> rs_kv (contents r') !! k = rs_kv (contents r) !! k) /\
  forall a s f, res = Ok (a, s, f) ->
    rs_kv (contents r') = stored all_seeds ∪ rs_kv (contents r) /\
    (4 <= a)%nat /\ (3 <= s)%nat /\ (3 <= f)%nat /\
    forall key fleet cx' t f' r'', (auth_key key, fleet) ∈ api_keys ->
      Serving.lookupRedis cx' t key r' = (Ok f', r'') -> f' = fleet.
Proof.
  unfold seed_main in Hrun.
  destruct (set_all cx now (so_keys o) r) as [r1' r1] eqn:E1.
  assert (Hkeys : forall k, k ∉ all_seeds.*1 -> k ∉ (so_keys o).*1 /\ k ∉ (so_status o).*1 /\ k ∉ (so_flags o).*1).
  { intros k Hk. destruct Ho as [P1 P2 P3]. rewrite P1, P2, P3.
    unfold all_seeds in Hk. rewrite !fmap_app, !elem_of_app in Hk. tauto. }
  assert (T1 : forall k, k ∉ all_seeds.*1 -> rs_kv (contents r1) !! k = rs_kv (contents r) !! k).
  { intros k (Hk & _)%Hkeys. rewrite <- (set_all_untouched cx now (so_keys o) r k Hk). by rewrite E1. }
  destruct r1' as [[]|e]; [|injection Hrun as <- <-; by split].
  destruct (set_all cx now (so_status o) r1) as [r2' r2] eqn:E2.
  assert (T2 : forall k, k ∉ all_seeds.*1 -> rs_kv (contents r2) !! k = rs_kv (contents r) !! k).
  { intros k Hk. rewrite <- T1 by done. apply Hkeys in Hk as (_ & Hk & _).
    rewrite <- (set_all_untouched cx now (so_status o) r1 k Hk). by rewrite E2. }
  destruct r2' as [[]|e]; [|injection Hrun as <- <-; by split].
  destruct (set_all cx now (so_flags o) r2) as [r3' r3] eqn:E3.
  assert (T3 : forall k, k ∉ all_seeds.*1 -> rs_kv (contents r3) !! k = rs_kv (contents r) !! k).
  { intros k Hk. rewrite <- T2 by done. apply Hkeys in Hk as (_ & _ & Hk).
    rewrite <- (set_all_untouched cx now (so_flags o) r2 k Hk). by rewrite E3. }
  destruct r3' as [[]|e]; [|injection Hrun as <- <-; by split].
  pose proof (set_three _ _ _ _ _ _ _ Ho E1 E2 E3) as Hset.
  pose proof (step4_reads cx now r3) as Hreads. rewrite Hrun in Hreads. simpl in Hreads.
  rewrite Hreads. split; [exact T3|]. intros a s f ->.
  destruct (verify_counts _ _ _ _ _ _ _ _ Hset Hrun) as (_ & Ha & Hs & Hf).
  split; [exact Hset|]. split_and!; [exact Ha|exact Hs|exact Hf|].
  intros key fleet cx' t f' r'' Hin Hl. unfold Serving.lookupRedis in Hl.
  destruct (redis_get cx' t (auth_key key) r') as [[v|e] r4] eqn:E; [|done].
  apply redis_get_ok in E as [_ E]. rewrite Hreads in E. unfold live in E.
  rewrite Hset, (seeds_stored _ fleet) in E by exact (proj1 seeds_sub _ Hin).
  destruct v as [v|]; [|done]. simpl in E. injection E as <-. by injection Hl as <- _.
Qed.
End Laws.

(** With Redis up the script ends well, whatever Redis held and in every order. *)
Lemma set_all_up now kvs st : exists st', set_all Live now kvs (MkMemRedis st []) = (Ok tt, MkMemRedis st' []).
Proof. revert st. induction kvs as [|[k v] kvs IH]; intros st; simpl; [eauto|]. apply IH. Qed.
Lemma check_all_up now kvs st :
  Forall (fun p => rs_kv st !! p.1 = Some (RStr p.2, None)) kvs ->
  check_all Live now kvs (MkMemRedis st []) = (Ok tt, MkMemRedis st []).
Proof.
  induction 1 as [|[k v] kvs Hk _ IH]; simpl; [done|]. unfold redis_get. simpl. unfold live.
  simpl in Hk. rewrite Hk. simpl. by rewrite bool_decide_false by tauto.
Qed.
Theorem seed_main_up now o (r : MemRedis) :
  iterates o -> outages r = [] -> is_ok (seed_main Live now o r).1 = true.
Proof.
  destruct r as [st out]. simpl. intros Ho ->. unfold seed_main.
  destruct (set_all_up now (so_keys o) st) as [st1 E1]. rewrite E1.
  destruct (set_all_up now (so_status o) st1) as [st2 E2]. rewrite E2.
  destruct (set_all_up now (so_flags o) st2) as [st3 E3]. rewrite E3.
  pose proof (set_three _ _ _ _ _ _ _ Ho E1 E2 E3) as Hset. simpl in Hset.
  unfold step4_verify. cbn [redis_keys MemRedis_keys mem_outage outages mem head default tail].
  rewrite check_all_up; [done|]. apply Forall_forall. intros [k v] Hin. rewrite Hset.
  apply seeds_stored.
  assert (Hsub : forallb (fun p => bool_decide (p ∈ all_seeds)) spot_checks = true) by (vm_compute; reflexivity).
  rewrite forallb_forall in Hsub. apply list_elem_of_In, Hsub in Hin. by apply bool_decide_eq_true in Hin.
Qed.

(** The maps iterated backwards, over a Redis that holds one state. *)
Definition backwards : seed_order :=
  MkSeedOrder (rev api_keys) (rev online_statuses) (rev deviation_flags).
Lemma backwards_iterates : iterates backwards.
Proof. split; simpl; symmetry; apply Permutation_rev. Qed.
Definition busy_redis : MemRedis :=
  MkMemRedis (put "vehicle:auth:test_key" (RStr "old_fleet") (Some 5) (MkRstate ∅ [])) [].

Lemma seed_outcome_witness :
  iterates backwards /\ exists r',
    seed_main Live 0 backwards busy_redis = (Ok (4, 3, 3)%nat, r') /\
    forall f' r'', Serving.lookupRedis Live 9 "test_key" r' = (Ok f', r'') -> f' = "test_fleet".
Proof.
  split; [exact backwards_iterates|].
  assert (Hok : (seed_main Live 0 backwards busy_redis).1 = Ok (4, 3, 3)%nat) by (vm_compute; reflexivity).
  destruct (seed_main Live 0 backwards busy_redis) as [res r'] eqn:E. simpl in Hok. subst res.
  exists r'. split; [reflexivity|].
  destruct (seed_outcome Live 0 backwards busy_redis r' _ backwards_iterates E) as [_ H].
  destruct (H _ _ _ eq_refl) as (_ & _ & _ & _ & Hl).
  intros f' r''. apply Hl. apply (list_elem_of_lookup_2 _ 3). reflexivity.
Defined.
