(* ===== verification/Http.v ===== *)
(** * What the services use of [net/http] and [encoding/json]

    Requests, responses, the patterns of [http.ServeMux], and the decoding of a
    JSON body into a struct. A request's path is given as its cleaned, unescaped
    segments, its body as the first JSON value in it ([None] when there is none, or
    it is malformed). *)
From Stdlib Require Import Ascii.
From S2P Require Import Prelude GoNum Strconv Json Redis Domain Rfc3339 Auth.
Local Open Scope Z_scope.

Record request := MkRequest {
  rq_method : string;
  rq_path : list string;
  rq_query : list (string * string);
  rq_header : string -> string;            (* [Header.Get] on a canonical name *)
  rq_body : option json;
  rq_cx : context;
  rq_auth : instants;                      (* the clock while the key is checked *)
  rq_now : Time;                           (* and while the handler runs *)
  rq_ties : nat -> nat                     (* how its listing query leaves rows that tie *)
}.
(** [r.URL.Query().Get(k)]: the first value of the parameter, or the empty string. *)
Fixpoint query_get (k : string) (q : list (string * string)) : string :=
  match q with
  | [] => EmptyString
  | (k', v) :: q' => if bool_decide (k = k') then v else query_get k q'
  end.

Record response := MkResponse { rs_status : Z; rs_body : string }.

Definition StatusOK : Z := 200.
Definition StatusAccepted : Z := 202.
Definition StatusBadRequest : Z := 400.
Definition StatusUnauthorized : Z := 401.
Definition StatusForbidden : Z := 403.
Definition StatusNotFound : Z := 404.
Definition StatusMethodNotAllowed : Z := 405.
Definition StatusConflict : Z := 409.
Definition StatusInternalServerError : Z := 500.
Definition StatusServiceUnavailable : Z := 503.

(** A body that is one JSON value; [Encoder.Encode] ends it with a newline, and writes
    nothing, after the status line, when the value does not marshal. *)
Definition json_error (msg : string) : json := JObj [("error"%string, JStr msg)].
Definition encode_body (status : Z) (v : json) : response :=
  MkResponse status (if json_ok v then Marshal v ++ newline else "")%string.

(** ** Patterns of the multiplexer *)
Inductive seg := Lit (s : string) | Wild (name : string).
Definition pattern : Type := string * list seg.

(** The path values when the path matches. *)
Fixpoint match_path (ps : list seg) (path : list string) : option (list (string * string)) :=
  match ps, path with
  | [], [] => Some []
  | Lit s :: ps', x :: path' => if bool_decide (s = x) then match_path ps' path' else None
  | Wild n :: ps', x :: path' =>
      if bool_decide (x = ""%string) then None
      else vs ← match_path ps' path'; Some ((n, x) :: vs)
  | _, _ => None
  end.
(** GET patterns serve HEAD too. *)
Definition match_method (m : string) (rq : request) : bool :=
  bool_decide (rq_method rq = m) ||
  (bool_decide (m = "GET"%string) && bool_decide (rq_method rq = "HEAD"%string)).

(** No two patterns of one method in the tables of the services match the same path, so
    the first match is the match. *)
Fixpoint find_route {H} (table : list (pattern * H)) (rq : request)
  : option (H * list (string * string)) :=
  match table with
  | [] => None
  | ((m, ps), h) :: table' =>
      match (if match_method m rq then match_path ps (rq_path rq) else None) with
      | Some vs => Some (h, vs)
      | None => find_route table' rq
      end
  end.
Definition path_known {H} (table : list (pattern * H)) (rq : request) : bool :=
  existsb (fun e => match match_path e.1.2 (rq_path rq) with Some _ => true | None => false end)
    table.
Definition mux_error {H} (table : list (pattern * H)) (rq : request) : response :=
  if path_known table rq then MkResponse StatusMethodNotAllowed ("Method Not Allowed" ++ newline)
  else MkResponse StatusNotFound ("404 page not found" ++ newline).

(** ** Decoding into a struct

    An exact or case-insensitive match of a key finds its field, later occurrences
    of a key overwrite earlier ones, unknown keys are skipped, [null] leaves a
    field alone, and a value of the wrong type is an error. The fold of a key also
    sends the Kelvin sign and the long s (in UTF-8) to [k] and [s]. *)
Definition byte_is (a : ascii) (n : nat) : bool := (nat_of_ascii a =? n)%nat.
Fixpoint fold_key (s : string) : string :=
  match s with
  | String a s1 =>
      let plain := String (lower a) (fold_key s1) in
      match s1 with
      | String b s2 =>
          if byte_is a 197 && byte_is b 191 then String "s"%char (fold_key s2)
          else match s2 with
               | String c s3 =>
                   if byte_is a 226 && byte_is b 132 && byte_is c 170
                   then String "k"%char (fold_key s3) else plain
               | EmptyString => plain
               end
      | EmptyString => plain
      end
  | EmptyString => EmptyString
  end.

Definition decoder (A : Type) : Type := json -> A -> option A.
Definition dec_string {A} (set : string -> A -> A) : decoder A := fun j a =>
  match j with JStr s => Some (set s a) | JNull => Some a | _ => None end.
Definition dec_bool {A} (set : bool -> A -> A) : decoder A := fun j a =>
  match j with JBool b => Some (set b a) | JNull => Some a | _ => None end.
(** A number out of the range of [float64] is an error. *)
Definition dec_float {A} (set : float64 -> A -> A) : decoder A := fun j a =>
  match j with
  | JNum lit => let '(x, ok) := ParseFloat lit in if ok : bool then Some (set x a) else None
  | JNull => Some a
  | _ => None
  end.
Definition dec_time {A} (set : zoned -> A -> A) : decoder A := fun j a =>
  match j with
  | JStr s => t ← parse_rfc3339 s; Some (set t a)
  | JNull => Some a
  | _ => None
  end.
Definition dec_object {A} (fields : list (string * decoder A)) : decoder A := fun j a =>
  match j with
  | JObj ms =>
      foldl (fun acc m =>
        a ← acc;
        match List.find (fun f => bool_decide (fold_key f.1 = fold_key m.1)) fields with
        | Some (_, d) => d m.2 a
        | None => Some a
        end) (Some a) ms
  | JNull => Some a
  | _ => None
  end.

(** ** Request contexts and middlewares

    What the middlewares put in the context: the API key and the fleet it acts for. *)
Record reqctx := MkReqctx { ctx_api_key : option string; ctx_fleet_id : option string }.
Definition no_ctx : reqctx := MkReqctx None None.
(** A handler, in a world [W], with the path values of the pattern it is mounted on. *)
Definition handler (W : Type) : Type :=
  reqctx -> list (string * string) -> request -> M W response.
Definition path_value (name : string) (vs : list (string * string)) : string := query_get name vs.

(** Dispatching to the handlers of a table. *)
Definition serve {W} (table : list (pattern * handler W)) (rq : request) : M W response :=
  match find_route table rq with
  | Some (h, vs) => h no_ctx vs rq
  | None => retM (mux_error table rq)
  end.

(** A route that is found is one of the table, and matches. *)
Lemma find_route_in {T} (table : list (pattern * T)) rq h vs :
  find_route table rq = Some (h, vs) ->
  exists m ps, ((m, ps), h) ∈ table /\ match_method m rq = true /\
    match_path ps (rq_path rq) = Some vs.
Proof.
  induction table as [|[[m ps] g] table IH]; simpl; [done|]. intros E.
  destruct (match_method m rq) eqn:Em; [destruct (match_path ps (rq_path rq)) as [vs'|] eqn:Ep|].
  1: simplify_eq; exists m, ps; split_and!; [left|done|done].
  all: destruct (IH E) as (m' & ps' & ? & ? & ?); exists m', ps'; split_and!; [by right|done|done].
Qed.
