(* ===== verification/Tables.v ===== *)
(** * The database: the schema of [ingestion/scripts/init_db] and statements on it

    A table is the list of its rows, in an arbitrary order: a query without
    [ORDER BY] returns them in that order and nothing is assumed about it. The
    columns, CHECK constraints and the exclusion constraint are those of
    [init_db.go]. PostgreSQL itself is not part of the repository: it is the
    parameter [Database], which runs a statement given by its meaning on the
    tables, with the documented all-or-nothing behaviour of a single statement as
    laws ([DatabaseLaws]). [MemDB] is a lawful instance used by the witnesses. *)
From Stdlib Require Import Ascii.
From S2P Require Import Prelude GoNum Redis Domain.
Local Open Scope Z_scope.

(** ** Rows *)
Record telemetry_row := MkTelemetryRow {
  tr_timestamp : Time; tr_received_at : Time;
  tr_vehicle_id : string; tr_fleet_id : string;
  tr_latitude : float64; tr_longitude : float64;
  tr_speed_kmh : float64; tr_fuel_pct : float64; tr_engine_temp_celsius : float64;
  tr_battery_voltage : float64; tr_odometer_km : float64;
  tr_is_moving : bool; tr_engine_on : bool;
  tr_raw_payload : string
}.
Record alert_row := MkAlertRow {
  al_id : Z;
  al_vehicle_id : string; al_fleet_id : string;
  al_alert_type : AlertType; al_severity : AlertSeverity;
  al_triggered_value : option float64;
  al_created_at : Time;
  al_acknowledged_at : option Time; al_acknowledged_by : option string;
  al_resolved_at : option Time; al_resolved_by : option string
}.
Record vehicle_row := MkVehicleRow {
  vr_vehicle_id : string; vr_fleet_id : string; vr_display_name : string;
  vr_registration_number : string; vr_vehicle_type : string;
  vr_capacity_tonnes : option float64; vr_manufacture_year : option Z; vr_active : bool
}.
Record driver_row := MkDriverRow {
  dr_driver_id : string; dr_full_name : string; dr_phone_number : string;
  dr_license_number : string; dr_license_expiry : Time; dr_active : bool
}.
Record route_row := MkRouteRow {
  rr_route_id : string; rr_route_name : string;
  rr_origin_name : string; rr_origin_lat : float64; rr_origin_lng : float64;
  rr_destination_name : string; rr_destination_lat : float64; rr_destination_lng : float64;
  rr_corridor_radius_km : float64; rr_total_distance_km : option float64; rr_active : bool
}.
Record stop_row := MkStopRow {
  rs_stop_id : string; rs_route_id : string; rs_stop_sequence : Z; rs_stop_name : string;
  rs_lat : float64; rs_lng : float64; rs_arrival_radius_km : float64
}.
Record fleet_config_row := MkFleetConfigRow {
  fc_fleet_id : string; fc_staleness_threshold_seconds : Z
}.
Record trip_row := MkTripRow {
  tp_trip_id : string; tp_vehicle_id : string; tp_driver_id : string; tp_route_id : string;
  tp_status : string; tp_scheduled_departure : Time;
  tp_actual_departure : option Time; tp_completed_at : option Time; tp_created_at : Time
}.
Record progress_row := MkProgressRow {
  pg_trip_id : string; pg_stop_id : string; pg_status : string;
  pg_arrived_at : option Time; pg_departed_at : option Time
}.

Record db := MkDb {
  db_telemetry : list telemetry_row;
  db_alerts : list alert_row;
  db_alert_seq : Z;                       (* the BIGSERIAL of vehicle_alerts *)
  db_vehicles : list vehicle_row;
  db_drivers : list driver_row;
  db_routes : list route_row;
  db_stops : list stop_row;
  db_fleet_config : list fleet_config_row;
  db_trips : list trip_row;
  db_progress : list progress_row
}.
Definition empty_db : db := MkDb [] [] 1 [] [] [] [] [] [] [].
Definition set_telemetry (d : db) (l : list telemetry_row) : db :=
  MkDb l (db_alerts d) (db_alert_seq d) (db_vehicles d) (db_drivers d) (db_routes d)
    (db_stops d) (db_fleet_config d) (db_trips d) (db_progress d).
Definition set_alerts (d : db) (l : list alert_row) (seq : Z) : db :=
  MkDb (db_telemetry d) l seq (db_vehicles d) (db_drivers d) (db_routes d)
    (db_stops d) (db_fleet_config d) (db_trips d) (db_progress d).
Definition set_trips (d : db) (l : list trip_row) : db :=
  MkDb (db_telemetry d) (db_alerts d) (db_alert_seq d) (db_vehicles d) (db_drivers d)
    (db_routes d) (db_stops d) (db_fleet_config d) l (db_progress d).
Definition set_progress (d : db) (l : list progress_row) : db :=
  MkDb (db_telemetry d) (db_alerts d) (db_alert_seq d) (db_vehicles d) (db_drivers d)
    (db_routes d) (db_stops d) (db_fleet_config d) (db_trips d) l.

(** The primary keys the jobs rely on. *)
Record keys (d : db) : Prop := {
  key_vehicle : NoDup (map vr_vehicle_id (db_vehicles d));
  key_stop : NoDup (map rs_stop_id (db_stops d));
  key_route : NoDup (map rr_route_id (db_routes d));
  key_trip : NoDup (map tp_trip_id (db_trips d));
  key_progress : NoDup (map (fun g => (pg_trip_id g, pg_stop_id g)) (db_progress d))
}.

(** Selecting by a key gives at most one row. *)
Lemma select_key {A K} `{EqDecision K} (key : A -> K) (l : list A) k :
  NoDup (map key l) ->
  List.filter (fun x => bool_decide (key x = k)) l = [] \/
  exists x, List.filter (fun x => bool_decide (key x = k)) l = [x] /\ x ∈ l /\ key x = k.
Proof.
  induction l as [|x l IH]; simpl; intros Hnd; [by left|].
  apply NoDup_cons in Hnd as [Hn Hnd]. case_bool_decide as Hk.
  - right. exists x. split_and!; [|by left|done].
    replace (List.filter _ l) with (@nil A); [done|]. symmetry.
    destruct (IH Hnd) as [->|(y & _ & Hy & Hky)]; [done|]. destruct Hn.
    rewrite Hk, <- Hky. by apply (list_elem_of_fmap_2 key).
  - destruct (IH Hnd) as [->|(y & -> & Hy & Hky)]; [by left|right].
    exists y. split_and!; [done|by right|done].
Qed.

Lemma NoDup_filter_map {A K} (key : A -> K) (p : A -> bool) l :
  NoDup (map key l) -> NoDup (map key (List.filter p l)).
Proof.
  induction l as [|x l IH]; simpl; [done|]. intros [Hn Hnd]%NoDup_cons.
  destruct (p x); simpl; [|auto]. apply NoDup_cons. split; [|auto].
  intros Hin. apply Hn. apply (list_elem_of_fmap key) in Hin as (y & -> & Hy).
  apply (list_elem_of_fmap_2 key). apply list_elem_of_In in Hy. apply list_elem_of_In.
  by apply List.filter_In in Hy as [? _].
Qed.

(** ** Constraints *)

(** PostgreSQL text cannot hold the NUL character. *)
Fixpoint no_nul (s : string) : bool :=
  match s with
  | EmptyString => true
  | String a s' => negb (nat_of_ascii a =? 0)%nat && no_nul s'
  end.
Definition chk_alert_type (t : AlertType) : bool :=
  bool_decide (t ∈ [AlertSpeeding; AlertLowFuel; AlertEngineOverheat; AlertRouteDeviation]).
Definition chk_severity (s : AlertSeverity) : bool :=
  bool_decide (s ∈ [SeverityInfo; SeverityWarning; SeverityCritical]).
Definition chk_trip_status (s : string) : bool :=
  bool_decide (s ∈ [TripScheduled; TripInProgress; TripCompleted; TripCancelled]).
Definition chk_stop_status (s : string) : bool :=
  bool_decide (s ∈ [StopPending; StopArrived; StopDeparted; StopMissed]).

(** [vehicle_alerts_dedup_window_excl]: the ranges [[created_at, created_at + 5m)]
    of two alerts of one vehicle and type overlap. *)
Definition alert_window : Z := 5 * Minute.
Definition dedup_excl (a b : alert_row) : bool :=
  bool_decide (al_vehicle_id a = al_vehicle_id b) &&
  bool_decide (al_alert_type a = al_alert_type b) &&
  (al_created_at a <? al_created_at b + alert_window) &&
  (al_created_at b <? al_created_at a + alert_window).
Definition excl_conflict (d : db) (a : alert_row) : bool := existsb (dedup_excl a) (db_alerts d).

(** A new row of [vehicle_alerts] with the columns the services give; the id comes
    from the sequence. *)
Definition new_alert (id : Z) (now : Time) (vehicleID fleetID : string) (t : AlertType)
    (sev : AlertSeverity) (v : float64) : alert_row :=
  MkAlertRow id vehicleID fleetID t sev (Some v) now None None None None.
Definition alert_checks (a : alert_row) : bool :=
  no_nul (al_vehicle_id a) && no_nul (al_fleet_id a) &&
  chk_alert_type (al_alert_type a) && chk_severity (al_severity a).
Definition append_alert (d : db) (a : alert_row) : db :=
  set_alerts d (db_alerts d ++ [a]) (db_alert_seq d + 1).

(** ** The database service *)
Class Database (P : Type) := {
  tables : P -> db;
  pg_run : forall A : Type, context -> (db -> option (A * db)) -> P -> res A * P
}.
Arguments pg_run {P _ A} cx stmt p.

(** A statement is a partial function on the tables: [None] is an error the
    server reports (a violated constraint), after which nothing changed. When the
    connection is lost the client sees an error and cannot know whether the
    statement was committed. *)
Class DatabaseLaws (P : Type) `{Database P} : Prop := {
  pg_run_ok : forall A cx (f : db -> option (A * db)) p a p',
    pg_run cx f p = (Ok a, p') -> f (tables p) = Some (a, tables p');
  pg_run_err : forall A cx (f : db -> option (A * db)) p e p',
    pg_run cx f p = (Err e, p') ->
    tables p' = tables p \/ exists a, f (tables p) = Some (a, tables p');
  pg_run_cancelled : forall A (f : db -> option (A * db)) p,
    is_ok (pg_run Cancelled f p).1 = false /\ tables (pg_run Cancelled f p).2 = tables p
}.

(** A query. *)
Definition pg_query {P A} `{Database P} (cx : context) (q : db -> A) (p : P) : res A * P :=
  pg_run cx (fun d => Some (q d, d)) p.

Record MemDB := MkMemDB { mem_db : db; db_outages : list bool }.
#[export] Instance MemDB_database : Database MemDB := {|
  tables := mem_db;
  pg_run := fun A cx f p =>
    match cx with
    | Cancelled => (Err "context canceled", p)
    | Live =>
        let rest := tail (db_outages p) in
        if default false (head (db_outages p))
        then (Err "connection refused", MkMemDB (mem_db p) rest)
        else match f (mem_db p) with
             | Some (a, d) => (Ok a, MkMemDB d rest)
             | None => (Err "constraint violation", MkMemDB (mem_db p) rest)
             end
    end
|}.
#[export] Instance MemDB_laws : DatabaseLaws MemDB.
Proof.
  split.
  - intros A [] f p a p' Hr; simpl in *; [|done].
    destruct (default false (head (db_outages p))); [done|].
    destruct (f (mem_db p)) as [[]|]; by simplify_eq.
  - intros A [] f p e p' Hr; simpl in *; left; [|by simplify_eq].
    destruct (default false (head (db_outages p))); [by simplify_eq|].
    destruct (f (mem_db p)) as [[]|]; by simplify_eq.
  - done.
Qed.

(** ** Lemmas *)
Lemma pg_query_ok {P A} `{DatabaseLaws P} cx (q : db -> A) p a p' :
  pg_query cx q p = (Ok a, p') -> a = q (tables p) /\ tables p' = tables p.
Proof. intros Hr%pg_run_ok. by simplify_eq. Qed.

Lemma pg_query_tables {P A} `{DatabaseLaws P} cx (q : db -> A) p :
  tables (pg_query cx q p).2 = tables p.
Proof.
  destruct (pg_query cx q p) as [[a|e] p'] eqn:E; simpl.
  - by apply pg_query_ok in E as [_ ->].
  - apply pg_run_err in E as [->|[a E]]; [done|]. by simplify_eq.
Qed.

(** A statement that a constraint rejects changes nothing and is reported. *)
Lemma pg_run_rejected {P A} `{DatabaseLaws P} cx (f : db -> option (A * db)) p :
  f (tables p) = None ->
  is_ok (pg_run cx f p).1 = false /\ tables (pg_run cx f p).2 = tables p.
Proof.
  intros Hf. destruct (pg_run cx f p) as [[a|e] p'] eqn:E; simpl.
  - apply pg_run_ok in E. congruence.
  - apply pg_run_err in E as [->|[a E]]; [done|congruence].
Qed.

(** Whatever is answered, a statement was executed as a whole or not at all. *)
Lemma pg_run_effect {P A} `{DatabaseLaws P} cx (f : db -> option (A * db)) p :
  tables (pg_run cx f p).2 = tables p \/
  exists a, f (tables p) = Some (a, tables (pg_run cx f p).2).
Proof.
  destruct (pg_run cx f p) as [[a|e] p'] eqn:E; simpl.
  - right. exists a. by apply pg_run_ok in E.
  - by apply pg_run_err in E.
Qed.

Lemma dedup_excl_sym a b : dedup_excl a b = dedup_excl b a.
Proof.
  unfold dedup_excl.
  rewrite (bool_decide_ext (al_vehicle_id a = _) (al_vehicle_id b = al_vehicle_id a)) by done.
  rewrite (bool_decide_ext (al_alert_type a = _) (al_alert_type b = al_alert_type a)) by done.
  destruct (bool_decide _), (bool_decide _); simpl; [|done..]. apply andb_comm.
Qed.

(** [NoOverlap d]: the exclusion constraint holds of the whole table. *)
Definition NoOverlap (l : list alert_row) : Prop :=
  forall i j a b, i <> j -> l !! i = Some a -> l !! j = Some b -> dedup_excl a b = false.

Lemma NoOverlap_nil : NoOverlap [].
Proof. intros i j a b _ Hi. by rewrite lookup_nil in Hi. Qed.

Lemma NoOverlap_snoc l a :
  NoOverlap l -> existsb (dedup_excl a) l = false -> NoOverlap (l ++ [a]).
Proof.
  intros Hl Ha.
  assert (Hx : forall b, b ∈ l -> dedup_excl a b = false).
  { intros b Hb. apply not_true_is_false. intros Ht. rewrite <- not_true_iff_false in Ha.
    apply Ha, existsb_exists. exists b. by rewrite <- list_elem_of_In. }
  intros i j x y Hij Hi Hj.
  apply lookup_app_Some in Hi as [Hi|[Hli Hi]], Hj as [Hj|[Hlj Hj]].
  - by apply (Hl i j).
  - apply list_lookup_singleton_Some in Hj as [? <-]. rewrite dedup_excl_sym.
    apply Hx. eapply list_elem_of_lookup_2; eauto.
  - apply list_lookup_singleton_Some in Hi as [? <-].
    apply Hx. eapply list_elem_of_lookup_2; eauto.
  - apply list_lookup_singleton_Some in Hi as [? <-], Hj as [? <-]. lia.
Qed.

#[export] Hint Resolve NoOverlap_nil NoOverlap_snoc : fleet.
