(* ===== verification/InitDb.v ===== *)
(** * The schema script: [ingestion/scripts/init_db/init_db.go]

    The script connects, runs its statements in order, stops the process at the first
    that fails ([execOrFatal]), and checks the outcome. Its statements are data here; what
    PostgreSQL, TimescaleDB and PostGIS document of them is [ddl_sem], a partial function
    on the system catalogue, with the rows of [vehicle_alerts], which two of the
    statements validate. The server is the parameter [PgAdmin]. *)
From S2P Require Import Prelude GoNum Domain Config Redis Tables.
Local Open Scope Z_scope.
Local Open Scope string_scope.

(** ** The catalogue *)
Inductive coltype :=
  TIMESTAMPTZ | TEXT | DOUBLE | BIGSERIAL | NUMERIC | INT | BOOLEAN | DATE | JSONB | GEOGRAPHY.
Record column := Col { co_name : string; co_type : coltype; co_notnull : bool; co_default : option string }.
#[export] Instance coltype_eq_dec : EqDecision coltype.
Proof. solve_decision. Defined.
#[export] Instance column_eq_dec : EqDecision column.
Proof. solve_decision. Defined.

Record table := MkTable {
  tb_columns : list column;
  tb_primary : list string;
  tb_references : list (string * (string * string));        (* column, table, its key *)
  tb_checks : list (string * (string * list string));       (* CHECK (column IN values) *)
  tb_exclusions : list string;
  tb_hypertable : option string                             (* the partitioning column *)
}.
Record index := MkIndex {
  ix_table : string; ix_columns : list (string * bool);     (* true: DESC *)
  ix_gist : bool; ix_where_null : option string
}.
Record catalogue := MkCatalogue {
  ct_available : gset string;             (* extensions installed on the server *)
  ct_extensions : gset string;
  ct_tables : gmap string table;
  ct_indexes : gmap string index;
  ct_filled : gset string;                (* tables with rows *)
  ct_alerts : list alert_row              (* the rows of vehicle_alerts *)
}.
Definition add_table (name : string) (t : table) (c : catalogue) : catalogue :=
  MkCatalogue (ct_available c) (ct_extensions c) (<[name := t]> (ct_tables c)) (ct_indexes c)
    (ct_filled c) (ct_alerts c).
Definition set_checks (cs : list (string * (string * list string))) (t : table) : table :=
  MkTable (tb_columns t) (tb_primary t) (tb_references t) cs (tb_exclusions t) (tb_hypertable t).
Definition has_column (name : string) (t : table) : bool :=
  existsb (fun x => bool_decide (co_name x = name)) (tb_columns t).

(** ** The statements *)
Inductive ddl :=
| CreateExtension (name : string)
| CreateTable (name : string) (t : table)
| CreateHypertable (name col : string)
| WidenAlertTypes (values : list string)      (* the DO block on chk_alert_type *)
| AddDedupWindow                              (* the DO block on the exclusion *)
| CreateIndex (name : string) (i : index).

(** A new table: its references are keys of tables that exist, and its types known. *)
Definition table_ok (t : table) (c : catalogue) : bool :=
  forallb (fun r => match ct_tables c !! r.2.1 with
                    | Some t' => has_column r.1 t && bool_decide (tb_primary t' = [r.2.2])
                    | None => false
                    end) (tb_references t) &&
  forallb (fun x => negb (bool_decide (co_type x = GEOGRAPHY)) ||
                    bool_decide ("postgis" ∈ ct_extensions c)) (tb_columns t) &&
  forallb (fun k => has_column k t) (tb_primary t) &&
  forallb (fun k => has_column k.2.1 t) (tb_checks t) &&
  bool_decide (NoDup (map co_name (tb_columns t))).
Definition index_ok (i : index) (c : catalogue) : bool :=
  match ct_tables c !! ix_table i with
  | Some t => forallb (fun k => has_column k.1 t) (ix_columns i) &&
              forallb (fun k => has_column k t) (option_list (ix_where_null i))
  | None => false
  end.

(** The DO block that widens [chk_alert_type]: a definition that does not mention
    [ROUTE_DEVIATION] is replaced, which validates the rows. *)
Definition contains (pat s : string) : bool :=
  match String.index 0 pat s with Some _ => true | None => false end.
Definition chk_of (name : string) (t : table) : option (string * list string) :=
  snd <$> List.find (fun k => bool_decide (k.1 = name)) (tb_checks t).
Definition widen_alert_types (values : list string) (c : catalogue) : option catalogue :=
  t ← ct_tables c !! "vehicle_alerts";
  match chk_of "chk_alert_type" t with
  | None => Some c
  | Some (_, old) =>
      if existsb (contains "ROUTE_DEVIATION") old then Some c
      else if forallb (fun a => bool_decide (al_alert_type a ∈ values)) (ct_alerts c)
      then Some (add_table "vehicle_alerts"
                   (set_checks (List.filter (fun k => bool_decide (k.1 <> "chk_alert_type")) (tb_checks t) ++
                                [("chk_alert_type", ("alert_type", values))]) t) c)
      else None
  end.

(** The DO block that adds the exclusion: building its index compares all rows. *)
Definition dedup_name : string := "vehicle_alerts_dedup_window_excl".
Fixpoint no_overlap (l : list alert_row) : bool :=
  match l with [] => true | a :: l' => negb (existsb (dedup_excl a) l') && no_overlap l' end.
Definition has_exclusion (name : string) (t : table) : bool := bool_decide (name ∈ tb_exclusions t).
Definition add_dedup_window (c : catalogue) : option catalogue :=
  if existsb (fun p => has_exclusion dedup_name p.2) (map_to_list (ct_tables c)) then Some c
  else
    t ← ct_tables c !! "vehicle_alerts";
    if bool_decide ("btree_gist" ∈ ct_extensions c) && no_overlap (ct_alerts c)
    then Some (add_table "vehicle_alerts"
                 (MkTable (tb_columns t) (tb_primary t) (tb_references t) (tb_checks t)
                    (tb_exclusions t ++ [dedup_name]) (tb_hypertable t)) c)
    else None.

(** What a statement does; [None] is an error, which changes nothing. *)
Definition ddl_sem (s : ddl) (c : catalogue) : option catalogue :=
  match s with
  | CreateExtension name =>
      if decide (name ∈ ct_extensions c) then Some c
      else if decide (name ∈ ct_available c)
      then Some (MkCatalogue (ct_available c) ({[name]} ∪ ct_extensions c) (ct_tables c)
                   (ct_indexes c) (ct_filled c) (ct_alerts c))
      else None
  | CreateTable name t =>
      match ct_tables c !! name with
      | Some _ => Some c
      | None => if table_ok t c then Some (add_table name t c) else None
      end
  | CreateHypertable name col =>
      t ← ct_tables c !! name;
      if bool_decide ("timescaledb" ∈ ct_extensions c) then
        match tb_hypertable t with
        | Some _ => Some c
        | None =>
            if has_column col t && bool_decide (name ∉ ct_filled c) &&
               (bool_decide (tb_primary t = []) || bool_decide (col ∈ tb_primary t))
            then Some (add_table name (MkTable (tb_columns t) (tb_primary t) (tb_references t)
                         (tb_checks t) (tb_exclusions t) (Some col)) c)
            else None
        end
      else None
  | WidenAlertTypes values => widen_alert_types values c
  | AddDedupWindow => add_dedup_window c
  | CreateIndex name i =>
      match ct_indexes c !! name with
      | Some _ => Some c
      | None =>
          if index_ok i c
          then Some (MkCatalogue (ct_available c) (ct_extensions c) (ct_tables c)
                       (<[name := i]> (ct_indexes c)) (ct_filled c) (ct_alerts c))
          else None
      end
  end.

(** ** The script *)
Definition nullable (name : string) (ty : coltype) : column := Col name ty false None.
Definition required (name : string) (ty : coltype) : column := Col name ty true None.
Definition defaulted (name : string) (ty : coltype) (d : string) : column := Col name ty true (Some d).

Definition step1_extensions : list ddl := [CreateExtension "timescaledb"; CreateExtension "postgis"].

Definition vehicle_telemetry : table := MkTable [
  required "timestamp" TIMESTAMPTZ; defaulted "received_at" TIMESTAMPTZ "NOW()";
  required "vehicle_id" TEXT; required "fleet_id" TEXT;
  required "latitude" DOUBLE; required "longitude" DOUBLE;
  Col "location" GEOGRAPHY false
    (Some "GENERATED ALWAYS AS (ST_SetSRID(ST_MakePoint(longitude, latitude), 4326)::geography) STORED");
  defaulted "speed_kmh" DOUBLE "0"; defaulted "fuel_pct" DOUBLE "0";
  defaulted "engine_temp_celsius" DOUBLE "0"; defaulted "battery_voltage" DOUBLE "0";
  defaulted "odometer_km" DOUBLE "0";
  defaulted "is_moving" BOOLEAN "false"; defaulted "engine_on" BOOLEAN "false";
  nullable "raw_payload" JSONB] [] [] [] [] None.
Definition step2_telemetry_table : list ddl :=
  [CreateTable "vehicle_telemetry" vehicle_telemetry; CreateHypertable "vehicle_telemetry" "timestamp"].

Definition alert_types : list string := ["SPEEDING"; "LOW_FUEL"; "ENGINE_OVERHEAT"; "ROUTE_DEVIATION"].
Definition vehicle_alerts : table := MkTable [
  required "id" BIGSERIAL; required "vehicle_id" TEXT; required "fleet_id" TEXT;
  required "alert_type" TEXT; required "severity" TEXT; nullable "triggered_value" DOUBLE;
  defaulted "created_at" TIMESTAMPTZ "NOW()"; nullable "acknowledged_at" TIMESTAMPTZ;
  nullable "acknowledged_by" TEXT; nullable "resolved_at" TIMESTAMPTZ; nullable "resolved_by" TEXT]
  ["id"] []
  [("chk_alert_type", ("alert_type", alert_types));
   ("chk_severity", ("severity", ["INFO"; "WARNING"; "CRITICAL"]))] [] None.
Definition step3_alerts_table : list ddl := [
  CreateExtension "btree_gist"; CreateTable "vehicle_alerts" vehicle_alerts;
  WidenAlertTypes alert_types; AddDedupWindow].

Definition vehicle_registry : table := MkTable [
  required "vehicle_id" TEXT; required "fleet_id" TEXT; required "display_name" TEXT;
  required "registration_number" TEXT; required "vehicle_type" TEXT;
  nullable "capacity_tonnes" NUMERIC; nullable "manufacture_year" INT;
  defaulted "active" BOOLEAN "true"] ["vehicle_id"] [] [] [] None.
Definition driver_registry : table := MkTable [
  required "driver_id" TEXT; required "full_name" TEXT; required "phone_number" TEXT;
  required "license_number" TEXT; required "license_expiry" DATE;
  defaulted "active" BOOLEAN "true"] ["driver_id"] [] [] [] None.
Definition route_registry : table := MkTable [
  required "route_id" TEXT; required "route_name" TEXT; required "origin_name" TEXT;
  required "origin_lat" DOUBLE; required "origin_lng" DOUBLE; required "destination_name" TEXT;
  required "destination_lat" DOUBLE; required "destination_lng" DOUBLE;
  defaulted "corridor_radius_km" NUMERIC "25"; nullable "total_distance_km" NUMERIC;
  defaulted "active" BOOLEAN "true"] ["route_id"] [] [] [] None.
Definition route_stops : table := MkTable [
  required "stop_id" TEXT; required "route_id" TEXT; required "stop_sequence" INT;
  required "stop_name" TEXT; required "lat" DOUBLE; required "lng" DOUBLE;
  defaulted "arrival_radius_km" NUMERIC "1"] ["stop_id"]
  [("route_id", ("route_registry", "route_id"))] [] [] None.
Definition fleet_config : table := MkTable [
  required "fleet_id" TEXT; defaulted "staleness_threshold_seconds" INT "60"]
  ["fleet_id"] [] [] [] None.
Definition trip_statuses : list string := ["SCHEDULED"; "IN_PROGRESS"; "COMPLETED"; "CANCELLED"].
Definition trip : table := MkTable [
  required "trip_id" TEXT; required "vehicle_id" TEXT; required "driver_id" TEXT;
  required "route_id" TEXT; defaulted "status" TEXT "'SCHEDULED'";
  required "scheduled_departure" TIMESTAMPTZ; nullable "actual_departure" TIMESTAMPTZ;
  nullable "completed_at" TIMESTAMPTZ; defaulted "created_at" TIMESTAMPTZ "NOW()"] ["trip_id"]
  [("vehicle_id", ("vehicle_registry", "vehicle_id")); ("driver_id", ("driver_registry", "driver_id"));
   ("route_id", ("route_registry", "route_id"))]
  [("chk_trip_status", ("status", trip_statuses))] [] None.
Definition stop_statuses : list string := ["PENDING"; "ARRIVED"; "DEPARTED"; "MISSED"].
Definition trip_stop_progress : table := MkTable [
  required "trip_id" TEXT; required "stop_id" TEXT; defaulted "status" TEXT "'PENDING'";
  nullable "arrived_at" TIMESTAMPTZ; nullable "departed_at" TIMESTAMPTZ] ["trip_id"; "stop_id"]
  [("trip_id", ("trip", "trip_id")); ("stop_id", ("route_stops", "stop_id"))]
  [("chk_stop_status", ("status", stop_statuses))] [] None.
Definition step4_registry_tables : list ddl := [
  CreateTable "vehicle_registry" vehicle_registry; CreateTable "driver_registry" driver_registry;
  CreateTable "route_registry" route_registry; CreateTable "route_stops" route_stops;
  CreateTable "fleet_config" fleet_config; CreateTable "trip" trip;
  CreateTable "trip_stop_progress" trip_stop_progress].

Definition on (tbl : string) (cols : list (string * bool)) : index := MkIndex tbl cols false None.
Definition indexes : list (string * index) := [
  ("idx_telemetry_vehicle_time", on "vehicle_telemetry" [("vehicle_id", false); ("timestamp", true)]);
  ("idx_telemetry_fleet_time", on "vehicle_telemetry" [("fleet_id", false); ("timestamp", true)]);
  ("idx_telemetry_location", MkIndex "vehicle_telemetry" [("location", false)] true None);
  ("idx_alerts_vehicle", on "vehicle_alerts" [("vehicle_id", false); ("created_at", true)]);
  ("idx_alerts_fleet", on "vehicle_alerts" [("fleet_id", false); ("created_at", true)]);
  ("idx_alerts_unacknowledged",
     MkIndex "vehicle_alerts" [("fleet_id", false); ("created_at", true)] false (Some "acknowledged_at"));
  ("idx_route_stops_route", on "route_stops" [("route_id", false); ("stop_sequence", false)]);
  ("idx_trip_vehicle", on "trip" [("vehicle_id", false); ("status", false)]);
  ("idx_trip_fleet_status", on "trip" [("route_id", false); ("status", false)]);
  ("idx_trip_stop_progress_trip", on "trip_stop_progress" [("trip_id", false); ("status", false)])].
Definition step5_indexes : list ddl := map (fun p => CreateIndex p.1 p.2) indexes.

Definition init_steps : list ddl :=
  step1_extensions ++ step2_telemetry_table ++ step3_alerts_table ++ step4_registry_tables ++ step5_indexes.

(** The connection string. *)
Definition dbGetEnv (env : Env) (key fallback : string) : string :=
  if bool_decide (env key <> ""%string) then env key else fallback.
Definition connStr (env : Env) : string :=
  "postgres://" ++ dbGetEnv env "DB_USER" "fleet_user" ++ ":" ++ dbGetEnv env "DB_PASSWORD" "fleet_password" ++
  "@" ++ dbGetEnv env "DB_HOST" "localhost" ++ ":" ++ dbGetEnv env "DB_PORT" "5432" ++
  "/" ++ dbGetEnv env "DB_NAME" "fleet_monitor".

(** ** The verification step *)
Definition table_names : list string := [
  "vehicle_telemetry"; "vehicle_alerts"; "vehicle_registry"; "driver_registry"; "route_registry";
  "route_stops"; "fleet_config"; "trip"; "trip_stop_progress"].
Definition table_exists (name : string) (c : catalogue) : bool := bool_decide (is_Some (ct_tables c !! name)).
Definition is_hypertable (name : string) (c : catalogue) : bool :=
  match ct_tables c !! name with
  | Some t => bool_decide (is_Some (tb_hypertable t))
  | None => false
  end.
(** [LIKE 'idx_%']: the underscore stands for any character. *)
Definition like_idx (s : string) : bool := String.prefix "idx" s && (4 <=? String.length s)%nat.
Definition index_count (c : catalogue) : Z :=
  Z.of_nat (length (List.filter (fun p => like_idx p.1 && bool_decide (ix_table p.2 ∈
    ["vehicle_telemetry"; "vehicle_alerts"; "route_stops"; "trip"; "trip_stop_progress"]))
    (map_to_list (ct_indexes c)))).

(** ** Running it *)
Class PgAdmin (P : Type) := {
  catalogue_of : P -> catalogue;
  pg_exec : ddl -> P -> res unit * P;
  pg_select : forall A : Type, (catalogue -> A) -> P -> res A * P
}.
Arguments pg_select {P _ A} q p.
(** A statement is atomic; when the connection fails it may or may not have run. *)
Class PgAdminLaws (P : Type) `{PgAdmin P} : Prop := {
  pg_exec_ok : forall s p p', pg_exec s p = (Ok tt, p') ->
    ddl_sem s (catalogue_of p) = Some (catalogue_of p');
  pg_exec_err : forall s p e p', pg_exec s p = (Err e, p') ->
    catalogue_of p' = catalogue_of p \/ ddl_sem s (catalogue_of p) = Some (catalogue_of p');
  pg_select_ok : forall A (q : catalogue -> A) p a p', pg_select q p = (Ok a, p') -> a = q (catalogue_of p);
  pg_select_reads : forall A (q : catalogue -> A) p, catalogue_of (pg_select q p).2 = catalogue_of p
}.

Section Script.
Context {P : Type} `{PgAdmin P}.
(** [execOrFatal] one after the other: an error ends the process. *)
Fixpoint exec_all (steps : list ddl) (p : P) : res unit * P :=
  match steps with
  | [] => (Ok tt, p)
  | s :: steps' =>
      match pg_exec s p with
      | (Ok _, p') => exec_all steps' p'
      | (Err e, p') => (Err ("FAILED: " ++ e), p')
      end
  end.
Fixpoint verify_tables (names : list string) (p : P) : res unit * P :=
  match names with
  | [] => (Ok tt, p)
  | name :: names' =>
      match pg_select (table_exists name) p with
      | (Ok true, p') => verify_tables names' p'
      | (Ok false, p') => (Err ("Table " ++ name ++ " was not created"), p')
      | (Err e, p') => (Err e, p')
      end
  end.
Definition step6_verify (p : P) : res Z * P :=
  match verify_tables table_names p with
  | (Err e, p1) => (Err e, p1)
  | (Ok _, p1) =>
      match pg_select (is_hypertable "vehicle_telemetry") p1 with
      | (Ok true, p2) => pg_select index_count p2
      | (Ok false, p2) => (Err "vehicle_telemetry is not a hypertable", p2)
      | (Err e, p2) => (Err e, p2)
      end
  end.
(** [main], once connected; with the number of indexes it reports. *)
Definition init_main (p : P) : res Z * P :=
  match exec_all init_steps p with
  | (Err e, p1) => (Err e, p1)
  | (Ok _, p1) => step6_verify p1
  end.
End Script.

(** A server in memory, with a schedule of failing calls. *)
Record MemPg := MkMemPg { mp_catalogue : catalogue; mp_outages : list bool }.
Definition mp_call {A} (f : catalogue -> option (A * catalogue)) (p : MemPg) : res A * MemPg :=
  let rest := tail (mp_outages p) in
  if default false (head (mp_outages p)) then (Err "connection lost", MkMemPg (mp_catalogue p) rest)
  else match f (mp_catalogue p) with
       | Some (a, c) => (Ok a, MkMemPg c rest)
       | None => (Err "ERROR", MkMemPg (mp_catalogue p) rest)
       end.
#[export] Instance MemPg_admin : PgAdmin MemPg := {|
  catalogue_of := mp_catalogue;
  pg_exec := fun s => mp_call (fun c => c' ← ddl_sem s c; Some (tt, c'));
  pg_select := fun A q => mp_call (fun c => Some (q c, c))
|}.
#[export] Instance MemPg_laws : PgAdminLaws MemPg.
Proof.
  split; simpl; unfold mp_call.
  - intros s p p'. destruct (default _ _); [done|]. destruct (ddl_sem s _) eqn:E; simpl; [|done].
    by intros [= <-].
  - intros s p e p'. destruct (default _ _); [intros [= <- <-]; by left|].
    destruct (ddl_sem s _); simpl; [done|]. intros [= <- <-]. by left.
  - intros A q p a p'. destruct (default _ _); [done|]. by intros [= <- _].
  - intros A q p. by destruct (default _ _).
Qed.

Definition fresh_server : catalogue :=
  MkCatalogue {["timescaledb"; "postgis"; "btree_gist"]} ∅ ∅ ∅ ∅ [].

(** ** A statement that ran is satisfied, and stays so *)
Definition widened (t : table) : bool :=
  match chk_of "chk_alert_type" t with
  | None => true
  | Some (_, vals) => existsb (contains "ROUTE_DEVIATION") vals
  end.
Definition has_dedup (c : catalogue) : Prop :=
  exists name t, ct_tables c !! name = Some t /\ dedup_name ∈ tb_exclusions t.
Definition satisfied (s : ddl) (c : catalogue) : Prop :=
  match s with
  | CreateExtension name => name ∈ ct_extensions c
  | CreateTable name _ => is_Some (ct_tables c !! name)
  | CreateHypertable name _ =>
      "timescaledb" ∈ ct_extensions c /\
      exists t, ct_tables c !! name = Some t /\ is_Some (tb_hypertable t)
  | WidenAlertTypes _ => exists t, ct_tables c !! "vehicle_alerts" = Some t /\ widened t = true
  | AddDedupWindow => has_dedup c
  | CreateIndex name _ => is_Some (ct_indexes c !! name)
  end.
(** The values the script widens to include the new one. *)
Definition widens (s : ddl) : bool :=
  match s with WidenAlertTypes values => existsb (contains "ROUTE_DEVIATION") values | _ => true end.

Record table_extends (t t' : table) : Prop := {
  te_hyper : is_Some (tb_hypertable t) -> is_Some (tb_hypertable t');
  te_exclusions : tb_exclusions t ⊆ tb_exclusions t';
  te_widened : widened t = true -> widened t' = true
}.
Record extends (c c' : catalogue) : Prop := {
  ex_extensions : ct_extensions c ⊆ ct_extensions c';
  ex_tables : forall name t, ct_tables c !! name = Some t ->
    exists t', ct_tables c' !! name = Some t' /\ table_extends t t';
  ex_indexes : forall name, is_Some (ct_indexes c !! name) -> is_Some (ct_indexes c' !! name)
}.
#[export] Instance table_extends_preorder : PreOrder table_extends.
Proof. split; [by split|]. intros t1 t2 t3 [] []. split; auto. by etrans. Qed.
#[export] Instance extends_preorder : PreOrder extends.
Proof.
  split; [split; eauto|].
  - intros name t Ht. exists t. by split.
  - intros c1 c2 c3 [E1 T1 I1] [E2 T2 I2]. split; [by etrans| |auto].
    intros name t (t2 & H2 & Hx)%T1. apply T2 in H2 as (t3 & H3 & Hy).
    exists t3. split; [done|]. by etrans.
Qed.

Lemma satisfied_extends s c c' : extends c c' -> satisfied s c -> satisfied s c'.
Proof.
  intros [He Ht Hi]. destruct s as [name|name t|name col|values| |name i]; simpl; auto.
  - intros [t0 (t' & -> & _)%Ht]. eauto.
  - intros (? & t & (t' & Ht' & Hx)%Ht & Hh). split; [auto|]. exists t'. split; [done|].
    by apply (te_hyper _ _ Hx).
  - intros (t & (t' & Ht' & Hx)%Ht & Hw). exists t'. split; [done|]. by apply (te_widened _ _ Hx).
  - intros (name & t & (t' & Ht' & Hx)%Ht & Hd). exists name, t'. split; [done|].
    by apply (te_exclusions _ _ Hx).
Qed.

(** A table replaced by one that extends it. *)
Lemma extends_table c name t t' :
  ct_tables c !! name = Some t -> table_extends t t' -> extends c (add_table name t' c).
Proof.
  intros Ht Hx. split; simpl; [done| |done]. intros n u Hu. destruct (decide (name = n)) as [<-|Hne].
  - exists t'. rewrite lookup_insert_eq. rewrite Ht in Hu. by injection Hu as <-.
  - exists u. by rewrite lookup_insert_ne.
Qed.

Lemma chk_of_replaced t values :
  chk_of "chk_alert_type" (set_checks
    (List.filter (fun k => bool_decide (k.1 <> "chk_alert_type")) (tb_checks t) ++
     [("chk_alert_type", ("alert_type", values))]) t) = Some ("alert_type", values).
Proof.
  unfold chk_of. simpl. induction (tb_checks t) as [|k l IH]; simpl; [done|].
  destruct (decide (k.1 = "chk_alert_type")) as [E|E]; simpl.
  - rewrite bool_decide_false by (by intros []). exact IH.
  - rewrite bool_decide_true by done. simpl. by rewrite bool_decide_false.
Qed.

Lemma has_dedup_spec c :
  existsb (fun p => has_exclusion dedup_name p.2) (map_to_list (ct_tables c)) = true <-> has_dedup c.
Proof.
  rewrite existsb_exists. split.
  - intros ([name t] & Hin & Hx). apply list_elem_of_In, elem_of_map_to_list in Hin.
    exists name, t. by apply bool_decide_eq_true in Hx.
  - intros (name & t & Ht & Hx). exists (name, t). split; [|by apply bool_decide_eq_true].
    by apply list_elem_of_In, elem_of_map_to_list.
Qed.

(** A satisfied statement does nothing. *)
Lemma satisfied_noop s c : satisfied s c -> ddl_sem s c = Some c.
Proof.
  destruct s as [name|name t|name col|values| |name i]; simpl.
  - intros ?. by rewrite decide_True.
  - by intros [t' ->].
  - intros (? & t & -> & [col' Hc]). simpl. rewrite bool_decide_true by done. by rewrite Hc.
  - intros (t & Ht & Hw). unfold widen_alert_types. rewrite Ht. simpl. unfold widened in Hw.
    destruct (chk_of _ t) as [[col vals]|]; [by rewrite Hw|done].
  - intros Hd%has_dedup_spec. unfold add_dedup_window. by rewrite Hd.
  - by intros [i' ->].
Qed.

Lemma widen_spec values c c' :
  existsb (contains "ROUTE_DEVIATION") values = true -> widen_alert_types values c = Some c' ->
  satisfied (WidenAlertTypes values) c' /\ extends c c'.
Proof.
  intros Hv. unfold widen_alert_types. destruct (ct_tables c !! _) as [t|] eqn:Ht; [|done]. simpl.
  assert (Hsame : widened t = true -> c' = c -> satisfied (WidenAlertTypes values) c' /\ extends c c').
  { intros Hw ->. split; [by exists t|done]. }
  destruct (chk_of "chk_alert_type" t) as [[col old]|] eqn:Hk.
  2:{ intros [= <-]. apply Hsame; [|done]. unfold widened. by rewrite Hk. }
  destruct (existsb _ old) eqn:Ho.
  { intros [= <-]. apply Hsame; [|done]. unfold widened. by rewrite Hk, Ho. }
  destruct (forallb _ _); [|done]. intros [= <-].
  assert (Hw : forall t', chk_of "chk_alert_type" t' = Some ("alert_type", values) -> widened t' = true)
    by (intros t' E; unfold widened; by rewrite E).
  split.
  - eexists. split; [apply lookup_insert_eq|]. apply Hw, chk_of_replaced.
  - apply (extends_table _ _ t); [done|]. split; [done|done|]. intros _. apply Hw, chk_of_replaced.
Qed.

Lemma add_dedup_spec c c' : add_dedup_window c = Some c' -> has_dedup c' /\ extends c c'.
Proof.
  unfold add_dedup_window. destruct (existsb _ _) eqn:Hx.
  { intros [= <-]. split; [by apply has_dedup_spec|done]. }
  destruct (ct_tables c !! _) as [t|] eqn:Ht; [|done]. simpl. destruct (_ && _); [|done].
  intros [= <-]. split.
  - eexists _, _. split; [apply lookup_insert_eq|]. simpl. set_solver.
  - apply (extends_table _ _ t); [done|]. split; [done|simpl; set_solver|done].
Qed.

Lemma ddl_satisfies s c c' :
  widens s = true -> ddl_sem s c = Some c' -> satisfied s c' /\ extends c c'.
Proof.
  destruct s as [name|name t|name col|values| |name i]; simpl; intros Hw.
  - destruct (decide (name ∈ ct_extensions c)); [by intros [= <-]|].
    destruct (decide _); [|done]. intros [= <-]. split; simpl; [set_solver|].
    split; simpl; [set_solver| |done]. intros x t Ht. by exists t.
  - destruct (ct_tables c !! name) as [t'|] eqn:Ht; [by intros [= <-]; eauto|].
    destruct (table_ok t c); [|done]. intros [= <-]. split; [simpl; by rewrite lookup_insert_eq|].
    split; simpl; [done| |done]. intros n u Hu. exists u.
    rewrite lookup_insert_ne by (intros <-; congruence). done.
  - destruct (ct_tables c !! name) as [t|] eqn:Ht; [|done]. simpl. case_bool_decide as Hx; [|done].
    destruct (tb_hypertable t) as [col'|] eqn:Hh; [intros [= <-]; split; [|done]; split; [done|]; by exists t|].
    destruct (_ && _); [|done]. intros [= <-]. split.
    + split; [done|]. eexists. split; [apply lookup_insert_eq|]. by eexists.
    + apply (extends_table _ _ t); [done|]. by split; [by eexists|..].
  - by apply widen_spec.
  - by apply add_dedup_spec.
  - destruct (ct_indexes c !! name) as [i'|] eqn:Hi; [by intros [= <-]; eauto|].
    destruct (index_ok i c); [|done]. intros [= <-]. split; [simpl; by rewrite lookup_insert_eq|].
    split; simpl; [done| |].
    + intros n t Ht. by exists t.
    + intros n Hn. destruct (decide (name = n)) as [<-|]; [by rewrite lookup_insert_eq|].
      by rewrite lookup_insert_ne.
Qed.

(** ** Runs *)
Fixpoint run_ddl (steps : list ddl) (c : catalogue) : option catalogue :=
  match steps with [] => Some c | s :: steps' => c' ← ddl_sem s c; run_ddl steps' c' end.

Lemma run_ddl_app l1 l2 c : run_ddl (l1 ++ l2) c = (c' ← run_ddl l1 c; run_ddl l2 c').
Proof. revert c. induction l1 as [|s l1 IH]; intros c; simpl; [done|]. destruct (ddl_sem s c); [apply IH|done]. Qed.

Lemma run_satisfies steps c c' :
  forallb widens steps = true -> run_ddl steps c = Some c' ->
  extends c c' /\ Forall (fun s => satisfied s c') steps.
Proof.
  revert c. induction steps as [|s steps IH]; intros c; simpl; [by intros _ [= <-]|].
  intros [Hw Hws]%andb_true_iff. destruct (ddl_sem s c) as [c1|] eqn:Hs; [|done]. simpl.
  intros [He Hf]%(IH c1 Hws). apply ddl_satisfies in Hs as [Hs He1]; [|done].
  split; [by etrans|]. constructor; [by eapply satisfied_extends|done].
Qed.
Lemma run_noop steps c : Forall (fun s => satisfied s c) steps -> run_ddl steps c = Some c.
Proof.
  induction 1 as [|s steps Hs _ IH]; simpl; [done|]. by rewrite (satisfied_noop s c Hs).
Qed.

(** Running all of it after a part of it is running all of it. *)
Lemma run_again pre post c c1 final :
  forallb widens pre = true -> run_ddl (pre ++ post) c = Some final -> run_ddl pre c = Some c1 ->
  run_ddl (pre ++ post) c1 = Some final.
Proof.
  intros Hw Hf Hp. rewrite run_ddl_app, Hp in Hf. simpl in Hf.
  apply run_satisfies in Hp as [_ Hs]; [|done]. by rewrite run_ddl_app, (run_noop pre c1 Hs).
Qed.

Lemma init_widens k : forallb widens (take k init_steps) = true.
Proof.
  assert (H : forallb widens (take k init_steps ++ drop k init_steps) = true)
    by (rewrite take_drop; vm_compute; reflexivity).
  rewrite forallb_app in H. by apply andb_true_iff in H as [? _].
Qed.

Section Runs.
Context {P : Type} `{PgAdminLaws P}.

(** What a run leaves behind: the statements up to some point. *)
Lemma exec_all_prefix steps (p : P) r p' :
  exec_all steps p = (r, p') ->
  exists k, run_ddl (take k steps) (catalogue_of p) = Some (catalogue_of p') /\
    (r = Ok tt -> take k steps = steps).
Proof.
  revert p. induction steps as [|s steps IH]; intros p; simpl; [intros [= <- <-]; by exists 0%nat|].
  destruct (pg_exec s p) as [[[]|e] p1] eqn:Hs.
  - intros (k & Hr & Hk)%IH. exists (S k). simpl. rewrite (pg_exec_ok _ _ _ Hs). simpl.
    split; [done|]. by intros ->%Hk.
  - intros [= <- <-]. destruct (pg_exec_err _ _ _ _ Hs) as [->|Hr].
    + by exists 0%nat.
    + exists 1%nat. split; [simpl; by rewrite Hr|done].
Qed.

Lemma verify_reads names (p : P) : catalogue_of (verify_tables names p).2 = catalogue_of p.
Proof.
  revert p. induction names as [|name names IH]; intros p; simpl; [done|].
  pose proof (pg_select_reads _ (table_exists name) p) as Hr.
  destruct (pg_select (table_exists name) p) as [[[]|e] p1]; simpl in *; [by rewrite IH|done..].
Qed.
Lemma verify_main_reads (p : P) :
  catalogue_of (step6_verify p).2 = catalogue_of p /\
  (forall n, (step6_verify p).1 = Ok n -> n = index_count (catalogue_of p)).
Proof.
  unfold step6_verify. pose proof (verify_reads table_names p) as H1.
  destruct (verify_tables table_names p) as [[[]|e] p1]; simpl in *; [|by split].
  pose proof (pg_select_reads _ (is_hypertable "vehicle_telemetry") p1) as H2.
  destruct (pg_select _ p1) as [[[]|e] p2]; simpl in *; [|by rewrite <- H1; split..].
  rewrite <- H1, <- H2. split; [apply pg_select_reads|].
  intros n Hn. destruct (pg_select index_count p2) as [[m|e] p3] eqn:E; simpl in Hn; [|done].
  injection Hn as <-. by apply pg_select_ok in E.
Qed.

(** One run of the script: cut off after some of its statements, or to its end. *)
Inductive attempt (p : P) : P -> Prop :=
| at_cut k : attempt p (exec_all (take k init_steps) p).2
| at_end : attempt p (init_main p).2.

Lemma attempt_prefix (p p' : P) :
  attempt p p' -> exists k, run_ddl (take k init_steps) (catalogue_of p) = Some (catalogue_of p').
Proof.
  intros [k|].
  - destruct (exec_all (take k init_steps) p) as [r p1] eqn:E.
    apply exec_all_prefix in E as (j & Hr & _). exists (j `min` k)%nat. by rewrite take_take in Hr.
  - unfold init_main. destruct (exec_all init_steps p) as [r p1] eqn:E.
    apply exec_all_prefix in E as (k & Hr & _). exists k. rewrite Hr. simpl.
    destruct r as [[]|e]; simpl; [|done]. by rewrite (proj1 (verify_main_reads p1)).
Qed.
Lemma attempts_resume (p p' : P) final :
  run_ddl init_steps (catalogue_of p) = Some final -> rtc attempt p p' ->
  run_ddl init_steps (catalogue_of p') = Some final.
Proof.
  intros Hf Hr. revert Hf. induction Hr as [|p p1 p' (k & Hk)%attempt_prefix _ IH]; [done|].
  intros Hf. apply IH. rewrite <- (take_drop k init_steps) in Hf |- *.
  by apply (run_again _ _ (catalogue_of p)); [apply init_widens|..].
Qed.

(** C23. The schema script can be cut off and run again. Whatever the server held before,
    if the script would run through on it, then after any number of runs that were
    killed, or failed with the connection, at any statement (the statement executed or
    not) it still runs through, and one that reports success leaves exactly the
    catalogue an undisturbed run leaves, on which running the script once more changes
    nothing. All its tables are there, and the telemetry table is a hypertable. *)
Theorem init_db_resumes (p0 p : P) final
    (Hf : run_ddl init_steps (catalogue_of p0) = Some final) (Hr : rtc attempt p0 p) :
  run_ddl init_steps (catalogue_of p) = Some final /\
  (forall n p', init_main p = (Ok n, p') -> catalogue_of p' = final /\ n = index_count final) /\
  run_ddl init_steps final = Some final /\
  forallb (fun name => table_exists name final) table_names = true /\
  is_hypertable "vehicle_telemetry" final = true.
Proof.
  pose proof (attempts_resume p0 p final Hf Hr) as Hp. split; [exact Hp|].
  pose proof (init_widens (length init_steps)) as Hw. rewrite firstn_all in Hw.
  destruct (run_satisfies init_steps _ final Hw Hf) as [_ Hs]. rewrite Forall_forall in Hs. split_and!.
  - intros n p' Hm. unfold init_main in Hm. destruct (exec_all init_steps p) as [[[]|e] p1] eqn:E; [|done].
    apply exec_all_prefix in E as (k & Hk & Hall). rewrite (Hall eq_refl), Hp in Hk. injection Hk as ->.
    destruct (verify_main_reads p1) as [Hc Hn]. rewrite Hm in Hc, Hn. simpl in Hc, Hn.
    split; [exact Hc|by apply Hn].
  - apply run_noop. by apply Forall_forall.
  - apply forallb_forall. intros name Hin%list_elem_of_In. apply bool_decide_eq_true.
    assert (exists t, CreateTable name t ∈ init_steps) as [t Ht]; [|exact (Hs _ Ht)].
    unfold table_names in Hin. rewrite !elem_of_cons, elem_of_nil in Hin.
    destruct_or! Hin; try done; subst; eexists; apply list_elem_of_In; vm_compute; tauto.
  - destruct (Hs (CreateHypertable "vehicle_telemetry" "timestamp")) as (_ & t & Ht & Hh).
    { apply list_elem_of_In. vm_compute. tauto. }
    unfold is_hypertable. rewrite Ht. by apply bool_decide_eq_true.
Qed.
End Runs.

(** ** A deployment from before ROUTE_DEVIATION and the exclusion *)
Lemma no_overlap_spec l : no_overlap l = true <-> NoOverlap l.
Proof.
  unfold NoOverlap. induction l as [|a l IH]; simpl; [split; [intros _ i j x y _ Hi; by rewrite lookup_nil in Hi|done]|].
  rewrite andb_true_iff, negb_true_iff, IH. split.
  - intros [Ha Hl] i j x y Hne Hi Hj.
    assert (Hone : forall z, z ∈ l -> dedup_excl a z = false).
    { intros z Hz. destruct (dedup_excl a z) eqn:E; [|done]. exfalso.
      assert (existsb (dedup_excl a) l = true); [|congruence].
      apply existsb_exists. exists z. by apply list_elem_of_In in Hz. }
    destruct i as [|i], j as [|j]; simpl in Hi, Hj; [done|..].
    + injection Hi as <-. apply Hone. by eapply list_elem_of_lookup_2.
    + injection Hj as <-. rewrite dedup_excl_sym. apply Hone. by eapply list_elem_of_lookup_2.
    + apply (Hl i j); auto.
  - intros Hl. split.
    + destruct (existsb _ l) eqn:E; [|done]. apply existsb_exists in E as (z & Hz & Hd).
      apply list_elem_of_In, list_elem_of_lookup in Hz as [j Hj].
      by rewrite (Hl 0%nat (S j) a z) in Hd.
    + intros i j x y Hne Hi Hj. by apply (Hl (S i) (S j)); [lia|..].
Qed.

Lemma alert_types_chk t : t ∈ alert_types <-> chk_alert_type t = true.
Proof. symmetry. apply bool_decide_eq_true. Qed.

(** A deployment whose [vehicle_alerts] has the older check and no exclusion. *)
Record legacy (t : table) (c : catalogue) : Prop := {
  lg_table : ct_tables c !! "vehicle_alerts" = Some t;
  lg_check : widened t = false;
  lg_no_dedup : ~ has_dedup c;
  lg_gist : "btree_gist" ∈ ct_available c \/ "btree_gist" ∈ ct_extensions c
}.

Lemma has_dedup_table t t' c :
  ct_tables c !! "vehicle_alerts" = Some t -> tb_exclusions t' = tb_exclusions t ->
  has_dedup (add_table "vehicle_alerts" t' c) -> has_dedup c.
Proof.
  intros Ht Hx (name & u & Hu & Hd). simpl in Hu. destruct (decide (name = "vehicle_alerts")) as [->|Hne].
  - rewrite lookup_insert_eq in Hu. injection Hu as <-. exists "vehicle_alerts", t. by rewrite <- Hx.
  - rewrite lookup_insert_ne in Hu by done. by exists name, u.
Qed.

(** With the extension in place: what is left of the step. *)
Lemma legacy_alerts_steps t c :
  legacy t c -> "btree_gist" ∈ ct_extensions c ->
  let ok := forallb (fun a => chk_alert_type (al_alert_type a)) (ct_alerts c) && no_overlap (ct_alerts c) in
  exists c', run_ddl [CreateTable "vehicle_alerts" vehicle_alerts; WidenAlertTypes alert_types; AddDedupWindow] c =
    (if ok then Some c' else None) /\
  ct_alerts c' = ct_alerts c /\ (forall n, n <> "vehicle_alerts" -> ct_tables c' !! n = ct_tables c !! n) /\
  has_dedup c' /\ exists t', ct_tables c' !! "vehicle_alerts" = Some t' /\
    tb_columns t' = tb_columns t /\ chk_of "chk_alert_type" t' = Some ("alert_type", alert_types).
Proof.
  intros [Ht Hw Hnd _] Hg ok. unfold run_ddl, ddl_sem. rewrite Ht. simpl.
  unfold widen_alert_types. rewrite Ht. simpl. unfold widened in Hw.
  destruct (chk_of "chk_alert_type" t) as [[col old]|] eqn:Hk; [|done]. rewrite Hw.
  set (t1 := set_checks _ t). set (c1 := add_table "vehicle_alerts" t1 c).
  exists (add_table "vehicle_alerts" (MkTable (tb_columns t1) (tb_primary t1) (tb_references t1)
            (tb_checks t1) (tb_exclusions t1 ++ [dedup_name]) (tb_hypertable t1)) c1).
  assert (Hadd : add_dedup_window c1 = if no_overlap (ct_alerts c) then
    Some (add_table "vehicle_alerts" (MkTable (tb_columns t1) (tb_primary t1) (tb_references t1)
            (tb_checks t1) (tb_exclusions t1 ++ [dedup_name]) (tb_hypertable t1)) c1) else None).
  { unfold add_dedup_window. destruct (existsb _ (map_to_list (ct_tables c1))) eqn:Hx.
    { exfalso. apply has_dedup_spec in Hx. apply Hnd. by apply (has_dedup_table t t1). }
    replace (ct_tables c1 !! "vehicle_alerts") with (Some t1) by (symmetry; apply lookup_insert_eq).
    simpl. by rewrite bool_decide_true. }
  split; [|split; [done|split; [|split]]].
  - unfold ok. change (forallb (fun a => bool_decide (al_alert_type a ∈ alert_types)) (ct_alerts c)) with
      (forallb (fun a => chk_alert_type (al_alert_type a)) (ct_alerts c)).
    destruct (forallb (fun a => chk_alert_type (al_alert_type a)) (ct_alerts c)); [|done]. simpl.
    rewrite Hadd. by destruct (no_overlap (ct_alerts c)).
  - intros n Hn. simpl. by rewrite !lookup_insert_ne by done.
  - eexists _, _. split; [apply lookup_insert_eq|]. simpl. set_solver.
  - eexists. split; [apply lookup_insert_eq|]. split; [done|]. apply (chk_of_replaced t alert_types).
Qed.

(** Bringing an older deployment up to date. Where the alerts table still has the
    check without ROUTE_DEVIATION and no deduplication window, the script's third step
    goes through exactly if the stored alerts pass the new check and no two of them
    fall into one window; it keeps every alert, every other table and the columns, and
    afterwards the table accepts exactly the alert types the services use and has the
    exclusion. *)
Theorem init_db_migrates t c (Hl : legacy t c) :
  (is_Some (run_ddl step3_alerts_table c) <->
     Forall (fun a => chk_alert_type (al_alert_type a) = true) (ct_alerts c) /\ NoOverlap (ct_alerts c)) /\
  forall c', run_ddl step3_alerts_table c = Some c' ->
    ct_alerts c' = ct_alerts c /\ (forall n, n <> "vehicle_alerts" -> ct_tables c' !! n = ct_tables c !! n) /\
    has_dedup c' /\
    exists t' vals, ct_tables c' !! "vehicle_alerts" = Some t' /\ tb_columns t' = tb_columns t /\
      chk_of "chk_alert_type" t' = Some ("alert_type", vals) /\
      forall ty, ty ∈ vals <-> chk_alert_type ty = true.
Proof.
  assert (exists c1, ddl_sem (CreateExtension "btree_gist") c = Some c1 /\ legacy t c1 /\
            "btree_gist" ∈ ct_extensions c1 /\ ct_alerts c1 = ct_alerts c /\ ct_tables c1 = ct_tables c)
    as (c1 & H1 & Hl1 & Hg & Ha & Htb).
  { simpl. destruct Hl as [Ht Hw Hnd Hg]. destruct (decide _) as [Hi|Hi]; [by exists c|].
    rewrite decide_True by tauto. eexists. split; [done|].
    split; [split; simpl; auto; right; set_solver|]. split; [simpl; set_solver|done]. }
  destruct (legacy_alerts_steps t c1 Hl1 Hg) as (c' & Hr & Hal & Hoth & Hd & t' & Ht' & Hcol & Hchk).
  assert (Hrun : run_ddl step3_alerts_table c =
    run_ddl [CreateTable "vehicle_alerts" vehicle_alerts; WidenAlertTypes alert_types; AddDedupWindow] c1).
  { change (run_ddl step3_alerts_table c) with
      (c1 ← ddl_sem (CreateExtension "btree_gist") c;
       run_ddl [CreateTable "vehicle_alerts" vehicle_alerts; WidenAlertTypes alert_types; AddDedupWindow] c1).
    by rewrite H1. }
  rewrite Hrun, Hr, Ha. split.
  - rewrite <- no_overlap_spec, Forall_forall.
    assert (Hfa : forallb (fun a => chk_alert_type (al_alert_type a)) (ct_alerts c) = true <->
                  forall a, a ∈ ct_alerts c -> chk_alert_type (al_alert_type a) = true).
    { rewrite forallb_forall. setoid_rewrite list_elem_of_In. done. }
    rewrite <- Hfa, <- andb_true_iff. destruct (forallb _ (ct_alerts c)), (no_overlap (ct_alerts c)); simpl; (split; [intros Hs|intros Hs]); first [done|by eauto|by destruct Hs].
  - intros c0 H0. destruct (forallb _ (ct_alerts c)), (no_overlap (ct_alerts c)); simpl in H0; try done. injection H0 as <-. rewrite <- Ha, <- Htb.
    split; [done|]. split; [done|]. split; [done|]. exists t', alert_types.
    split; [done|]. split; [done|]. split; [done|]. exact alert_types_chk.
Qed.

(** ** Examples and witnesses *)

(** On a fresh server the script succeeds and reports ten indexes; without one of the
    extensions it stops, and names no table. *)
Example init_db_fresh : (init_main (MkMemPg fresh_server [])).1 = Ok 10.
Proof. vm_compute. reflexivity. Qed.
Example init_db_no_gist :
  let c := MkCatalogue {["timescaledb"; "postgis"]} ∅ ∅ ∅ ∅ [] in
  let '(r, p) := init_main (MkMemPg c []) in
  is_ok r = false /\ table_exists "vehicle_telemetry" (mp_catalogue p) = true /\
  table_exists "trip" (mp_catalogue p) = false.
Proof. vm_compute. auto. Qed.

(** The older deployment, with one alert or with two within five minutes. *)
Definition old_alerts : table := set_checks
  [("chk_alert_type", ("alert_type", ["SPEEDING"; "LOW_FUEL"; "ENGINE_OVERHEAT"]))] vehicle_alerts.
Definition old_alert (id : Z) (t : Time) : alert_row :=
  new_alert id t "v1" "f1" "SPEEDING" "WARNING" f_zero.
Definition old_server (alerts : list alert_row) : catalogue :=
  MkCatalogue {["timescaledb"; "postgis"; "btree_gist"]} {["timescaledb"; "postgis"]}
    {["vehicle_alerts" := old_alerts]} ∅ {["vehicle_alerts"]} alerts.

Lemma old_server_legacy alerts : legacy old_alerts (old_server alerts).
Proof.
  split; [done|vm_compute; reflexivity| |left; set_solver].
  intros (name & t & Ht & Hd). simpl in Ht. apply lookup_singleton_Some in Ht as [_ <-].
  simpl in Hd. by apply elem_of_nil in Hd.
Qed.

(** Two stored alerts of one vehicle within five minutes, which nothing prevented before,
    stop the script at this step, on every run: the trip tables are never created. *)
Example legacy_overlap_blocks :
  let '(r, p) := init_main (MkMemPg (old_server [old_alert 1 0; old_alert 2 Minute]) []) in
  is_ok r = false /\ table_exists "trip" (mp_catalogue p) = false.
Proof. vm_compute. auto. Qed.

(** The connection fails at the sixth statement; the next run completes the schema. *)
Definition cut_server : MemPg := MkMemPg fresh_server [false; false; false; false; false; true].
Lemma init_db_resumes_witness :
  is_ok (init_main cut_server).1 = false /\
  exists final p', run_ddl init_steps (catalogue_of cut_server) = Some final /\
    init_main (init_main cut_server).2 = (Ok 10, p') /\
    catalogue_of p' = final /\ run_ddl init_steps final = Some final.
Proof.
  split; [vm_compute; reflexivity|].
  destruct (run_ddl init_steps (catalogue_of cut_server)) as [final|] eqn:Hf;
    [|vm_compute in Hf; discriminate].
  destruct (init_db_resumes cut_server (init_main cut_server).2 final Hf
              (rtc_once _ _ (at_end cut_server))) as (_ & H1 & H2 & _).
  assert (Hok : (init_main (init_main cut_server).2).1 = Ok 10%Z) by (vm_compute; reflexivity).
  destruct (init_main (init_main cut_server).2) as [r p'] eqn:E. simpl in Hok. subst r.
  exists final, p'. split; [reflexivity|]. split; [reflexivity|].
  split; [exact (proj1 (H1 _ _ eq_refl))|exact H2].
Defined.

Lemma init_db_migrates_witness :
  legacy old_alerts (old_server [old_alert 1 0]) /\
  is_Some (run_ddl step3_alerts_table (old_server [old_alert 1 0])) /\
  ~ is_Some (run_ddl step3_alerts_table (old_server [old_alert 1 0; old_alert 2 Minute])).
Proof.
  split; [apply old_server_legacy|]. split.
  - apply (init_db_migrates old_alerts); [apply old_server_legacy|]. split.
    + repeat constructor.
    + apply no_overlap_spec. vm_compute. reflexivity.
  - intros Hs. apply (init_db_migrates old_alerts _ (old_server_legacy _)) in Hs as [_ Hs].
    apply no_overlap_spec in Hs. vm_compute in Hs. discriminate.
Defined.
