(* ===== verification/Timescale.v ===== *)
(** * [ingestion/internal/store/timescale.go]

    The two statements of the ingestion service and the interfaces through which
    the pipeline uses them: [TelemetryStore] for the database writer and
    [AlertStore] for the alert evaluator. *)
From S2P Require Import Prelude GoNum Strconv Redis Domain Tables.
Local Open Scope Z_scope.

Class TelemetryStore (S : Type) := {
  BatchInsert : context -> Time -> list TelemetryMessage -> S -> res unit * S
}.
Class AlertStore (S : Type) := {
  InsertAlert : context -> Time -> string -> string -> AlertType -> AlertSeverity ->
                float64 -> S -> res unit * S
}.

Definition telemetryColumns : list string := [
  "timestamp"; "vehicle_id"; "fleet_id"; "latitude"; "longitude"; "speed_kmh"; "fuel_pct";
  "engine_temp_celsius"; "battery_voltage"; "odometer_km"; "is_moving"; "engine_on"; "raw_payload"]%string.
(** One row of the COPY, in the order of [telemetryColumns]; [received_at] is not
    among the columns, so the table default fills it. *)
Definition telemetry_of (now : Time) (m : TelemetryMessage) : telemetry_row :=
  MkTelemetryRow (Timestamp m) now (VehicleID m) (FleetID m) (Latitude m) (Longitude m)
    (SpeedKmh m) (FuelPct m) (EngineTempC m) (BatteryVoltage m) (OdometerKm m)
    (IsMoving m) (EngineOn m) (RawPayload m).

(** A row the server accepts: its text columns hold no NUL character. *)
Definition copyable (m : TelemetryMessage) : bool := no_nul (VehicleID m) && no_nul (FleetID m).

(** COPY ... FROM STDIN: all the rows or none. *)
Definition copy_stmt (now : Time) (msgs : list TelemetryMessage) (d : db)
  : option (unit * db) :=
  if forallb copyable msgs
  then Some (tt, set_telemetry d (db_telemetry d ++ map (telemetry_of now) msgs))
  else None.

(** INSERT ... ON CONFLICT ON CONSTRAINT vehicle_alerts_dedup_window_excl DO NOTHING.
    The sequence advances even when the row is dropped. *)
Definition insert_alert_stmt (now : Time) (vehicleID fleetID : string) (t : AlertType)
    (sev : AlertSeverity) (v : float64) (d : db) : option (unit * db) :=
  let a := new_alert (db_alert_seq d) now vehicleID fleetID t sev v in
  if alert_checks a
  then if excl_conflict d a
       then Some (tt, set_alerts d (db_alerts d) (db_alert_seq d + 1))
       else Some (tt, append_alert d a)
  else None.

Section Timescale.
Context {P : Type} `{Database P}.

Definition Timescale_BatchInsert (cx : context) (now : Time) (msgs : list TelemetryMessage)
    (p : P) : res unit * P :=
  match msgs with
  | [] => (Ok tt, p)
  | _ => match pg_run cx (copy_stmt now msgs) p with
         | (Ok tt, p') => (Ok tt, p')
         | (Err e, p') => (Err ("CopyFrom failed for batch of " ++ FormatInt (Z.of_nat (length msgs)) ++ ": " ++ e)%string, p')
         end
  end.

Definition Timescale_InsertAlert (cx : context) (now : Time) (vehicleID fleetID : string)
    (t : AlertType) (sev : AlertSeverity) (v : float64) (p : P) : res unit * P :=
  pg_run cx (insert_alert_stmt now vehicleID fleetID t sev v) p.

#[export] Instance Timescale_TelemetryStore : TelemetryStore P :=
  {| BatchInsert := Timescale_BatchInsert |}.
#[export] Instance Timescale_AlertStore : AlertStore P :=
  {| InsertAlert := Timescale_InsertAlert |}.
End Timescale.

(** ** Lemmas *)

(** Inserting an alert keeps the exclusion constraint, and stores the alert
    exactly when no alert of the vehicle and type is within five minutes of it. *)
Lemma insert_alert_NoOverlap now v f t sev x d u d' :
  insert_alert_stmt now v f t sev x d = Some (u, d') ->
  NoOverlap (db_alerts d) -> NoOverlap (db_alerts d').
Proof.
  unfold insert_alert_stmt. intros Hs Hn.
  destruct (alert_checks _); [|done].
  destruct (excl_conflict _ _) eqn:E; simplify_eq; simpl; [done|].
  by apply NoOverlap_snoc.
Qed.

Lemma insert_alert_rows now v f t sev x d u d' :
  insert_alert_stmt now v f t sev x d = Some (u, d') ->
  let a := new_alert (db_alert_seq d) now v f t sev x in
  db_alerts d' = if excl_conflict d a then db_alerts d else db_alerts d ++ [a].
Proof.
  unfold insert_alert_stmt. intros Hs. destruct (alert_checks _); [|done].
  destruct (excl_conflict _ _) eqn:E; by simplify_eq.
Qed.

(** One call, whatever its outcome. *)
Lemma InsertAlert_step {P} `{DatabaseLaws P} cx now v f t sev x (p : P) :
  NoOverlap (db_alerts (tables p)) ->
  let p' := (Timescale_InsertAlert cx now v f t sev x p).2 in
  NoOverlap (db_alerts (tables p')) /\
  (db_alerts (tables p') = db_alerts (tables p) \/
   db_alerts (tables p') = db_alerts (tables p) ++
     [new_alert (db_alert_seq (tables p)) now v f t sev x]).
Proof.
  intros Hn. simpl. unfold Timescale_InsertAlert.
  destruct (pg_run cx _ p) as [r p'] eqn:E. simpl.
  assert (Hc : tables p' = tables p \/
    exists u, insert_alert_stmt now v f t sev x (tables p) = Some (u, tables p')).
  { destruct r as [u|e]; [right; exists u; by apply pg_run_ok in E|by eapply pg_run_err]. }
  destruct Hc as [->|[u Hs]]; [by split; [|left]|].
  split; [by eapply insert_alert_NoOverlap|].
  rewrite (insert_alert_rows _ _ _ _ _ _ _ _ _ Hs). destruct (excl_conflict _ _); auto.
Qed.

(** A call of [InsertAlert], of any evaluator of any process; the calls that reach
    the database are executed one after the other. *)
Record insert_call := MkInsertCall {
  ic_cx : context; ic_now : Time; ic_vehicleID : string; ic_fleetID : string;
  ic_type : AlertType; ic_severity : AlertSeverity; ic_value : float64
}.
Definition run_insert {P} `{Database P} (p : P) (c : insert_call) : P :=
  (Timescale_InsertAlert (ic_cx c) (ic_now c) (ic_vehicleID c) (ic_fleetID c) (ic_type c)
     (ic_severity c) (ic_value c) p).2.
Definition row_of_call (c : insert_call) (id : Z) : alert_row :=
  new_alert id (ic_now c) (ic_vehicleID c) (ic_fleetID c) (ic_type c) (ic_severity c) (ic_value c).

(** C20. The database backstop of alert deduplication. Whatever the interleaving of
    the calls of any number of evaluators, their clocks, outages and lost
    connections, the [InsertAlert] calls leave no two alerts of one vehicle and type
    whose five-minute windows overlap, keep every alert stored before in its place,
    and add nothing but rows of calls that were made, at most one per call. *)
Theorem InsertAlert_backstop {P} `{DatabaseLaws P} calls (p : P) :
  NoOverlap (db_alerts (tables p)) ->
  let p' := foldl run_insert p calls in
  NoOverlap (db_alerts (tables p')) /\
  exists added made, db_alerts (tables p') = db_alerts (tables p) ++ added /\
    made `sublist_of` calls /\
    Forall2 (fun c a => exists id, a = row_of_call c id) made added.
Proof.
  revert p. induction calls as [|c calls IH]; simpl; intros p Hn.
  { split; [done|]. exists [], []. by rewrite app_nil_r. }
  destruct (InsertAlert_step (ic_cx c) (ic_now c) (ic_vehicleID c) (ic_fleetID c) (ic_type c)
    (ic_severity c) (ic_value c) p Hn) as [Hn1 Hrows].
  fold (run_insert p c) in Hn1, Hrows.
  destruct (IH _ Hn1) as (Hn2 & added & made & Happ & Hsub & Hmade). split; [done|].
  destruct Hrows as [Hrows|Hrows]; rewrite Hrows in Happ.
  - exists added, made. by repeat split; [|apply sublist_cons|].
  - exists (row_of_call c (db_alert_seq (tables p)) :: added), (c :: made).
    rewrite Happ, <- (assoc_L (++)). repeat split; [by apply sublist_skip|].
    constructor; [by eexists|done].
Qed.

(** One message that PostgreSQL cannot store makes its whole batch fail, however
    often it is retried. *)
Lemma BatchInsert_poison {P} `{DatabaseLaws P} cx now msgs (p : P) :
  forallb copyable msgs = false ->
  is_ok (BatchInsert cx now msgs p).1 = false /\
  tables (BatchInsert cx now msgs p).2 = tables p.
Proof.
  intros Hf. simpl. unfold Timescale_BatchInsert. destruct msgs as [|m msgs]; [done|].
  assert (Hs : copy_stmt now (m :: msgs) (tables p) = None).
  { unfold copy_stmt. by rewrite Hf. }
  destruct (pg_run_rejected cx _ p Hs) as [H1 H2].
  destruct (pg_run cx _ p) as [[[]|e] p']; simpl in *; by split.
Qed.

Lemma BatchInsert_cancelled {P} `{DatabaseLaws P} now msgs (p : P) :
  msgs <> [] ->
  is_ok (BatchInsert Cancelled now msgs p).1 = false /\
  tables (BatchInsert Cancelled now msgs p).2 = tables p.
Proof.
  intros Hne. simpl. unfold Timescale_BatchInsert. destruct msgs as [|m msgs]; [done|].
  destruct (pg_run_cancelled _ (copy_stmt now (m :: msgs)) p) as [H1 H2].
  destruct (pg_run Cancelled _ p) as [[[]|e] p']; simpl in *; by split.
Qed.

Lemma BatchInsert_ok {P} `{DatabaseLaws P} cx now msgs (p p' : P) :
  BatchInsert cx now msgs p = (Ok tt, p') ->
  db_telemetry (tables p') = db_telemetry (tables p) ++ map (telemetry_of now) msgs.
Proof.
  simpl. unfold Timescale_BatchInsert. destruct msgs as [|m msgs].
  - intros [= ->]. by rewrite app_nil_r.
  - destruct (pg_run cx _ p) as [[[]|e] p1] eqn:E; [|done]. intros [= ->].
    apply pg_run_ok in E. unfold copy_stmt in E. destruct (forallb _ _); [|done].
    by injection E as <-.
Qed.

(** ** Witness *)
Definition demo_db : MemDB := MkMemDB empty_db [].
Definition demo_call (now : Time) : insert_call :=
  MkInsertCall Live now "v" "f" AlertSpeeding SeverityWarning (f_of_Z 130).
Lemma InsertAlert_backstop_witness :
  let p' := foldl run_insert demo_db [demo_call 0; demo_call Minute] in
  (NoOverlap (db_alerts (tables p')) /\
   exists added made, db_alerts (tables p') = [] ++ added /\
     made `sublist_of` [demo_call 0; demo_call Minute] /\
     Forall2 (fun c a => exists id, a = row_of_call c id) made added) /\
  map al_created_at (db_alerts (tables p')) = [0].
Proof.
  split; [|vm_compute; reflexivity].
  exact (InsertAlert_backstop [demo_call 0; demo_call Minute] demo_db NoOverlap_nil).
Defined.
