(* ===== verification/Dispatcher.v ===== *)
(** * [ingestion/internal/pipeline/dispatcher.go]

    The dispatcher is a transition system: HTTP handlers call [Dispatch], the one
    [Run] goroutine moves messages from the ingress queue to the three worker
    queues, workers take messages from them, and the context may be cancelled.
    A channel keeps, besides its buffer, the messages taken from it so far. *)
From S2P Require Import Prelude GoNum Domain.

Notation msg := TelemetryMessage.

Record channel := MkChannel {
  ch_cap : nat;
  ch_buf : list msg;
  ch_out : list msg      (* taken by the workers, in order *)
}.
Definition make_chan (n : nat) : channel := MkChannel n [] [].
Definition ch_received (c : channel) : list msg := ch_out c ++ ch_buf c.

(** The calls to [send] of one iteration of [Run], in order. *)
Inductive stage := ToDB | ToState | ToAlert.
#[export] Instance stage_eq_dec : EqDecision stage.
Proof. solve_decision. Defined.

(** Where [Run] is: blocked in its select, blocked in a [send], or returned (with
    the message it held and had not sent everywhere, if any). *)
Inductive runner :=
| Waiting
| Sending (m : msg) (s : stage)
| Stopped (held : option (msg * stage)).

Record Dispatcher := MkDispatcher {
  ingress : list msg;
  ingress_cap : nat;
  DBChan : channel;
  StateChan : channel;
  AlertChan : channel;
  run_at : runner;
  ctx_done : bool;
  d_metrics : Metrics;
  admitted : list msg      (* every message [Dispatch] answered true for, in order *)
}.

(** [make] panics on a negative size. *)
Definition NewDispatcher (dbSize stateSize alertSize : Z) : option Dispatcher :=
  if ((0 <=? dbSize) && (0 <=? stateSize) && (0 <=? alertSize))%Z
  then Some (MkDispatcher [] (Z.to_nat stateSize) (make_chan (Z.to_nat dbSize))
               (make_chan (Z.to_nat stateSize)) (make_chan (Z.to_nat alertSize))
               Waiting false no_metrics [])
  else None.

Definition chan_of (s : stage) (d : Dispatcher) : channel :=
  match s with ToDB => DBChan d | ToState => StateChan d | ToAlert => AlertChan d end.
Definition set_chan (s : stage) (c : channel) (d : Dispatcher) : Dispatcher :=
  MkDispatcher (ingress d) (ingress_cap d)
    (match s with ToDB => c | _ => DBChan d end)
    (match s with ToState => c | _ => StateChan d end)
    (match s with ToAlert => c | _ => AlertChan d end)
    (run_at d) (ctx_done d) (d_metrics d) (admitted d).
Definition set_run (r : runner) (d : Dispatcher) : Dispatcher :=
  MkDispatcher (ingress d) (ingress_cap d) (DBChan d) (StateChan d) (AlertChan d)
    r (ctx_done d) (d_metrics d) (admitted d).
Definition set_ingress (q : list msg) (d : Dispatcher) : Dispatcher :=
  MkDispatcher q (ingress_cap d) (DBChan d) (StateChan d) (AlertChan d)
    (run_at d) (ctx_done d) (d_metrics d) (admitted d).
Definition set_done (d : Dispatcher) : Dispatcher :=
  MkDispatcher (ingress d) (ingress_cap d) (DBChan d) (StateChan d) (AlertChan d)
    (run_at d) true (d_metrics d) (admitted d).
Definition admit_msg (m : msg) (d : Dispatcher) : Dispatcher :=
  MkDispatcher (ingress d) (ingress_cap d) (DBChan d) (StateChan d) (AlertChan d)
    (run_at d) (ctx_done d) (d_metrics d) (admitted d ++ [m]).
Definition count_rejected (d : Dispatcher) : Dispatcher :=
  MkDispatcher (ingress d) (ingress_cap d) (DBChan d) (StateChan d) (AlertChan d)
    (run_at d) (ctx_done d) (add_rejected 1 (d_metrics d)) (admitted d).

(** [Dispatch]: a send that does not block. On an unbuffered ingress it succeeds
    only when [Run] is blocked in its select, which then takes the message. *)
Definition Dispatch (m : msg) (d : Dispatcher) : bool * Dispatcher :=
  let '(ok, q) := chan_try_send (ingress_cap d) m (ingress d) in
  if ok : bool then (true, admit_msg m (set_ingress q d))
  else match ingress_cap d, run_at d with
       | O, Waiting => (true, admit_msg m (set_run (Sending m ToDB) d))
       | _, _ => (false, count_rejected d)
       end.

(** What [Run] does after a successful [send]. *)
Definition after_send (m : msg) (s : stage) : runner :=
  match s with ToDB => Sending m ToState | ToState => Sending m ToAlert | ToAlert => Waiting end.

Inductive step : Dispatcher -> Dispatcher -> Prop :=
| step_dispatch m b d d' : Dispatch m d = (b, d') -> step d d'
| step_recv m q d :
    run_at d = Waiting -> ingress d = m :: q ->
    step d (set_run (Sending m ToDB) (set_ingress q d))
| step_send m s d :
    run_at d = Sending m s -> length (ch_buf (chan_of s d)) < ch_cap (chan_of s d) ->
    step d (set_run (after_send m s)
              (set_chan s (MkChannel (ch_cap (chan_of s d)) (ch_buf (chan_of s d) ++ [m])
                             (ch_out (chan_of s d))) d))
| step_handoff m s d :        (* a worker is blocked in its receive *)
    run_at d = Sending m s -> ch_buf (chan_of s d) = [] ->
    step d (set_run (after_send m s)
              (set_chan s (MkChannel (ch_cap (chan_of s d)) []
                             (ch_out (chan_of s d) ++ [m])) d))
| step_take m q s d :
    ch_buf (chan_of s d) = m :: q ->
    step d (set_chan s (MkChannel (ch_cap (chan_of s d)) q (ch_out (chan_of s d) ++ [m])) d)
| step_cancel d : step d (set_done d)
| step_stop_waiting d :
    ctx_done d = true -> run_at d = Waiting -> step d (set_run (Stopped None) d)
| step_stop_sending m s d :
    ctx_done d = true -> run_at d = Sending m s ->
    step d (set_run (Stopped (Some (m, s))) d).

(** The steps of [Run] and the workers alone, with the context live. *)
Inductive work : Dispatcher -> Dispatcher -> Prop :=
| work_recv m q d :
    run_at d = Waiting -> ingress d = m :: q ->
    work d (set_run (Sending m ToDB) (set_ingress q d))
| work_send m s d :
    run_at d = Sending m s -> length (ch_buf (chan_of s d)) < ch_cap (chan_of s d) ->
    work d (set_run (after_send m s)
              (set_chan s (MkChannel (ch_cap (chan_of s d)) (ch_buf (chan_of s d) ++ [m])
                             (ch_out (chan_of s d))) d))
| work_handoff m s d :
    run_at d = Sending m s -> ch_buf (chan_of s d) = [] ->
    work d (set_run (after_send m s)
              (set_chan s (MkChannel (ch_cap (chan_of s d)) []
                             (ch_out (chan_of s d) ++ [m])) d))
| work_take m q s d :
    ch_buf (chan_of s d) = m :: q ->
    work d (set_chan s (MkChannel (ch_cap (chan_of s d)) q (ch_out (chan_of s d) ++ [m])) d).

Definition started (d : Dispatcher) : Prop :=
  exists n1 n2 n3, NewDispatcher n1 n2 n3 = Some d.
Definition reachable (d : Dispatcher) : Prop := exists d0, started d0 /\ rtc step d0 d.

(** ** The invariant *)
Definition stage_no (s : stage) : nat :=
  match s with ToDB => 0 | ToState => 1 | ToAlert => 2 end.
(** The message [Run] holds and has not sent to [s] yet. *)
Definition held_for (s : stage) (r : runner) : list msg :=
  match r with
  | Waiting | Stopped None => []
  | Sending m s0 | Stopped (Some (m, s0)) => if stage_no s0 <=? stage_no s then [m] else []
  end.

(** Nothing admitted is duplicated, reordered or forgotten: for each worker queue,
    what went through it, what [Run] holds for it and what is queued at the ingress
    are together the admitted messages, in order; and no buffer exceeds its size. *)
Record Conserved (d : Dispatcher) : Prop := {
  cons_flow : forall s,
    admitted d = ch_received (chan_of s d) ++ held_for s (run_at d) ++ ingress d;
  cons_ingress : length (ingress d) <= ingress_cap d;
  cons_buf : forall s, length (ch_buf (chan_of s d)) <= ch_cap (chan_of s d)
}.

Lemma chan_set_eq s c d : chan_of s (set_chan s c d) = c.
Proof. by destruct s. Qed.
Lemma chan_set_ne s s' c d : s <> s' -> chan_of s' (set_chan s c d) = chan_of s' d.
Proof. by destruct s, s'. Qed.
Lemma chan_set_run s r d : chan_of s (set_run r d) = chan_of s d.
Proof. by destruct s. Qed.

(** Sending to [s] moves the message from what [Run] holds to the channel. *)
Lemma held_after_send m s s' :
  held_for s' (Sending m s) =
  (if decide (s = s') then [m] else []) ++ held_for s' (after_send m s).
Proof. by destruct s, s'. Qed.

Lemma Conserved_new n1 n2 n3 d : NewDispatcher n1 n2 n3 = Some d -> Conserved d.
Proof.
  unfold NewDispatcher. intros Hn. destruct (_ && _ && _)%Z; [|done].
  injection Hn as <-. split; simpl; [by intros []|lia|intros []; simpl; lia].
Qed.

Lemma Conserved_dispatch m b d d' : Dispatch m d = (b, d') -> Conserved d -> Conserved d'.
Proof.
  unfold Dispatch. intros Hd [Hf Hi Hb].
  destruct (chan_try_send (ingress_cap d) m (ingress d)) as [[] q] eqn:E.
  - apply chan_try_send_true in E as [Hlt ->]. simplify_eq.
    split; simpl; [|rewrite length_app; simpl; lia|by intros s'; specialize (Hb s'); destruct s'].
    intros s. rewrite (Hf s). destruct s; simpl; by rewrite <- !(assoc_L (++)).
  - apply chan_try_send_false in E as [Hge ->].
    assert (Hrej : Conserved (count_rejected d)) by (split; [by intros s'; specialize (Hf s'); destruct s'|done|by intros s'; specialize (Hb s'); destruct s']).
    destruct (ingress_cap d) eqn:Hcap; [|by simplify_eq].
    destruct (run_at d) eqn:Hr; simplify_eq; try done.
    assert (Hnil : ingress d = []) by (apply nil_length_inv; lia).
    split; simpl; [|lia|by intros s'; specialize (Hb s'); destruct s'].
    intros s. rewrite (Hf s), Hnil. destruct s; simpl; by rewrite !app_nil_r.
Qed.

Lemma Conserved_recv m q d :
  run_at d = Waiting -> ingress d = m :: q -> Conserved d ->
  Conserved (set_run (Sending m ToDB) (set_ingress q d)).
Proof.
  intros Hr Hq [Hf Hi Hb]. split; simpl.
  - intros s. rewrite (Hf s), Hr, Hq. by destruct s.
  - rewrite Hq in Hi. simpl in Hi. lia.
  - intros s'; specialize (Hb s'); by destruct s'.
Qed.

(** A successful send or hand-off: the channel received one more message. *)
Lemma Conserved_send m s c d :
  run_at d = Sending m s -> ch_received c = ch_received (chan_of s d) ++ [m] ->
  length (ch_buf c) <= ch_cap c -> Conserved d ->
  Conserved (set_run (after_send m s) (set_chan s c d)).
Proof.
  intros Hr Hc Hcap [Hf Hi Hb]. split; [|done|].
  - intros s'. rewrite chan_set_run.
    change (admitted (set_run (after_send m s) (set_chan s c d))) with (admitted d).
    change (run_at (set_run (after_send m s) (set_chan s c d))) with (after_send m s).
    change (ingress (set_run (after_send m s) (set_chan s c d))) with (ingress d).
    rewrite (Hf s'), Hr, held_after_send. destruct (decide (s = s')) as [<-|Hne].
    + rewrite chan_set_eq, Hc. by rewrite <- !(assoc_L (++)).
    + by rewrite chan_set_ne.
  - intros s'. rewrite chan_set_run. destruct (decide (s = s')) as [<-|Hne].
    + by rewrite chan_set_eq.
    + rewrite chan_set_ne by done. apply Hb.
Qed.

Lemma Conserved_take m q s d :
  ch_buf (chan_of s d) = m :: q -> Conserved d ->
  Conserved (set_chan s (MkChannel (ch_cap (chan_of s d)) q (ch_out (chan_of s d) ++ [m])) d).
Proof.
  intros Hq [Hf Hi Hb]. split; [|done|].
  - intros s'. change (admitted (set_chan s _ d)) with (admitted d). rewrite (Hf s').
    destruct (decide (s = s')) as [<-|Hne].
    + rewrite chan_set_eq. unfold ch_received. simpl. rewrite Hq. by rewrite <- !(assoc_L (++)).
    + by rewrite chan_set_ne.
  - intros s'. destruct (decide (s = s')) as [<-|Hne].
    + rewrite chan_set_eq. simpl. specialize (Hb s). rewrite Hq in Hb. simpl in Hb. lia.
    + rewrite chan_set_ne by done. apply Hb.
Qed.

Lemma Conserved_run r d :
  (forall s, held_for s r = held_for s (run_at d)) -> Conserved d -> Conserved (set_run r d).
Proof.
  intros Hh [Hf Hi Hb]. split; [|done|intros s; rewrite chan_set_run; apply Hb].
  intros s. rewrite chan_set_run.
  change (admitted d = ch_received (chan_of s d) ++ held_for s r ++ ingress d).
  rewrite Hh. apply Hf.
Qed.

Lemma Conserved_work d d' : work d d' -> Conserved d -> Conserved d'.
Proof.
  intros [m q d0 Hr Hq|m s d0 Hr Hlt|m s d0 Hr Hb|m q s d0 Hq] Hc.
  - by apply Conserved_recv.
  - apply Conserved_send; [done| |simpl; rewrite length_app; simpl; lia|done].
    unfold ch_received. simpl. by rewrite (assoc_L (++)).
  - apply Conserved_send; [done| |simpl; lia|done].
    unfold ch_received. simpl. by rewrite Hb, !app_nil_r.
  - by apply Conserved_take.
Qed.

Lemma Conserved_step d d' : step d d' -> Conserved d -> Conserved d'.
Proof.
  intros Hs Hc. destruct Hs.
  - by eapply Conserved_dispatch.
  - by apply Conserved_recv.
  - by apply (Conserved_work d); [apply work_send|].
  - by apply (Conserved_work d); [apply work_handoff|].
  - by apply Conserved_take.
  - destruct Hc as [Hf Hi Hb]. split; [by intros s'; specialize (Hf s'); destruct s'|done|by intros s'; specialize (Hb s'); destruct s'].
  - apply Conserved_run; [|done]. intros s. by rewrite H0.
  - apply Conserved_run; [|done]. intros s'. by rewrite H0.
Qed.

#[export] Hint Resolve Conserved_step Conserved_work Conserved_new : fleet.

(** C6. Conservation. In every reachable state of the dispatcher (any interleaving
    of HTTP handlers, the fan-out goroutine, workers and cancellation), the messages
    that went through each worker queue, followed by the one [Run] still holds for
    it and by the ingress queue, are exactly the messages acknowledged by
    [Dispatch], in order; every queue respects its capacity. *)
Theorem dispatcher_conservation d : reachable d -> Conserved d.
Proof.
  intros (d0 & (n1 & n2 & n3 & Hn) & Hrun).
  apply (rtc_invariant step Conserved d0 d); [apply Conserved_step|done|].
  by apply Conserved_new in Hn.
Qed.

(** ** Admission *)

(** Admission is decided by the ingress queue alone: [Dispatch] refuses a
    message exactly when the queue is at capacity (and, if it is unbuffered, [Run]
    is not waiting); a refusal is counted and changes nothing else, an acceptance
    puts the message last among the admitted ones and counts nothing. *)
Theorem Dispatch_admission m d :
  let '(ok, d') := Dispatch m d in
  (ok = true <-> length (ingress d) < ingress_cap d \/
                 (ingress_cap d = 0 /\ run_at d = Waiting)) /\
  (if ok then admitted d' = admitted d ++ [m] /\ d_metrics d' = d_metrics d
   else d' = count_rejected d).
Proof.
  unfold Dispatch.
  destruct (chan_try_send (ingress_cap d) m (ingress d)) as [[] q] eqn:E.
  - apply chan_try_send_true in E as [Hlt ->]. split; [|done]. split; [by left|done].
  - apply chan_try_send_false in E as [Hge ->].
    destruct (ingress_cap d) eqn:Hcap; [destruct (run_at d) eqn:Hr|]; (split; [|done]);
      (split; [naive_solver lia|]); naive_solver lia.
Qed.

(** ** Fan-out terminates with everything delivered *)
Definition runner_weight (r : runner) : nat :=
  match r with
  | Waiting | Stopped _ => 0
  | Sending _ ToDB => 6 | Sending _ ToState => 4 | Sending _ ToAlert => 2
  end.
Definition work_left (d : Dispatcher) : nat :=
  7 * length (ingress d) + runner_weight (run_at d) +
  length (ch_buf (DBChan d)) + length (ch_buf (StateChan d)) + length (ch_buf (AlertChan d)).

Lemma work_decreases d d' : work d d' -> work_left d' < work_left d.
Proof.
  intros [m q d0 Hr Hq|m s d0 Hr Hlt|m s d0 Hr Hb|m q s d0 Hq]; unfold work_left.
  - rewrite Hr, Hq. simpl. lia.
  - rewrite Hr. destruct s; simpl; rewrite length_app; simpl; lia.
  - rewrite Hr. destruct s; simpl in *; rewrite ?Hb; simpl; lia.
  - destruct s; simpl in *; rewrite ?Hq; simpl; lia.
Qed.

Lemma work_wf : well_founded (flip work).
Proof. apply (well_founded_lt_compat _ work_left). intros x y. apply work_decreases. Qed.

Definition is_stopped (r : runner) : bool := match r with Stopped _ => true | _ => false end.

Lemma work_not_stopped d d' :
  work d d' -> is_stopped (run_at d) = false -> is_stopped (run_at d') = false.
Proof. intros [m q d0 Hr Hq|m s d0 Hr Hlt|m s d0 Hr Hb|m q s d0 Hq]; simpl; by try destruct s. Qed.

Lemma work_admitted d d' : work d d' -> admitted d' = admitted d.
Proof. by intros []. Qed.

Lemma work_stuck d :
  is_stopped (run_at d) = false -> ~ (exists d', work d d') ->
  run_at d = Waiting /\ ingress d = [] /\ forall s, ch_buf (chan_of s d) = [].
Proof.
  intros Hns Hstuck.
  assert (Hbuf : forall s, ch_buf (chan_of s d) = []).
  { intros s. destruct (ch_buf (chan_of s d)) as [|m q] eqn:E; [done|].
    destruct Hstuck. eexists. by eapply work_take. }
  destruct (run_at d) as [|m s|h] eqn:Hr; [|destruct Hstuck; eexists; by eapply work_handoff|done].
  destruct (ingress d) as [|m q] eqn:Hq; [done|].
  destruct Hstuck. eexists. by eapply work_recv.
Qed.

(** C17. Liveness of the fan-out. As long as [Run] has not returned, the goroutine
    and the workers left to themselves always terminate, whatever they do first,
    and they only stop when every admitted message has been handed to a database
    writer, a state writer and an alert evaluator, each in admission order. *)
Theorem dispatcher_delivers d :
  reachable d -> is_stopped (run_at d) = false ->
  Acc (flip work) d /\
  forall d', rtc work d d' -> ~ (exists d'', work d' d'') ->
    admitted d' = admitted d /\ forall s, ch_out (chan_of s d') = admitted d.
Proof.
  intros Hr Hns. split; [apply work_wf|].
  assert (Hc : Conserved d).
  { destruct Hr as (d0 & (n1 & n2 & n3 & Hn) & Hrun).
    apply (rtc_invariant step Conserved d0 d); eauto with fleet. }
  clear Hr. intros d' Hrun Hstuck. revert Hns Hc.
  induction Hrun as [d|d d1 d2 Hw Hrun IH]; intros Hns Hc.
  - split; [done|]. destruct (work_stuck d Hns Hstuck) as (Hr & Hi & Hb). intros s.
    pose proof (cons_flow d Hc s) as Hf. unfold ch_received in Hf.
    by rewrite Hr, Hi, Hb, !app_nil_r in Hf.
  - rewrite <- (work_admitted d d1 Hw).
    apply IH; [done|by eapply work_not_stopped|by eapply Conserved_work].
Qed.

(** ** Shutdown *)
Lemma stopped_step d d' :
  step d d' -> forall h, run_at d = Stopped h ->
  run_at d' = Stopped h /\ forall s, ch_received (chan_of s d') = ch_received (chan_of s d).
Proof.
  intros Hs h Hr. destruct Hs; try congruence.
  - unfold Dispatch in H. destruct (chan_try_send _ _ _) as [[] q].
    + simplify_eq. split; [done|by intros []].
    + destruct (ingress_cap d); [rewrite Hr in H|]; simplify_eq; (split; [done|by intros []]).
  - split; [by destruct s|]. intros s'. destruct (decide (s = s')) as [<-|Hne].
    + rewrite chan_set_eq. unfold ch_received. simpl. rewrite H. by rewrite <- (assoc_L (++)).
    + by rewrite chan_set_ne.
  - split; [done|by intros []].
Qed.

(** What a shutdown loses. Once [Run] has returned, nothing reaches the worker
    queues any more: the admitted messages still in the ingress queue, and the one
    held in the middle of its fan-out for the queues it had not reached, are never
    delivered, although [Dispatch] answered true for them. *)
Theorem dispatcher_shutdown_loss d h d' s :
  reachable d -> run_at d = Stopped h -> rtc step d d' ->
  ch_received (chan_of s d') = ch_received (chan_of s d) /\
  admitted d = ch_received (chan_of s d) ++ held_for s (Stopped h) ++ ingress d.
Proof.
  intros (d0 & (n1 & n2 & n3 & Hn) & Hrun) Hr Hafter. split.
  - clear Hrun. revert Hr. induction Hafter as [|x y z Hs Hafter IH]; intros Hr; [done|].
    destruct (stopped_step x y Hs h Hr) as [Hr' Hc]. rewrite IH by done. apply Hc.
  - rewrite <- Hr. apply cons_flow.
    apply (rtc_invariant step Conserved d0 d); eauto with fleet.
Qed.

(** ** Witnesses *)
Definition demo_msg (v : string) : msg :=
  MkTelemetryMessage 0%Z 0%Z v "fleet-a" f_zero f_zero f_zero (f_of_Z 50%Z) f_zero f_zero f_zero
    false false "{}".
Definition demo_dispatcher : Dispatcher :=
  MkDispatcher [] 1 (make_chan 1) (make_chan 1) (make_chan 1) Waiting false no_metrics [].
Definition demo_admitted : Dispatcher := (Dispatch (demo_msg "v1") demo_dispatcher).2.
Definition demo_stopped : Dispatcher := set_run (Stopped None) (set_done demo_admitted).

Lemma demo_admitted_reachable : reachable demo_admitted.
Proof.
  exists demo_dispatcher. split; [by exists 1%Z, 1%Z, 1%Z|].
  apply rtc_once. by apply (step_dispatch (demo_msg "v1") true).
Qed.
Lemma demo_stopped_reachable : reachable demo_stopped.
Proof.
  destruct demo_admitted_reachable as (d0 & Hs & Hr). exists d0. split; [done|].
  eapply rtc_r; [eapply rtc_r; [exact Hr|apply step_cancel]|]. by apply step_stop_waiting.
Qed.

Lemma dispatcher_conservation_witness : reachable demo_admitted /\ Conserved demo_admitted.
Proof.
  split; [exact demo_admitted_reachable|].
  exact (dispatcher_conservation demo_admitted demo_admitted_reachable).
Defined.

Lemma dispatcher_delivers_witness :
  reachable demo_admitted /\ is_stopped (run_at demo_admitted) = false /\
  admitted demo_admitted = [demo_msg "v1"] /\ Acc (flip work) demo_admitted.
Proof.
  split; [exact demo_admitted_reachable|]. split; [reflexivity|]. split; [reflexivity|].
  exact (proj1 (dispatcher_delivers demo_admitted demo_admitted_reachable eq_refl)).
Defined.

(** A message acknowledged just before the shutdown is in no worker queue and stays
    in the ingress queue. *)
Lemma dispatcher_shutdown_loss_witness :
  admitted demo_stopped = [demo_msg "v1"] /\
  ch_received (chan_of ToDB demo_stopped) = ch_received (chan_of ToDB demo_stopped) /\
  admitted demo_stopped = [] ++ [] ++ [demo_msg "v1"].
Proof.
  split; [reflexivity|].
  exact (dispatcher_shutdown_loss demo_stopped None demo_stopped ToDB demo_stopped_reachable
           eq_refl (rtc_refl _ _)).
Defined.
