(* ===== verification/Writers.v ===== *)
(** * The batching writers: [ingestion/internal/pipeline/db_writer.go], [state_writer.go]

    A writer is a loop over what its [select] chooses: a message, the closing of
    its channel, a tick, or the end of its context. A run is the sequence of these
    events, each with the state of the context and the clock at the store calls it
    may trigger. The batch slice is reused between flushes; both stores copy it
    before returning, so a batch is a plain list here. *)
From S2P Require Import Prelude GoNum Redis Domain RedisStore Tables Timescale.
Local Open Scope Z_scope.

Notation msg := TelemetryMessage.

Inductive event := EvMsg (m : msg) | EvClosed | EvTick | EvDone.
(** An event, with the context and the clock at the first and, for the database
    writer, at the second store call. *)
Record input := MkInput {
  in_ev : event; in_cx1 : context; in_t1 : Time; in_cx2 : context; in_t2 : Time
}.

(** The state of a loop: the current batch, the store, the batches flushed so far
    and whether the loop has returned. *)
Record loop (S : Type) := MkLoop {
  l_batch : list msg; l_store : S; l_flushed : list (list msg); l_returned : bool
}.
Arguments MkLoop {S}.
Arguments l_batch {S}.
Arguments l_store {S}.
Arguments l_flushed {S}.
Arguments l_returned {S}.

Record DBWriter := MkDBWriter { batchSize : Z; flushMS : Z }.
Definition NewDBWriter (batchSize flushMS : Z) : DBWriter :=
  MkDBWriter (if batchSize <? 1 then 1 else batchSize) (if flushMS <? 1 then 1 else flushMS).
(** The ticker's period; [time.NewTicker] panics when it is not positive. *)
Definition flush_period (w : DBWriter) : Z := int_mul (flushMS w) Millisecond.

Section DBWriter.
Context {S : Type} `{TelemetryStore S}.

(** [flush]: one retry (after 500 ms), then the batch is given up. *)
Definition DBWriter_flush (i : input) (batch : list msg) (w : S * Metrics) : S * Metrics :=
  let '(s, mt) := w in
  let n := Z.of_nat (length batch) in
  match BatchInsert (in_cx1 i) (in_t1 i) batch s with
  | (Ok _, s1) => (s1, add_success n mt)
  | (Err _, s1) =>
      match BatchInsert (in_cx2 i) (in_t2 i) batch s1 with
      | (Ok _, s2) => (s2, add_success n mt)
      | (Err _, s2) => (s2, add_failures n mt)
      end
  end.

(** One iteration of [Run]. *)
Definition DBWriter_step (w : DBWriter) (i : input) (l : loop (S * Metrics))
  : loop (S * Metrics) :=
  if l_returned l then l
  else
    let batch := l_batch l in
    let flushed b := MkLoop [] (DBWriter_flush i b (l_store l)) (l_flushed l ++ [b]) in
    match in_ev i with
    | EvClosed => if (0 <? length batch)%nat then flushed batch true
                  else MkLoop [] (l_store l) (l_flushed l) true
    | EvMsg m =>
        let batch := batch ++ [m] in
        if batchSize w <=? Z.of_nat (length batch) then flushed batch false
        else MkLoop batch (l_store l) (l_flushed l) false
    | EvTick => if (0 <? length batch)%nat then flushed batch false else l
    | EvDone => if (0 <? length batch)%nat then flushed batch true
                else MkLoop [] (l_store l) (l_flushed l) true
    end.
Definition DBWriter_Run (w : DBWriter) (is_ : list input) (l : loop (S * Metrics))
  : loop (S * Metrics) := foldl (fun l i => DBWriter_step w i l) l is_.
End DBWriter.

Section StateWriter.
Context {S : Type} `{StateStore S}.

(** [flushBatch]: an empty batch is skipped, a failure only logged. *)
Definition StateWriter_flushBatch (i : input) (batch : list msg) (s : S) : S :=
  match batch with
  | [] => s
  | _ => (PipelineStateUpdates (in_cx1 i) (in_t1 i) batch s).2
  end.
Definition state_batch : Z := 100.
Definition StateWriter_step (i : input) (l : loop S) : loop S :=
  if l_returned l then l
  else
    let batch := l_batch l in
    let flush b := MkLoop [] (StateWriter_flushBatch i b (l_store l))
                     (if (0 <? length b)%nat then l_flushed l ++ [b] else l_flushed l) in
    match in_ev i with
    | EvClosed => flush batch true
    | EvMsg m =>
        let batch := batch ++ [m] in
        if state_batch <=? Z.of_nat (length batch) then flush batch false
        else MkLoop batch (l_store l) (l_flushed l) false
    | EvTick => if (0 <? length batch)%nat then flush batch false else l
    | EvDone => flush batch true
    end.
Definition StateWriter_Run (is_ : list input) (l : loop S) : loop S :=
  foldl (fun l i => StateWriter_step i l) l is_.
End StateWriter.

(** ** The batching machine both loops implement

    A batch is flushed when it reaches the limit, at a tick and at the end; a
    flush of an empty batch does nothing. *)
Definition batch_flush {S} (f : list msg -> S -> S) (b : list msg) (ret : bool) (l : loop S)
  : loop S :=
  if (0 <? length b)%nat then MkLoop [] (f b (l_store l)) (l_flushed l ++ [b]) ret
  else MkLoop [] (l_store l) (l_flushed l) ret.
Definition batch_step {S} (limit : Z) (f : list msg -> S -> S) (e : event) (l : loop S)
  : loop S :=
  if l_returned l then l
  else match e with
       | EvMsg m => let b := l_batch l ++ [m] in
                    if limit <=? Z.of_nat (length b) then batch_flush f b false l
                    else MkLoop b (l_store l) (l_flushed l) false
       | EvTick => batch_flush f (l_batch l) false l
       | EvClosed | EvDone => batch_flush f (l_batch l) true l
       end.

(** What a run of events delivers to the loop before it returns. *)
Fixpoint received (es : list event) : list msg :=
  match es with
  | EvMsg m :: es' => m :: received es'
  | EvTick :: es' => received es'
  | _ => []
  end.
Definition ends (es : list event) : bool :=
  existsb (fun e => match e with EvClosed | EvDone => true | _ => false end) es.
Definition start {S} (s : S) : loop S := MkLoop [] s [] false.

Lemma batch_flush_nil {S} (f : list msg -> S -> S) ret (l : loop S) :
  batch_flush f [] ret l = MkLoop [] (l_store l) (l_flushed l) ret.
Proof. done. Qed.

Lemma DBWriter_step_spec {S} `{TelemetryStore S} w i (l : loop (S * Metrics)) :
  DBWriter_step w i l = batch_step (batchSize w) (DBWriter_flush i) (in_ev i) l.
Proof.
  unfold DBWriter_step, batch_step, batch_flush. destruct l as [b s fl []]; [done|]; simpl.
  destruct (in_ev i) as [m| | |]; simpl; by destruct b.
Qed.

Lemma StateWriter_step_spec {S} `{StateStore S} i (l : loop S) :
  StateWriter_step i l = batch_step state_batch (StateWriter_flushBatch i) (in_ev i) l.
Proof.
  unfold StateWriter_step, batch_step, batch_flush. destruct l as [b s fl []]; [done|]; simpl.
  destruct (in_ev i) as [m| | |]; simpl; by destruct b.
Qed.

(** The batching invariant: what was received is the flushed batches followed by the
    current one; batches are non-empty and within the limit; a loop that returned
    holds nothing. *)
Record Batched {S} (limit : Z) (recv : list msg) (l : loop S) : Prop := {
  bat_flow : recv = concat (l_flushed l) ++ l_batch l;
  bat_size : Forall (fun b => b <> [] /\ Z.of_nat (length b) <= limit) (l_flushed l);
  bat_cur : l_batch l = [] \/ Z.of_nat (length (l_batch l)) < limit;
  bat_ret : l_returned l = true -> l_batch l = []
}.

Lemma Batched_flush {S} limit (f : list msg -> S -> S) recv b ret (l : loop S) :
  recv = concat (l_flushed l) ++ b ->
  Forall (fun b => b <> [] /\ Z.of_nat (length b) <= limit) (l_flushed l) ->
  Z.of_nat (length b) <= limit -> Batched limit recv (batch_flush f b ret l).
Proof.
  intros -> Hs Hb. unfold batch_flush. destruct b as [|m b]; simpl.
  - split; simpl; auto.
  - split; simpl; auto.
    + by rewrite concat_app, app_nil_r; simpl; rewrite app_nil_r.
    + apply Forall_app. split; [done|]. apply Forall_singleton. by split.
Qed.

Lemma Batched_step {S} limit (f : list msg -> S -> S) e recv (l : loop S) :
  1 <= limit -> l_returned l = false -> Batched limit recv l ->
  Batched limit (recv ++ received [e]) (batch_step limit f e l).
Proof.
  intros Hlim Hret [Hf Hs Hc Hr]. unfold batch_step. rewrite Hret.
  assert (Hcur : Z.of_nat (length (l_batch l)) <= limit) by (destruct Hc as [->|?]; simpl; lia).
  destruct e as [m| | |]; simpl; rewrite ?app_nil_r; try by apply Batched_flush.
  destruct (Z.leb_spec limit (Z.of_nat (length (l_batch l ++ [m])))) as [Hge|Hlt].
  - apply Batched_flush; [by rewrite Hf, <- (assoc_L (++))|done|].
    rewrite length_app in *. simpl in *. destruct Hc as [Hn|?]; [rewrite Hn in *; simpl in *; lia|lia].
  - split; simpl; [by rewrite Hf, <- (assoc_L (++))|done|by right|done].
Qed.

(** The whole run, for any machine that steps like the batching machine. *)
Lemma Batched_run {S} limit (stepf : input -> loop S -> loop S)
    (flushf : input -> list msg -> S -> S) is_ recv (l : loop S) :
  1 <= limit ->
  (forall i l, stepf i l = batch_step limit (flushf i) (in_ev i) l) ->
  l_returned l = false -> Batched limit recv l ->
  let l' := foldl (fun l i => stepf i l) l is_ in
  Batched limit (recv ++ received (map in_ev is_)) l' /\
  l_returned l' = ends (map in_ev is_).
Proof.
  intros Hlim Hstep. revert recv l. induction is_ as [|i is_ IH]; intros recv l Hret Hb; simpl.
  - by rewrite app_nil_r.
  - rewrite Hstep. pose proof (Batched_step limit (flushf i) (in_ev i) recv l Hlim Hret Hb) as Hb'.
    assert (Hdone : forall l0 : loop S, l_returned l0 = true ->
              foldl (fun l i => stepf i l) l0 is_ = l0).
    { intros l0 H0. clear -Hstep H0. induction is_ as [|j js IHj]; simpl; [done|].
      rewrite Hstep. unfold batch_step. rewrite H0. exact IHj. }
    unfold batch_step in *. rewrite Hret in *.
    destruct (in_ev i) as [m| | |] eqn:He; simpl in *; unfold batch_flush in *.
    + rewrite cons_middle, (assoc_L (++)). apply IH; [|done]. repeat case_match; done.
    + rewrite Hdone by (repeat case_match; done). split; [done|repeat case_match; done].
    + rewrite app_nil_r in Hb'. apply IH; [|done]. repeat case_match; done.
    + rewrite Hdone by (repeat case_match; done). split; [done|repeat case_match; done].
Qed.

Lemma Batched_start {S} limit (s : S) : Batched limit [] (start s).
Proof. by split; [|constructor|left|]. Qed.

(** ** Properties of the writers *)

(** The database writer, whatever its configuration (a size or period below 1 is
    raised to 1) and whatever its select chooses: the batches it flushed followed by
    the one it is filling are exactly the messages it received, in order; no flush is
    empty or larger than the batch size; it returns exactly when its channel is closed
    or its context ends, and then holds no message it has not flushed. *)
Theorem DBWriter_batches {S} `{TelemetryStore S} size ms is_ (w0 : S * Metrics) :
  let w := NewDBWriter size ms in
  let l := DBWriter_Run w is_ (start w0) in
  1 <= batchSize w /\ 1 <= flushMS w /\
  Batched (batchSize w) (received (map in_ev is_)) l /\
  l_returned l = ends (map in_ev is_).
Proof.
  assert (Hb : 1 <= batchSize (NewDBWriter size ms)) by (simpl; destruct (Z.ltb_spec size 1); lia).
  split; [done|]. split; [simpl; destruct (Z.ltb_spec ms 1); lia|].
  apply (Batched_run _ (DBWriter_step (NewDBWriter size ms)) DBWriter_flush is_ [] (start w0));
    [done|intros; apply DBWriter_step_spec|done|apply Batched_start].
Qed.

(** The state writer: the same discipline with batches of at most 100. *)
Theorem StateWriter_batches {S} `{StateStore S} is_ (s0 : S) :
  let l := StateWriter_Run is_ (start s0) in
  Batched state_batch (received (map in_ev is_)) l /\ l_returned l = ends (map in_ev is_).
Proof.
  apply (Batched_run _ StateWriter_step StateWriter_flushBatch is_ [] (start s0));
    [done|intros; apply StateWriter_step_spec|done|apply Batched_start].
Qed.

(** *** The write counters *)
Definition writes (mt : Metrics) : Z := DBWriteSuccess mt + DBWriteFailures mt.

Lemma wrap64_add_l a b : wrap64 (wrap64 a + b) = wrap64 (a + b).
Proof.
  unfold wrap64. f_equal.
  replace ((a + 2 ^ 63) mod 2 ^ 64 - 2 ^ 63 + b + 2 ^ 63) with ((a + 2 ^ 63) mod 2 ^ 64 + b) by lia.
  rewrite Z.add_mod_idemp_l by lia. f_equal. lia.
Qed.

Lemma writes_success n mt : wrap64 (writes (add_success n mt)) = wrap64 (writes mt + n).
Proof. unfold writes. simpl. rewrite wrap64_add_l. f_equal. lia. Qed.
Lemma writes_failures n mt : wrap64 (writes (add_failures n mt)) = wrap64 (writes mt + n).
Proof. unfold writes. simpl. rewrite Z.add_comm, wrap64_add_l. f_equal. lia. Qed.
#[export] Hint Rewrite writes_success writes_failures : fleet_rw.

Lemma DBWriter_flush_counts {S} `{TelemetryStore S} i b (s : S) mt :
  wrap64 (writes (DBWriter_flush i b (s, mt)).2) = wrap64 (writes mt + Z.of_nat (length b)).
Proof. unfold DBWriter_flush. repeat case_match; simpl; by autorewrite with fleet_rw. Qed.

(** Every flushed message is counted exactly once, as written or as failed: at
    any point of a run the two counters add up to the messages flushed so far, as
    64-bit counters. *)
Theorem DBWriter_accounting {S} `{TelemetryStore S} w is_ (s0 : S) mt0 :
  let l := DBWriter_Run w is_ (start (s0, mt0)) in
  wrap64 (writes (l_store l).2) =
  wrap64 (writes mt0 + Z.of_nat (length (concat (l_flushed l)))).
Proof.
  set (P := fun l : loop (S * Metrics) => wrap64 (writes (l_store l).2) =
    wrap64 (writes mt0 + Z.of_nat (length (concat (l_flushed l))))).
  assert (Hflush : forall i b ret l, P l -> P (batch_flush (DBWriter_flush i) b ret l)).
  { unfold P. intros i b ret l Hl. unfold batch_flush. case_match; simpl; [|done].
    destruct (l_store l) as [s mt]. rewrite DBWriter_flush_counts. simpl in Hl.
    rewrite <- wrap64_add_l, Hl, wrap64_add_l, concat_app, length_app. simpl.
    rewrite app_nil_r. f_equal. lia. }
  assert (Hstep : forall i l, P l -> P (DBWriter_step w i l)).
  { intros i l Hl. rewrite DBWriter_step_spec. unfold batch_step.
    destruct (l_returned l); [done|]. destruct (in_ev i); auto. simpl. case_match; auto. }
  change (P (DBWriter_Run w is_ (start (s0, mt0)))).
  assert (P0 : P (start (s0, mt0))) by (unfold P; simpl; f_equal; lia).
  revert P0. generalize (start (s0, mt0)). unfold DBWriter_Run.
  induction is_ as [|i is_ IH]; intros l Hl; simpl; auto.
Qed.

(** *** What a flush stores *)

(** The stored rows without the receipt time, which each attempt sets afresh. *)
Definition unstamped (r : telemetry_row) : telemetry_row :=
  MkTelemetryRow (tr_timestamp r) 0 (tr_vehicle_id r) (tr_fleet_id r) (tr_latitude r)
    (tr_longitude r) (tr_speed_kmh r) (tr_fuel_pct r) (tr_engine_temp_celsius r)
    (tr_battery_voltage r) (tr_odometer_km r) (tr_is_moving r) (tr_engine_on r)
    (tr_raw_payload r).
Definition stored (d : db) : list telemetry_row := map unstamped (db_telemetry d).
Definition copies (k : nat) (b : list msg) : list telemetry_row :=
  concat (replicate k (map (telemetry_of 0) b)).

Lemma unstamped_telemetry t b : map unstamped (map (telemetry_of t) b) = map (telemetry_of 0) b.
Proof. rewrite map_map. by apply map_ext. Qed.

(** One attempt stores the batch once, or not at all; it is stored if it is
    reported to be. *)
Lemma BatchInsert_effect {P} `{DatabaseLaws P} cx t b (p : P) :
  exists k : nat, (k <= 1)%nat /\
  stored (tables (BatchInsert cx t b p).2) = stored (tables p) ++ copies k b /\
  (is_ok (BatchInsert cx t b p).1 = true -> k = 1%nat).
Proof.
  assert (Hone : forall d, stored (set_telemetry d (db_telemetry d ++ map (telemetry_of t) b)) =
                           stored d ++ copies 1 b).
  { intros d. unfold stored, copies. simpl. rewrite map_app, unstamped_telemetry.
    by rewrite app_nil_r. }
  simpl. unfold Timescale_BatchInsert. destruct b as [|m b].
  { exists 1%nat. simpl. unfold copies. simpl. rewrite app_nil_r. done. }
  destruct (pg_run cx _ p) as [[[]|e] p'] eqn:E; simpl.
  - apply pg_run_ok in E. unfold copy_stmt in E. destruct (forallb _ _); [|done].
    injection E as <-. exists 1%nat. split; [done|]. split; [apply Hone|done].
  - apply pg_run_err in E as [->|[a E]].
    + exists 0%nat. by rewrite app_nil_r; split; [lia|].
    + unfold copy_stmt in E. destruct (forallb _ _); [|done].
      injection E as _ <-. exists 1%nat. split; [done|]. split; [apply Hone|done].
Qed.

Lemma copies_add j k b : copies j b ++ copies k b = copies (j + k) b.
Proof. unfold copies. by rewrite <- concat_app, replicate_add. Qed.

(** C26. At-least-once storage. A flush stores its batch as a whole, at most twice
    (the retry repeats it when the first attempt was committed but its answer was
    lost) and leaves everything stored before in place; when it counts the batch as
    written, the batch is stored at least once. *)
Theorem DBWriter_flush_stores {P} `{DatabaseLaws P} i b (p : P) mt :
  let '(p', mt') := DBWriter_flush i b (p, mt) in
  exists k : nat, (k <= 2)%nat /\ stored (tables p') = stored (tables p) ++ copies k b /\
  ((mt' = add_success (Z.of_nat (length b)) mt /\ (1 <= k)%nat) \/
   mt' = add_failures (Z.of_nat (length b)) mt).
Proof.
  unfold DBWriter_flush.
  destruct (BatchInsert_effect (in_cx1 i) (in_t1 i) b p) as (k1 & Hk1 & Hs1 & Ho1).
  destruct (BatchInsert (in_cx1 i) (in_t1 i) b p) as [[u|e] p1]; cbn [fst snd is_ok] in *.
  { exists k1. specialize (Ho1 eq_refl). split_and!; [lia|done|left; by split; [|lia]]. }
  destruct (BatchInsert_effect (in_cx2 i) (in_t2 i) b p1) as (k2 & Hk2 & Hs2 & Ho2).
  destruct (BatchInsert (in_cx2 i) (in_t2 i) b p1) as [[u2|e2] p2]; cbn [fst snd is_ok] in *;
    exists (k1 + k2)%nat; rewrite Hs2, Hs1, <- (assoc_L (++)), copies_add;
    (split_and!; [lia|done|]); [left|by right].
  specialize (Ho2 eq_refl). split; [done|lia].
Qed.

(** A poisoned batch. If one message of a batch has an identifier PostgreSQL
    cannot store (it contains the NUL character), both attempts fail: the whole
    batch, with the messages of every other vehicle and fleet in it, is dropped and
    counted as failed, and nothing of it is stored. *)
Theorem DBWriter_poisoned_batch {P} `{DatabaseLaws P} i b (p : P) mt m :
  m ∈ b -> copyable m = false ->
  let '(p', mt') := DBWriter_flush i b (p, mt) in
  tables p' = tables p /\ mt' = add_failures (Z.of_nat (length b)) mt.
Proof.
  intros Hm Hc.
  assert (Hf : forallb copyable b = false).
  { apply not_true_is_false. intros Ht. rewrite forallb_forall in Ht.
    rewrite list_elem_of_In in Hm. apply Ht in Hm. congruence. }
  unfold DBWriter_flush.
  destruct (BatchInsert_poison (in_cx1 i) (in_t1 i) b p Hf) as [H1 T1].
  destruct (BatchInsert (in_cx1 i) (in_t1 i) b p) as [[u|e] p1]; cbn [fst snd is_ok] in *; [done|].
  destruct (BatchInsert_poison (in_cx2 i) (in_t2 i) b p1 Hf) as [H2 T2].
  destruct (BatchInsert (in_cx2 i) (in_t2 i) b p1) as [[u2|e2] p2]; cbn [fst snd is_ok] in *; [done|].
  by rewrite T2, T1.
Qed.

Lemma DBWriter_flush_cancelled {P} `{DatabaseLaws P} ev t1 t2 b (p : P) mt :
  b <> [] ->
  let '(p', mt') := DBWriter_flush (MkInput ev Cancelled t1 Cancelled t2) b (p, mt) in
  tables p' = tables p /\ mt' = add_failures (Z.of_nat (length b)) mt.
Proof.
  intros Hb. unfold DBWriter_flush. cbn [in_cx1 in_cx2 in_t1 in_t2].
  destruct (BatchInsert_cancelled t1 b p Hb) as [H1 T1].
  destruct (BatchInsert Cancelled t1 b p) as [[u|e] p1]; cbn [fst snd is_ok] in *; [done|].
  destruct (BatchInsert_cancelled t2 b p1 Hb) as [H2 T2].
  destruct (BatchInsert Cancelled t2 b p1) as [[u2|e2] p2]; cbn [fst snd is_ok] in *; [done|].
  by rewrite T2, T1.
Qed.

(** The flush at shutdown cannot succeed. When a writer's loop ends because its
    context is done, the last batch is sent on that same context, which both stores
    refuse: the database writer counts the batch as failed and stores nothing, the
    state writer leaves Redis as it was. *)
Theorem shutdown_flush_fails {P R} `{DatabaseLaws P} `{RedisLaws R} w t1 t2
    (l : loop (P * Metrics)) (ls : loop R) :
  let i := MkInput EvDone Cancelled t1 Cancelled t2 in
  (l_returned l = false -> l_batch l <> [] ->
   let l' := DBWriter_step w i l in
   l_returned l' = true /\ tables (l_store l').1 = tables (l_store l).1 /\
   (l_store l').2 = add_failures (Z.of_nat (length (l_batch l))) (l_store l).2) /\
  (l_returned ls = false ->
   let ls' := StateWriter_step i ls in
   l_returned ls' = true /\ contents (l_store ls') = contents (l_store ls)).
Proof.
  intros i. split.
  - intros Hr Hb. destruct l as [b [p mt] fl ret]. cbn [l_returned l_batch l_store] in *. subst ret.
    unfold DBWriter_step. cbn [l_returned l_batch l_store in_ev i].
    destruct b as [|m b]; [done|].
    pose proof (DBWriter_flush_cancelled EvDone t1 t2 (m :: b) p mt Hb) as Hf.
    unfold i. cbn [l_returned l_store length Nat.ltb Nat.leb].
    destruct (DBWriter_flush _ _ _) as [p' mt']. split; [done|exact Hf].
  - intros Hr. unfold StateWriter_step. rewrite Hr. simpl. split; [done|].
    destruct (l_batch ls) as [|m b]; [done|]. simpl. unfold RedisStore_PipelineStateUpdates.
    destruct (state_pipeline (m :: b)) as [cs|e]; [|done].
    destruct (redis_exec_cancelled t1 cs (l_store ls)) as [H3 T3].
    destruct (redis_exec Cancelled t1 cs (l_store ls)) as [[rs|e] r']; cbn [fst snd is_ok] in *; done.
Qed.

(** ** Witnesses *)
Definition demo_tm (v : string) : msg :=
  MkTelemetryMessage 0 0 v "fleet-a" f_zero f_zero f_zero (f_of_Z 50) f_zero f_zero f_zero
    false false "{}".
Definition nul_id : string := String (Ascii.ascii_of_nat 0) "".
Definition demo_input : input := MkInput EvTick Live 0 Live 0.

Lemma DBWriter_poisoned_batch_witness :
  demo_tm nul_id ∈ [demo_tm "v1"; demo_tm nul_id] /\
  copyable (demo_tm nul_id) = false /\
  let '(p', mt') := DBWriter_flush demo_input [demo_tm "v1"; demo_tm nul_id]
                      (demo_db, no_metrics) in
  tables p' = tables demo_db /\ mt' = add_failures 2 no_metrics.
Proof.
  assert (Hin : demo_tm nul_id ∈ [demo_tm "v1"; demo_tm nul_id]) by (right; left).
  split; [exact Hin|]. split; [reflexivity|].
  exact (DBWriter_poisoned_batch demo_input [demo_tm "v1"; demo_tm nul_id] demo_db no_metrics
           (demo_tm nul_id) Hin eq_refl).
Defined.

Lemma DBWriter_flush_stores_witness :
  let p := MkMemDB empty_db [true] in
  (DBWriter_flush demo_input [demo_tm "v1"] (p, no_metrics)).2 = add_success 1 no_metrics /\
  let '(p', mt') := DBWriter_flush demo_input [demo_tm "v1"] (p, no_metrics) in
  exists k : nat, (k <= 2)%nat /\ stored (tables p') = stored (tables p) ++ copies k [demo_tm "v1"] /\
  ((mt' = add_success 1 no_metrics /\ (1 <= k)%nat) \/ mt' = add_failures 1 no_metrics).
Proof.
  split; [reflexivity|].
  exact (DBWriter_flush_stores demo_input [demo_tm "v1"] (MkMemDB empty_db [true]) no_metrics).
Defined.

Lemma shutdown_flush_fails_witness :
  let w := NewDBWriter 2 1000 in
  let i := MkInput EvDone Cancelled 0 Cancelled 0 in
  let l := MkLoop [demo_tm "v1"] (demo_db, no_metrics) [] false in
  let ls := MkLoop [demo_tm "v1"] empty_redis [] false in
  (l_store (DBWriter_step w i l)).2 = add_failures 1 no_metrics /\
  contents (l_store (StateWriter_step i ls)) = contents empty_redis.
Proof.
  destruct (shutdown_flush_fails (NewDBWriter 2 1000) 0 0
              (MkLoop [demo_tm "v1"] (demo_db, no_metrics) [] false)
              (MkLoop [demo_tm "v1"] empty_redis [] false)) as [H1 H2].
  split; [apply H1; [reflexivity|discriminate]|apply H2; reflexivity].
Defined.
