(* ===== verification/Pipeline.v ===== *)
(** * The pipeline of [ingestion/main.go]: the dispatcher and its database writers

    [main] starts the dispatcher and [DBWriterWorkers] writers on its [DBChan]; all of
    them, and the HTTP handlers, run concurrently. Here they are one transition
    system: a step is one of the dispatcher's, a writer receiving a message, one tick
    or end of context, or one [BatchInsert] call, so that the calls of the writers
    interleave (the retry of one with the inserts of the others too). *)
From S2P Require Import Prelude GoNum Domain Redis RedisStore Tables Timescale Dispatcher Writers.
Local Open Scope Z_scope.

(** Where a writer's [Run] is: in its select with a batch; about to make the first or
    the second attempt of a flush, after which it returns or not; or returned. *)
Inductive writer :=
| Batching (b : list msg)
| Flushing (second : bool) (b : list msg) (ret : bool)
| Returned.
Definition after_flush (ret : bool) : writer := if ret then Returned else Batching [].
(** The case of a message: append it, and flush a full batch. *)
Definition take_msg (w : DBWriter) (m : msg) (b : list msg) : writer :=
  let b := b ++ [m] in
  if batchSize w <=? Z.of_nat (length b) then Flushing false b false else Batching b.
(** The end of the context: flush what is there and return. *)
Definition finish (b : list msg) : writer :=
  match b with [] => Returned | _ => Flushing false b true end.

(** The counters of the writers are kept here; [pl_written] and [pl_failed] are the
    messages they were increased for. *)
Record pipeline (P : Type) := MkPipeline {
  pl_disp : Dispatcher; pl_writers : list writer; pl_db : P; pl_metrics : Metrics;
  pl_written : list msg; pl_failed : list msg
}.
Arguments MkPipeline {P}.
Arguments pl_disp {P}.
Arguments pl_writers {P}.
Arguments pl_db {P}.
Arguments pl_metrics {P}.
Arguments pl_written {P}.
Arguments pl_failed {P}.

Section Pipeline.
Context {P : Type} `{Database P}.
Notation pipe := (pipeline P).

Definition move_disp (d : Dispatcher) (pl : pipe) : pipe :=
  MkPipeline d (pl_writers pl) (pl_db pl) (pl_metrics pl) (pl_written pl) (pl_failed pl).
Definition set_writer (k : nat) (x : writer) (pl : pipe) : pipe :=
  MkPipeline (pl_disp pl) (<[k := x]> (pl_writers pl)) (pl_db pl) (pl_metrics pl)
    (pl_written pl) (pl_failed pl).
(** The writers share the context of the dispatcher. *)
Definition pl_cx (pl : pipe) : context := if ctx_done (pl_disp pl) then Cancelled else Live.

(** One attempt of the flush of writer [k], at [t]. *)
Definition attempt (t : Time) (k : nat) (second : bool) (b : list msg) (ret : bool) (pl : pipe)
  : pipe :=
  let n := Z.of_nat (length b) in
  let '(r, p) := BatchInsert (pl_cx pl) t b (pl_db pl) in
  let next x mt ok bad :=
    MkPipeline (pl_disp pl) (<[k := x]> (pl_writers pl)) p mt (pl_written pl ++ ok) (pl_failed pl ++ bad) in
  match r with
  | Ok _ => next (after_flush ret) (add_success n (pl_metrics pl)) b []
  | Err _ => if second then next (after_flush ret) (add_failures n (pl_metrics pl)) [] b
             else next (Flushing true b ret) (pl_metrics pl) [] []
  end.

(** The moves, over those of the dispatcher. A message leaves the channel into the
    hands of a writer that is in its select. *)
Inductive move (w : DBWriter) (front : relation Dispatcher) (pl : pipe) : pipe -> Prop :=
| move_front d' :
    front (pl_disp pl) d' -> ch_out (DBChan d') = ch_out (DBChan (pl_disp pl)) ->
    move w front pl (move_disp d' pl)
| move_recv k b m d' :
    pl_writers pl !! k = Some (Batching b) -> front (pl_disp pl) d' ->
    ch_out (DBChan d') = ch_out (DBChan (pl_disp pl)) ++ [m] ->
    move w front pl (set_writer k (take_msg w m b) (move_disp d' pl))
| move_tick k b :
    pl_writers pl !! k = Some (Batching b) -> b <> [] ->
    move w front pl (set_writer k (Flushing false b false) pl)
| move_attempt t k second b ret :
    pl_writers pl !! k = Some (Flushing second b ret) ->
    move w front pl (attempt t k second b ret pl).
Inductive pipeline_step (w : DBWriter) (pl : pipe) : pipe -> Prop :=
| pipeline_move pl' : move w step pl pl' -> pipeline_step w pl pl'
| pipeline_done k b :
    ctx_done (pl_disp pl) = true -> pl_writers pl !! k = Some (Batching b) ->
    pipeline_step w pl (set_writer k (finish b) pl).

(** What [main] starts. *)
Definition NewPipeline (dbSize stateSize alertSize workers : Z) (p : P) : option pipe :=
  d ← NewDispatcher dbSize stateSize alertSize;
  Some (MkPipeline d (replicate (Z.to_nat workers) (Batching [])) p no_metrics [] []).
Definition running (w : DBWriter) (p0 : P) (pl : pipe) : Prop :=
  exists n1 n2 n3 n4 pl0, NewPipeline n1 n2 n3 n4 p0 = Some pl0 /\ rtc (pipeline_step w) pl0 pl.
End Pipeline.

(** A writer whose flush nobody interrupts does what [DBWriter_flush] does in one go. *)
Definition flush_alone {P} `{Database P} (t1 t2 : Time) (k : nat) (b : list msg) (ret : bool)
    (pl : pipeline P) : pipeline P :=
  let pl1 := attempt t1 k false b ret pl in
  match pl_writers pl1 !! k with
  | Some (Flushing true b' ret') => attempt t2 k true b' ret' pl1
  | _ => pl1
  end.
Lemma flush_alone_spec {P} `{Database P} ev t1 t2 k b ret (pl : pipeline P) :
  (k < length (pl_writers pl))%nat ->
  let pl' := flush_alone t1 t2 k b ret pl in
  (pl_db pl', pl_metrics pl') =
    DBWriter_flush (MkInput ev (pl_cx pl) t1 (pl_cx pl) t2) b (pl_db pl, pl_metrics pl) /\
  pl_writers pl' !! k = Some (after_flush ret) /\
  forall j, j <> k -> pl_writers pl' !! j = pl_writers pl !! j.
Proof.
  intros Hk. unfold flush_alone, attempt, DBWriter_flush. cbn [in_cx1 in_cx2 in_t1 in_t2].
  destruct (BatchInsert (pl_cx pl) t1 b (pl_db pl)) as [[u|e] p1];
    cbn [pl_writers pl_db pl_metrics pl_disp]; rewrite list_lookup_insert_eq by done.
  { destruct ret; simpl; (split_and!; [done|by rewrite list_lookup_insert_eq|]);
      intros; by rewrite list_lookup_insert_ne. }
  change (pl_cx _) with (pl_cx pl).
  destruct (BatchInsert (pl_cx pl) t2 b p1) as [[u|e2] p2];
    cbn [pl_writers pl_db pl_metrics]; rewrite list_insert_insert_eq;
    (split_and!; [done|by rewrite list_lookup_insert_eq|]); intros; by rewrite list_lookup_insert_ne.
Qed.

(** ** Where a message of the database queue is *)
Definition holds (x : writer) : list msg :=
  match x with Batching b | Flushing _ b _ => b | Returned => [] end.
Definition retries (x : writer) : list msg :=
  match x with Flushing true b _ => b | _ => [] end.
Definition gather (f : writer -> list msg) (ws : list writer) : list msg := concat (map f ws).

(** Replacing one writer changes its part of what is gathered only. *)
Lemma gather_at (ws : list writer) k x :
  ws !! k = Some x -> exists rest, forall f,
    gather f ws ≡ₚ f x ++ gather f rest /\
    forall y, gather f (<[k := y]> ws) ≡ₚ f y ++ gather f rest.
Proof.
  intros Hk. destruct (gather_insert ws k x Hk) as [rest Hr]. exists rest. intros f. apply Hr.
Qed.

Lemma copies_app k a b : copies k (a ++ b) ≡ₚ copies k a ++ copies k b.
Proof.
  induction k as [|k IH]; [done|]. unfold copies in *. simpl. rewrite map_app in *. rewrite IH. solve_Permutation.
Qed.
Lemma copies_le j k b : (j <= k)%nat -> copies j b ⊆+ copies k b.
Proof.
  intros Hle. replace k with (j + (k - j))%nat by lia. rewrite <- copies_add.
  by apply submseteq_inserts_r.
Qed.
#[export] Instance copies_proper k : Proper ((≡ₚ) ==> (≡ₚ)) (copies k).
Proof.
  intros a b Hab. induction k as [|k IH]; [done|]. unfold copies in *. simpl.
  rewrite IH. by apply Permutation_app_tail, Permutation_map.
Qed.

#[export] Instance app_submseteq_proper {A} :
  Proper (submseteq ==> submseteq ==> submseteq) (@app A).
Proof. intros a a' Ha b b' Hb. by apply submseteq_app. Qed.

Section Accounting.
Context {P : Type} `{DatabaseLaws P}.
Notation pipe := (pipeline P).
Variable rows0 : list telemetry_row.

(** The account of the pipeline: what left the database queue is written, failed or in
    the hands of a writer; what is counted as written is stored; nothing is stored but
    what was received, at most twice; the counters count. *)
Record Accounted (pl : pipe) : Prop := {
  ac_disp : Conserved (pl_disp pl);
  ac_flow : ch_out (DBChan (pl_disp pl)) ≡ₚ
              pl_written pl ++ pl_failed pl ++ gather holds (pl_writers pl);
  ac_stored : rows0 ++ copies 1 (pl_written pl) ⊆+ stored (tables (pl_db pl));
  ac_rows : stored (tables (pl_db pl)) ⊆+
              rows0 ++ copies 2 (pl_written pl ++ pl_failed pl) ++ copies 1 (gather retries (pl_writers pl));
  ac_success : DBWriteSuccess (pl_metrics pl) = wrap64 (Z.of_nat (length (pl_written pl)));
  ac_failures : DBWriteFailures (pl_metrics pl) = wrap64 (Z.of_nat (length (pl_failed pl)))
}.

Lemma Accounted_front d' pl :
  step (pl_disp pl) d' -> ch_out (DBChan d') = ch_out (DBChan (pl_disp pl)) ->
  Accounted pl -> Accounted (move_disp d' pl).
Proof.
  intros Hs Ho [Hd Hf Hst Hr H1 H2]. split; simpl; try done; [by eapply Conserved_step|by rewrite Ho].
Qed.

(** A writer that only changes what it holds by what it received. *)
Lemma Accounted_set k x y extra d' pl :
  pl_writers pl !! k = Some x -> Conserved d' ->
  ch_out (DBChan d') = ch_out (DBChan (pl_disp pl)) ++ extra ->
  holds y = holds x ++ extra -> retries y = retries x -> Accounted pl ->
  Accounted (set_writer k y (move_disp d' pl)).
Proof.
  intros Hk Hd' Ho Hy Hry [Hd Hf Hst Hr H1 H2].
  destruct (gather_at _ _ _ Hk) as [rest Hg]. split; simpl; try done.
  - rewrite Ho, Hf. destruct (Hg holds) as [-> Hgy]. rewrite Hgy, Hy. solve_Permutation.
  - rewrite Hr. destruct (Hg retries) as [-> Hgy]. by rewrite Hgy, Hry.
Qed.

Lemma Accounted_attempt t k second b ret pl :
  pl_writers pl !! k = Some (Flushing second b ret) -> Accounted pl ->
  Accounted (attempt t k second b ret pl).
Proof.
  intros Hk [Hd Hf Hst Hr H1 H2]. destruct (gather_at _ _ _ Hk) as [rest Hg].
  destruct (Hg holds) as [Hh Hgh]. destruct (Hg retries) as [Hre Hgr].
  destruct (BatchInsert_effect (pl_cx pl) t b (pl_db pl)) as (j & Hj & Hs & Hok).
  unfold attempt. destruct (BatchInsert (pl_cx pl) t b (pl_db pl)) as [[u|e] p]; cbn [fst snd is_ok] in *.
  - rewrite (Hok eq_refl) in Hs. assert (Hret : holds (after_flush ret) = [] /\ retries (after_flush ret) = [])
      by (by destruct ret). destruct Hret as [Hret1 Hret2].
    split; simpl; rewrite ?app_nil_r; try done.
    + rewrite Hf, Hgh, Hh, Hret1. simpl. solve_Permutation.
    + rewrite Hs, copies_app, (assoc_L (++)). by apply submseteq_app.
    + rewrite Hs, Hgr, Hret2, Hr, Hre. destruct second; simpl; rewrite !copies_app.
      * change (copies 2 b) with (copies (1 + 1) b). rewrite <- copies_add. solve_submseteq.
      * change (copies 2 b) with (copies (1 + 1) b). rewrite <- copies_add. solve_submseteq.
    + rewrite H1, wrap64_add_l, length_app. f_equal. lia.
  - destruct second.
    + assert (Hret : holds (after_flush ret) = [] /\ retries (after_flush ret) = [])
        by (by destruct ret). destruct Hret as [Hret1 Hret2].
      split; simpl; rewrite ?app_nil_r; try done.
      * rewrite Hf, Hgh, Hh, Hret1. simpl. solve_Permutation.
      * rewrite Hs. by apply submseteq_inserts_r.
      * rewrite Hs, Hgr, Hret2, Hr, Hre. simpl. rewrite (copies_le j 1 b Hj), !copies_app.
        change (copies 2 b) with (copies (1 + 1) b). rewrite <- copies_add. solve_submseteq.
      * rewrite H2, wrap64_add_l, length_app. f_equal. lia.
    + split; simpl; rewrite ?app_nil_r; try done.
      * rewrite Hf, Hgh, Hh. simpl. solve_Permutation.
      * rewrite Hs. by apply submseteq_inserts_r.
      * rewrite Hs, Hgr, Hr, Hre. simpl. rewrite (copies_le j 1 b Hj), !copies_app. solve_submseteq.
Qed.

Lemma holds_take w m b : holds (take_msg w m b) = b ++ [m] /\ retries (take_msg w m b) = [].
Proof. unfold take_msg. by case_match. Qed.
Lemma holds_finish b : holds (finish b) = b /\ retries (finish b) = [].
Proof. by destruct b. Qed.

Lemma Accounted_move w front pl pl' :
  (forall d d', front d d' -> step d d') ->
  move w front pl pl' -> Accounted pl -> Accounted pl'.
Proof.
  intros Hfront Hm Ha. destruct Hm as [d' Hs Ho|k b m d' Hk Hs Ho|k b Hk Hb|t k second b ret Hk].
  - by apply Accounted_front; auto.
  - destruct (holds_take w m b) as [Hh Hr].
    by apply (Accounted_set k (Batching b) _ [m]); eauto using Conserved_step, ac_disp.
  - destruct pl as [d ws p mt wr fa].
    apply (Accounted_set k (Batching b) (Flushing false b false) [] d (MkPipeline d ws p mt wr fa));
      simpl; rewrite ?app_nil_r; eauto using ac_disp. apply (ac_disp _ Ha).
  - by apply Accounted_attempt.
Qed.
Lemma Accounted_step w pl pl' : pipeline_step w pl pl' -> Accounted pl -> Accounted pl'.
Proof.
  intros [pl1 Hm|k b Hc Hk] Ha; [by eapply Accounted_move|].
  destruct (holds_finish b) as [Hh Hr], pl as [d ws p mt wr fa].
  apply (Accounted_set k (Batching b) (finish b) [] d (MkPipeline d ws p mt wr fa));
    simpl in *; rewrite ?app_nil_r; try done. apply (ac_disp _ Ha).
Qed.
End Accounting.

(** ** The pipeline left to itself *)
Definition weight (x : writer) : nat :=
  match x with
  | Batching [] | Returned => 0
  | Batching _ => 3
  | Flushing false _ _ => 2
  | Flushing true _ _ => 1
  end.
Definition total_weight (ws : list writer) : nat := sum_list (map weight ws).
Definition receiving (x : writer) : Prop :=
  match x with Batching _ => True | Flushing _ _ ret => ret = false | Returned => False end.

Lemma total_weight_at (ws : list writer) k x y :
  ws !! k = Some x -> (total_weight (<[k := y]> ws) + weight x = total_weight ws + weight y)%nat.
Proof.
  intros Hk. unfold total_weight. rewrite <- (take_drop_middle ws k x Hk) at 2.
  rewrite insert_take_drop by (by eapply lookup_lt_Some).
  rewrite !map_app, !sum_list_with_app. simpl. lia.
Qed.

Lemma work_step d d' : work d d' -> step d d'.
Proof. intros []; eauto using step. Qed.
(** A step of the dispatcher hands over at most one message to the database writers. *)
Lemma work_out d d' :
  work d d' -> ch_out (DBChan d') = ch_out (DBChan d) \/
  exists m, ch_out (DBChan d') = ch_out (DBChan d) ++ [m].
Proof.
  intros [m q d0 Hr Hq|m s d0 Hr Hlt|m s d0 Hr Hb|m q s d0 Hq]; simpl;
    try destruct s; simpl; eauto.
Qed.

Section Draining.
Context {P : Type} `{DatabaseLaws P}.
Notation pipe := (pipeline P).
Variable w : DBWriter.
Notation drain := (move w work).

Definition pipeline_left (pl : pipe) : nat :=
  4 * work_left (pl_disp pl) + total_weight (pl_writers pl).
(** [Run] has not returned and some writer will go on receiving. *)
Definition pipeline_open (pl : pipe) : Prop :=
  is_stopped (run_at (pl_disp pl)) = false /\
  exists k x, pl_writers pl !! k = Some x /\ receiving x.

Lemma attempt_writers t k second b ret pl : exists x,
  pl_writers (attempt t k second b ret pl) = <[k := x]> (pl_writers pl) /\
  pl_disp (attempt t k second b ret pl) = pl_disp pl /\
  (weight x < weight (Flushing second b ret))%nat /\ (ret = false -> receiving x).
Proof.
  unfold attempt. destruct (BatchInsert _ _ _ _) as [[u|e] p]; [|destruct second]; simpl;
    eexists; (split; [done|]); (split; [done|]); destruct ret; simpl; try destruct second;
    (split; [lia|done]).
Qed.

Lemma drain_decreases pl pl' : drain pl pl' -> (pipeline_left pl' < pipeline_left pl)%nat.
Proof.
  unfold pipeline_left. intros [d' Hs Ho|k b m d' Hk Hs Ho|k b Hk Hb|t k second b ret Hk].
  - apply work_decreases in Hs. simpl. lia.
  - apply work_decreases in Hs. simpl.
    pose proof (total_weight_at _ k _ (take_msg w m b) Hk) as Hw.
    assert (weight (take_msg w m b) <= 3)%nat by (unfold take_msg; case_match; [simpl; lia|]; destruct (b ++ [m]); simpl; lia).
    lia.
  - pose proof (total_weight_at _ k _ (Flushing false b false) Hk) as Hw. simpl in *.
    destruct b; [done|]. lia.
  - destruct (attempt_writers t k second b ret pl) as (x & -> & -> & Hx & _).
    pose proof (total_weight_at _ k _ x Hk). lia.
Qed.

Lemma set_receiving (ws : list writer) k x :
  (exists y, ws !! k = Some y /\ (receiving y -> receiving x)) ->
  (exists j y, ws !! j = Some y /\ receiving y) ->
  exists j y, <[k := x]> ws !! j = Some y /\ receiving y.
Proof.
  intros (y0 & Hk & Himp) (j & y & Hj & Hy). destruct (decide (j = k)) as [->|Hne].
  - exists k, x. rewrite list_lookup_insert_eq by (by eapply lookup_lt_Some). simplify_eq. auto.
  - exists j, y. by rewrite list_lookup_insert_ne.
Qed.
Lemma drain_open pl pl' : drain pl pl' -> pipeline_open pl -> pipeline_open pl'.
Proof.
  intros Hm [Hs Hw]. unfold pipeline_open.
  destruct Hm as [d' Hd Ho|k b m d' Hk Hd Ho|k b Hk Hb|t k second b ret Hk]; simpl;
    try (split; [try done; by eapply work_not_stopped|]).
  - done.
  - apply set_receiving; [|done]. eexists. split; [done|]. intros _. unfold take_msg. by case_match.
  - apply set_receiving; [|done]. by eexists.
  - destruct (attempt_writers t k second b ret pl) as (x & -> & -> & _ & Hx).
    split; [done|]. apply set_receiving; [|done]. eexists. split; [done|]. by destruct ret.
Qed.

Lemma drain_admitted pl pl' : drain pl pl' -> admitted (pl_disp pl') = admitted (pl_disp pl).
Proof.
  intros [d' Hd Ho|k b m d' Hk Hd Ho|k b Hk Hb|t k second b ret Hk]; simpl;
    [by apply work_admitted..|done|].
  by destruct (attempt_writers t k second b ret pl) as (x & _ & -> & _).
Qed.

(** Stuck means empty: queues, hands and all. *)
Lemma drain_stuck pl :
  pipeline_open pl -> ~ (exists pl', drain pl pl') ->
  (run_at (pl_disp pl) = Waiting /\ ingress (pl_disp pl) = [] /\
   forall s, ch_buf (chan_of s (pl_disp pl)) = []) /\
  gather holds (pl_writers pl) = [].
Proof.
  intros [Hs (j & x & Hj & Hx)] Hstuck.
  assert (Hidle : forall k y, pl_writers pl !! k = Some y -> y = Batching [] \/ y = Returned).
  { intros k [b|second b ret|] Hk; [|destruct Hstuck; eexists; by eapply (move_attempt _ _ _ 0)|by right].
    destruct b as [|m b]; [by left|]. destruct Hstuck. eexists. by eapply move_tick. }
  assert (Hjb : x = Batching []) by (destruct (Hidle j x Hj) as [->| ->]; done). subst x.
  split.
  - apply work_stuck; [done|]. intros [d' Hd]. apply Hstuck.
    destruct (work_out _ _ Hd) as [Ho|[m Ho]]; eexists; [by eapply move_front|by eapply move_recv].
  - unfold gather. apply concat_nil_Forall, Forall_map, Forall_lookup. intros k y Hk.
    by destruct (Hidle k y Hk) as [->| ->].
Qed.
End Draining.

(** ** Properties *)
Section Properties.
Context {P : Type} `{DatabaseLaws P}.
Notation pipe := (pipeline P).

Lemma NewPipeline_accounted n1 n2 n3 n4 p0 (pl0 : pipe) :
  NewPipeline n1 n2 n3 n4 p0 = Some pl0 -> Accounted (stored (tables p0)) pl0.
Proof.
  unfold NewPipeline. destruct (NewDispatcher n1 n2 n3) as [d|] eqn:E; [|done]. intros [= <-].
  assert (Hg : forall f, f (Batching []) = [] -> gather f (replicate (Z.to_nat n4) (Batching [])) = []).
  { intros f Hf. unfold gather. apply concat_nil_Forall, Forall_map, Forall_replicate. exact Hf. }
  split; simpl; rewrite ?Hg by done; unfold copies; simpl; rewrite ?app_nil_r; try done.
  - by eapply Conserved_new.
  - unfold NewDispatcher in E. case_match; [|done]. by simplify_eq.
Qed.
Lemma running_accounted w p0 (pl : pipe) : running w p0 pl -> Accounted (stored (tables p0)) pl.
Proof.
  intros (n1 & n2 & n3 & n4 & pl0 & Hn & Hrun).
  apply (rtc_invariant (pipeline_step w) (Accounted (stored (tables p0))) pl0 pl);
    eauto using Accounted_step, NewPipeline_accounted.
Qed.
Lemma Accounted_drain w rows0 (pl pl' : pipe) :
  rtc (move w work) pl pl' -> Accounted rows0 pl -> Accounted rows0 pl'.
Proof.
  intros Hrun Ha. apply (rtc_invariant (move w work) (Accounted rows0) pl pl'); [|done..].
  intros x y Hxy. apply (Accounted_move rows0 w work x y); [apply work_step|done].
Qed.
(** What was retried is still in hand. *)
Lemma retries_held ws : gather retries ws ⊆+ gather holds ws.
Proof.
  induction ws as [|x ws IH]; [done|]. unfold gather in *. simpl.
  apply submseteq_app; [|done]. destruct x as [|[] ? ?|]; simpl; auto using submseteq_nil_l.
Qed.
Lemma copies_submseteq k a b : a ⊆+ b -> copies k a ⊆+ copies k b.
Proof.
  intros (c & Hc)%submseteq_Permutation. rewrite Hc, copies_app. by apply submseteq_inserts_r.
Qed.

(** C4. Nothing acknowledged is unaccounted for. With any number of writers, whatever
    the interleaving of handlers, fan-out, writers, ticks, retries and cancellation and
    whatever the database does, the messages [Dispatch] acknowledged are at every moment,
    each exactly once, counted as written, counted as failed, in the hands of a writer,
    in the database queue, held by the fan-out, or in the ingress queue; those counted as
    written are in the table, the table gained nothing but rows of messages that were
    handed to a writer, at most two of each, and the two counters are exact. *)
Theorem pipeline_accounts w p0 (pl : pipe) :
  running w p0 pl ->
  let d := pl_disp pl in
  let taken := pl_written pl ++ pl_failed pl ++ gather holds (pl_writers pl) in
  admitted d ≡ₚ taken ++ ch_buf (DBChan d) ++ held_for ToDB (run_at d) ++ ingress d /\
  stored (tables p0) ++ copies 1 (pl_written pl) ⊆+ stored (tables (pl_db pl)) /\
  stored (tables (pl_db pl)) ⊆+ stored (tables p0) ++ copies 2 taken /\
  DBWriteSuccess (pl_metrics pl) = wrap64 (Z.of_nat (length (pl_written pl))) /\
  DBWriteFailures (pl_metrics pl) = wrap64 (Z.of_nat (length (pl_failed pl))).
Proof.
  intros [Hd Hf Hst Hr H1 H2]%running_accounted. simpl. split_and!; try done.
  - rewrite (cons_flow _ Hd ToDB). unfold ch_received. simpl. rewrite Hf. solve_Permutation.
  - rewrite Hr.
    rewrite (assoc_L (++) (pl_written pl)), (copies_app 2 (_ ++ _)).
    rewrite (copies_submseteq 1 _ _ (retries_held (pl_writers pl))).
    by rewrite (copies_le 1 2) by lia.
Qed.

(** The flushes that find the database up write. *)
Definition serves (up : P -> Prop) : Prop := forall t b p, up p -> forallb copyable b = true ->
  exists p', BatchInsert Live t b p = (Ok tt, p') /\ up p'.

Lemma drain_serves w up (pl pl' : pipe) :
  serves up -> move w work pl pl' ->
  Forall (fun m => copyable m = true) (gather holds (pl_writers pl)) ->
  ctx_done (pl_disp pl) = false -> up (pl_db pl) ->
  pl_failed pl' = pl_failed pl /\ ctx_done (pl_disp pl') = false /\ up (pl_db pl').
Proof.
  intros Hup Hm Hc Hctx Hdb.
  assert (Hwd : forall d d', work d d' -> ctx_done d' = ctx_done d) by (by intros ? ? []).
  destruct Hm as [d' Hd Ho|k b m d' Hk Hd Ho|k b Hk Hb|t k second b ret Hk]; simpl;
    rewrite ?(Hwd _ _ Hd); [done..|].
  destruct (gather_at _ _ _ Hk) as [rest Hg]. destruct (Hg holds) as [Hh _].
  rewrite Hh in Hc. apply Forall_app in Hc as [Hb _]. simpl in Hb.
  assert (Hcopy : forallb copyable b = true).
  { apply forallb_forall. intros m Hin. by eapply Forall_forall in Hb; [|apply list_elem_of_In]. }
  unfold attempt, pl_cx. rewrite Hctx.
  destruct (Hup t b _ Hdb Hcopy) as (p' & -> & Hp'). simpl. by rewrite app_nil_r.
Qed.

(** C18. The pipeline drains. From any state that can be reached, if the fan-out has not
    returned and some writer will receive again, the fan-out and the writers left to
    themselves always come to rest, whatever they do first; and they rest only when every
    acknowledged message has been counted, as written or as failed, the written ones are
    in the table, and every state writer and alert evaluator has had every message too.
    While the database serves and no message carries a NUL, none of them fails. *)
Theorem pipeline_drains w p0 (pl : pipe) (up : P -> Prop) :
  running w p0 pl -> pipeline_open pl -> serves up ->
  Acc (flip (move w work)) pl /\
  forall pl', rtc (move w work) pl pl' -> ~ (exists pl'', move w work pl' pl'') ->
    let all := admitted (pl_disp pl) in
    all ≡ₚ pl_written pl' ++ pl_failed pl' /\
    stored (tables p0) ++ copies 1 (pl_written pl') ⊆+ stored (tables (pl_db pl')) /\
    (forall s, ch_out (chan_of s (pl_disp pl')) = all) /\
    (ctx_done (pl_disp pl) = false -> up (pl_db pl) -> Forall (fun m => copyable m = true) all ->
     pl_failed pl' = pl_failed pl).
Proof.
  intros Hrun Hopen Hup. split.
  { apply (well_founded_lt_compat _ pipeline_left). intros x y. apply (drain_decreases w). }
  intros pl' Hdrain Hstuck. pose proof (running_accounted _ _ _ Hrun) as Ha.
  pose proof (Accounted_drain _ _ _ _ Hdrain Ha) as Ha'.
  assert (Hopen' : pipeline_open pl')
    by (eapply (rtc_invariant (move w work) pipeline_open); eauto using drain_open).
  assert (Hadm : forall x y, rtc (move w work) x y -> admitted (pl_disp y) = admitted (pl_disp x)).
  { intros x y Hxy. induction Hxy as [|x y z Hxy _ IH]; [done|]. rewrite IH. by eapply drain_admitted. }
  destruct (drain_stuck w pl' Hopen' Hstuck) as [(Hw & Hi & Hb) Hh].
  assert (Hout : forall s, ch_out (chan_of s (pl_disp pl')) = admitted (pl_disp pl)).
  { intros s. rewrite <- (Hadm pl pl' Hdrain), (cons_flow _ (ac_disp _ _ Ha') s).
    unfold ch_received. by rewrite Hw, Hi, Hb, !app_nil_r. }
  simpl. split_and!; [|apply (ac_stored _ _ Ha')|done|].
  - rewrite <- (Hout ToDB). simpl. by rewrite (ac_flow _ _ Ha'), Hh, app_nil_r.
  - clear Hstuck Hopen' Hw Hi Hb Hh Hout Ha' Hopen Hrun. intros Hctx Hdb Hc.
    revert Ha Hctx Hdb Hc. induction Hdrain as [|x y z Hxy Hyz IH]; intros Ha Hctx Hdb Hc; [done|].
    destruct (drain_serves w up x y Hup Hxy) as (<- & Hctx' & Hdb'); [|done..|].
    { rewrite (cons_flow _ (ac_disp _ _ Ha) ToDB) in Hc. unfold ch_received in Hc. simpl in Hc.
      rewrite (ac_flow _ _ Ha), !Forall_app in Hc. tauto. }
    apply IH; try done; [|by rewrite (drain_admitted _ _ _ Hxy)].
    by eapply Accounted_drain; [apply rtc_once|].
Qed.
End Properties.

(** ** Witnesses *)
Definition demo_writer : DBWriter := NewDBWriter 2 100.
Definition demo_pipeline : pipeline MemDB :=
  MkPipeline demo_admitted [Batching []; Batching []] (MkMemDB empty_db []) no_metrics [] [].

Lemma demo_pipeline_running : running demo_writer (MkMemDB empty_db []) demo_pipeline.
Proof.
  exists 1, 1, 1, 2, (MkPipeline demo_dispatcher [Batching []; Batching []] (MkMemDB empty_db [])
                        no_metrics [] []).
  split; [done|]. apply rtc_once, pipeline_move.
  apply (move_front demo_writer step (MkPipeline demo_dispatcher _ _ _ _ _) demo_admitted);
    [by apply (step_dispatch (demo_msg "v1") true)|done].
Qed.
Lemma demo_serves : serves (fun p : MemDB => db_outages p = []).
Proof.
  intros t b [d os] Hos Hc. simpl in Hos. subst os. simpl. unfold Timescale_BatchInsert, copy_stmt.
  destruct b as [|m b]; [by eexists|]. simpl. simpl in Hc. rewrite Hc. by eexists.
Qed.

Lemma pipeline_accounts_witness :
  running demo_writer (MkMemDB empty_db []) demo_pipeline /\
  admitted (pl_disp demo_pipeline) = [demo_msg "v1"] /\
  admitted (pl_disp demo_pipeline) ≡ₚ
    (pl_written demo_pipeline ++ pl_failed demo_pipeline ++ gather holds (pl_writers demo_pipeline)) ++
    ch_buf (DBChan (pl_disp demo_pipeline)) ++ held_for ToDB (run_at (pl_disp demo_pipeline)) ++
    ingress (pl_disp demo_pipeline).
Proof.
  split; [exact demo_pipeline_running|]. split; [reflexivity|].
  exact (proj1 (pipeline_accounts demo_writer (MkMemDB empty_db []) demo_pipeline demo_pipeline_running)).
Defined.

Lemma pipeline_drains_witness :
  pipeline_open demo_pipeline /\ serves (fun p : MemDB => db_outages p = []) /\
  Acc (flip (move demo_writer work)) demo_pipeline.
Proof.
  assert (Ho : pipeline_open demo_pipeline) by (split; [reflexivity|by exists 0%nat, (Batching [])]).
  split; [exact Ho|]. split; [exact demo_serves|].
  exact (proj1 (pipeline_drains demo_writer (MkMemDB empty_db []) demo_pipeline
                  (fun p => db_outages p = []) demo_pipeline_running Ho demo_serves)).
Defined.

(** [main] starts several state writers too (five by default), each with its own batch: a
    message taken first may be written last, and the state of the vehicle then shows the
    older speed, [m1] of 10 after [m2] of 20. *)
Definition demo_speed (s : Z) : msg :=
  MkTelemetryMessage s s "v1" "fleet-a" f_zero f_zero (f_of_Z s) (f_of_Z 50) f_zero f_zero f_zero
    true true "{}".
Example stale_state_overwrites :
  let m1 := demo_speed 10 in
  let m2 := demo_speed 20 in
  let first := StateWriter_step (MkInput (EvMsg m1) Live 0 Live 0) (start empty_redis) in
  let second := StateWriter_step (MkInput (EvMsg m2) Live 1 Live 1) (start empty_redis) in
  let r1 := StateWriter_flushBatch (MkInput EvTick Live 2 Live 2) (l_batch second) empty_redis in
  let r2 := StateWriter_flushBatch (MkInput EvTick Live 3 Live 3) (l_batch first) r1 in
  (l_batch first, l_batch second) = ([m1], [m2]) /\
  match live 4 (state_key "v1") (mem r1), live 4 (state_key "v1") (mem r2) with
  | Some (RHash h1), Some (RHash h2) =>
      (h1 !! "speed_kmh", h2 !! "speed_kmh")%string = (Some "20", Some "10")%string
  | _, _ => False
  end.
Proof. vm_compute. split; reflexivity. Qed.
