(* ===== verification/StateWriters.v ===== *)
(** * Several state writers at once: [ingestion/main.go], [state_writer.go]

    [main] starts [StateWriterWorkers] writers on one queue, each with its own batch and
    ticker. Here they run together: receiving a message, a tick, the end of the context
    and each call of [PipelineStateUpdates] are steps of their own, beside other clients
    of Redis that leave the vehicles' state keys alone. *)
From S2P Require Import Prelude GoNum Json Redis Domain RedisStore Tables Timescale Dispatcher Writers.
Local Open Scope Z_scope.

(** Where a writer is: in its select with a batch; about to write one, after which it
    returns or not; returned. *)
Inductive sw_stage :=
| Gathering (b : list msg)
| Writing (b : list msg) (ret : bool)
| Finished.
Record state_writers (R : Type) := MkStateWriters {
  sw_stages : list sw_stage; sw_chan : list msg; sw_done : bool; sw_now : Time; sw_redis : R;
  sw_received : list msg;                       (* taken from the queue, in order *)
  sw_written : list msg; sw_failed : list msg   (* by the answer to the call that wrote them *)
}.
Arguments MkStateWriters {R}.
Arguments sw_stages {R}.
Arguments sw_chan {R}.
Arguments sw_done {R}.
Arguments sw_now {R}.
Arguments sw_redis {R}.
Arguments sw_received {R}.
Arguments sw_written {R}.
Arguments sw_failed {R}.

Section StateWriters.
Context {R : Type} `{RedisServer R}.

(** A message, a tick and the end of the context; [flushBatch] skips an empty batch. *)
Definition sw_take (m : msg) (b : list msg) : sw_stage :=
  let b := b ++ [m] in
  if state_batch <=? Z.of_nat (length b) then Writing b false else Gathering b.
Definition sw_finish (b : list msg) : sw_stage :=
  match b with [] => Finished | _ => Writing b true end.
(** The call, at the instant and under the context of the moment. *)
Definition sw_write (i : nat) (b : list msg) (ret : bool) (w : state_writers R) : state_writers R :=
  let cx := if sw_done w then Cancelled else Live in
  let next := <[i := if ret then Finished else Gathering []]> (sw_stages w) in
  match PipelineStateUpdates cx (sw_now w) b (sw_redis w) with
  | (Ok _, r) => MkStateWriters next (sw_chan w) (sw_done w) (sw_now w) r (sw_received w)
                   (sw_written w ++ b) (sw_failed w)
  | (Err _, r) => MkStateWriters next (sw_chan w) (sw_done w) (sw_now w) r (sw_received w)
                    (sw_written w) (sw_failed w ++ b)
  end.

Definition vehicle_key (k : string) : Prop := exists v, k = state_key v.
Definition sw_set (i : nat) (x : sw_stage) (w : state_writers R) : state_writers R :=
  MkStateWriters (<[i := x]> (sw_stages w)) (sw_chan w) (sw_done w) (sw_now w) (sw_redis w)
    (sw_received w) (sw_written w) (sw_failed w).
Inductive sw_step (w : state_writers R) : state_writers R -> Prop :=
| sw_receive i b m q :
    sw_stages w !! i = Some (Gathering b) -> sw_chan w = m :: q ->
    sw_step w (MkStateWriters (<[i := sw_take m b]> (sw_stages w)) q (sw_done w) (sw_now w)
      (sw_redis w) (sw_received w ++ [m]) (sw_written w) (sw_failed w))
| sw_tick i b :
    sw_stages w !! i = Some (Gathering b) -> b <> [] -> sw_step w (sw_set i (Writing b false) w)
| sw_end i b :
    sw_stages w !! i = Some (Gathering b) -> sw_done w = true -> sw_step w (sw_set i (sw_finish b) w)
| sw_call i b ret :
    sw_stages w !! i = Some (Writing b ret) -> sw_step w (sw_write i b ret w)
| sw_world q done t r :            (* the dispatcher, the context, time, other clients *)
    sw_now w <= t -> (sw_done w = true -> done = true) ->
    (forall k, vehicle_key k -> rs_kv (contents r) !! k = rs_kv (contents (sw_redis w)) !! k) ->
    sw_step w (MkStateWriters (sw_stages w) q done t r (sw_received w) (sw_written w) (sw_failed w)).

(** What [main] starts. *)
Definition start_state_writers (workers : Z) (now : Time) (r : R) : state_writers R :=
  MkStateWriters (replicate (Z.to_nat workers) (Gathering [])) [] false now r [] [] [].
Definition writing_states (r0 : R) (w : state_writers R) : Prop :=
  exists workers now, rtc sw_step (start_state_writers workers now r0) w.
End StateWriters.

(** A writer whose call follows at once does what [StateWriter_flushBatch] does. *)
Lemma sw_write_flush {R} `{RedisServer R} i ev t2 b ret (w : state_writers R) :
  b <> [] ->
  sw_redis (sw_write i b ret w) =
    StateWriter_flushBatch (MkInput ev (if sw_done w then Cancelled else Live) (sw_now w) Live t2)
      b (sw_redis w).
Proof.
  intros Hb. unfold sw_write, StateWriter_flushBatch. destruct b as [|m b]; [done|]. cbn [in_cx1 in_t1].
  by destruct (PipelineStateUpdates _ _ _ _) as [[u|e] r].
Qed.

(** ** What Redis holds of a vehicle *)
Definition sw_holds (s : sw_stage) : list msg :=
  match s with Gathering b | Writing b _ => b | Finished => [] end.
Definition whole_state (m : msg) : rval := RHash (hmerge (state_fields m) ∅).
(** The state of a vehicle, when there is one, is that of one of its messages. *)
Definition states_of (ms : list msg) (st : rstate) : Prop :=
  forall v x e, rs_kv st !! state_key v = Some (x, e) ->
    exists m, m ∈ ms /\ VehicleID m = v /\ x = whole_state m.

Lemma hmerge_lookup fields (h : gmap string string) k :
  hmerge fields h !! k = match hmerge fields ∅ !! k with Some x => Some x | None => h !! k end.
Proof.
  unfold hmerge. induction fields as [|[f x] l IH] using rev_ind; simpl; [by rewrite lookup_empty|].
  rewrite !foldl_app. simpl.
  destruct (decide (f = k)) as [<-|Hne]; [by rewrite !lookup_insert_eq|].
  rewrite !lookup_insert_ne by done. exact IH.
Qed.
(** Every message sets every field. *)
Lemma hmerge_field (m : msg) k : is_Some (hmerge (state_fields m) ∅ !! k) <-> k ∈ (state_fields m).*1.
Proof.
  generalize (state_fields m). intros fields. unfold hmerge.
  induction fields as [|[f x] l IH] using rev_ind; simpl.
  - rewrite lookup_empty, elem_of_nil. split; [by intros [? [=]]|done].
  - rewrite foldl_app, fmap_app, elem_of_app. simpl. rewrite list_elem_of_singleton.
    destruct (decide (f = k)) as [<-|Hne].
    + rewrite lookup_insert_eq. split; [by right|eauto].
    + rewrite lookup_insert_ne, IH by done. naive_solver.
Qed.
Lemma overwritten (m m' : msg) :
  hmerge (state_fields m) (hmerge (state_fields m') ∅) = hmerge (state_fields m) ∅.
Proof.
  apply map_eq. intros k. rewrite hmerge_lookup.
  destruct (hmerge (state_fields m) ∅ !! k) as [x|] eqn:E; [done|].
  destruct (hmerge (state_fields m') ∅ !! k) as [x|] eqn:E'; [|done]. exfalso.
  assert (Hk : is_Some (hmerge (state_fields m) ∅ !! k)) by
    (apply (hmerge_field m); apply (hmerge_field m'); by rewrite E').
  rewrite E in Hk. by destruct Hk.
Qed.

(** The commands of the messages [ms]. *)
Definition cmd_of (ms : list msg) (c : rcmd) : Prop := exists m, m ∈ ms /\ c ∈ state_cmds m.
Lemma state_pipeline_cmds b cs : state_pipeline b = Ok cs -> Forall (cmd_of b) cs.
Proof.
  revert cs. induction b as [|m b IH]; intros cs; simpl; [by intros [= <-]|].
  destruct (state_marshals m); [|done]. destruct (state_pipeline b) as [cs'|e]; [|done].
  intros [= <-]. repeat constructor; try (exists m; split; [by left|set_solver]).
  eapply Forall_impl; [by apply IH|]. intros c (m' & ? & ?). exists m'. split; [by right|done].
Qed.

Lemma states_of_put ms st k x e :
  states_of ms st ->
  (forall v, k = state_key v -> exists m, m ∈ ms /\ VehicleID m = v /\ x = whole_state m) ->
  states_of ms (put k x e st).
Proof.
  intros Hs Hk v y e'. simpl. destruct (decide (k = state_key v)) as [->|Hne].
  - rewrite lookup_insert_eq. intros [= <- _]. by apply Hk.
  - rewrite lookup_insert_ne by done. apply Hs.
Qed.
Lemma live_states ms t st v x :
  states_of ms st -> live t (state_key v) st = Some x ->
  exists m, m ∈ ms /\ VehicleID m = v /\ x = whole_state m.
Proof.
  intros Hs Hl. unfold live in Hl. destruct (rs_kv st !! state_key v) as [[y e]|] eqn:E; [|done].
  apply Hs in E. destruct e as [e|]; [destruct (t <? e)|]; by simplify_eq.
Qed.
Lemma cmd_states ms t c rep st st' :
  cmd_of ms c -> states_of ms st -> cmd_sem t c st = Some (rep, st') -> states_of ms st'.
Proof.
  intros (m & Hm & Hc) Hs Hrun. unfold state_cmds in Hc. rewrite !elem_of_cons, elem_of_nil in Hc.
  destruct Hc as [->|[->|[->|[]]]]; cbn [cmd_sem] in Hrun.
  - assert (Hone : forall h e, h = ∅ \/ (exists m', h = hmerge (state_fields m') ∅) ->
      states_of ms (put (state_key (VehicleID m)) (RHash (hmerge (state_fields m) h)) e st)).
    { intros h e Hh. apply states_of_put; [done|]. intros v Hv%state_key_inj. exists m.
      split; [done|]. split; [done|]. unfold whole_state. f_equal.
      destruct Hh as [->|[m' ->]]; [done|apply overwritten]. }
    destruct (live t (state_key (VehicleID m)) st) as [[s|h]|] eqn:Hl; [done| |].
    + destruct (live_states _ _ _ _ _ Hs Hl) as (m' & _ & _ & [= ->]).
      destruct (rs_kv st !! _) as [[y e]|]; apply some_pair_inj in Hrun as ->; apply Hone;
        [right; by exists m'|by left].
    + apply some_pair_inj in Hrun as ->. apply Hone. by left.
  - destruct (live t _ st) as [x|] eqn:Hl; apply some_pair_inj in Hrun as ->; [|done].
    apply states_of_put; [done|]. intros v Hv%state_key_inj. rewrite <- Hv.
    destruct (live_states _ _ _ _ _ Hs Hl) as (m' & ? & ? & ?). by exists m'.
  - by apply some_pair_inj in Hrun as ->.
Qed.
Lemma run_states ms t cs st : Forall (cmd_of ms) cs -> states_of ms st -> states_of ms (run_cmds t cs st).
Proof.
  intros Hcs. revert st. induction Hcs as [|c cs Hc _ IH]; intros st Hs; [done|].
  unfold run_cmds. simpl. apply IH. destruct (cmd_sem t c st) as [[rep st']|] eqn:E; [|done].
  by eapply cmd_states.
Qed.

Section Invariant.
Context {R : Type} `{RedisLaws R}.

Record sw_inv (w : state_writers R) : Prop := {
  si_flow : sw_received w ≡ₚ sw_written w ++ sw_failed w ++ concat (map sw_holds (sw_stages w));
  si_states : states_of (sw_received w) (contents (sw_redis w))
}.

Lemma update_states cx t b ms (r : R) :
  b ⊆ ms -> states_of ms (contents r) -> states_of ms (contents (PipelineStateUpdates cx t b r).2).
Proof.
  intros Hsub Hs. simpl. unfold RedisStore_PipelineStateUpdates.
  destruct (state_pipeline b) as [cs|e] eqn:E; [|done]. apply state_pipeline_cmds in E.
  assert (Hcs : Forall (cmd_of ms) cs).
  { eapply Forall_impl; [exact E|]. intros c (m & ? & ?). exists m. auto. }
  destruct (redis_exec cx t cs r) as [[[]|e] r'] eqn:Ex; simpl.
  - apply redis_exec_ok in Ex. rewrite Ex. by apply run_states.
  - apply redis_exec_err in Ex as (cs' & [rest ->] & Ex). rewrite Ex.
    apply Forall_app in Hcs as [Hcs _]. by apply run_states.
Qed.
Lemma states_of_more ms ms' st : ms ⊆ ms' -> states_of ms st -> states_of ms' st.
Proof. intros Hsub Hs v x e (m & ? & ? & ?)%Hs. exists m. auto. Qed.

Lemma sw_set_inv i s x (w : state_writers R) :
  sw_inv w -> sw_stages w !! i = Some s -> sw_holds x = sw_holds s -> sw_inv (sw_set i x w).
Proof.
  intros [Hf Hs] Hi Hx. destruct (gather_insert _ _ _ Hi) as [rest Hrest].
  destruct (Hrest _ sw_holds) as [Eo En]. split; simpl; [|done]. by rewrite Hf, Eo, En, Hx.
Qed.
Lemma sw_step_inv (w w' : state_writers R) : sw_inv w -> sw_step w w' -> sw_inv w'.
Proof.
  intros Hi Hstep. pose proof Hi as [Hf Hs].
  destruct Hstep as [i b m q Hb Hq|i b Hb Hne|i b Hb Hd|i b ret Hb|q done t r Ht Hdone Hr].
  - destruct (gather_insert _ _ _ Hb) as [rest Hrest]. destruct (Hrest _ sw_holds) as [Eo En].
    assert (Ht : sw_holds (sw_take m b) = b ++ [m]) by (unfold sw_take; by case_match).
    split; simpl; [|by eapply states_of_more; [|exact Hs]; set_solver].
    rewrite Hf, Eo, En, Ht. simpl. solve_Permutation.
  - by eapply sw_set_inv.
  - eapply sw_set_inv; [done..|]. by destruct b.
  - destruct (gather_insert _ _ _ Hb) as [rest Hrest]. destruct (Hrest _ sw_holds) as [Eo En].
    assert (Hsub : b ⊆ sw_received w).
    { intros x Hx. rewrite Hf, Eo. simpl. set_solver. }
    pose proof (update_states (if sw_done w then Cancelled else Live) (sw_now w) b _ (sw_redis w) Hsub Hs)
      as Hs'.
    assert (Hret : sw_holds (if ret then Finished else Gathering []) = []) by (by destruct ret).
    unfold sw_write. destruct (PipelineStateUpdates _ _ b _) as [[u|e] r]; simpl in Hs';
      (split; simpl; [|done]); rewrite Hf, Eo, En, Hret; simpl; solve_Permutation.
  - split; simpl; [done|]. intros v x e. rewrite Hr by (by exists v). apply Hs.
Qed.

(** C5. No vehicle's state is torn, and no message is forgotten. With any number of state
    writers on one queue, whatever their calls meet (outages, pipelines cut off half-way,
    the end of the context) and whatever other clients do beside the vehicles' state
    keys, the state Redis has of a vehicle is all of one message of that vehicle that was
    received, never a mixture of two; and every message received is, exactly once, in a
    batch that was written, in one whose write failed, or in the hands of a writer. *)
Theorem states_whole (r0 : R) w
    (Hempty : states_of [] (contents r0)) (Hw : writing_states r0 w) :
  (forall v x e, rs_kv (contents (sw_redis w)) !! state_key v = Some (x, e) ->
     exists m, m ∈ sw_received w /\ VehicleID m = v /\ x = RHash (hmerge (state_fields m) ∅)) /\
  sw_received w ≡ₚ sw_written w ++ sw_failed w ++ concat (map sw_holds (sw_stages w)).
Proof.
  destruct Hw as (workers & now & Hr).
  assert (Hi : sw_inv w); [|destruct Hi; auto].
  eapply rtc_invariant; [|exact Hr|].
  - intros w1 w2 Hs Hi1. by eapply sw_step_inv.
  - split; simpl; [|done]. induction (Z.to_nat workers) as [|n IH]; [done|exact IH].
Qed.
End Invariant.

(** Two writers: the first takes two messages, the second one; their batches are written
    in the other order, with an outage between. *)
Definition sw_sample (speed : Z) : msg :=
  MkTelemetryMessage speed speed "v1" "fleet-a" f_zero f_zero (f_of_Z speed) (f_of_Z 50) f_zero f_zero
    f_zero true true "{}".
Definition sw_start : state_writers MemRedis :=
  start_state_writers 2 0 (MkMemRedis (MkRstate ∅ []) [false; true]).
Definition sw_loaded : state_writers MemRedis :=
  MkStateWriters (sw_stages sw_start) [sw_sample 1; sw_sample 2; sw_sample 3] false 5
    (sw_redis sw_start) [] [] [].
Definition sw_full : state_writers MemRedis :=
  MkStateWriters [Writing [sw_sample 1; sw_sample 2] false; Writing [sw_sample 3] false] [] false 5
    (sw_redis sw_start) [sw_sample 1; sw_sample 2; sw_sample 3] [] [].

Lemma states_whole_witness :
  let w := sw_write 0 [sw_sample 1; sw_sample 2] false (sw_write 1 [sw_sample 3] false sw_full) in
  writing_states (sw_redis sw_start) w /\
  sw_failed w = [sw_sample 1; sw_sample 2] /\ sw_written w = [sw_sample 3] /\
  exists m, m ∈ sw_received w /\ VehicleID m = "v1"%string /\
    live 6 (state_key "v1") (contents (sw_redis w)) = Some (RHash (hmerge (state_fields m) ∅)).
Proof.
  intros w. assert (Hw : writing_states (sw_redis sw_start) w).
  { exists 2, 0. etrans; [apply rtc_once, (sw_world sw_start [sw_sample 1; sw_sample 2; sw_sample 3] false 5
      (sw_redis sw_start)); [done|done|by intros]|].
    eapply rtc_l; [by apply (sw_receive _ 0 [] (sw_sample 1))|].
    eapply rtc_l; [by apply (sw_receive _ 0 [sw_sample 1] (sw_sample 2))|].
    eapply rtc_l; [by apply (sw_receive _ 1 [] (sw_sample 3))|].
    eapply rtc_l; [by apply (sw_tick _ 0 [sw_sample 1; sw_sample 2])|].
    eapply rtc_l; [by apply (sw_tick _ 1 [sw_sample 3])|].
    eapply (rtc_l _ _ (sw_write 1 [sw_sample 3] false sw_full)); [by apply (sw_call sw_full)|].
    apply rtc_once. by apply sw_call. }
  split; [exact Hw|]. split; [vm_compute; reflexivity|]. split; [vm_compute; reflexivity|].
  assert (H0 : states_of [] (contents (sw_redis sw_start))) by (intros v x e Hv; discriminate Hv).
  destruct (states_whole (sw_redis sw_start) w H0 Hw) as [Hwhole _].
  destruct (rs_kv (contents (sw_redis w)) !! state_key "v1"%string) as [[x e]|] eqn:E.
  - assert (Hx : e = Some (5 + state_ttl)).
    { apply (f_equal (fmap snd)) in E. vm_compute in E. by injection E as <-. }
    destruct (Hwhole _ _ _ E) as (m & Hm & Hv & ->). exists m. split; [exact Hm|]. split; [exact Hv|].
    unfold live. rewrite E, Hx. reflexivity.
  - apply (f_equal (fmap snd)) in E. vm_compute in E. discriminate E.
Defined.
