(* ===== verification/AlertEvaluator.v ===== *)
(** * [ingestion/internal/pipeline/alert_evaluator.go]

    [AlertEvaluator_evaluate] is the loop over the rules, on a world that pairs the
    database with Redis; [AlertEvaluator_Run] the goroutine around it. The
    evaluation runs on [context.Background()]. Each rule's calls happen at their own
    instants, which a [rule_clock] gives. *)
From Stdlib Require Import Ascii SpecFloat.
From S2P Require Import Prelude GoNum Json Redis Domain RedisStore Tables Timescale.
Local Open Scope Z_scope.
Local Open Scope fleet_scope.

(** When a rule's claim, insert, and release or publication happen. *)
Record rule_clock := MkRuleClock { rc_claim : Time; rc_insert : Time; rc_after : Time }.
Definition at_instant (t : Time) : AlertType -> rule_clock := fun _ => MkRuleClock t t t.

Definition getTriggerValue (msg : TelemetryMessage) (t : AlertType) : float64 :=
  if bool_decide (t = AlertSpeeding) then SpeedKmh msg
  else if bool_decide (t = AlertLowFuel) then FuelPct msg
  else if bool_decide (t = AlertEngineOverheat) then EngineTempC msg
  else f_zero.

(** [json.Marshal] of the payload; its error is ignored, and then leaves no bytes. *)
Definition alert_json (msg : TelemetryMessage) (rule : AlertRule) (now : Time) : json :=
  json_map [
    ("vehicle_id", JStr (VehicleID msg)); ("fleet_id", JStr (FleetID msg));
    ("alert_type", JStr (rule_Type rule)); ("severity", JStr (rule_Severity rule));
    ("value", jfloat (getTriggerValue msg (rule_Type rule)));
    ("triggered_at", jint (Unix now))]%string.
Definition alertPayload (msg : TelemetryMessage) (rule : AlertRule) (now : Time) : string :=
  if is_finite (getTriggerValue msg (rule_Type rule)) then Marshal (alert_json msg rule now)
  else ""%string.

Section AlertEvaluator.
Context {D R : Type} `{AlertStore D} `{AlertDedupStore R}.

(** The body of the loop for one rule. *)
Definition evaluate_rule (clk : AlertType -> rule_clock) (msg : TelemetryMessage)
    (rule : AlertRule) : M (D * R) unit := fun '(d, r) =>
  let c := clk (rule_Type rule) in
  if negb (rule_Evaluator rule msg) then (tt, (d, r))
  else
    match TryClaimAlertDedup Live (rc_claim c) (VehicleID msg) (rule_Type rule) r with
    | (Err _, r1) => (tt, (d, r1))
    | (Ok false, r1) => (tt, (d, r1))
    | (Ok true, r1) =>
        let triggerValue := getTriggerValue msg (rule_Type rule) in
        match InsertAlert Live (rc_insert c) (VehicleID msg) (FleetID msg) (rule_Type rule)
                (rule_Severity rule) triggerValue d with
        | (Err _, d1) =>
            let '(_, r2) := ReleaseAlertDedup Live (rc_after c) (VehicleID msg)
                              (rule_Type rule) r1 in
            (tt, (d1, r2))
        | (Ok _, d1) =>
            let '(_, r2) := PublishAlert Live (rc_after c) (FleetID msg)
                              (alertPayload msg rule (rc_after c)) r1 in
            (tt, (d1, r2))
        end
    end.

Definition AlertEvaluator_evaluate (rules : list AlertRule) (clk : AlertType -> rule_clock)
    (msg : TelemetryMessage) : M (D * R) unit := forM (evaluate_rule clk msg) rules.

(** What [Run]'s select chooses; a message that was received is evaluated even when
    the context ends meanwhile. *)
Inductive ae_event :=
| AeMsg (msg : TelemetryMessage) (clk : AlertType -> rule_clock)
| AeClosed
| AeDone.
Fixpoint AlertEvaluator_Run (rules : list AlertRule) (es : list ae_event) : M (D * R) unit :=
  match es with
  | AeMsg msg clk :: es' =>
      AlertEvaluator_evaluate rules clk msg >> AlertEvaluator_Run rules es'
  | AeClosed :: _ | AeDone :: _ | [] => retM tt
  end.
End AlertEvaluator.

(** ** General lemmas: what one rule does under the laws of both services *)
Section Laws.
Context {P R : Type} `{DatabaseLaws P} `{RedisLaws R}.

(** The row an alert of the rule leaves in the table, or found there. *)
Definition covers (msg : TelemetryMessage) (rule : AlertRule) (t : Time) (a : alert_row) : Prop :=
  al_vehicle_id a = VehicleID msg /\ al_alert_type a = rule_Type rule /\
  t - alert_window < al_created_at a < t + alert_window.

Lemma insert_covers now msg rule v (d d' : db) u :
  insert_alert_stmt now (VehicleID msg) (FleetID msg) (rule_Type rule) (rule_Severity rule) v d
    = Some (u, d') ->
  exists a, a ∈ db_alerts d' /\ covers msg rule now a.
Proof.
  intros Hs. pose proof (insert_alert_rows _ _ _ _ _ _ _ _ _ Hs) as Hr. simpl in Hr.
  destruct (excl_conflict _ _) eqn:E; rewrite Hr.
  - apply existsb_exists in E as (a & Ha & Hx). exists a. rewrite list_elem_of_In.
    split; [done|]. unfold dedup_excl in Hx. rewrite !andb_true_iff, !bool_decide_eq_true in Hx.
    destruct Hx as [[[Hv Ht] Hl%Z.ltb_lt] Hu%Z.ltb_lt]. simpl in *.
    split; [done|]. split; [done|]. unfold alert_window in *. lia.
  - eexists. split; [apply elem_of_app; right; by left|].
    split; [done|]. split; [done|]. unfold alert_window, Minute, Second, Millisecond. simpl. lia.
Qed.

Lemma insert_keeps now v f t sev x (d d' : db) u a :
  insert_alert_stmt now v f t sev x d = Some (u, d') -> a ∈ db_alerts d -> a ∈ db_alerts d'.
Proof.
  intros Hs Ha. pose proof (insert_alert_rows _ _ _ _ _ _ _ _ _ Hs) as Hr. simpl in Hr.
  destruct (excl_conflict _ _); rewrite Hr; [done|]. apply elem_of_app. by left.
Qed.

Lemma InsertAlert_keeps cx now v f t sev x (p : P) a :
  a ∈ db_alerts (tables p) -> a ∈ db_alerts (tables (InsertAlert cx now v f t sev x p).2).
Proof.
  intros Ha. simpl. unfold Timescale_InsertAlert.
  destruct (pg_run cx _ p) as [[u|e] p'] eqn:E; simpl.
  - apply pg_run_ok in E. by eapply insert_keeps.
  - apply pg_run_err in E as [->|[u E]]; [done|by eapply insert_keeps].
Qed.

Lemma redis_unit_effect cx t c (r : R) :
  contents (redis_unit cx t c r).2 = contents r \/
  exists rep, cmd_sem t c (contents r) = Some (rep, contents (redis_unit cx t c r).2).
Proof.
  unfold redis_unit. destruct (redis_do cx t c r) as [[rep|e] r'] eqn:E; simpl.
  - right. exists rep. by apply redis_do_ok in E.
  - by apply redis_do_err in E.
Qed.

(** The publications a claim or a release adds: none. *)
Lemma setnx_pub t k v ttl st rep st' :
  cmd_sem t (SETNX k v ttl) st = Some (rep, st') -> rs_pub st' = rs_pub st.
Proof. simpl. by destruct (live t k st); intros [= _ <-]. Qed.

Lemma TryClaim_pub cx t v ty (r : R) :
  rs_pub (contents (TryClaimAlertDedup cx t v ty r).2) = rs_pub (contents r).
Proof.
  simpl. unfold RedisStore_TryClaimAlertDedup, redis_setnx.
  destruct (redis_do cx t _ r) as [[rep|e] r'] eqn:E.
  - apply redis_do_ok, setnx_pub in E. by destruct rep.
  - apply redis_do_err in E as [E|[rep E%setnx_pub]]; simpl; [by rewrite E|done].
Qed.

Lemma Release_pub cx t v ty (r : R) :
  rs_pub (contents (ReleaseAlertDedup cx t v ty r).2) = rs_pub (contents r).
Proof.
  simpl. unfold RedisStore_ReleaseAlertDedup.
  pose proof (redis_unit_effect cx t (DEL (alert_key v ty)) r) as He.
  destruct (redis_unit cx t _ r) as [[[]|e] r']; simpl in *;
    (destruct He as [->|[rep He]]; [done|injection He as _ He; by rewrite <- He]).
Qed.

Lemma Publish_pub cx t f payload (r : R) :
  let l' := rs_pub (contents (PublishAlert cx t f payload r).2) in
  l' = rs_pub (contents r) \/ l' = rs_pub (contents r) ++ [(alerts_channel f, payload)].
Proof.
  simpl. unfold RedisStore_PublishAlert.
  destruct (redis_unit_effect cx t (PUBLISH (alerts_channel f) payload) r) as [->|[rep He]];
    [by left|right].
  simpl in He. injection He as _ He. by rewrite <- He.
Qed.
End Laws.

(** ** Published means stored *)
Section Safety.
Context {P R : Type} `{DatabaseLaws P} `{RedisLaws R}.

Definition pubs (r : R) : list (string * string) := rs_pub (contents r).
(** A publication of [msg] that a stored alert backs. *)
Definition backed (rules : list AlertRule) (clk : AlertType -> rule_clock)
    (msg : TelemetryMessage) (alerts : list alert_row) (pub : string * string) : Prop :=
  exists rule a, rule ∈ rules /\ rule_Evaluator rule msg = true /\
    pub = (alerts_channel (FleetID msg), alertPayload msg rule (rc_after (clk (rule_Type rule)))) /\
    a ∈ alerts /\ covers msg rule (rc_insert (clk (rule_Type rule))) a.

Lemma evaluate_rule_effect clk msg rule (p : P) (r : R) :
  let w' := (evaluate_rule clk msg rule (p, r)).2 in
  (forall a, a ∈ db_alerts (tables p) -> a ∈ db_alerts (tables w'.1)) /\
  (pubs w'.2 = pubs r \/
   exists pub, pubs w'.2 = pubs r ++ [pub] /\
     backed [rule] clk msg (db_alerts (tables w'.1)) pub).
Proof.
  unfold evaluate_rule, pubs. set (c := clk (rule_Type rule)).
  destruct (rule_Evaluator rule msg) eqn:Hfire; simpl negb; cbv iota; [|by split; [|left]].
  pose proof (TryClaim_pub Live (rc_claim c) (VehicleID msg) (rule_Type rule) r) as Hp1.
  destruct (TryClaimAlertDedup _ _ _ _ r) as [[[]|e] r1]; cbn [snd fst] in *;
    [|by split; [|left]..].
  set (v := getTriggerValue msg (rule_Type rule)).
  pose proof (InsertAlert_keeps Live (rc_insert c) (VehicleID msg) (FleetID msg)
                (rule_Type rule) (rule_Severity rule) v p) as Hk.
  destruct (InsertAlert _ _ _ _ _ _ _ p) as [[u|e] p1] eqn:Hi; cbn [snd fst] in *.
  - pose proof (Publish_pub Live (rc_after c) (FleetID msg)
                  (alertPayload msg rule (rc_after c)) r1) as Hp2.
    destruct (PublishAlert _ _ _ _ r1) as [rr r2]; cbn [snd fst] in *.
    split; [intros a; apply Hk|]. rewrite Hp1 in Hp2. destruct Hp2 as [?|Hp2]; [by left|right].
    eexists. split; [exact Hp2|]. simpl in Hi. apply pg_run_ok, insert_covers in Hi as (a & Ha & Hc).
    exists rule, a. split_and!; [by left|done|done|done|apply Hc..].
  - pose proof (Release_pub Live (rc_after c) (VehicleID msg) (rule_Type rule) r1) as Hp2.
    destruct (ReleaseAlertDedup _ _ _ _ r1) as [rr r2]; cbn [snd fst] in *.
    split; [intros a; apply Hk|left; congruence].
Qed.

Lemma evaluate_effect rules clk msg (p : P) (r : R) :
  let w' := (AlertEvaluator_evaluate rules clk msg (p, r)).2 in
  (forall a, a ∈ db_alerts (tables p) -> a ∈ db_alerts (tables w'.1)) /\
  exists l, pubs w'.2 = pubs r ++ l /\
    Forall (backed rules clk msg (db_alerts (tables w'.1))) l.
Proof.
  revert p r. unfold AlertEvaluator_evaluate.
  induction rules as [|rule rules IH]; intros p r; simpl.
  { split; [done|]. exists []. by rewrite app_nil_r. }
  unfold bindM.
  destruct (evaluate_rule_effect clk msg rule p r) as [Hk Hp].
  destruct (evaluate_rule clk msg rule (p, r)) as [u [p1 r1]]. cbn [snd fst] in *.
  destruct (IH p1 r1) as [Hk2 (l & Hp2 & Hl)].
  split; [intros a Ha; by apply Hk2, Hk|].
  assert (Hl' : Forall (backed (rule :: rules) clk msg
            (db_alerts (tables (forM (evaluate_rule clk msg) rules (p1, r1)).2.1))) l).
  { eapply Forall_impl; [exact Hl|]. intros pub (rl & a & Hr & Hrest).
    exists rl, a. split; [by right|done]. }
  destruct Hp as [Hp|(pub & Hp & (rl & a & Hr & Hf & Hpub & Ha & Hc))].
  - exists l. by rewrite Hp2, Hp.
  - exists (pub :: l). split; [by rewrite Hp2, Hp, <- (assoc_L (++))|].
    constructor; [|done]. apply list_elem_of_singleton in Hr as ->.
    exists rule, a. split_and!; [by left|done|done|by apply Hk2|apply Hc..].
Qed.
End Safety.

(** C11. Published means stored. Whatever the outages, lost replies and clocks, what
    an evaluation publishes are alerts of rules its message trips, on the channel of
    the message's fleet, and for each of them the database then holds an alert of
    that vehicle and type created within five minutes of the insert; no stored alert
    is lost. *)
Theorem evaluate_publishes_stored {P R} `{DatabaseLaws P} `{RedisLaws R} clk msg
    (p : P) (r : R) :
  let '(p', r') := (AlertEvaluator_evaluate DefaultAlertRules clk msg (p, r)).2 in
  (forall a, a ∈ db_alerts (tables p) -> a ∈ db_alerts (tables p')) /\
  exists l, pubs r' = pubs r ++ l /\
    Forall (backed DefaultAlertRules clk msg (db_alerts (tables p'))) l.
Proof.
  pose proof (evaluate_effect DefaultAlertRules clk msg p r) as He.
  by destruct (AlertEvaluator_evaluate DefaultAlertRules clk msg (p, r)) as [u [p' r']].
Qed.

(** ** A failed insert gives the claim back *)

(** A failed insert gives the claim back. When a tripped rule's claim succeeds,
    the insert fails and the release succeeds, the rule publishes nothing and leaves
    no claim behind: every other key is as it was, so the next message that trips the
    rule claims again at once instead of being silenced for five minutes. *)
Theorem insert_failure_releases_claim {P R} `{DatabaseLaws P} `{RedisLaws R} clk msg rule
    (p : P) (r r1 : R) p1 e r2 :
  let c := clk (rule_Type rule) in
  let key := alert_key (VehicleID msg) (rule_Type rule) in
  rule_Evaluator rule msg = true ->
  TryClaimAlertDedup Live (rc_claim c) (VehicleID msg) (rule_Type rule) r = (Ok true, r1) ->
  InsertAlert Live (rc_insert c) (VehicleID msg) (FleetID msg) (rule_Type rule)
    (rule_Severity rule) (getTriggerValue msg (rule_Type rule)) p = (Err e, p1) ->
  ReleaseAlertDedup Live (rc_after c) (VehicleID msg) (rule_Type rule) r1 = (Ok tt, r2) ->
  evaluate_rule clk msg rule (p, r) = (tt, (p1, r2)) /\
  pubs r2 = pubs r /\
  (forall t, live t key (contents r2) = None) /\
  (forall t k, k <> key -> live t k (contents r2) = live t k (contents r)).
Proof.
  intros c key Hf Hc Hi Hr. split; [|split].
  - unfold evaluate_rule. fold c. rewrite Hf. simpl negb. cbv iota. by rewrite Hc, Hi, Hr.
  - unfold pubs. pose proof (TryClaim_pub Live (rc_claim c) (VehicleID msg) (rule_Type rule) r).
    pose proof (Release_pub Live (rc_after c) (VehicleID msg) (rule_Type rule) r1).
    rewrite Hc in *. rewrite Hr in *. simpl in *. congruence.
  - simpl in Hr, Hc. unfold RedisStore_ReleaseAlertDedup in Hr.
    unfold RedisStore_TryClaimAlertDedup in Hc.
    destruct (redis_setnx _ _ _ _ _ r) as [[b|?] r1'] eqn:Es; simplify_eq.
    apply redis_setnx_ok in Es as [(_ & _ & Es)|(? & _)]; [|done].
    destruct (redis_unit _ _ _ r1) as [[[]|?] r2'] eqn:Ed; simplify_eq.
    apply redis_unit_ok in Ed as [rep Ed]. simpl in Ed. injection Ed as _ Ed.
    rewrite <- Ed. fold key in Es |- *. split.
    + intros t. apply live_delete_eq.
    + intros t k Hk. rewrite live_delete_ne by done. rewrite Es. by apply live_put_ne.
Qed.

(** ** Refinement: alerts within a five-minute window

    The abstract evaluator keeps two windows, each on the clock of the server that keeps
    it: the alerts claimed (Redis) and the alerts stored (the database). A tripped rule is
    claimed, and then announced, when none of that vehicle and type was claimed in the
    last five minutes; a claimed alert is stored when none of that vehicle and type was
    stored in the last five minutes. An alert the database cannot store, one with a NUL
    in an identifier, is neither. *)
Record raised := MkRaised {
  ra_vehicle : string; ra_fleet : string; ra_type : AlertType; ra_severity : AlertSeverity;
  ra_value : float64; ra_at : Time
}.
Definition same_window (v : string) (ty : AlertType) (t : Time) (a : raised) : bool :=
  bool_decide (ra_vehicle a = v) && bool_decide (ra_type a = ty) && (t <? ra_at a + alert_window).
Definition storable (msg : TelemetryMessage) : bool := no_nul (VehicleID msg) && no_nul (FleetID msg).
Definition raise_of (t : Time) (msg : TelemetryMessage) (rule : AlertRule) : raised :=
  MkRaised (VehicleID msg) (FleetID msg) (rule_Type rule) (rule_Severity rule)
    (getTriggerValue msg (rule_Type rule)) t.
Definition in_window (msg : TelemetryMessage) (rule : AlertRule) (t : Time) (l : list raised) : bool :=
  existsb (same_window (VehicleID msg) (rule_Type rule) t) l.
Record windows := MkWindows { claimed : list raised; stored : list raised; announced : list raised }.
Definition spec_rule (clk : AlertType -> rule_clock) (msg : TelemetryMessage) (s : windows)
    (rule : AlertRule) : windows :=
  let c := clk (rule_Type rule) in
  if rule_Evaluator rule msg && storable msg && negb (in_window msg rule (rc_claim c) (claimed s))
  then MkWindows (claimed s ++ [raise_of (rc_claim c) msg rule])
         (stored s ++ if in_window msg rule (rc_insert c) (stored s) then []
                      else [raise_of (rc_insert c) msg rule])
         (announced s ++ [raise_of (rc_after c) msg rule])
  else s.
Definition spec_evaluate (rules : list AlertRule) (s : windows)
    (e : TelemetryMessage * (AlertType -> rule_clock)) : windows := foldl (spec_rule e.2 e.1) s rules.
Definition spec_run (rules : list AlertRule)
    (es : list (TelemetryMessage * (AlertType -> rule_clock))) : windows :=
  foldl (spec_evaluate rules) (MkWindows [] [] []) es.
(** The times of the calls of a kind, in the order they are made. *)
Definition call_times (f : rule_clock -> Time) (rules : list AlertRule)
    (es : list (TelemetryMessage * (AlertType -> rule_clock))) : list Time :=
  flat_map (fun e => map (fun rule => f (e.2 (rule_Type rule))) rules) es.

(** What the abstract alert looks like in the table and on the channel. *)
Definition raised_of_row (a : alert_row) : raised :=
  MkRaised (al_vehicle_id a) (al_fleet_id a) (al_alert_type a) (al_severity a)
    (default S754_nan (al_triggered_value a)) (al_created_at a).
Definition pub_of_raised (a : raised) : string * string :=
  (alerts_channel (ra_fleet a),
   if is_finite (ra_value a) then
     Marshal (json_map [
       ("vehicle_id", JStr (ra_vehicle a)); ("fleet_id", JStr (ra_fleet a));
       ("alert_type", JStr (ra_type a)); ("severity", JStr (ra_severity a));
       ("value", jfloat (ra_value a)); ("triggered_at", jint (Unix (ra_at a)))])%string
   else ""%string).
Definition events_of (es : list (TelemetryMessage * (AlertType -> rule_clock))) : list ae_event :=
  map (fun e => AeMsg e.1 e.2) es.

(** A rule's type and severity are among those the schema allows, and its type holds
    no colon, so that alert keys tell vehicles and types apart. *)
Fixpoint no_colon (s : string) : bool :=
  match s with
  | EmptyString => true
  | String a s' => negb (bool_decide (a = ":"%char)) && no_colon s'
  end.
Definition rule_ok (rule : AlertRule) : bool :=
  chk_alert_type (rule_Type rule) && chk_severity (rule_Severity rule) &&
  no_colon (rule_Type rule).

Lemma no_colon_app_absurd v s x : no_colon s = true -> s <> (x ++ String ":"%char v)%string.
Proof.
  revert s. induction x as [|a x IH]; intros s Hs ->; simpl in Hs.
  - done.
  - apply andb_true_iff in Hs as [_ Hs]. by eapply IH.
Qed.

Lemma colon_split v1 v2 t1 t2 :
  no_colon t1 = true -> no_colon t2 = true ->
  (v1 ++ String ":"%char t1 = v2 ++ String ":"%char t2)%string -> v1 = v2 /\ t1 = t2.
Proof.
  intros H1 H2. revert v2. induction v1 as [|a v1 IH]; intros [|b v2]; simpl; intros Heq.
  - by simplify_eq.
  - simplify_eq. by eapply no_colon_app_absurd in H1.
  - simplify_eq. by eapply no_colon_app_absurd in H2.
  - injection Heq as <- Heq. by apply IH in Heq as [<- <-].
Qed.

Lemma alert_key_inj v1 v2 t1 t2 :
  no_colon t1 = true -> no_colon t2 = true -> alert_key v1 t1 = alert_key v2 t2 ->
  v1 = v2 /\ t1 = t2.
Proof.
  intros H1 H2. unfold alert_key. intros Heq%(inj (String.app _)). by apply colon_split.
Qed.

(** The refinement relation, at a time [T] of Redis and a time [U] of the database no
    earlier than anything they did. *)
Record Refines (T U : Time) (s : windows) (p : MemDB) (r : MemRedis) : Prop := {
  rf_noout : db_outages p = [] /\ outages r = [];
  rf_past : Forall (fun a => ra_at a <= U) (stored s);
  rf_rows : map raised_of_row (db_alerts (tables p)) = stored s;
  rf_pubs : pubs r = map pub_of_raised (announced s);
  rf_claims : forall v ty t, no_colon ty = true -> T <= t ->
    (is_Some (live t (alert_key v ty) (contents r)) <->
     existsb (same_window v ty t) (claimed s) = true)
}.

Lemma Refines_later T U T' U' s p r : T <= T' -> U <= U' -> Refines T U s p r -> Refines T' U' s p r.
Proof.
  intros HT HU [? Hp ? ? Hc]. split; [done| |done|done|].
  - eapply Forall_impl; [exact Hp|]. simpl. lia.
  - intros v ty t Hty Ht. apply Hc; [done|lia].
Qed.

(** The exclusion constraint sees the same window as the claim. *)
Lemma excl_conflict_window T l (d : db) id v f ty sev x :
  Forall (fun a => ra_at a <= T) l -> map raised_of_row (db_alerts d) = l ->
  excl_conflict d (new_alert id T v f ty sev x) = existsb (same_window v ty T) l.
Proof.
  intros Hp <-. unfold excl_conflict. rewrite Forall_map in Hp.
  induction Hp as [|a al Ha _ IH]; simpl; [done|]. f_equal; [|exact IH].
  simpl in Ha. unfold dedup_excl, same_window. simpl.
  assert ((T <? al_created_at a + alert_window) && (al_created_at a <? T + alert_window) =
          (T <? al_created_at a + alert_window)) as Heq.
  { rewrite (proj2 (Z.ltb_lt (al_created_at a) (T + alert_window)));
      [by rewrite andb_true_r|unfold alert_window, Minute, Second; lia]. }
  rewrite <- (andb_assoc _ (T <? _)), Heq. repeat f_equal; apply bool_decide_ext; done.
Qed.

Lemma spec_window_snoc a v ty t l :
  existsb (same_window v ty t) (l ++ [a]) =
  existsb (same_window v ty t) l || same_window v ty t a.
Proof. rewrite existsb_app. simpl. by rewrite orb_false_r. Qed.

(** The claim on the reliable server: it succeeds exactly outside the window. *)
Lemma claim_reliable T v ty r :
  outages r = [] ->
  TryClaimAlertDedup Live T v ty r =
  match live T (alert_key v ty) (mem r) with
  | Some _ => (Ok false, MkMemRedis (mem r) [])
  | None => (Ok true, MkMemRedis (put (alert_key v ty) (RStr "1") (Some (T + alert_window)) (mem r)) [])
  end.
Proof.
  intros Ho. simpl. unfold RedisStore_TryClaimAlertDedup, redis_setnx. simpl.
  unfold mem_outage. rewrite Ho. simpl. by destruct (live T _ (mem r)).
Qed.

Lemma insert_reliable T msg rule l (p : MemDB) :
  rule_ok rule = true -> db_outages p = [] ->
  Forall (fun a => ra_at a <= T) l -> map raised_of_row (db_alerts (tables p)) = l ->
  let '(res, p') := InsertAlert Live T (VehicleID msg) (FleetID msg) (rule_Type rule)
                      (rule_Severity rule) (getTriggerValue msg (rule_Type rule)) p in
  db_outages p' = [] /\ is_ok res = storable msg /\
  map raised_of_row (db_alerts (tables p')) =
    l ++ (if storable msg then if in_window msg rule T l then [] else [raise_of T msg rule] else []).
Proof.
  intros Hr Ho Hp Hl. simpl. unfold Timescale_InsertAlert. simpl. rewrite Ho. simpl.
  unfold insert_alert_stmt.
  assert (Hck : forall id v, alert_checks (new_alert id T (VehicleID msg) (FleetID msg)
            (rule_Type rule) (rule_Severity rule) v) = storable msg).
  { intros id v. unfold alert_checks, storable. simpl. unfold rule_ok in Hr.
    rewrite !andb_true_iff in Hr. destruct Hr as [[-> ->] _]. by rewrite !andb_true_r. }
  rewrite Hck. destruct (storable msg); simpl.
  - rewrite (excl_conflict_window T l) by done. unfold in_window. destruct (existsb _ l); simpl.
    + simpl in Hl. by rewrite Hl, app_nil_r.
    + rewrite map_app. simpl in Hl. by rewrite Hl.
  - simpl in Hl. by rewrite app_nil_r.
Qed.

Lemma same_window_mono v ty T t l :
  T <= t -> existsb (same_window v ty T) l = false -> existsb (same_window v ty t) l = false.
Proof.
  intros Ht Hf. apply not_true_is_false. intros (a & Ha & Hx)%existsb_exists.
  apply not_true_iff_false in Hf. apply Hf, existsb_exists. exists a. split; [done|].
  unfold same_window in *. rewrite !andb_true_iff in *. destruct Hx as [? Hx%Z.ltb_lt].
  split; [done|]. apply Z.ltb_lt. lia.
Qed.

Lemma same_window_raise v ty t T msg rule :
  same_window v ty t (raise_of T msg rule) =
  bool_decide (VehicleID msg = v) && bool_decide (rule_Type rule = ty) && (t <? T + alert_window).
Proof. done. Qed.

(** The claim of the rule's key is all that the two outcomes change. *)
Lemma claims_raise T l r msg rule st v ty t :
  no_colon (rule_Type rule) = true -> no_colon ty = true -> T <= t ->
  (forall v ty t, no_colon ty = true -> T <= t ->
     (is_Some (live t (alert_key v ty) (mem r)) <-> existsb (same_window v ty t) l = true)) ->
  existsb (same_window (VehicleID msg) (rule_Type rule) T) l = false ->
  rs_kv st = rs_kv (put (alert_key (VehicleID msg) (rule_Type rule)) (RStr "1")
                      (Some (T + alert_window)) (mem r)) ->
  (is_Some (live t (alert_key v ty) st) <->
   existsb (same_window v ty t) (l ++ [raise_of T msg rule]) = true).
Proof.
  intros Hty Hty' Ht Hcl Hw Hkv.
  assert (Hl : live t (alert_key v ty) st = live t (alert_key v ty)
            (put (alert_key (VehicleID msg) (rule_Type rule)) (RStr "1")
                      (Some (T + alert_window)) (mem r))) by (unfold live; by rewrite Hkv).
  rewrite Hl, spec_window_snoc, same_window_raise.
  destruct (decide (VehicleID msg = v /\ rule_Type rule = ty)) as [[<- <-]|Hne].
  - rewrite live_put_eq, !bool_decide_true by done.
    rewrite (same_window_mono _ _ T t) by done. simpl.
    destruct (Z.ltb_spec t (T + alert_window)); split; [done|eauto|by intros [? ?]|done].
  - rewrite live_put_ne by (intros Heq; by apply alert_key_inj in Heq).
    rewrite Hcl by done.
    assert (bool_decide (VehicleID msg = v) && bool_decide (rule_Type rule = ty) = false) as ->.
    { apply not_true_is_false. rewrite andb_true_iff, !bool_decide_eq_true. tauto. }
    simpl. by rewrite orb_false_r.
Qed.

Lemma claims_release T l r msg rule st v ty t :
  no_colon (rule_Type rule) = true -> no_colon ty = true -> T <= t ->
  (forall v ty t, no_colon ty = true -> T <= t ->
     (is_Some (live t (alert_key v ty) (mem r)) <-> existsb (same_window v ty t) l = true)) ->
  existsb (same_window (VehicleID msg) (rule_Type rule) T) l = false ->
  let key := alert_key (VehicleID msg) (rule_Type rule) in
  rs_kv st = delete key (<[key := (RStr "1", Some (T + alert_window))]> (rs_kv (mem r))) ->
  (is_Some (live t (alert_key v ty) st) <-> existsb (same_window v ty t) l = true).
Proof.
  intros Hty Hty' Ht Hcl Hw key Hkv.
  destruct (decide (VehicleID msg = v /\ rule_Type rule = ty)) as [[<- <-]|Hne].
  - rewrite (same_window_mono _ _ T t) by done. unfold live. fold key. rewrite Hkv, lookup_delete_eq.
    split; [by intros [? ?]|done].
  - rewrite <- Hcl by done.
    assert (Hk : key <> alert_key v ty) by (intros Heq; by apply alert_key_inj in Heq).
    unfold live. by rewrite Hkv, lookup_delete_ne, lookup_insert_ne.
Qed.

Lemma Refines_rule T U s p r clk msg rule :
  let c := clk (rule_Type rule) in
  rule_ok rule = true -> T <= rc_claim c -> U <= rc_insert c -> Refines T U s p r ->
  let w' := (evaluate_rule clk msg rule (p, r)).2 in
  Refines (rc_claim c) (rc_insert c) (spec_rule clk msg s rule) w'.1 w'.2.
Proof.
  intros c Hrule HT HU HR%(Refines_later _ _ _ _ _ _ _ HT HU). clear HT HU.
  pose proof HR as [[Hdo Hro] Hpast Hrows Hpubs Hcl].
  unfold evaluate_rule, spec_rule. fold c. set (T' := rc_claim c) in *. set (U' := rc_insert c) in *.
  destruct (rule_Evaluator rule msg); simpl negb; cbv iota; [|done]. rewrite andb_true_l.
  assert (Hty : no_colon (rule_Type rule) = true)
    by (unfold rule_ok in Hrule; rewrite !andb_true_iff in Hrule; tauto).
  pose proof (Hcl (VehicleID msg) _ T' Hty (Z.le_refl T')) as HcT.
  rewrite claim_reliable by done. simpl in HcT. set (key := alert_key _ _) in *.
  destruct (live T' key (mem r)) as [x|] eqn:Elive; cbn [fst snd].
  { assert (in_window msg rule T' (claimed s) = true) as -> by (by apply HcT).
    rewrite andb_false_r. by split. }
  assert (Hw : in_window msg rule T' (claimed s) = false).
  { apply not_true_is_false. intros [? Hx]%HcT. done. }
  pose proof (insert_reliable U' msg rule _ p Hrule Hdo Hpast Hrows) as Hi.
  destruct (InsertAlert _ _ _ _ _ _ _ p) as [res p1]. destruct Hi as (Hdo1 & Hres & Hrows1).
  rewrite Hw, andb_true_r. destruct res as [u|e], (storable msg); try done; simpl.
  - split; cbn [outages mem pubs contents claimed stored announced]; [done| |done| |].
    + apply Forall_app. split; [done|]. unfold in_window; destruct (existsb _ (stored s)); [done|].
      apply Forall_singleton. apply Z.le_refl.
    + unfold pubs in *. simpl in *. by rewrite Hpubs, map_app.
    + intros v ty t ? ?. by eapply claims_raise.
  - rewrite app_nil_r in Hrows1. split; [done|done|done|done|].
    intros v ty t ? ?. by eapply claims_release.
Qed.

Lemma Refines_evaluate T U s p r msg clk rules later later' :
  forallb rule_ok rules = true ->
  Sorted Z.le (T :: map (fun rule => rc_claim (clk (rule_Type rule))) rules ++ later) ->
  Sorted Z.le (U :: map (fun rule => rc_insert (clk (rule_Type rule))) rules ++ later') ->
  Refines T U s p r ->
  let w' := (AlertEvaluator_evaluate rules clk msg (p, r)).2 in
  exists T' U', Sorted Z.le (T' :: later) /\ Sorted Z.le (U' :: later') /\
    Refines T' U' (spec_evaluate rules s (msg, clk)) w'.1 w'.2.
Proof.
  unfold AlertEvaluator_evaluate, spec_evaluate. simpl.
  revert T U s p r. induction rules as [|rule rules IH]; intros T U s p r Hr HT HU HR; simpl in *.
  { by exists T, U. }
  apply andb_true_iff in Hr as [Hr Hrs].
  apply Sorted_inv in HT as [HT HT0%HdRel_inv]. apply Sorted_inv in HU as [HU HU0%HdRel_inv].
  pose proof (Refines_rule T U s p r clk msg rule Hr HT0 HU0 HR) as H1. unfold bindM.
  destruct (evaluate_rule clk msg rule (p, r)) as [u [p1 r1]]. by eapply IH.
Qed.

Lemma Refines_run es T U s p r :
  Sorted Z.le (T :: call_times rc_claim DefaultAlertRules es) ->
  Sorted Z.le (U :: call_times rc_insert DefaultAlertRules es) -> Refines T U s p r ->
  let w' := (AlertEvaluator_Run DefaultAlertRules (events_of es) (p, r)).2 in
  exists T' U', Refines T' U' (foldl (spec_evaluate DefaultAlertRules) s es) w'.1 w'.2.
Proof.
  revert T U s p r. induction es as [|[m clk] es IH]; intros T U s p r HT HU HR.
  { by exists T, U. }
  cbn [events_of map AlertEvaluator_Run foldl fst snd]. unfold bindM.
  destruct (Refines_evaluate T U s p r m clk DefaultAlertRules _ _ eq_refl HT HU HR)
    as (T' & U' & HT' & HU' & H1).
  destruct (AlertEvaluator_evaluate DefaultAlertRules clk m (p, r)) as [u [p1 r1]]. by eapply IH.
Qed.

(** When the calls of an evaluation share an instant, the two windows are one. *)
Definition one_window (s : windows) : Prop := claimed s = stored s /\ announced s = stored s.
Lemma one_window_evaluate rules s e t :
  e.2 = at_instant t -> one_window s -> one_window (spec_evaluate rules s e).
Proof.
  destruct e as [m clk]. simpl. intros ->. unfold spec_evaluate. simpl.
  revert s. induction rules as [|rule rules IH]; intros s Hs; simpl; [done|]. apply IH.
  destruct Hs as [Hc Ha]. unfold spec_rule, one_window. rewrite Hc, Ha. simpl.
  destruct (in_window m rule t (stored s)); rewrite ?andb_false_r, ?andb_true_r; [done|].
  by destruct (rule_Evaluator rule m && storable m).
Qed.

Lemma one_window_run rules es s :
  Forall (fun e => exists t, e.2 = at_instant t) es -> one_window s ->
  one_window (foldl (spec_evaluate rules) s es).
Proof.
  intros He. revert s. induction He as [|e es [t Ht] _ IH]; intros s Hs; simpl; [done|].
  apply IH. by eapply one_window_evaluate.
Qed.


(** ** Examples and witnesses *)
Definition demo_msg (v : string) (speed fuel : Z) : TelemetryMessage :=
  MkTelemetryMessage 0 0 v "fleet-a" f_zero f_zero (f_of_Z speed) (f_of_Z fuel) f_zero
    f_zero f_zero true true "{}".

(** The two windows drift apart: Redis starts counting at the claim, the database at
    the insert, one second later. A message five minutes after the first claim claims
    again and is published, but the exclusion constraint drops its row. *)
Example dedup_windows_drift :
  let clk t d := fun _ : AlertType => MkRuleClock t (t + d) (t + d) in
  let m := demo_msg "v1" 120 50 in
  let '(p, r) := (AlertEvaluator_Run DefaultAlertRules
                    [AeMsg m (clk 0 Second); AeMsg m (clk (5 * Minute) (5 * Millisecond))]
                    (MkMemDB empty_db [], empty_redis)).2 in
  map al_created_at (db_alerts (tables p)) = [Second] /\ length (pubs r) = 2%nat.
Proof. vm_compute. done. Qed.

Lemma evaluate_publishes_stored_witness :
  let m := demo_msg "v1" 120 5 in
  let '(p', r') := (AlertEvaluator_evaluate DefaultAlertRules (at_instant 7) m
                      (MkMemDB empty_db [true], empty_redis)).2 in
  length (pubs r') = 1%nat /\
  exists l, pubs r' = pubs empty_redis ++ l /\
    Forall (backed DefaultAlertRules (at_instant 7) m (db_alerts (tables p'))) l.
Proof.
  split; [vm_compute; reflexivity|].
  exact (proj2 (evaluate_publishes_stored (at_instant 7) (demo_msg "v1" 120 5)
                  (MkMemDB empty_db [true]) empty_redis)).
Defined.

Lemma insert_failure_releases_claim_witness :
  let m := demo_msg "v1" 120 50 in
  let rule := MkAlertRule AlertSpeeding SeverityWarning (fun m => f_gtb (SpeedKmh m) (f_of_Z 100)) in
  exists r2, evaluate_rule (at_instant 7) m rule (MkMemDB empty_db [true], empty_redis) =
               (tt, (MkMemDB empty_db [], r2)) /\
    live 8 (alert_key "v1" AlertSpeeding) (contents r2) = None.
Proof.
  eexists. refine (match insert_failure_releases_claim (at_instant 7) (demo_msg "v1" 120 50)
    (MkAlertRule AlertSpeeding SeverityWarning (fun m => f_gtb (SpeedKmh m) (f_of_Z 100)))
    (MkMemDB empty_db [true]) empty_redis _ (MkMemDB empty_db []) _ _ _ _ _ _
    with conj He (conj _ (conj Hl _)) => conj He (Hl 8) end); reflexivity.
Defined.

