(* ===== verification/Evaluators.v ===== *)
(** * Several alert evaluators at once: [ingestion/main.go], [alert_evaluator.go]

    [main] starts [AlertWorkers] evaluators on one queue. Here they run together: each
    call to Redis or the database is a step of its own, at the current instant, so that
    the claims, inserts, releases and publications of different evaluators interleave in
    any order, and time passes between them. Other clients of Redis and of the database
    may do anything but touch the deduplication keys. *)
From S2P Require Import Prelude GoNum Json Redis Domain RedisStore Tables Timescale AlertEvaluator.
Local Open Scope Z_scope.

(** Where an evaluator is: in its select; before the rules that are left for a message;
    with a claim it made, before the insert, the release or the publication. *)
Inductive stage :=
| Idle
| Scanning (msg : TelemetryMessage) (rules : list AlertRule)
| Inserting (msg : TelemetryMessage) (rule : AlertRule) (rules : list AlertRule) (claimed : Time)
| Releasing (msg : TelemetryMessage) (rule : AlertRule) (rules : list AlertRule) (claimed : Time)
| Publishing (msg : TelemetryMessage) (rule : AlertRule) (rules : list AlertRule) (claimed : Time)
| Ended.

(** A publication: the key of its claim, and when that claim was made. *)
Record publication := MkPublication { pb_key : string; pb_claimed : Time }.

Record evaluators (P R : Type) := MkEvaluators {
  ev_stages : list stage; ev_chan : list TelemetryMessage; ev_done : bool; ev_now : Time;
  ev_db : P; ev_redis : R; ev_published : list publication
}.
Arguments MkEvaluators {P R}.
Arguments ev_stages {P R}.
Arguments ev_chan {P R}.
Arguments ev_done {P R}.
Arguments ev_now {P R}.
Arguments ev_db {P R}.
Arguments ev_redis {P R}.
Arguments ev_published {P R}.

Section Evaluators.
Context {P R : Type} `{Database P} `{RedisServer R}.

(** The next thing an evaluator does with its message, at [t]. *)
Definition act (t : Time) (s : stage) (d : P) (r : R) : option (stage * (P * R) * list publication) :=
  match s with
  | Idle | Ended => None
  | Scanning msg [] => Some (Idle, (d, r), [])
  | Scanning msg (rule :: rules) =>
      if negb (rule_Evaluator rule msg) then Some (Scanning msg rules, (d, r), [])
      else match TryClaimAlertDedup Live t (VehicleID msg) (rule_Type rule) r with
           | (Ok true, r') => Some (Inserting msg rule rules t, (d, r'), [])
           | (_, r') => Some (Scanning msg rules, (d, r'), [])
           end
  | Inserting msg rule rules c =>
      match InsertAlert Live t (VehicleID msg) (FleetID msg) (rule_Type rule) (rule_Severity rule)
              (getTriggerValue msg (rule_Type rule)) d with
      | (Ok _, d') => Some (Publishing msg rule rules c, (d', r), [])
      | (Err _, d') => Some (Releasing msg rule rules c, (d', r), [])
      end
  | Releasing msg rule rules c =>
      let '(_, r') := ReleaseAlertDedup Live t (VehicleID msg) (rule_Type rule) r in
      Some (Scanning msg rules, (d, r'), [])
  | Publishing msg rule rules c =>
      let '(_, r') := PublishAlert Live t (FleetID msg) (alertPayload msg rule t) r in
      Some (Scanning msg rules, (d, r'), [MkPublication (alert_key (VehicleID msg) (rule_Type rule)) c])
  end.

Definition dedup_key (k : string) : Prop := exists v t, k = alert_key v t.
(** [allow]: which calls may happen when. *)
Inductive ev_step (rules : list AlertRule) (allow : Time -> stage -> Prop) (e : evaluators P R)
  : evaluators P R -> Prop :=
| ev_receive i msg q :
    ev_stages e !! i = Some Idle -> ev_chan e = msg :: q ->
    ev_step rules allow e (MkEvaluators (<[i := Scanning msg rules]> (ev_stages e)) q (ev_done e)
      (ev_now e) (ev_db e) (ev_redis e) (ev_published e))
| ev_act i s s' d r pub :
    ev_stages e !! i = Some s -> allow (ev_now e) s ->
    act (ev_now e) s (ev_db e) (ev_redis e) = Some (s', (d, r), pub) ->
    ev_step rules allow e (MkEvaluators (<[i := s']> (ev_stages e)) (ev_chan e) (ev_done e)
      (ev_now e) d r (ev_published e ++ pub))
| ev_return i :
    ev_stages e !! i = Some Idle -> ev_done e = true ->
    ev_step rules allow e (MkEvaluators (<[i := Ended]> (ev_stages e)) (ev_chan e) (ev_done e)
      (ev_now e) (ev_db e) (ev_redis e) (ev_published e))
| ev_world q done t d r :            (* the dispatcher, the context, time, other clients *)
    ev_now e <= t ->
    (forall k, dedup_key k -> rs_kv (contents r) !! k = rs_kv (contents (ev_redis e)) !! k) ->
    ev_step rules allow e (MkEvaluators (ev_stages e) q done t d r (ev_published e)).

(** What [main] starts. *)
Definition start_evaluators (workers : Z) (now : Time) (d : P) (r : R) : evaluators P R :=
  MkEvaluators (replicate (Z.to_nat workers) Idle) [] false now d r [].
Definition evaluating (rules : list AlertRule) (allow : Time -> stage -> Prop)
    (e : evaluators P R) : Prop :=
  exists workers now d r, rtc (ev_step rules allow) (start_evaluators workers now d r) e.
End Evaluators.

(** ** One evaluator alone *)

(** The calls for one rule, one after the other at the instants of a clock. *)
Definition rule_alone {P R} `{Database P} `{RedisServer R} (clk : AlertType -> rule_clock)
    (msg : TelemetryMessage) (rule : AlertRule) (rules : list AlertRule) (w : P * R)
  : option (stage * (P * R)) :=
  let c := clk (rule_Type rule) in
  '(s1, (d1, r1), _) ← act (rc_claim c) (Scanning msg (rule :: rules)) w.1 w.2;
  match s1 with
  | Inserting _ _ _ _ =>
      '(s2, (d2, r2), _) ← act (rc_insert c) s1 d1 r1;
      '(s3, w3, _) ← act (rc_after c) s2 d2 r2;
      Some (s3, w3)
  | _ => Some (s1, (d1, r1))
  end.
(** It is what the sequential loop does with the rule. *)
Lemma rule_alone_evaluates {P R} `{Database P} `{RedisServer R} clk msg rule rules (w : P * R) :
  rule_alone clk msg rule rules w = Some (Scanning msg rules, (evaluate_rule clk msg rule w).2).
Proof.
  destruct w as [d r]. unfold rule_alone, evaluate_rule, act. cbn [fst snd].
  destruct (negb (rule_Evaluator rule msg)); [done|].
  destruct (TryClaimAlertDedup _ _ _ _ r) as [[[]|e] r1]; try done. cbn [mbind option_bind].
  destruct (InsertAlert _ _ _ _ _ _ _ d) as [[u|e] d1]; cbn [mbind option_bind].
  - by destruct (PublishAlert _ _ _ _ r1) as [x r2].
  - by destruct (ReleaseAlertDedup _ _ _ _ r1) as [x r2].
Qed.

(** An evaluator with a message always has a next call, whatever is answered, and comes
    back to its select after at most three for a rule. *)
Definition stage_left (s : stage) : nat :=
  match s with
  | Idle | Ended => 0
  | Scanning _ rules => S (3 * length rules)
  | Releasing _ _ rules _ | Publishing _ _ rules _ => S (S (3 * length rules))
  | Inserting _ _ rules _ => S (S (S (3 * length rules)))
  end.
Lemma act_progress {P R} `{Database P} `{RedisServer R} t s (d : P) (r : R) :
  match act t s d r with
  | Some (s', _, _) => (stage_left s' < stage_left s)%nat
  | None => s = Idle \/ s = Ended
  end.
Proof.
  destruct s as [|msg [|rule rules]|msg rule rules c|msg rule rules c|msg rule rules c|]; simpl; auto.
  - destruct (negb _); simpl; [lia|].
    destruct (RedisStore_TryClaimAlertDedup _ _ _ _ r) as [[[]|] r1]; simpl; lia.
  - destruct (Timescale_InsertAlert _ _ _ _ _ _ _ d) as [[u|e] d1]; simpl; lia.
  - destruct (RedisStore_ReleaseAlertDedup _ _ _ _ r) as [a r1]. simpl. lia.
  - destruct (RedisStore_PublishAlert _ _ _ _ r) as [a r1]. simpl. lia.
Qed.

(** ** Claims in the evaluators' hands *)
Definition claim_of (s : stage) : list publication :=
  match s with
  | Inserting msg rule _ c | Releasing msg rule _ c | Publishing msg rule _ c =>
      [MkPublication (alert_key (VehicleID msg) (rule_Type rule)) c]
  | _ => []
  end.
Definition far (p q : publication) : Prop :=
  pb_key p = pb_key q -> dedup_window <= Z.abs (pb_claimed p - pb_claimed q).
Fixpoint apart (l : list publication) : Prop :=
  match l with [] => True | p :: l' => Forall (far p) l' /\ apart l' end.

Lemma far_sym p q : far p q -> far q p.
Proof. unfold far. intros Hf Hk. specialize (Hf (eq_sym Hk)). lia. Qed.
Lemma apart_perm l l' : l ≡ₚ l' -> apart l -> apart l'.
Proof.
  induction 1 as [|p l l' Hp IH|p q l|l1 l2 l3 _ IH1 _ IH2]; simpl; [done| | |auto].
  - intros [Hf Ha]. split; [by rewrite <- Hp|auto].
  - rewrite !Forall_cons. intros ([Hqp Hq] & Hp & Ha). eauto using far_sym.
Qed.
Lemma apart_app_r l l' : apart (l ++ l') -> apart l'.
Proof. induction l as [|p l IH]; simpl; [done|]. intros [_ Ha]. auto. Qed.
Lemma apart_lookup l i j p q : apart l -> i <> j -> l !! i = Some p -> l !! j = Some q -> far p q.
Proof.
  revert i j. induction l as [|x l IH]; intros [|i] [|j] Ha Hne Hi Hj; simpl in *; try done.
  - injection Hi as <-. destruct Ha as [Hf _]. rewrite Forall_forall in Hf.
    apply Hf. by eapply list_elem_of_lookup_2.
  - injection Hj as <-. destruct Ha as [Hf _]. rewrite Forall_forall in Hf.
    apply far_sym, Hf. by eapply list_elem_of_lookup_2.
  - destruct Ha as [_ Ha]. apply (IH i j); auto.
Qed.

(** Releases happen before their claim expires. *)
Definition prompt (t : Time) (s : stage) : Prop :=
  match s with Releasing _ _ _ c => t < c + dedup_window | _ => True end.

Section Claims.
Context {P R : Type} `{DatabaseLaws P} `{RedisLaws R}.

(** Until it expires, a claim is in Redis. *)
Definition guarded (now : Time) (st : rstate) (p : publication) : Prop :=
  dedup_key (pb_key p) /\ pb_claimed p <= now /\
  (now < pb_claimed p + dedup_window ->
   exists v x, rs_kv st !! pb_key p = Some (v, Some x) /\ pb_claimed p + dedup_window <= x).
Record claims_ok (e : evaluators P R) : Prop := {
  ck_apart : apart (ev_published e ++ concat (map claim_of (ev_stages e)));
  ck_guarded : Forall (guarded (ev_now e) (contents (ev_redis e)))
                 (ev_published e ++ concat (map claim_of (ev_stages e)))
}.

Lemma guarded_taken now st p :
  guarded now st p -> live now (pb_key p) st = None -> pb_claimed p + dedup_window <= now.
Proof.
  intros (_ & _ & Hg) Hl. destruct (Z.le_gt_cases (pb_claimed p + dedup_window) now); [done|].
  destruct Hg as (v & x & Hk & Hx); [lia|]. unfold live in Hl. rewrite Hk in Hl.
  rewrite (proj2 (Z.ltb_lt _ _)) in Hl by lia. done.
Qed.
(** A claim that is made, or whose answer is lost, affects no claim that still counts. *)
Lemma guarded_put now st p k v x :
  guarded now st p -> live now k st = None -> guarded now (put k v x st) p.
Proof.
  intros Hg Hl. pose proof Hg as (Hd & Hc & Hk). split; [done|]. split; [done|]. intros Hlt.
  destruct (decide (pb_key p = k)) as [<-|Hne].
  - apply (guarded_taken now st p) in Hl; [lia|done].
  - simpl. rewrite lookup_insert_ne by done. by apply Hk.
Qed.
Lemma guarded_same now st st' p :
  (forall k, dedup_key k -> rs_kv st' !! k = rs_kv st !! k) -> guarded now st p -> guarded now st' p.
Proof. intros Hs (Hd & Hc & Hk). split; [done|]. split; [done|]. by rewrite Hs. Qed.

(** What a claim does to Redis, whatever it answers. *)
Lemma try_claim_effect t v ty (r : R) a r' :
  TryClaimAlertDedup Live t v ty r = (a, r') ->
  let k := alert_key v ty in
  (contents r' = contents r /\ a <> Ok true) \/
  (live t k (contents r) = None /\ contents r' = put k (RStr "1") (Some (t + dedup_window)) (contents r)).
Proof.
  simpl. unfold RedisStore_TryClaimAlertDedup, redis_setnx.
  destruct (redis_do Live t _ r) as [[rep|e] r1] eqn:E.
  - apply redis_do_ok in E. simpl in E. destruct (live t (alert_key v ty) (contents r)) eqn:Hl.
    + injection E as <- E. intros [= <- <-]. left. by rewrite <- E.
    + injection E as <- E. intros [= <- <-]. right. by rewrite <- E.
  - intros [= <- <-]. apply redis_do_err in E as [E|[rep E]]; [by left|]. simpl in E.
    destruct (live t (alert_key v ty) (contents r)) eqn:Hl; injection E as _ E; [by left|].
    right. by rewrite <- E.
Qed.
Lemma release_effect t v ty (r : R) :
  let r' := (ReleaseAlertDedup Live t v ty r).2 in
  forall k, k <> alert_key v ty -> rs_kv (contents r') !! k = rs_kv (contents r) !! k.
Proof.
  simpl. unfold RedisStore_ReleaseAlertDedup. intros k Hk.
  pose proof (redis_unit_effect Live t (DEL (alert_key v ty)) r) as He.
  destruct (redis_unit Live t _ r) as [[[]|e] r']; simpl in *;
    (destruct He as [->|[rep E]]; [done|]; injection E as _ <-; simpl; by rewrite lookup_delete_ne).
Qed.
Lemma publish_effect t f payload (r : R) :
  rs_kv (contents (PublishAlert Live t f payload r).2) = rs_kv (contents r).
Proof.
  simpl. unfold RedisStore_PublishAlert.
  destruct (redis_unit_effect Live t (PUBLISH (alerts_channel f) payload) r) as [->|[rep E]]; [done|].
  by injection E as _ <-.
Qed.

(** The account of the claims after one call. *)
Definition all_claims (e : evaluators P R) : list publication :=
  ev_published e ++ concat (map claim_of (ev_stages e)).

Lemma act_claims t s d r s' d' r' pub rest :
  act t s d r = Some (s', (d', r'), pub) -> prompt t s ->
  apart (claim_of s ++ rest) -> Forall (guarded t (contents r)) (claim_of s ++ rest) ->
  apart (pub ++ claim_of s' ++ rest) /\ Forall (guarded t (contents r')) (pub ++ claim_of s' ++ rest).
Proof.
  destruct s as [|msg [|rule rules]|msg rule rules c|msg rule rules c|msg rule rules c|]; try done.
  - intros [= <- <- <- <-] _. done.
  - unfold act. destruct (negb _); [intros [= <- <- <- <-] _; done|].
    destruct (TryClaimAlertDedup Live t (VehicleID msg) (rule_Type rule) r) as [a r1] eqn:E.
    intros Hact _ Ha Hg. simpl in Ha, Hg. apply try_claim_effect in E as [[E Hno]|[Hl E]].
    + assert (Hs : s' = Scanning msg rules /\ r' = r1 /\ pub = [])
        by (destruct a as [[]|]; [done|by injection Hact|by injection Hact]).
      destruct Hs as (-> & -> & ->). by rewrite E.
    + assert (Hg' : Forall (guarded t (contents r1)) rest).
      { eapply Forall_impl; [exact Hg|]. intros p Hp. rewrite E. by apply guarded_put. }
      destruct a as [[]|msg']; injection Hact as <- <- <- <-; simpl; [|done..].
      split; (split; [|done]) || constructor; try done.
      * eapply Forall_impl; [exact Hg|]. intros p Hp Hk. simpl in Hk. pose proof Hp as (_ & Hc & _).
        apply guarded_taken in Hp; [simpl; lia|by rewrite <- Hk].
      * split; [by exists (VehicleID msg), (rule_Type rule)|]. simpl. split; [lia|]. intros _.
        exists (RStr "1"), (t + dedup_window). rewrite E. simpl. by rewrite lookup_insert_eq.
  - unfold act. destruct (InsertAlert _ _ _ _ _ _ _ d) as [[u|x] d1]; by intros [= <- <- <- <-] _.
  - unfold act. pose proof (release_effect t (VehicleID msg) (rule_Type rule) r) as Hr.
    destruct (ReleaseAlertDedup _ _ _ _ r) as [a r1]. intros [= <- <- <- <-] Hp. simpl in *.
    intros [Hf Ha] [(_ & Hct & _) Hg]%Forall_cons. simpl in Hct. split; [done|].
    rewrite Forall_forall in Hf, Hg |- *. intros p Hin. pose proof (Hg p Hin) as (Hd & Hc & Hk).
    split; [done|]. split; [done|]. intros Hlt.
    destruct (decide (pb_key p = alert_key (VehicleID msg) (rule_Type rule))) as [E|Hne].
    + specialize (Hf p Hin). unfold far in Hf. simpl in Hf. specialize (Hf (eq_sym E)). lia.
    + rewrite Hr by done. by apply Hk.
  - unfold act. pose proof (publish_effect t (FleetID msg) (alertPayload msg rule t) r) as Hr.
    destruct (PublishAlert _ _ _ _ r) as [a r1]. intros [= <- <- <- <-] _. simpl in *.
    intros Ha Hg. split; [done|]. eapply Forall_impl; [exact Hg|]. intros p.
    apply guarded_same. by rewrite Hr.
Qed.

Lemma step_claims rules (e e' : evaluators P R) :
  claims_ok e -> ev_step rules prompt e e' -> claims_ok e'.
Proof.
  intros [Ha Hg] Hs. destruct Hs as [i msg q Hi Hq|i s s' d r pub Hi Hp Hact|i Hi Hd|q done t d r Ht Hr].
  - destruct (gather_insert _ _ _ Hi) as [rest Hrest]. destruct (Hrest _ claim_of) as [Eo En].
    specialize (En (Scanning msg rules)). simpl in Eo, En. rewrite <- Eo in En.
    split; simpl; [eapply apart_perm; [|exact Ha]; by rewrite En|by rewrite En].
  - destruct (gather_insert _ _ _ Hi) as [rest Hrest]. destruct (Hrest _ claim_of) as [Eo En].
    assert (Eo' : ev_published e ++ concat (map claim_of (ev_stages e)) ≡ₚ
                  claim_of s ++ (ev_published e ++ concat (map claim_of rest))).
    { rewrite Eo. solve_Permutation. }
    apply (apart_perm _ _ Eo') in Ha. rewrite Eo' in Hg.
    destruct (act_claims _ _ _ _ _ _ _ _ _ Hact Hp Ha Hg) as [Ha' Hg'].
    assert (En' : pub ++ claim_of s' ++ (ev_published e ++ concat (map claim_of rest)) ≡ₚ
                  (ev_published e ++ pub) ++ concat (map claim_of (<[i := s']> (ev_stages e)))).
    { rewrite (En s'). solve_Permutation. }
    split; simpl; [by apply (apart_perm _ _ En')|by rewrite <- En'].
  - destruct (gather_insert _ _ _ Hi) as [rest Hrest]. destruct (Hrest _ claim_of) as [Eo En].
    specialize (En Ended). simpl in Eo, En. rewrite <- Eo in En.
    split; simpl; [eapply apart_perm; [|exact Ha]; by rewrite En|by rewrite En].
  - split; simpl; [done|]. eapply Forall_impl; [exact Hg|]. intros p (Hd & Hc & Hk).
    split; [done|]. split; [lia|]. intros Hlt. rewrite Hr by done. apply Hk. lia.
Qed.

Lemma start_claims workers now (d : P) (r : R) : claims_ok (start_evaluators workers now d r).
Proof.
  assert (E : concat (map claim_of (replicate (Z.to_nat workers) Idle)) = []).
  { induction (Z.to_nat workers) as [|n IH]; [done|exact IH]. }
  split; simpl; by rewrite E.
Qed.

(** C3. Alerts stay deduplicated with any number of evaluators. However their calls
    interleave, with each other, with outages and lost answers of Redis and of the
    database, and with any other client that leaves the deduplication keys alone, two
    alerts of one vehicle and type that are published, or about to be, were claimed at
    least five minutes apart, provided no evaluator is stalled so long between its claim
    and the release after a failed insert that the claim has expired. *)
Theorem claims_exclusive rules (e : evaluators P R) (He : evaluating rules prompt e) :
  forall i j p q, i <> j -> all_claims e !! i = Some p -> all_claims e !! j = Some q ->
    pb_key p = pb_key q -> dedup_window <= Z.abs (pb_claimed p - pb_claimed q).
Proof.
  destruct He as (workers & now & d & r & Hr). intros i j p q Hne Hi Hj.
  eapply apart_lookup; [|exact Hne|exact Hi|exact Hj].
  apply ck_apart. eapply rtc_invariant; [|exact Hr|apply start_claims]. intros e1 e2 Hs Hi1.
  by eapply step_claims.
Qed.
End Claims.

(** ** Schedules *)

(** Evaluator [i] does its next thing at [t]; one that is idle receives a message. *)
Definition drive1 {P R} `{Database P} `{RedisServer R} (rules : list AlertRule)
    (allowed : Time -> stage -> bool) (ti : Time * nat) (e : evaluators P R) : option (evaluators P R) :=
  let '(t, i) := ti in
  s ← ev_stages e !! i;
  if negb (ev_now e <=? t) then None
  else match s with
  | Idle =>
      match ev_chan e with
      | msg :: q => Some (MkEvaluators (<[i := Scanning msg rules]> (ev_stages e)) q (ev_done e) t
                            (ev_db e) (ev_redis e) (ev_published e))
      | [] => None
      end
  | _ =>
      if allowed t s then
        '(s', (d, r), pub) ← act t s (ev_db e) (ev_redis e);
        Some (MkEvaluators (<[i := s']> (ev_stages e)) (ev_chan e) (ev_done e) t d r (ev_published e ++ pub))
      else None
  end.
Definition drive {P R} `{Database P} `{RedisServer R} rules allowed (es : list (Time * nat))
    (e : evaluators P R) : option (evaluators P R) :=
  foldl (fun o ti => e ← o; drive1 rules allowed ti e) (Some e) es.

Section Drive.
Context {P R : Type} `{Database P} `{RedisServer R}.
Context (rules : list AlertRule) (allow : Time -> stage -> Prop) (allowed : Time -> stage -> bool).
Context (Hallow : forall t s, allowed t s = true -> allow t s).

Lemma drive1_steps ti (e e' : evaluators P R) :
  drive1 rules allowed ti e = Some e' -> rtc (ev_step rules allow) e e'.
Proof.
  destruct ti as [t i]. unfold drive1. destruct (ev_stages e !! i) as [s|] eqn:Hi; [|done]. simpl.
  destruct (Z.leb_spec (ev_now e) t) as [Hle|]; [|done]. simpl. intros Hd.
  eapply rtc_l; [apply (ev_world _ _ _ (ev_chan e) (ev_done e) t (ev_db e) (ev_redis e) Hle); done|].
  apply rtc_once. destruct s;
    try (destruct (allowed t _) eqn:Ha; [|done];
         destruct (act t _ _ _) as [[[s' [d r]] pub]|] eqn:Hact; [|done]; simpl in Hd; injection Hd as <-;
         eapply (ev_act _ _ (MkEvaluators _ _ _ _ _ _ _)); simpl; eauto).
  destruct (ev_chan e) as [|msg q] eqn:Hq; [done|]. injection Hd as <-.
  eapply (ev_receive _ _ (MkEvaluators _ _ _ _ _ _ _)); simpl; eauto.
Qed.
Lemma drive_steps es (e e' : evaluators P R) :
  drive rules allowed es e = Some e' -> rtc (ev_step rules allow) e e'.
Proof.
  unfold drive. revert e. induction es as [|ti es IH]; intros e; simpl; [intros [= <-]; apply rtc_refl|].
  destruct (drive1 rules allowed ti e) as [e1|] eqn:E.
  - intros Hr. etrans; [by eapply drive1_steps|auto].
  - intros Hr. exfalso. clear -Hr. induction es as [|ti' es IH]; simpl in Hr; [done|auto].
Qed.
End Drive.

(** ** Examples and witnesses *)
Definition speeding : TelemetryMessage := demo_msg "v1" 120 50.
Definition waiting_evaluators (msgs : list TelemetryMessage) (workers : Z) (out : list bool)
  : evaluators MemDB MemRedis :=
  MkEvaluators (replicate (Z.to_nat workers) Idle) msgs false 0 (MkMemDB empty_db out) empty_redis [].
Definition seconds (l : list (Z * Z)) : list (Time * nat) :=
  map (fun p => (p.1 * Second, Z.to_nat p.2)) l.
Lemma waiting_reachable msgs workers out rules allow :
  rtc (ev_step rules allow) (start_evaluators workers 0 (MkMemDB empty_db out) empty_redis)
    (waiting_evaluators msgs workers out).
Proof.
  apply rtc_once.
  apply (ev_world _ _ (start_evaluators workers 0 (MkMemDB empty_db out) empty_redis) msgs false 0); done.
Qed.
Definition prompt_b (t : Time) (s : stage) : bool :=
  match s with Releasing _ _ _ c => t <? c + dedup_window | _ => true end.
Lemma prompt_b_prompt t s : prompt_b t s = true -> prompt t s.
Proof. destruct s; try done. apply Z.ltb_lt. Qed.

Lemma drive_result rules allowed es (e0 : evaluators MemDB MemRedis) (Q : evaluators MemDB MemRedis -> bool) :
  match drive rules allowed es e0 with Some e => Q e | None => false end = true ->
  exists e, drive rules allowed es e0 = Some e /\ Q e = true.
Proof. destruct (drive rules allowed es e0) as [e|]; [eauto|done]. Qed.
(** What was published, and how many alerts are stored. *)
Definition outcome (pubs : list (string * Z)) (stored : nat) (e : evaluators MemDB MemRedis) : bool :=
  bool_decide (map (fun p => (pb_key p, pb_claimed p)) (ev_published e) =
               map (fun p => (p.1, p.2 * Second)) pubs) &&
  (length (db_alerts (mem_db (ev_db e))) =? stored)%nat.
Definition speeding_key : string := alert_key "v1" AlertSpeeding.

(** A release that comes after its own claim has expired deletes the claim of another: the
    first evaluator's insert fails five minutes late; a second one has claimed meanwhile
    and publishes, and a third claims right after the release: two alerts within five
    seconds, of which the database keeps one. *)
Example stale_release_reopens :
  let es := seconds [(0, 0); (0, 1); (0, 2); (1, 0); (302, 1); (303, 0); (304, 0); (305, 1);
                     (306, 1); (307, 2); (308, 2); (309, 2)] in
  exists e, evaluating DefaultAlertRules (fun _ _ => True) e /\
    outcome [(speeding_key, 302); (speeding_key, 307)] 1 e = true.
Proof.
  intros es.
  destruct (drive_result DefaultAlertRules (fun _ _ => true) es
    (waiting_evaluators [speeding; speeding; speeding] 3 [true])
    (outcome [(speeding_key, 302); (speeding_key, 307)] 1)) as (e & Hd & Ho).
  { vm_compute. reflexivity. }
  exists e. split; [|exact Ho]. exists 3, 0, (MkMemDB empty_db [true]), empty_redis.
  etrans; [apply (waiting_reachable [speeding; speeding; speeding])|].
  by eapply drive_steps; [|exact Hd].
Qed.

(** Two evaluators and three messages of one vehicle: the second message's claim is
    refused, the third comes after five minutes. *)
Lemma claims_exclusive_witness :
  let es := seconds [(0, 0); (0, 1); (1, 0); (2, 1); (3, 0); (4, 0); (5, 0); (6, 0); (7, 0);
                     (302, 1); (302, 0); (303, 0); (304, 0); (305, 0)] in
  exists e p q, evaluating DefaultAlertRules prompt e /\ ev_published e = [p; q] /\
    dedup_window <= Z.abs (pb_claimed p - pb_claimed q).
Proof.
  intros es.
  destruct (drive_result DefaultAlertRules prompt_b es
    (waiting_evaluators [speeding; speeding; speeding] 2 [])
    (outcome [(speeding_key, 1); (speeding_key, 303)] 2)) as (e & Hd & Ho).
  { vm_compute. reflexivity. }
  unfold outcome in Ho. apply andb_true_iff in Ho as [Ho%bool_decide_eq_true _].
  destruct (ev_published e) as [|p [|q [|]]] eqn:Hpub; try discriminate Ho.
  assert (He : evaluating DefaultAlertRules prompt e).
  { exists 2, 0, (MkMemDB empty_db []), empty_redis.
    etrans; [apply (waiting_reachable [speeding; speeding; speeding])|].
    eapply drive_steps; [exact prompt_b_prompt|exact Hd]. }
  exists e, p, q. split; [exact He|]. split; [exact Hpub|].
  apply (claims_exclusive DefaultAlertRules e He 0%nat 1%nat p q);
    [discriminate|unfold all_claims; rewrite Hpub; reflexivity..|].
  injection Ho as H1 _ H2 _. by rewrite H1, H2.
Defined.
