(* ===== verification/IngestHttp.v ===== *)
(** * The HTTP transport of the ingestion service

    [ingestion/internal/transport/http]: the authentication middleware, the
    telemetry and health handlers and the routes. The world of the server is the
    dispatcher, whose metrics include the counter of received messages, and the
    authenticator with its store, through the interface [Validator]. *)
From S2P Require Import Prelude GoNum Strconv Json Redis Domain Rfc3339 Auth Http Dispatcher.
Local Open Scope Z_scope.

(** ** [incomingPayload] *)
Record location := MkLocation { p_Latitude : float64; p_Longitude : float64 }.
Record vehicle_state := MkVehicleState {
  p_SpeedKmh : float64; p_FuelPct : float64; p_EngineTempC : float64;
  p_BatteryVoltage : float64; p_OdometerKm : float64; p_IsMoving : bool; p_EngineOn : bool
}.
Record incomingPayload := MkIncomingPayload {
  p_Timestamp : zoned; p_VehicleID : string; p_FleetID : string;
  p_Location : location; p_VehicleState : vehicle_state
}.
Definition zero_payload : incomingPayload :=
  MkIncomingPayload (UTC zero_time) "" "" (MkLocation f_zero f_zero)
    (MkVehicleState f_zero f_zero f_zero f_zero f_zero false false).

Definition dec_location : decoder location := dec_object [
  ("latitude"%string, dec_float (fun x l => MkLocation x (p_Longitude l)));
  ("longitude"%string, dec_float (fun x l => MkLocation (p_Latitude l) x))
].
Definition dec_vehicle_state : decoder vehicle_state := dec_object [
  ("speed_kmh"%string, dec_float (fun x v => MkVehicleState x (p_FuelPct v) (p_EngineTempC v)
     (p_BatteryVoltage v) (p_OdometerKm v) (p_IsMoving v) (p_EngineOn v)));
  ("fuel_pct"%string, dec_float (fun x v => MkVehicleState (p_SpeedKmh v) x (p_EngineTempC v)
     (p_BatteryVoltage v) (p_OdometerKm v) (p_IsMoving v) (p_EngineOn v)));
  ("engine_temp_celsius"%string, dec_float (fun x v => MkVehicleState (p_SpeedKmh v)
     (p_FuelPct v) x (p_BatteryVoltage v) (p_OdometerKm v) (p_IsMoving v) (p_EngineOn v)));
  ("battery_voltage"%string, dec_float (fun x v => MkVehicleState (p_SpeedKmh v)
     (p_FuelPct v) (p_EngineTempC v) x (p_OdometerKm v) (p_IsMoving v) (p_EngineOn v)));
  ("odometer_km"%string, dec_float (fun x v => MkVehicleState (p_SpeedKmh v)
     (p_FuelPct v) (p_EngineTempC v) (p_BatteryVoltage v) x (p_IsMoving v) (p_EngineOn v)));
  ("is_moving"%string, dec_bool (fun b v => MkVehicleState (p_SpeedKmh v) (p_FuelPct v)
     (p_EngineTempC v) (p_BatteryVoltage v) (p_OdometerKm v) b (p_EngineOn v)));
  ("engine_on"%string, dec_bool (fun b v => MkVehicleState (p_SpeedKmh v) (p_FuelPct v)
     (p_EngineTempC v) (p_BatteryVoltage v) (p_OdometerKm v) (p_IsMoving v) b))
].
Definition dec_payload : decoder incomingPayload := dec_object [
  ("timestamp"%string, dec_time (fun t p =>
     MkIncomingPayload t (p_VehicleID p) (p_FleetID p) (p_Location p) (p_VehicleState p)));
  ("vehicle_id"%string, dec_string (fun s p =>
     MkIncomingPayload (p_Timestamp p) s (p_FleetID p) (p_Location p) (p_VehicleState p)));
  ("fleet_id"%string, dec_string (fun s p =>
     MkIncomingPayload (p_Timestamp p) (p_VehicleID p) s (p_Location p) (p_VehicleState p)));
  ("location"%string, fun j p => l ← dec_location j (p_Location p);
     Some (MkIncomingPayload (p_Timestamp p) (p_VehicleID p) (p_FleetID p) l
             (p_VehicleState p)));
  ("vehicle_state"%string, fun j p => v ← dec_vehicle_state j (p_VehicleState p);
     Some (MkIncomingPayload (p_Timestamp p) (p_VehicleID p) (p_FleetID p) (p_Location p) v))
].

(** [json.Marshal(p)], whose error, a year beyond 9999, is ignored. *)
Definition raw_payload (p : incomingPayload) : string :=
  match format_rfc3339 (p_Timestamp p) with
  | None => ""
  | Some ts =>
      let l := p_Location p in
      let v := p_VehicleState p in
      Marshal (JObj [
        ("timestamp", JStr ts); ("vehicle_id", JStr (p_VehicleID p));
        ("fleet_id", JStr (p_FleetID p));
        ("location", JObj [("latitude", jfloat (p_Latitude l)); ("longitude", jfloat (p_Longitude l))]);
        ("vehicle_state", JObj [
           ("speed_kmh", jfloat (p_SpeedKmh v)); ("fuel_pct", jfloat (p_FuelPct v));
           ("engine_temp_celsius", jfloat (p_EngineTempC v));
           ("battery_voltage", jfloat (p_BatteryVoltage v));
           ("odometer_km", jfloat (p_OdometerKm v));
           ("is_moving", JBool (p_IsMoving v)); ("engine_on", JBool (p_EngineOn v))])])%string
  end.
Definition message_of (now : Time) (p : incomingPayload) : TelemetryMessage :=
  let l := p_Location p in
  let v := p_VehicleState p in
  MkTelemetryMessage now (zt_instant (p_Timestamp p)) (p_VehicleID p) (p_FleetID p)
    (p_Latitude l) (p_Longitude l) (p_SpeedKmh v) (p_FuelPct v) (p_EngineTempC v)
    (p_BatteryVoltage v) (p_OdometerKm v) (p_IsMoving v) (p_EngineOn v) (raw_payload p).

Definition count_received (d : Dispatcher) : Dispatcher :=
  MkDispatcher (ingress d) (ingress_cap d) (DBChan d) (StateChan d) (AlertChan d)
    (run_at d) (ctx_done d) (add_received 1 (d_metrics d)) (admitted d).

Definition error_body (msg : string) : string := Marshal (json_error msg).
Definition unavailable : string := "telemetry pipeline is unavailable; retry the request".

Section Server.
Context {V : Type} `{Validator V}.
Definition world : Type := Dispatcher * V.

(** [Wrap]. *)
Definition AuthMiddleware_Wrap (next : handler world) : handler world := fun _ vs rq '(d, v) =>
  let apiKey := rq_header rq "X-Api-Key" in
  if bool_decide (apiKey = ""%string)
  then (MkResponse StatusUnauthorized (error_body "missing X-API-Key header"), (d, v))
  else
    let '((fleetID, ok), v') := v_FleetID (rq_cx rq) (rq_auth rq) apiKey v in
    if negb ok then (MkResponse StatusUnauthorized (error_body "invalid API key"), (d, v'))
    else next (MkReqctx None (Some fleetID)) vs rq (d, v').
Definition fleetIDFromContext (c : reqctx) : string := default ""%string (ctx_fleet_id c).

(** [TelemetryHandler.Handle]. *)
Definition TelemetryHandler_Handle : handler world := fun c _ rq '(d, v) =>
  match rq_body rq ≫= fun j => dec_payload j zero_payload with
  | None => (MkResponse StatusBadRequest (error_body "invalid json payload"), (d, v))
  | Some p =>
      if bool_decide (p_VehicleID p = ""%string) || bool_decide (p_FleetID p = ""%string)
      then (MkResponse StatusBadRequest (error_body "vehicle_id and fleet_id are required"),
            (d, v))
      else
        let keyFleetID := fleetIDFromContext c in
        if bool_decide (keyFleetID = ""%string) || bool_decide (keyFleetID <> p_FleetID p)
        then (MkResponse StatusForbidden (error_body "API key is not authorized for this fleet"),
              (d, v))
        else
          match Dispatch (message_of (rq_now rq) p) d with
          | (false, d') => (MkResponse StatusServiceUnavailable (error_body unavailable), (d', v))
          | (true, d') =>
              (MkResponse StatusAccepted (Marshal (JObj [("status", JStr "accepted")]%string)),
               (count_received d', v))
          end
  end.

(** ** Health: the answers of the two [Ping]s are parameters. *)
Section Health.
Variables ts_ping redis_ping : context -> res unit.
Definition dependency (name : string) (r : res unit) : string * json :=
  (name, JStr (match r with Ok _ => "healthy" | Err e => "unhealthy" ++ e end)%string).
Definition HealthHandler_Handle : handler world := fun _ _ rq w =>
  let db := ts_ping (rq_cx rq) in
  let redis := redis_ping (rq_cx rq) in
  let healthy := is_ok db && is_ok redis in
  let deps := json_map [dependency "timescaledb" db; dependency "redis" redis] in
  let body := JObj [
    ("status", JStr (if healthy then "healthy" else "degraded"));
    ("service", JStr "ingestion");
    ("timestamp", jopt JStr (format_rfc3339 (UTC (rq_now rq))));
    ("dependencies", deps)]%string in
  (encode_body (if healthy then StatusOK else StatusServiceUnavailable) body, w).

Definition metrics_handler : handler world := fun _ _ _ '(d, v) =>
  (MkResponse StatusOK (HandleMetrics (d_metrics d)), (d, v)).

(** The routes of [NewServer]. *)
Definition routes : list (pattern * handler world) := [
  (("POST", [Lit "api"; Lit "v1"; Lit "telemetry"]), AuthMiddleware_Wrap TelemetryHandler_Handle);
  (("GET", [Lit "health"]), HealthHandler_Handle);
  (("GET", [Lit "metrics"]), metrics_handler)
]%string.
Definition ServeHTTP (rq : request) : M world response := serve routes rq.
End Health.
End Server.
#[global] Arguments TelemetryHandler_Handle : simpl never.

(** ** Properties *)
Definition telemetry_path : list string := ["api"; "v1"; "telemetry"]%string.
Definition decoded (rq : request) : option incomingPayload :=
  rq_body rq ≫= fun j => dec_payload j zero_payload.
Definition api_key (rq : request) : string := rq_header rq "X-Api-Key".

Lemma Dispatch_admitted m d :
  let '(b, d') := Dispatch m d in
  admitted d' = (if b then admitted d ++ [m] else admitted d) /\
  MessagesReceived (d_metrics d') = MessagesReceived (d_metrics d).
Proof.
  unfold Dispatch. destruct (chan_try_send _ m (ingress d)) as [[] q]; [done|].
  destruct (ingress_cap d), (run_at d); done.
Qed.

(** What the handler answers, by the first check that fails. *)
Definition telemetry_status (fleet : string) (rq : request) (d : Dispatcher) : Z :=
  match decoded rq with
  | None => StatusBadRequest
  | Some p =>
      if bool_decide (p_VehicleID p = ""%string \/ p_FleetID p = ""%string) then StatusBadRequest
      else if bool_decide (fleet = ""%string \/ fleet <> p_FleetID p) then StatusForbidden
      else if (Dispatch (message_of (rq_now rq) p) d).1 then StatusAccepted
      else StatusServiceUnavailable
  end.

Lemma Handle_spec {V} `{Validator V} c vs rq d (v : V) :
  let '(resp, (d', v')) := TelemetryHandler_Handle c vs rq (d, v) in
  rs_status resp = telemetry_status (fleetIDFromContext c) rq d /\ v' = v /\
  if bool_decide (rs_status resp = StatusAccepted)
  then exists p, decoded rq = Some p /\ p_VehicleID p <> ""%string /\ p_FleetID p <> ""%string /\
    fleetIDFromContext c = p_FleetID p /\
    admitted d' = admitted d ++ [message_of (rq_now rq) p] /\
    MessagesReceived (d_metrics d') = wrap64 (MessagesReceived (d_metrics d) + 1)
  else admitted d' = admitted d /\ MessagesReceived (d_metrics d') = MessagesReceived (d_metrics d).
Proof.
  unfold TelemetryHandler_Handle, telemetry_status, decoded.
  destruct (rq_body rq ≫= _) as [p|]; [|done]. rewrite bool_decide_or.
  destruct (bool_decide (p_VehicleID p = _)) eqn:Ev; [done|].
  destruct (bool_decide (p_FleetID p = _)) eqn:Ef; [done|]. simpl orb. cbv iota.
  apply bool_decide_eq_false in Ev, Ef. rewrite bool_decide_or.
  destruct (bool_decide (fleetIDFromContext c = _)) eqn:E0; [done|].
  destruct (bool_decide (fleetIDFromContext c <> _)) eqn:E1; [done|]. simpl orb. cbv iota.
  apply bool_decide_eq_false, dec_stable in E1.
  pose proof (Dispatch_admitted (message_of (rq_now rq) p) d) as Hd.
  destruct (Dispatch _ d) as [[] d']; destruct Hd as [Ha Hm]; (split; [done|]; split; [done|]).
  - rewrite bool_decide_true by done. exists p. split_and!; try done. simpl. by rewrite Hm.
  - rewrite bool_decide_false by done. done.
Qed.

(** What a request can do to the dispatcher: nothing, or one call of [Dispatch], whose
    success is counted. *)
Lemma serve_dispatches {V} `{Validator V} ts_ping redis_ping rq d (v : V) :
  let d' := (ServeHTTP ts_ping redis_ping rq (d, v)).2.1 in
  d' = d \/ exists m, d' = (Dispatch m d).2 \/ d' = count_received (Dispatch m d).2.
Proof.
  unfold ServeHTTP, serve. destruct (find_route _ rq) as [[h vs]|] eqn:Hr; [|by left].
  apply find_route_in in Hr as (m & ps & Hin & _). unfold routes in Hin.
  rewrite !elem_of_cons, elem_of_nil in Hin.
  destruct Hin as [[= _ _ ->]|[[= _ _ ->]|[[= _ _ ->]|[]]]]; [|by left..].
  unfold AuthMiddleware_Wrap. destruct (bool_decide _); [by left|].
  destruct (v_FleetID _ _ _ v) as [[f ok] v']. destruct (negb ok); [by left|].
  unfold TelemetryHandler_Handle. destruct (rq_body rq ≫= _) as [p|]; [|by left].
  destruct (_ || _); [by left|]. destruct (_ || _); [by left|]. right.
  exists (message_of (rq_now rq) p). destruct (Dispatch _ d) as [[] d']; auto.
Qed.
(** And which message is admitted, for whom. *)
Lemma serve_admits {V} `{Validator V} ts_ping redis_ping rq d (v : V) :
  let '(resp, (d', _)) := ServeHTTP ts_ping redis_ping rq (d, v) in
  (admitted d' = admitted d /\ MessagesReceived (d_metrics d') = MessagesReceived (d_metrics d)) \/
  (rq_method rq = "POST"%string /\ rq_path rq = telemetry_path /\ rs_status resp = StatusAccepted /\
   exists p, decoded rq = Some p /\ p_VehicleID p <> ""%string /\ p_FleetID p <> ""%string /\
     api_key rq <> ""%string /\
     (v_FleetID (rq_cx rq) (rq_auth rq) (api_key rq) v).1 = (p_FleetID p, true) /\
     admitted d' = admitted d ++ [message_of (rq_now rq) p] /\
     MessagesReceived (d_metrics d') = wrap64 (MessagesReceived (d_metrics d) + 1)).
Proof.
  unfold ServeHTTP, serve. destruct (find_route _ rq) as [[h vs]|] eqn:Hr; [|by left].
  unfold routes in Hr. simpl in Hr. unfold match_method in Hr.
  destruct (bool_decide (rq_method rq = "POST"%string)) eqn:Hm; simpl in Hr.
  - apply bool_decide_eq_true in Hm. rewrite Hm in Hr.
    destruct (rq_path rq) as [|s1 [|s2 [|s3 [|]]]] eqn:Hp; simpl in Hr; repeat case_bool_decide;
      try done; simpl in Hr; simplify_eq.
    unfold AuthMiddleware_Wrap. fold (api_key rq).
    destruct (bool_decide (api_key rq = "")%string) eqn:Hk; [by left|].
    apply bool_decide_eq_false in Hk.
    destruct (v_FleetID _ _ (api_key rq) v) as [[f ok] v']. destruct ok; cbn [negb]; [|by left].
    pose proof (Handle_spec (MkReqctx None (Some f)) [] rq d v') as Hh.
    destruct (TelemetryHandler_Handle _ _ rq (d, v')) as [resp [d' v'']].
    destruct Hh as (_ & _ & Hh). case_bool_decide; [right|by left].
    destruct Hh as (p & ? & ? & ? & Hf & ? & ?). change (f = p_FleetID p) in Hf. subst f.
    split_and!; try done. by exists p.
  - assert (Hh : h = HealthHandler_Handle ts_ping redis_ping \/ h = metrics_handler)
      by (clear -Hr; repeat case_match; simplify_eq; auto).
    destruct Hh as [-> | ->]; by left.
Qed.

(** C1. Only authenticated telemetry of the key's own fleet enters the pipeline.
    Whatever the request, either no message is admitted and none is counted, or the
    request was a POST of a decodable payload with both identifiers, its API key was
    accepted for exactly the payload's fleet, the answer is 202, and that one message
    was admitted and counted. *)
Theorem telemetry_tenant_safety {V} `{Validator V} ts_ping redis_ping rq d (v : V) :
  let '(resp, (d', _)) := ServeHTTP ts_ping redis_ping rq (d, v) in
  (admitted d' = admitted d /\ MessagesReceived (d_metrics d') = MessagesReceived (d_metrics d)) \/
  (rq_method rq = "POST"%string /\ rq_path rq = telemetry_path /\ rs_status resp = StatusAccepted /\
   exists p, decoded rq = Some p /\ p_VehicleID p <> ""%string /\ p_FleetID p <> ""%string /\
     api_key rq <> ""%string /\
     (v_FleetID (rq_cx rq) (rq_auth rq) (api_key rq) v).1 = (p_FleetID p, true) /\
     admitted d' = admitted d ++ [message_of (rq_now rq) p] /\
     MessagesReceived (d_metrics d') = wrap64 (MessagesReceived (d_metrics d) + 1)).
Proof. apply serve_admits. Qed.

(** C38. The answer to telemetry is decided by the first failing check: 401 without a
    key or with an unknown one, 400 for a body that does not decode or lacks an
    identifier, 403 when the key has no fleet or another one, 503 when the ingress
    queue is full, and 202 otherwise. *)
Theorem telemetry_answer {V} `{Validator V} ts_ping redis_ping rq d (v : V) :
  rq_method rq = "POST"%string -> rq_path rq = telemetry_path ->
  rs_status (ServeHTTP ts_ping redis_ping rq (d, v)).1 =
  if bool_decide (api_key rq = ""%string) then StatusUnauthorized
  else match (v_FleetID (rq_cx rq) (rq_auth rq) (api_key rq) v).1 with
       | (_, false) => StatusUnauthorized
       | (fleet, true) => telemetry_status fleet rq d
       end.
Proof.
  intros Hm Hp. unfold ServeHTTP, serve, routes, find_route, match_method. rewrite Hm, Hp. simpl.
  unfold AuthMiddleware_Wrap. fold (api_key rq). case_bool_decide; [done|].
  destruct (v_FleetID _ _ (api_key rq) v) as [[f []] v']; [|done].
  cbn [negb fst]. pose proof (Handle_spec (MkReqctx None (Some f)) [] rq d v') as Hh.
  destruct (TelemetryHandler_Handle _ _ rq (d, v')) as [resp [d' v'']].
  exact (proj1 Hh).
Qed.

(** The health endpoint answers 200 exactly when both dependencies answer their
    ping, 503 otherwise, and changes nothing. *)
Theorem health_answer {V} `{Validator V} ts_ping redis_ping rq d (v : V) :
  rq_method rq = "GET"%string -> rq_path rq = ["health"%string] ->
  let '(resp, w') := ServeHTTP ts_ping redis_ping rq (d, v) in
  w' = (d, v) /\
  (rs_status resp = StatusOK <->
   is_ok (ts_ping (rq_cx rq)) = true /\ is_ok (redis_ping (rq_cx rq)) = true) /\
  (rs_status resp = StatusOK \/ rs_status resp = StatusServiceUnavailable).
Proof.
  intros Hm Hp. unfold ServeHTTP, serve, routes, find_route, match_method. rewrite Hm, Hp. simpl.
  split; [done|]. unfold HealthHandler_Handle, encode_body. cbn [rs_status].
  destruct (is_ok (ts_ping _)), (is_ok (redis_ping _)); simpl;
    (split; [split; [done|by intros [? ?]]|auto]).
Qed.

(** ** Witnesses *)
#[export] Instance demo_validator : Validator unit := {|
  v_FleetID := fun _ _ k v =>
    (if bool_decide (k = "key-a"%string) then ("fleet-a"%string, true) else (""%string, false), v)
|}.
Definition demo_request (method : string) (path : list string) (key : string) (body : option json)
  : request :=
  MkRequest method path [] (fun h => if bool_decide (h = "X-Api-Key"%string) then key else ""%string)
    body Live (at_once 0) 0 id.
Definition demo_body (vehicle fleet : string) : json := JObj [
  ("vehicle_id", JStr vehicle); ("Fleet_ID", JStr fleet);
  ("timestamp", JStr "2024-01-01T00:00:00Z");
  ("location", JObj [("latitude", JNum "28.6"); ("unknown", JNull)])]%string.
Definition demo_disp : Dispatcher := default demo_dispatcher (NewDispatcher 1 1 1).

Lemma telemetry_answer_witness :
  let post key body := demo_request "POST" telemetry_path key body in
  let answer rq d := rs_status (ServeHTTP (fun _ => Ok tt) (fun _ => Ok tt) rq (d, tt)).1 in
  let full := (Dispatch (message_of 0 zero_payload) demo_disp).2 in
  (forall key body d, answer (post key body) d =
     if bool_decide (key = ""%string) then StatusUnauthorized
     else match (v_FleetID Live (at_once 0) key tt).1 with
          | (_, false) => StatusUnauthorized
          | (fleet, true) => telemetry_status fleet (post key body) d
          end) /\
  map (fun '(key, body, d) => answer (post key body) d)
    [("", None, demo_disp); ("key-b", None, demo_disp); ("key-a", None, demo_disp);
     ("key-a", Some (demo_body "" "fleet-a"), demo_disp);
     ("key-a", Some (demo_body "v1" "fleet-b"), demo_disp);
     ("key-a", Some (demo_body "v1" "fleet-a"), demo_disp);
     ("key-a", Some (demo_body "v1" "fleet-a"), full)]%string
  = [401; 401; 400; 400; 403; 202; 503].
Proof.
  split; [|vm_compute; reflexivity]. intros key body d.
  exact (telemetry_answer (fun _ => Ok tt) (fun _ => Ok tt)
           (demo_request "POST" telemetry_path key body) d tt eq_refl eq_refl).
Defined.

Lemma health_answer_witness :
  let rq := demo_request "GET" ["health"%string] "" None in
  let '(resp, w') := ServeHTTP (fun _ => Ok tt) (fun _ => Err "timeout") rq (demo_disp, tt) in
  w' = (demo_disp, tt) /\ rs_status resp = StatusServiceUnavailable.
Proof.
  split; [|vm_compute; reflexivity].
  apply (health_answer (fun _ => Ok tt) (fun _ => Err "timeout"%string)
           (demo_request "GET" ["health"%string] "" None) demo_disp tt); reflexivity.
Defined.

(** A payload whose vehicle identifier holds a NUL character is accepted like any
    other, although the database cannot store it. *)
Example nul_identifier_accepted :
  let nul := String (Ascii.ascii_of_nat 0) "" in
  let rq := demo_request "POST" telemetry_path "key-a" (Some (demo_body nul "fleet-a")) in
  let '(resp, (d', _)) := ServeHTTP (fun _ => Ok tt) (fun _ => Ok tt) rq (demo_disp, tt) in
  rs_status resp = StatusAccepted /\ map VehicleID (ingress d') = [nul].
Proof. vm_compute. done. Qed.
