(* ===== verification/Messages.v ===== *)
(** * What a decoded message holds, and what is written of it

    The floats of a message are the ones [json.Decode] read from the body of a request, so
    they are finite floats of the format; the texts the service publishes of it are JSON,
    and read back, number by number, as what they were written for. *)
From S2P Require Import Prelude GoNum Strconv Json JsonParse JsonNumbers FloatText Redis Domain Rfc3339 RedisStore Auth Http Tables Timescale Dispatcher StateWriters AlertEvaluator Evaluators IngestHttp.
Local Open Scope Z_scope.

(** ** What a device can send *)

(** Decoding an object keeps what each of its fields' decoders keeps. *)
Definition keeps {A} (I : A -> Prop) (d : decoder A) : Prop :=
  forall n j a a', fits n j -> I a -> d j a = Some a' -> I a'.
Lemma keeps_object {A} (I : A -> Prop) (fields : list (string * decoder A)) :
  Forall (fun f => keeps I f.2) fields -> keeps I (dec_object fields).
Proof.
  intros Hf n j a a' Hj Ha. destruct Hj as [| | | | |n ms Hms]; simpl; try done; [by intros [= <-]|].
  revert a Ha. induction Hms as [|[k v] ms Hv Hms IH]; intros a Ha; simpl; [by intros [= <-]|].
  destruct (List.find _ fields) as [[f d]|] eqn:E; [|by apply IH].
  destruct (d v a) as [b|] eqn:Ed.
  - apply IH. apply List.find_some in E as [Hin _]. rewrite Forall_forall in Hf.
    by eapply (Hf (f, d)); [apply list_elem_of_In| | |].
  - clear. induction ms as [|m ms IH]; [done|exact IH].
Qed.
Lemma keeps_float {A} (I : A -> Prop) (set : float64 -> A -> A) :
  (forall x a, f_ok x -> I a -> I (set x a)) -> keeps I (dec_float set).
Proof.
  intros Hs n j a a' Hj Ha. destruct Hj as [| |n lit Hn| | |]; simpl; try done; [by intros [= <-]|].
  destruct (ParseFloat lit) as [x [|]] eqn:E; [|done]. intros [= <-].
  apply Hs; [|done]. by eapply ParseFloat_number.
Qed.
(** A decoder that never changes what [I] speaks of. *)
Lemma keeps_bool {A} (I : A -> Prop) (set : bool -> A -> A) :
  (forall b a, I a -> I (set b a)) -> keeps I (dec_bool set).
Proof. intros Hs n [] a a' _ Ha; simpl; try done; intros [= <-]; auto. Qed.
Lemma keeps_string {A} (I : A -> Prop) (set : string -> A -> A) :
  (forall b a, I a -> I (set b a)) -> keeps I (dec_string set).
Proof. intros Hs n [] a a' _ Ha; simpl; try done; intros [= <-]; auto. Qed.
Lemma keeps_time {A} (I : A -> Prop) (set : zoned -> A -> A) :
  (forall b a, I a -> I (set b a)) -> keeps I (dec_time set).
Proof.
  intros Hs n [] a a' _ Ha; simpl; try done; [by intros [= <-]|].
  destruct (parse_rfc3339 _); [|done]. intros [= <-]. auto.
Qed.

Definition location_ok (l : location) : Prop := f_ok (p_Latitude l) /\ f_ok (p_Longitude l).
Definition vehicle_ok (v : vehicle_state) : Prop :=
  f_ok (p_SpeedKmh v) /\ f_ok (p_FuelPct v) /\ f_ok (p_EngineTempC v) /\ f_ok (p_BatteryVoltage v).
Definition payload_ok (p : incomingPayload) : Prop :=
  location_ok (p_Location p) /\ vehicle_ok (p_VehicleState p).
Lemma keeps_location : keeps location_ok dec_location.
Proof.
  apply keeps_object. repeat (apply Forall_cons_2; [apply keeps_float; unfold location_ok; simpl; tauto|]).
  apply Forall_nil_2.
Qed.
Lemma keeps_vehicle_state : keeps vehicle_ok dec_vehicle_state.
Proof.
  apply keeps_object.
  repeat (apply Forall_cons_2; [(apply keeps_float || apply keeps_bool); unfold vehicle_ok; simpl; tauto|]).
  apply Forall_nil_2.
Qed.
Lemma keeps_payload : keeps payload_ok dec_payload.
Proof.
  apply keeps_object. repeat apply Forall_cons_2; [..|apply Forall_nil_2]; cbn [snd].
  - by apply keeps_time.
  - by apply keeps_string.
  - by apply keeps_string.
  - intros n j p p' Hj [Hl Hv]. destruct (dec_location j _) as [l|] eqn:E; [|done]. intros [= <-].
    split; [by eapply keeps_location|done].
  - intros n j p p' Hj [Hl Hv]. destruct (dec_vehicle_state j _) as [v|] eqn:E; [|done]. intros [= <-].
    split; [done|by eapply keeps_vehicle_state].
Qed.

(** The floats of a message can be written, and what is written can be read. *)
Definition message_ok (m : msg) : Prop :=
  Forall f_ok [Latitude m; Longitude m; SpeedKmh m; FuelPct m; EngineTempC m; BatteryVoltage m].
Lemma message_of_ok now body p :
  Decode body ≫= (fun j => dec_payload j zero_payload) = Some p -> message_ok (message_of now p).
Proof.
  destruct (Decode body) as [j|] eqn:E; [|done]. simpl. intros Hp. apply Decode_fits in E.
  assert (Hz : payload_ok zero_payload) by (repeat split; apply f_ok_zero).
  destruct (keeps_payload _ _ _ _ E Hz Hp) as [[? ?] (? & ? & ? & ?)]. 
  repeat (apply Forall_cons_2; [done|]). apply Forall_nil_2.
Qed.
(** So [PipelineStateUpdates] never fails to marshal what a device sent. *)
Lemma message_ok_marshals m : message_ok m -> state_marshals m = true.
Proof.
  intros Hm. unfold state_marshals. apply forallb_forall. intros x Hx%list_elem_of_In.
  unfold message_ok in Hm. rewrite Forall_forall in Hm. by destruct (Hm x Hx).
Qed.

(** ** The texts on the channels *)
Lemma fits_jfloat n x : f_ok x -> fits n (jfloat x).
Proof. intros Hx. constructor. by apply number_json_float. Qed.
Lemma fits_jint n z : fits n (jint z).
Proof. constructor. apply number_FormatInt. Qed.
Lemma fits_json_map n fields : Forall (fun p => fits n p.2) fields -> fits (S n) (json_map fields).
Proof.
  intros Hf. destruct (json_map_perm fields) as (fs & -> & Hp). constructor. by rewrite Hp.
Qed.
Lemma depth_positive : exists n, maxNestingDepth = S n.
Proof. unfold maxNestingDepth. exists (Z.to_nat 9999). lia. Qed.
Lemma state_text_read m : message_ok m -> Unmarshal (Marshal (state_json m)) = Some (state_json m).
Proof.
  intros Hm. apply Unmarshal_Marshal. destruct depth_positive as [n ->]. apply fits_json_map.
  unfold message_ok in Hm. rewrite !Forall_cons in Hm.
  destruct Hm as (? & ? & ? & ? & ? & ? & _).
  repeat (apply Forall_cons_2; [cbn [snd]; first [by apply fits_jfloat|apply fits_jint|constructor]|]).
  apply Forall_nil_2.
Qed.
Lemma trigger_ok m t : message_ok m -> f_ok (getTriggerValue m t).
Proof.
  unfold message_ok. rewrite !Forall_cons. intros (? & ? & ? & ? & ? & ? & _). unfold getTriggerValue.
  repeat (destruct (bool_decide _); [done|]). apply f_ok_zero.
Qed.
Lemma alert_text_read m rule now :
  message_ok m -> Unmarshal (alertPayload m rule now) = Some (alert_json m rule now).
Proof.
  intros Hm. pose proof (trigger_ok m (rule_Type rule) Hm) as Ht. unfold alertPayload.
  rewrite (proj1 Ht). apply Unmarshal_Marshal. destruct depth_positive as [n ->]. apply fits_json_map.
  repeat (apply Forall_cons_2; [cbn [snd]; first [by apply fits_jfloat|apply fits_jint|constructor]|]).
  apply Forall_nil_2.
Qed.
