(* ===== verification/Middleware.v ===== *)
(** * [serving/internal/middleware/auth.go] and the small handlers of [serving/main.go]

    [Auth] checks the API key and puts the key and its fleet in the request context;
    [FleetScoped] compares the fleet a request names with the key's. *)
From S2P Require Import Prelude GoNum Strconv Json Redis Domain Auth Http.
Local Open Scope Z_scope.

Definition writeError {W} (status : Z) (msg : string) : M W response :=
  retM (encode_body status (json_error msg)).

Definition APIKeyFromContext (c : reqctx) : string := default ""%string (ctx_api_key c).
Definition FleetIDFromContext (c : reqctx) : string := default ""%string (ctx_fleet_id c).

Section Middleware.
(** The world of the serving handlers: the validator and whatever they work on. *)
Context {V D : Type} `{Validator V}.

Definition Auth (next : handler (V * D)) : handler (V * D) := fun c vs rq '(v, d) =>
  let apiKey := rq_header rq "X-Api-Key" in
  if bool_decide (apiKey = ""%string)
  then writeError StatusUnauthorized "missing X-API-Key header" (v, d)
  else
    let '((fleetID, ok), v') := v_FleetID (rq_cx rq) (rq_auth rq) apiKey v in
    if negb ok then writeError StatusUnauthorized "invalid API key" (v', d)
    else next (MkReqctx (Some apiKey) (Some fleetID)) vs rq (v', d).

Definition requestedFleet (param : string) (vs : list (string * string)) (rq : request) : string :=
  let q := query_get param (rq_query rq) in
  if bool_decide (q = ""%string) then path_value param vs else q.
Definition FleetScoped (fleetIDParam : string) (next : handler (V * D)) : handler (V * D) :=
  fun c vs rq w =>
    let requested := requestedFleet fleetIDParam vs rq in
    if bool_decide (requested = ""%string)
    then writeError StatusBadRequest (fleetIDParam ++ " is required") w
    else
      let keyFleet := FleetIDFromContext c in
      if bool_decide (keyFleet = ""%string) || bool_decide (keyFleet <> requested)
      then writeError StatusForbidden ("API key is not authorised for fleet " ++ requested) w
      else next c vs rq w.

(** A handler that does not use the validator. *)
Definition lift_handler (h : handler D) : handler (V * D) := fun c vs rq '(v, d) =>
  let '(resp, d') := h c vs rq d in (resp, (v, d')).

Definition whoamiHandler : handler (V * D) := fun c _ _ =>
  let fleetID := FleetIDFromContext c in
  let keySource := if bool_decide (fleetID = ""%string) then "static_config" else "redis" in
  retM (encode_body StatusOK (json_map [
    ("api_key", JStr (APIKeyFromContext c)); ("fleet_id", JStr fleetID);
    ("key_source", JStr keySource); ("message", JStr "auth passed")]%string)).

Definition fleetPingHandler : handler (V * D) := fun _ vs _ =>
  retM (encode_body StatusOK (json_map [
    ("fleet_id", JStr (path_value "fleet_id" vs));
    ("message", JStr "fleet access authorised")]%string)).
End Middleware.

(** ** Properties *)

(** The authentication middleware runs the handler only for a key the validator
    accepts, and hands it that key and exactly the fleet the validator gave; any
    other request is answered 401 and changes nothing but the validator. *)
Theorem Auth_guards {V D} `{Validator V} (next : handler (V * D)) c vs rq (v : V) (d : D) :
  let key := rq_header rq "X-Api-Key" in
  (exists fleet v', key <> ""%string /\
     v_FleetID (rq_cx rq) (rq_auth rq) key v = ((fleet, true), v') /\
     Auth next c vs rq (v, d) = next (MkReqctx (Some key) (Some fleet)) vs rq (v', d)) \/
  (exists v', rs_status (Auth next c vs rq (v, d)).1 = StatusUnauthorized /\
     (Auth next c vs rq (v, d)).2 = (v', d) /\
     (key = ""%string \/ (v_FleetID (rq_cx rq) (rq_auth rq) key v).1.2 = false)).
Proof.
  simpl. unfold Auth. case_bool_decide as Hk.
  - right. exists v. by split_and!; [..|left].
  - destruct (v_FleetID _ _ _ v) as [[f []] v'] eqn:E; simpl.
    + left. exists f, v'. by split_and!.
    + right. exists v'. by split_and!; [..|right].
Qed.

(** Fleet scoping. Behind the authentication middleware, the handler runs only if
    the fleet the request names, its query parameter or else its path value, is
    non-empty and is the fleet of the key; so a static key, which has no fleet, never
    passes. Otherwise the answer is 400, 401 or 403 and the data is untouched. *)
Theorem FleetScoped_guards {V D} `{Validator V} param (next : handler (V * D)) c vs rq (v : V)
    (d : D) :
  let out := Auth (FleetScoped param next) c vs rq (v, d) in
  (exists fleet v', fleet <> ""%string /\ requestedFleet param vs rq = fleet /\
     v_FleetID (rq_cx rq) (rq_auth rq) (rq_header rq "X-Api-Key") v = ((fleet, true), v') /\
     out = next (MkReqctx (Some (rq_header rq "X-Api-Key")) (Some fleet)) vs rq (v', d)) \/
  (rs_status out.1 ∈ [StatusBadRequest; StatusUnauthorized; StatusForbidden] /\ out.2.2 = d).
Proof.
  simpl. unfold Auth, FleetScoped. case_bool_decide as Hk; [right; by split; [right; left|]|].
  destruct (v_FleetID _ _ _ v) as [[f []] v'] eqn:E; simpl negb; cbv iota;
    [|right; by split; [right; left|]].
  case_bool_decide as Hr; [right; by split; [left|]|].
  cbn [FleetIDFromContext ctx_fleet_id default].
  destruct (decide (f = requestedFleet param vs rq)) as [->|Hne].
  - left. exists (requestedFleet param vs rq), v'. split_and!; try done.
    unfold FleetIDFromContext. simpl. rewrite bool_decide_false by done.
    by rewrite bool_decide_false by tauto.
  - right. unfold FleetIDFromContext. simpl. rewrite (bool_decide_true (f <> _)) by done.
    rewrite orb_true_r. split; [by right; right; left|done].
Qed.
