(* ===== verification/Events.v ===== *)
(** * The WebSocket events: [serving/internal/ws/events.go] and the broadcast queue

    Payloads and their JSON, the decoders of [drainTelemetry] and [drainAlerts], and
    the bounded queue through which the jobs and handlers hand events to the hub
    ([broadcastEvent] of [hub.go]). Times are in UTC. *)
From S2P Require Import Prelude GoNum Strconv Json JsonParse FloatText Redis Domain Rfc3339 RedisStore Auth Http AlertEvaluator IngestHttp Messages.
Local Open Scope Z_scope.

Record VehiclePositionPayload := MkVehiclePositionPayload {
  vp_VehicleID : string; vp_Lat : float64; vp_Lng : float64; vp_SpeedKmh : float64;
  vp_IsMoving : bool; vp_EngineOn : bool; vp_ReceivedAt : Time
}.
Record VehicleAlertPayload := MkVehicleAlertPayload {
  va_AlertID : Z; va_VehicleID : string; va_AlertType : string; va_Severity : string;
  va_TriggeredValue : float64; va_CreatedAt : Time
}.
Record VehicleDeviationPayload := MkVehicleDeviationPayload {
  vd_VehicleID : string; vd_TripID : string; vd_DeviationKm : float64
}.
Record StopArrivedPayload := MkStopArrivedPayload {
  sa_VehicleID : string; sa_TripID : string; sa_StopID : string; sa_StopName : string;
  sa_ArrivedAt : Time
}.

(** [envelope]: the type and the payload. *)
Inductive envelope :=
| PositionEvent (p : VehiclePositionPayload)
| AlertEvent (p : VehicleAlertPayload)
| OfflineEvent (vehicleID : string) (lastSeenAt : Time)
| OnlineEvent (vehicleID : string)
| DeviationEvent (p : VehicleDeviationPayload)
| StopArrivedEvent (p : StopArrivedPayload)
| AlertResolvedEvent (alertID : Z) (vehicleID : string) (resolvedAt : Time)
| PingEvent.

Definition EventType (e : envelope) : string :=
  match e with
  | PositionEvent _ => "vehicle.position"
  | AlertEvent _ => "vehicle.alert"
  | OfflineEvent _ _ => "vehicle.offline"
  | OnlineEvent _ => "vehicle.online"
  | DeviationEvent _ => "vehicle.deviation"
  | StopArrivedEvent _ => "vehicle.stop_arrived"
  | AlertResolvedEvent _ _ _ => "vehicle.alert_resolved"
  | PingEvent => "ping"
  end.

(** [json.Marshal] of parts that may fail: a float that is not finite, a year beyond
    9999. *)
Definition mfloat (x : float64) : option json := if is_finite x then Some (jfloat x) else None.
Definition mtime (t : Time) : option json := JStr <$> format_rfc3339 (UTC t).
Definition payload_json (e : envelope) : option (list (string * json)) :=
  match e with
  | PositionEvent p =>
      lat ← mfloat (vp_Lat p); lng ← mfloat (vp_Lng p); sp ← mfloat (vp_SpeedKmh p);
      t ← mtime (vp_ReceivedAt p);
      Some [("vehicle_id", JStr (vp_VehicleID p)); ("lat", lat); ("lng", lng);
            ("speed_kmh", sp); ("is_moving", JBool (vp_IsMoving p));
            ("engine_on", JBool (vp_EngineOn p)); ("received_at", t)]%string
  | AlertEvent p =>
      v ← mfloat (va_TriggeredValue p); t ← mtime (va_CreatedAt p);
      Some [("alert_id", jint (va_AlertID p)); ("vehicle_id", JStr (va_VehicleID p));
            ("alert_type", JStr (va_AlertType p)); ("severity", JStr (va_Severity p));
            ("triggered_value", v); ("created_at", t)]%string
  | OfflineEvent v at_ => t ← mtime at_; Some [("vehicle_id", JStr v); ("last_seen_at", t)]%string
  | OnlineEvent v => Some [("vehicle_id", JStr v)]%string
  | DeviationEvent p =>
      km ← mfloat (vd_DeviationKm p);
      Some [("vehicle_id", JStr (vd_VehicleID p)); ("trip_id", JStr (vd_TripID p));
            ("deviation_km", km)]%string
  | StopArrivedEvent p =>
      t ← mtime (sa_ArrivedAt p);
      Some [("vehicle_id", JStr (sa_VehicleID p)); ("trip_id", JStr (sa_TripID p));
            ("stop_id", JStr (sa_StopID p)); ("stop_name", JStr (sa_StopName p));
            ("arrived_at", t)]%string
  | AlertResolvedEvent i v at_ =>
      t ← mtime at_;
      Some [("alert_id", jint i); ("vehicle_id", JStr v); ("resolved_at", t)]%string
  | PingEvent => Some []
  end.
(** A nil payload is omitted. *)
Definition marshal_event (e : envelope) : option string :=
  fs ← payload_json e;
  Some (Marshal (JObj (match e with
    | PingEvent => [("type", JStr (EventType e))]
    | _ => [("type", JStr (EventType e)); ("payload", JObj fs)]
    end)%string)).

(** ** The broadcast queue *)
Record broadcastMsg := MkBroadcastMsg { bm_fleetID : string; bm_data : string }.
Definition broadcast_cap : nat := 1024.
(** [broadcastEvent]: an event that does not marshal, or finds the queue full, is
    dropped. *)
Definition broadcastEvent (fleetID : string) (evt : envelope) (q : list broadcastMsg)
  : list broadcastMsg :=
  match marshal_event evt with
  | None => q
  | Some data => (chan_try_send broadcast_cap (MkBroadcastMsg fleetID data) q).2
  end.

(** The methods the jobs call; [BroadcastAlertResolved] is called by nobody. *)
Definition BroadcastOffline (fleetID vehicleID : string) (lastSeenAt : Time) : list broadcastMsg -> list broadcastMsg :=
  broadcastEvent fleetID (OfflineEvent vehicleID lastSeenAt).
Definition BroadcastOnline (fleetID vehicleID : string) : list broadcastMsg -> list broadcastMsg :=
  broadcastEvent fleetID (OnlineEvent vehicleID).
Definition BroadcastDeviation (fleetID : string) (payload : VehicleDeviationPayload)
  : list broadcastMsg -> list broadcastMsg := broadcastEvent fleetID (DeviationEvent payload).
Definition BroadcastStopArrived (fleetID : string) (payload : StopArrivedPayload)
  : list broadcastMsg -> list broadcastMsg := broadcastEvent fleetID (StopArrivedEvent payload).
Definition BroadcastAlertResolved (fleetID : string) (alertID : Z) (vehicleID : string) (resolvedAt : Time)
  : list broadcastMsg -> list broadcastMsg :=
  broadcastEvent fleetID (AlertResolvedEvent alertID vehicleID resolvedAt).

(** ** What the subscriptions decode

    [drainTelemetry] and [drainAlerts] turn a published JSON value, [None] when the
    payload is not JSON, into the event they queue. *)
Definition dec_int64 {A} (set : Z -> A -> A) : decoder A := fun j a =>
  match j with
  | JNum lit => n ← ParseInt lit; Some (set n a)
  | JNull => Some a
  | _ => None
  end.
Definition dec_position : decoder VehiclePositionPayload := dec_object [
  ("vehicle_id"%string, dec_string (fun s p => MkVehiclePositionPayload s (vp_Lat p) (vp_Lng p)
     (vp_SpeedKmh p) (vp_IsMoving p) (vp_EngineOn p) (vp_ReceivedAt p)));
  ("lat"%string, dec_float (fun x p => MkVehiclePositionPayload (vp_VehicleID p) x (vp_Lng p)
     (vp_SpeedKmh p) (vp_IsMoving p) (vp_EngineOn p) (vp_ReceivedAt p)));
  ("lng"%string, dec_float (fun x p => MkVehiclePositionPayload (vp_VehicleID p) (vp_Lat p) x
     (vp_SpeedKmh p) (vp_IsMoving p) (vp_EngineOn p) (vp_ReceivedAt p)));
  ("speed_kmh"%string, dec_float (fun x p => MkVehiclePositionPayload (vp_VehicleID p)
     (vp_Lat p) (vp_Lng p) x (vp_IsMoving p) (vp_EngineOn p) (vp_ReceivedAt p)));
  ("is_moving"%string, dec_bool (fun b p => MkVehiclePositionPayload (vp_VehicleID p) (vp_Lat p)
     (vp_Lng p) (vp_SpeedKmh p) b (vp_EngineOn p) (vp_ReceivedAt p)));
  ("engine_on"%string, dec_bool (fun b p => MkVehiclePositionPayload (vp_VehicleID p) (vp_Lat p)
     (vp_Lng p) (vp_SpeedKmh p) (vp_IsMoving p) b (vp_ReceivedAt p)));
  ("received_at"%string, dec_int64 (fun n p => MkVehiclePositionPayload (vp_VehicleID p)
     (vp_Lat p) (vp_Lng p) (vp_SpeedKmh p) (vp_IsMoving p) (vp_EngineOn p) (of_Unix n)))
].
Definition dec_alert : decoder VehicleAlertPayload := dec_object [
  ("vehicle_id"%string, dec_string (fun s p => MkVehicleAlertPayload (va_AlertID p) s
     (va_AlertType p) (va_Severity p) (va_TriggeredValue p) (va_CreatedAt p)));
  ("alert_type"%string, dec_string (fun s p => MkVehicleAlertPayload (va_AlertID p)
     (va_VehicleID p) s (va_Severity p) (va_TriggeredValue p) (va_CreatedAt p)));
  ("severity"%string, dec_string (fun s p => MkVehicleAlertPayload (va_AlertID p)
     (va_VehicleID p) (va_AlertType p) s (va_TriggeredValue p) (va_CreatedAt p)));
  ("value"%string, dec_float (fun x p => MkVehicleAlertPayload (va_AlertID p)
     (va_VehicleID p) (va_AlertType p) (va_Severity p) x (va_CreatedAt p)));
  ("triggered_at"%string, dec_int64 (fun n p => MkVehicleAlertPayload (va_AlertID p)
     (va_VehicleID p) (va_AlertType p) (va_Severity p) (va_TriggeredValue p) (of_Unix n)))
].
Definition drain_telemetry (payload : option json) : option string :=
  j ← payload;
  p ← dec_position j (MkVehiclePositionPayload "" f_zero f_zero f_zero false false (of_Unix 0));
  marshal_event (PositionEvent p).
Definition drain_alert (payload : option json) : option string :=
  j ← payload;
  p ← dec_alert j (MkVehicleAlertPayload 0 "" "" "" f_zero (of_Unix 0));
  marshal_event (AlertEvent p).

(** ** Properties *)

(** C39. The position event of a published state. For a message the ingestion service
    decoded from the body of a request and received at a time whose Unix seconds are an
    int64, the text [PipelineStateUpdates] publishes is read by the hub's telemetry
    subscription as a position of the same vehicle, with exactly the coordinates, speed
    and flags of the message, received at the same second; the other published fields are
    ignored. *)
Theorem position_of_published_state body received p :
  let m := message_of received p in
  Decode body ≫= (fun j => dec_payload j zero_payload) = Some p ->
  in_int64 (Unix received) ->
  drain_telemetry (Unmarshal (Marshal (state_json m))) =
  marshal_event (PositionEvent (MkVehiclePositionPayload (VehicleID m) (Latitude m)
    (Longitude m) (SpeedKmh m) (IsMoving m) (EngineOn m) (of_Unix (Unix received)))).
Proof.
  intros m Hdec Hr. pose proof (message_of_ok received body p Hdec) as Hm. fold m in Hm.
  change received with (ReceivedAt m) in Hr |- *. rewrite state_text_read by done. clearbody m.
  unfold message_ok in Hm. rewrite !Forall_cons in Hm. destruct Hm as (? & ? & ? & _).
  unfold drain_telemetry, state_json, json_map, jint, jfloat.
  cbv -[ParseFloat json_float ParseInt FormatInt marshal_event of_Unix Unix Latitude Longitude
        SpeedKmh FuelPct EngineTempC BatteryVoltage VehicleID FleetID IsMoving EngineOn
        Timestamp ReceivedAt f_zero].
  by rewrite !ParseFloat_json_float, ParseInt_FormatInt by done.
Qed.

(** The alert event of a published alert: of the same vehicle, type, severity and
    value, created at the second it was triggered, with the identifier 0, since the
    publication does not carry the identifier of the row. *)
Theorem alert_of_published_alert m rule now :
  message_ok m -> in_int64 (Unix now) ->
  drain_alert (Unmarshal (alertPayload m rule now)) =
  marshal_event (AlertEvent (MkVehicleAlertPayload 0 (VehicleID m) (rule_Type rule)
    (rule_Severity rule) (getTriggerValue m (rule_Type rule)) (of_Unix (Unix now)))).
Proof.
  intros Hm Hr. rewrite alert_text_read by done. pose proof (trigger_ok m (rule_Type rule) Hm) as Hv.
  unfold drain_alert, alert_json, json_map, jint, jfloat.
  cbv -[ParseFloat json_float ParseInt FormatInt marshal_event of_Unix Unix getTriggerValue
        VehicleID FleetID rule_Type rule_Severity f_zero f_ok in_int64] in Hv, Hr |- *.
  by rewrite ParseFloat_json_float, ParseInt_FormatInt by done.
Qed.

(** ** Witnesses *)
Definition demo_telemetry_body : string := Marshal (JObj [
  ("vehicle_id", JStr "v1"); ("fleet_id", JStr "fleet-a");
  ("location", JObj [("latitude", JNum "12.9716"); ("longitude", JNum "77.5946")]);
  ("vehicle_state", JObj [("speed_kmh", JNum "102.55"); ("is_moving", JBool true); ("engine_on", JBool true)])]%string).
Definition demo_telemetry_payload : incomingPayload :=
  default zero_payload (Decode demo_telemetry_body ≫= (fun j => dec_payload j zero_payload)).
Definition demo_telemetry : TelemetryMessage :=
  message_of (1704067200 * Second + 5) demo_telemetry_payload.

Lemma position_of_published_state_witness :
  drain_telemetry (Unmarshal (Marshal (state_json demo_telemetry))) =
  marshal_event (PositionEvent (MkVehiclePositionPayload "v1"
    (f_div (f_of_Z 129716) (f_of_Z 10000)) (f_div (f_of_Z 775946) (f_of_Z 10000))
    (f_div (f_of_Z 2051) (f_of_Z 20)) true true (1704067200 * Second))).
Proof.
  etransitivity.
  - apply (position_of_published_state demo_telemetry_body (1704067200 * Second + 5) demo_telemetry_payload).
    + vm_compute. reflexivity.
    + vm_compute. split; discriminate.
  - vm_compute. reflexivity.
Defined.

Lemma alert_of_published_alert_witness :
  let rule := MkAlertRule AlertSpeeding SeverityWarning (fun m => f_gtb (SpeedKmh m) (f_of_Z 100)) in
  drain_alert (Unmarshal (alertPayload demo_telemetry rule (1704067200 * Second))) =
  marshal_event (AlertEvent (MkVehicleAlertPayload 0 "v1" AlertSpeeding SeverityWarning
    (SpeedKmh demo_telemetry) (1704067200 * Second))).
Proof.
  apply (alert_of_published_alert demo_telemetry
    (MkAlertRule AlertSpeeding SeverityWarning (fun m => f_gtb (SpeedKmh m) (f_of_Z 100)))
    (1704067200 * Second)); [|vm_compute; split; discriminate].
  apply (message_of_ok _ demo_telemetry_body). vm_compute. reflexivity.
Defined.
