(* ===== verification/Hub.v ===== *)
(** * The WebSocket hub: [serving/internal/ws/hub.go]

    The hub is a transition system. Its own goroutine [Run] takes registrations,
    unregistrations and broadcasts from three bounded queues; HTTP handlers register
    clients; each client's pumps write what was sent to it and unregister it once.
    What the pumps do is in [Client], the subscriptions are in [Subs]. An operation that
    would close a closed channel, or send on one, panics: its result is [None]. *)
From S2P Require Import Prelude GoNum Strconv Json Redis Domain Auth Http Events.

Record Client := MkClient {
  cl_fleetID : string;
  cl_send : list string;        (* the buffered channel *)
  cl_closed : bool;             (* [send] was closed *)
  cl_written : list string;     (* what [writePump] took from it, in order *)
  cl_done : bool                (* [once] ran: the client asked to be unregistered *)
}.
Definition sendBufferSize : nat := 256.
Definition newClient (fleetID : string) : Client := MkClient fleetID [] false [] false.
Definition cid := nat.

Record Hub := MkHub {
  h_register : list cid;
  h_unregister : list cid;
  h_broadcast : list broadcastMsg;
  h_fleets : gmap string (gset cid);
  h_clients : gmap cid Client;        (* every client ever created *)
  h_running : bool;
  h_closing : list cid;               (* clients blocked in their send to [unregister] *)
  h_log : list broadcastMsg           (* the broadcasts fanned out so far *)
}.
Definition NewHub : Hub := MkHub [] [] [] ∅ ∅ true [] [].
Definition queue_cap : nat := 64.

(** [close(client.send)] and [enqueue]. *)
Definition close_send (cl : Client) : option Client :=
  if cl_closed cl then None
  else Some (MkClient (cl_fleetID cl) (cl_send cl) true (cl_written cl) (cl_done cl)).
Definition enqueue (data : string) (cl : Client) : option (bool * Client) :=
  if cl_closed cl then None
  else let '(ok, q) := chan_try_send sendBufferSize data (cl_send cl) in
       Some (ok, MkClient (cl_fleetID cl) q false (cl_written cl) (cl_done cl)).

Definition set_fleets (h : Hub) (fl : gmap string (gset cid)) : Hub :=
  MkHub (h_register h) (h_unregister h) (h_broadcast h) fl (h_clients h) (h_running h)
    (h_closing h) (h_log h).
Definition set_clients (h : Hub) (cm : gmap cid Client) : Hub :=
  MkHub (h_register h) (h_unregister h) (h_broadcast h) (h_fleets h) cm (h_running h)
    (h_closing h) (h_log h).
Definition set_register (h : Hub) (q : list cid) : Hub :=
  MkHub q (h_unregister h) (h_broadcast h) (h_fleets h) (h_clients h) (h_running h)
    (h_closing h) (h_log h).
Definition set_unregister (h : Hub) (q : list cid) : Hub :=
  MkHub (h_register h) q (h_broadcast h) (h_fleets h) (h_clients h) (h_running h)
    (h_closing h) (h_log h).
Definition set_broadcast (h : Hub) (q : list broadcastMsg) : Hub :=
  MkHub (h_register h) (h_unregister h) q (h_fleets h) (h_clients h) (h_running h)
    (h_closing h) (h_log h).
Definition set_closing (h : Hub) (q : list cid) : Hub :=
  MkHub (h_register h) (h_unregister h) (h_broadcast h) (h_fleets h) (h_clients h) (h_running h)
    q (h_log h).
Definition log_broadcast (m : broadcastMsg) (h : Hub) : Hub :=
  MkHub (h_register h) (h_unregister h) (h_broadcast h) (h_fleets h) (h_clients h) (h_running h)
    (h_closing h) (h_log h ++ [m]).
Definition stop_running (h : Hub) : Hub :=
  MkHub (h_register h) (h_unregister h) (h_broadcast h) (h_fleets h) (h_clients h) false
    (h_closing h) (h_log h).

(** [addClient]: the first client of a fleet creates its entry. *)
Definition addClient (c : cid) (h : Hub) : Hub :=
  match h_clients h !! c with
  | None => h
  | Some cl =>
      let cs := default ∅ (h_fleets h !! cl_fleetID cl) in
      set_fleets h (<[cl_fleetID cl := {[c]} ∪ cs]> (h_fleets h))
  end.

(** [removeClient]: the last client of a fleet deletes its entry. *)
Definition removeClient (c : cid) (h : Hub) : option Hub :=
  match h_clients h !! c with
  | None => Some h
  | Some cl =>
      match h_fleets h !! cl_fleetID cl with
      | None => Some h
      | Some cs =>
          st ← (if decide (c ∈ cs) then
                  cl' ← close_send cl; Some (cs ∖ {[c]}, <[c := cl']> (h_clients h))
                else Some (cs, h_clients h));
          let '(cs', cm) := st in
          Some (set_clients (set_fleets h
                  (if decide (cs' = ∅) then delete (cl_fleetID cl) (h_fleets h)
                   else <[cl_fleetID cl := cs']> (h_fleets h))) cm)
      end
  end.

(** [fanOut], over the clients in the order [ord] the map iteration takes: a client
    whose buffer is full is evicted. *)
Fixpoint fan_loop (data : string) (ord : list cid) (cs : gset cid) (cm : gmap cid Client)
  : option (gset cid * gmap cid Client) :=
  match ord with
  | [] => Some (cs, cm)
  | c :: ord' =>
      match cm !! c with
      | None => fan_loop data ord' cs cm
      | Some cl =>
          r ← enqueue data cl;
          let '(ok, cl') := r in
          if ok : bool then fan_loop data ord' cs (<[c := cl']> cm)
          else cl'' ← close_send cl'; fan_loop data ord' (cs ∖ {[c]}) (<[c := cl'']> cm)
      end
  end.
Definition fanOut (m : broadcastMsg) (ord : list cid) (h : Hub) : option Hub :=
  match h_fleets h !! bm_fleetID m with
  | None => Some (log_broadcast m h)
  | Some cs =>
      r ← fan_loop (bm_data m) ord cs (h_clients h);
      let '(cs', cm) := r in
      Some (log_broadcast m (set_clients (set_fleets h (<[bm_fleetID m := cs']> (h_fleets h))) cm))
  end.

(** [shutdown]: every client of every fleet is closed. *)
Fixpoint close_all (ord : list cid) (cm : gmap cid Client) : option (gmap cid Client) :=
  match ord with
  | [] => Some cm
  | c :: ord' =>
      match cm !! c with
      | None => close_all ord' cm
      | Some cl => cl' ← close_send cl; close_all ord' (<[c := cl']> cm)
      end
  end.
Definition members (h : Hub) : list cid :=
  concat (map (fun p => elements p.2) (map_to_list (h_fleets h))).
Definition shutdown (h : Hub) : option Hub :=
  cm ← close_all (members h) (h_clients h);
  Some (stop_running (set_clients (set_fleets h ∅) cm)).

Definition ClientCount (fleetID : string) (h : Hub) : nat :=
  match h_fleets h !! fleetID with Some cs => size cs | None => 0 end.

(** ** [ServeWS] up to the upgrade: the fleet the new client is bound to. *)
Definition ServeWS {V} `{Validator V} (rq : request) (v : V) : (response + string) * V :=
  let fleetID := query_get "fleet_id" (rq_query rq) in
  let token := query_get "token" (rq_query rq) in
  let http_error status msg := inl (MkResponse status (Marshal (json_error msg) ++ newline)) in
  if bool_decide (fleetID = ""%string)
  then (http_error StatusBadRequest "fleet_id query parameter required"%string, v)
  else
    let '((fleetForToken, ok), v') := v_FleetID (rq_cx rq) (rq_auth rq) token v in
    if negb ok || bool_decide (fleetForToken = ""%string) ||
       bool_decide (fleetForToken <> fleetID)
    then (http_error StatusUnauthorized "invalid or missing token"%string, v')
    else (inr fleetID, v').

(** ** The steps: [None] is a panic. *)
Inductive hub_step (h : Hub) : option Hub -> Prop :=
| hs_connect fleetID c :          (* ServeWS registers a new client *)
    h_clients h !! c = None -> length (h_register h) < queue_cap ->
    hub_step h (Some (set_register (set_clients h (<[c := newClient fleetID]> (h_clients h)))
                        (h_register h ++ [c])))
| hs_register c q :
    h_running h = true -> h_register h = c :: q ->
    hub_step h (Some (addClient c (set_register h q)))
| hs_unregister c q :
    h_running h = true -> h_unregister h = c :: q ->
    hub_step h (removeClient c (set_unregister h q))
| hs_fanout m q ord :
    h_running h = true -> h_broadcast h = m :: q ->
    ord ≡ₚ elements (default ∅ (h_fleets h !! bm_fleetID m)) ->
    hub_step h (fanOut m ord (set_broadcast h q))
| hs_shutdown : h_running h = true -> hub_step h (shutdown h)
| hs_publish m :                  (* a subscription, or [broadcastEvent] *)
    length (h_broadcast h) < broadcast_cap ->
    hub_step h (Some (set_broadcast h (h_broadcast h ++ [m])))
| hs_write c cl x q :             (* [writePump] takes a message *)
    h_clients h !! c = Some cl -> cl_send cl = x :: q ->
    hub_step h (Some (set_clients h (<[c := MkClient (cl_fleetID cl) q (cl_closed cl)
                                           (cl_written cl ++ [x]) (cl_done cl)]> (h_clients h))))
| hs_close c cl :                 (* a pump ends: [close] *)
    h_clients h !! c = Some cl -> cl_done cl = false ->
    hub_step h (Some (set_closing (set_clients h (<[c := MkClient (cl_fleetID cl) (cl_send cl)
                                           (cl_closed cl) (cl_written cl) true]> (h_clients h)))
                        (h_closing h ++ [c])))
| hs_closing q1 c q2 :            (* and its send to [unregister] goes through *)
    h_closing h = q1 ++ c :: q2 -> length (h_unregister h) < queue_cap ->
    hub_step h (Some (set_closing (set_unregister h (h_unregister h ++ [c])) (q1 ++ q2))).

Definition hub_next (h h' : Hub) : Prop := hub_step h (Some h').
Definition hub_reachable (h : Hub) : Prop := rtc hub_next NewHub h.

(** ** The invariant *)

(** Everything a client received: written to its connection or still buffered. *)
Definition recv (cl : Client) : list string := cl_written cl ++ cl_send cl.
(** The broadcasts of a fleet, in order. *)
Definition fleet_log (f : string) (log : list broadcastMsg) : list string :=
  map bm_data (List.filter (fun m => bool_decide (bm_fleetID m = f)) log).
Definition member (c : cid) (f : string) (fl : gmap string (gset cid)) : Prop :=
  exists cs, fl !! f = Some cs /\ c ∈ cs.

Record client_ok (log : list broadcastMsg) (reg : list cid) (fl : gmap string (gset cid))
    (c : cid) (cl : Client) : Prop := {
  co_cap : length (cl_send cl) <= sendBufferSize;
  co_member : member c (cl_fleetID cl) fl -> cl_closed cl = false /\ c ∉ reg;
  co_reg : c ∈ reg -> cl_closed cl = false /\ recv cl = [];
  co_recv : exists pre post, fleet_log (cl_fleetID cl) log = pre ++ recv cl ++ post /\
              (member c (cl_fleetID cl) fl -> post = [])
}.
Record hub_inv (h : Hub) : Prop := {
  hi_nodup : NoDup (h_register h);
  hi_reg : forall c, c ∈ h_register h -> is_Some (h_clients h !! c);
  hi_fleet : forall c f, member c f (h_fleets h) ->
               exists cl, h_clients h !! c = Some cl /\ cl_fleetID cl = f;
  hi_client : forall c cl, h_clients h !! c = Some cl ->
                client_ok (h_log h) (h_register h) (h_fleets h) c cl
}.

Lemma fleet_log_snoc f log m :
  fleet_log f (log ++ [m]) =
  fleet_log f log ++ (if bool_decide (bm_fleetID m = f) then [bm_data m] else []).
Proof. unfold fleet_log. rewrite List.filter_app, map_app. simpl. by case_bool_decide. Qed.

Lemma NewHub_inv : hub_inv NewHub.
Proof.
  split; simpl; [constructor|by intros c ?%elem_of_nil| |].
  - intros c f (cs & Hf & _). by rewrite lookup_empty in Hf.
  - intros c cl Hc. by rewrite lookup_empty in Hc.
Qed.

(** Changing what one client holds. *)
Lemma hub_inv_client h c cl cl' :
  hub_inv h -> h_clients h !! c = Some cl -> cl_fleetID cl' = cl_fleetID cl ->
  client_ok (h_log h) (h_register h) (h_fleets h) c cl' ->
  hub_inv (set_clients h (<[c := cl']> (h_clients h))).
Proof.
  intros [Hnd Hr Hf Hc] Hcl Heq Hok. split; simpl; [done| | |].
  - intros c' Hin. destruct (decide (c = c')) as [<-|Hne].
    + rewrite lookup_insert_eq. eauto.
    + rewrite lookup_insert_ne by done. auto.
  - intros c' f Hm. destruct (Hf c' f Hm) as (cl0 & H0 & Hf0).
    destruct (decide (c = c')) as [<-|Hne].
    + exists cl'. rewrite lookup_insert_eq. split; [done|]. congruence.
    + exists cl0. by rewrite lookup_insert_ne.
  - intros c' cl0. destruct (decide (c = c')) as [<-|Hne].
    + rewrite lookup_insert_eq. by intros [= <-].
    + rewrite lookup_insert_ne by done. apply Hc.
Qed.

Lemma inv_connect h f c :
  hub_inv h -> h_clients h !! c = None ->
  hub_inv (set_register (set_clients h (<[c := newClient f]> (h_clients h))) (h_register h ++ [c])).
Proof.
  intros [Hnd Hr Hf Hc] Hfresh.
  assert (Hnr : c ∉ h_register h) by (intros [? ?]%Hr; congruence).
  assert (Hnm : forall f', ~ member c f' (h_fleets h)).
  { intros f' (cl & ? & ?)%Hf. congruence. }
  split; simpl.
  - apply NoDup_app. split; [done|]. split; [|apply NoDup_singleton].
    intros x Hx ->%list_elem_of_singleton. done.
  - intros c' [Hin| ->%list_elem_of_singleton]%elem_of_app.
    + destruct (decide (c = c')) as [<-|Hne]; [rewrite lookup_insert_eq; eauto|].
      rewrite lookup_insert_ne by done. auto.
    + rewrite lookup_insert_eq. eauto.
  - intros c' f' Hm. destruct (decide (c = c')) as [<-|Hne]; [by apply Hnm in Hm|].
    rewrite lookup_insert_ne by done. auto.
  - intros c' cl. destruct (decide (c = c')) as [<-|Hne].
    + rewrite lookup_insert_eq. intros [= <-]. split; simpl.
      * unfold sendBufferSize. lia.
      * intros Hm. by apply Hnm in Hm.
      * done.
      * exists [], (fleet_log f (h_log h)). split; [done|]. intros Hm. by apply Hnm in Hm.
    + rewrite lookup_insert_ne by done. intros Hcl. destruct (Hc c' cl Hcl) as [H1 H2 H3 H4].
      split; [done| | |done].
      * intros Hm. destruct (H2 Hm) as [? ?]. split; [done|].
        intros [?| ->%list_elem_of_singleton]%elem_of_app; done.
      * intros [?| ->%list_elem_of_singleton]%elem_of_app; [auto|done].
Qed.

Lemma inv_register h c q :
  hub_inv h -> h_register h = c :: q -> hub_inv (addClient c (set_register h q)).
Proof.
  intros [Hnd Hr Hf Hc] Hq. rewrite Hq in *. apply NoDup_cons in Hnd as [Hcq Hnd].
  unfold addClient. simpl. destruct (Hr c (list_elem_of_here c q)) as [cl Hcl]. rewrite Hcl.
  set (fl := <[cl_fleetID cl := _]> (h_fleets h)).
  assert (Hmem : forall c' f, member c' f fl <->
            (c' = c /\ f = cl_fleetID cl) \/ member c' f (h_fleets h)).
  { intros c' f. unfold member, fl. destruct (decide (cl_fleetID cl = f)) as [<-|Hne].
    - rewrite lookup_insert_eq. split.
      + intros (cs & [= <-] & Hin). apply elem_of_union in Hin as [->%elem_of_singleton|Hin]; [auto|].
        destruct (h_fleets h !! cl_fleetID cl) as [cs|] eqn:E; simpl in Hin;
          [right; eauto|by apply elem_of_empty in Hin].
      + intros [[-> _]|(cs & E & Hin)]; (eexists; split; [done|]); apply elem_of_union;
          [left; by apply elem_of_singleton|right; by rewrite E].
    - rewrite lookup_insert_ne by done. split; [by right|intros [[_ ->]|?]; done]. }
  split; simpl; [done| | |].
  - intros c' Hin. apply Hr. by right.
  - intros c' f [[-> ->]|Hm]%Hmem; [eauto|by apply Hf].
  - intros c' cl' Hcl'. destruct (Hc c' cl' Hcl') as [H1 H2 H3 (pre & post & H4 & H5)].
    destruct (decide (c' = c)) as [->|Hne].
    + rewrite Hcl in Hcl'. injection Hcl' as <-.
      destruct (H3 (list_elem_of_here c q)) as [Ho He].
      split; [done|done|by intros ?|].
      exists (fleet_log (cl_fleetID cl) (h_log h)), []. rewrite He, !app_nil_r. done.
    + assert (Hm' : member c' (cl_fleetID cl') fl -> member c' (cl_fleetID cl') (h_fleets h))
        by (intros [[? _]|?]%Hmem; done).
      split; [done| |by intros; apply H3; right|exists pre, post; auto].
      intros Hm%Hm'%H2. destruct Hm as [? Hn]. split; [done|]. intros ?. apply Hn. by right.
Qed.

(** Taking a client out of its fleet and closing it. *)
Lemma client_ok_drop log reg fl fl' c cl :
  client_ok log reg fl c cl -> (forall f, member c f fl' -> member c f fl) ->
  client_ok log reg fl' c cl.
Proof.
  intros [H1 H2 H3 (pre & post & H4 & H5)] Hm. split; [done|auto|done|].
  exists pre, post. auto.
Qed.

Lemma client_ok_close log reg fl fl' c cl cl' :
  client_ok log reg fl c cl -> close_send cl = Some cl' ->
  c ∉ reg -> ~ member c (cl_fleetID cl) fl' -> client_ok log reg fl' c cl'.
Proof.
  intros [H1 H2 H3 (pre & post & H4 & H5)] Hc Hn Hm. unfold close_send in Hc.
  destruct (cl_closed cl); [done|]. injection Hc as <-.
  split; simpl; [done|done|done|]. exists pre, post. split; [exact H4|]. by intros ?%Hm.
Qed.

Lemma inv_remove h c q :
  hub_inv h -> h_unregister h = c :: q ->
  exists h', removeClient c (set_unregister h q) = Some h' /\ hub_inv h'.
Proof.
  intros Hi Hq. pose proof Hi as [Hnd Hr Hf Hc].
  assert (H0 : hub_inv (set_unregister h q)) by (by split).
  unfold removeClient. simpl. destruct (h_clients h !! c) as [cl|] eqn:Hcl; [|eauto].
  destruct (h_fleets h !! cl_fleetID cl) as [cs|] eqn:Hcs; [|eauto].
  assert (Hfl : forall cs' c' f, cs' ⊆ cs ->
            member c' f (if decide (cs' = ∅) then delete (cl_fleetID cl) (h_fleets h)
                         else <[cl_fleetID cl := cs']> (h_fleets h)) ->
            member c' f (h_fleets h) /\ (f = cl_fleetID cl -> c' ∈ cs')).
  { intros cs' c' f Hsub (x & Hx & Hin). destruct (decide (f = cl_fleetID cl)) as [->|Hne].
    - destruct (decide (cs' = ∅)); [by rewrite lookup_delete_eq in Hx|].
      rewrite lookup_insert_eq in Hx. injection Hx as <-. split; [|done].
      exists cs. split; [done|]. by apply Hsub.
    - split; [|done]. exists x. split; [|done]. destruct (decide (cs' = ∅)).
      + by rewrite lookup_delete_ne in Hx.
      + by rewrite lookup_insert_ne in Hx. }
  destruct (decide (c ∈ cs)) as [Hin|Hnin]; simpl.
  - destruct (Hc c cl Hcl) as [? H2 ? ?]. destruct (H2 (ex_intro _ cs (conj Hcs Hin))) as [Ho Hnr].
    destruct (close_send cl) as [cl'|] eqn:Hclose; [|unfold close_send in Hclose; by rewrite Ho in Hclose].
    simpl. eexists. split; [done|].
    assert (Hsub : cs ∖ {[c]} ⊆ cs) by (intros x Hx; by apply elem_of_difference in Hx as [? _]).
    apply (hub_inv_client (set_fleets (set_unregister h q) _) c cl); simpl; [|done| |].
    + split; simpl; [done|done| |].
      * intros c' f [Hm _]%Hfl; [by apply Hf|done].
      * intros c' cl0 H1. eapply client_ok_drop; [by apply Hc|]. by intros f [Hm _]%Hfl.
    + unfold close_send in Hclose. rewrite Ho in Hclose. by injection Hclose as <-.
    + eapply client_ok_close; [by apply Hc|done|done|].
      intros [_ Hx]%Hfl; [|done]. specialize (Hx eq_refl).
      apply elem_of_difference in Hx as [_ Hx]. by apply Hx, elem_of_singleton.
  - eexists. split; [done|]. split; simpl; [done|done| |].
    + intros c' f [Hm _]%Hfl; [by apply Hf|done].
    + intros c' cl0 H1. eapply client_ok_drop; [by apply Hc|]. by intros f [Hm _]%Hfl.
Qed.

(** What fanning out does to each client, in any order. *)
Definition fan_result (data : string) (cl : Client) : Client :=
  if length (cl_send cl) <? sendBufferSize
  then MkClient (cl_fleetID cl) (cl_send cl ++ [data]) false (cl_written cl) (cl_done cl)
  else MkClient (cl_fleetID cl) (cl_send cl) true (cl_written cl) (cl_done cl).

Lemma fan_loop_spec data ord cs cm :
  NoDup ord ->
  (forall c, c ∈ ord -> exists cl, cm !! c = Some cl /\ cl_closed cl = false) ->
  exists cs' cm', fan_loop data ord cs cm = Some (cs', cm') /\
    (forall c, c ∉ ord -> cm' !! c = cm !! c) /\
    (forall c cl, c ∈ ord -> cm !! c = Some cl -> cm' !! c = Some (fan_result data cl)) /\
    (forall c, c ∈ cs' -> c ∈ cs /\ forall cl, c ∈ ord -> cm !! c = Some cl ->
       length (cl_send cl) < sendBufferSize).
Proof.
  revert cs cm. induction ord as [|c ord IH]; intros cs cm Hnd Ho.
  { exists cs, cm. split; [done|]. split; [done|]. split; [by intros c cl ?%elem_of_nil|].
    intros c Hc. split; [done|]. by intros cl ?%elem_of_nil. }
  apply NoDup_cons in Hnd as [Hn Hnd].
  destruct (Ho c (list_elem_of_here c ord)) as (cl & Hcl & Hop).
  assert (Hrest : forall cl' c', c' ∈ ord -> exists cl0,
            <[c := cl']> cm !! c' = Some cl0 /\ cl_closed cl0 = false).
  { intros cl' c' Hin. assert (c <> c') by (by intros ->).
    rewrite lookup_insert_ne by done. apply Ho. by right. }
  assert (Hstep : exists cs1, fan_loop data (c :: ord) cs cm =
            fan_loop data ord cs1 (<[c := fan_result data cl]> cm) /\
            (forall x, x ∈ cs1 -> x ∈ cs /\ (x = c -> length (cl_send cl) < sendBufferSize))).
  { simpl. rewrite Hcl. unfold enqueue, fan_result, chan_try_send. rewrite Hop.
    destruct (Nat.ltb_spec (length (cl_send cl)) sendBufferSize); simpl.
    - exists cs. done.
    - exists (cs ∖ {[c]}). split; [done|]. intros x [Hx Hxc]%elem_of_difference.
      split; [done|]. intros ->. by apply not_elem_of_singleton in Hxc. }
  destruct Hstep as (cs1 & -> & Hcs1).
  destruct (IH cs1 (<[c := fan_result data cl]> cm) Hnd (Hrest _))
    as (cs' & cm' & Hrun & H1 & H2 & H3).
  exists cs', cm'. split; [done|]. split; [|split].
  - intros x Hx. apply not_elem_of_cons in Hx as [Hxc Hx].
    rewrite H1 by done. by rewrite lookup_insert_ne.
  - intros x clx [->|Hx]%elem_of_cons Hlx.
    + rewrite Hcl in Hlx. injection Hlx as <-. rewrite H1 by done. by rewrite lookup_insert_eq.
    + assert (c <> x) by (by intros ->). apply H2; [done|]. by rewrite lookup_insert_ne.
  - intros x Hx. destruct (H3 x Hx) as [[Hxs Hxc]%Hcs1 H3x]. split; [done|].
    intros clx [->|Hxo]%elem_of_cons Hlx.
    + rewrite Hcl in Hlx. injection Hlx as <-. by apply Hxc.
    + assert (c <> x) by (by intros ->). apply H3x; [done|]. by rewrite lookup_insert_ne.
Qed.

(** A client the broadcast does not reach: its fleet's log may grow. *)
Lemma client_ok_log log reg fl fl' m c cl :
  client_ok log reg fl c cl ->
  (member c (cl_fleetID cl) fl' -> member c (cl_fleetID cl) fl /\ bm_fleetID m <> cl_fleetID cl) ->
  client_ok (log ++ [m]) reg fl' c cl.
Proof.
  intros [H1 H2 H3 (pre & post & H4 & H5)] Hm. split; [done| |done|].
  - intros [? _]%Hm. auto.
  - exists pre, (post ++ if bool_decide (bm_fleetID m = cl_fleetID cl) then [bm_data m] else []).
    rewrite fleet_log_snoc, H4. split; [by rewrite <- !(assoc_L (++))|].
    intros [Hmem Hne]%Hm. rewrite H5 by done. by rewrite bool_decide_false.
Qed.

Lemma client_ok_fan log reg fl fl' m c cl :
  client_ok log reg fl c cl -> bm_fleetID m = cl_fleetID cl -> member c (cl_fleetID cl) fl ->
  (member c (cl_fleetID cl) fl' -> length (cl_send cl) < sendBufferSize) ->
  client_ok (log ++ [m]) reg fl' c (fan_result (bm_data m) cl).
Proof.
  intros [H1 H2 H3 (pre & post & H4 & H5)] Hf Hm Hroom. destruct (H2 Hm) as [Ho Hn].
  rewrite H5, app_nil_r in H4 by done. unfold fan_result.
  destruct (Nat.ltb_spec (length (cl_send cl)) sendBufferSize) as [Hlt|Hge]; split; simpl.
  - rewrite length_app. simpl. lia.
  - done.
  - done.
  - exists pre, []. rewrite fleet_log_snoc, H4, bool_decide_true by done.
    unfold recv. simpl. split; [|done]. by rewrite app_nil_r, <- !(assoc_L (++)).
  - done.
  - intros Hx%Hroom. lia.
  - done.
  - exists pre, [bm_data m]. rewrite fleet_log_snoc, H4, bool_decide_true by done.
    unfold recv. simpl. split; [by rewrite <- !(assoc_L (++))|]. intros Hx%Hroom. lia.
Qed.

Lemma inv_fanout h m q ord :
  hub_inv h -> h_broadcast h = m :: q ->
  ord ≡ₚ elements (default ∅ (h_fleets h !! bm_fleetID m)) ->
  exists h', fanOut m ord (set_broadcast h q) = Some h' /\ hub_inv h'.
Proof.
  intros Hi Hq Hord. pose proof Hi as [Hnd Hr Hf Hc]. unfold fanOut. simpl.
  destruct (h_fleets h !! bm_fleetID m) as [cs|] eqn:Hcs; simpl in Hord.
  2:{ eexists. split; [done|]. split; simpl; [done..|]. intros c cl Hcl.
      apply client_ok_log with (h_fleets h); [by apply Hc|]. intros Hm. split; [done|].
      intros Heq. destruct Hm as (cs & E & _). congruence. }
  assert (Hin : forall c, c ∈ ord <-> c ∈ cs) by (intros c; by rewrite Hord, elem_of_elements).
  assert (Hmem : forall c, c ∈ ord -> member c (bm_fleetID m) (h_fleets h))
    by (intros c ?%Hin; by exists cs).
  destruct (fan_loop_spec (bm_data m) ord cs (h_clients h)) as (cs' & cm' & -> & H1 & H2 & H3).
  { rewrite Hord. apply NoDup_elements. }
  { intros c Hx%Hmem. destruct (Hf _ _ Hx) as (cl & Hcl & Hfl). exists cl. split; [done|].
    destruct (Hc c cl Hcl) as [_ Ho _ _]. rewrite Hfl in Ho. by destruct (Ho Hx). }
  simpl. eexists. split; [done|].
  assert (Hold : forall c f, member c f (<[bm_fleetID m := cs']> (h_fleets h)) ->
            member c f (h_fleets h) /\ (f = bm_fleetID m -> c ∈ cs')).
  { intros c f (x & Hx & Hxin). destruct (decide (f = bm_fleetID m)) as [->|Hne].
    - rewrite lookup_insert_eq in Hx. injection Hx as <-. split; [|done].
      exists cs. split; [done|]. by apply H3.
    - rewrite lookup_insert_ne in Hx by done. split; [by exists x|done]. }
  split; simpl; [done| | |].
  - intros c [cl Hcl]%Hr. destruct (decide (c ∈ ord)) as [Hi1|Hn1];
      [rewrite (H2 c cl) by done|rewrite H1 by done]; eauto.
  - intros c f [Hx _]%Hold. destruct (Hf c f Hx) as (cl & Hcl & Hfl).
    destruct (decide (c ∈ ord)) as [Hi1|Hn1].
    + exists (fan_result (bm_data m) cl). rewrite (H2 c cl) by done. split; [done|].
      unfold fan_result. by case_match.
    + exists cl. by rewrite H1.
  - intros c cl' Hcl'. destruct (decide (c ∈ ord)) as [Hi1|Hn1].
    + destruct (Hf _ _ (Hmem c Hi1)) as (cl & Hcl & Hfl).
      rewrite (H2 c cl) in Hcl' by done. injection Hcl' as <-.
      apply client_ok_fan with (h_fleets h); [by apply Hc|done|rewrite Hfl; by apply Hmem|].
      intros [_ Hx]%Hold. apply (H3 c); [by apply Hx|done|done].
    + rewrite H1 in Hcl' by done. apply client_ok_log with (h_fleets h); [by apply Hc|].
      intros [Hx Hxc]%Hold. split; [done|]. intros Heq. apply Hn1, Hin.
      destruct Hx as (x & Hx & Hxin). rewrite <- Heq, Hcs in Hx. by injection Hx as <-.
Qed.

(** Closing every member of every fleet. *)
Lemma close_all_spec ord cm :
  NoDup ord ->
  (forall c, c ∈ ord -> exists cl, cm !! c = Some cl /\ cl_closed cl = false) ->
  exists cm', close_all ord cm = Some cm' /\
    (forall c, c ∉ ord -> cm' !! c = cm !! c) /\
    (forall c cl, c ∈ ord -> cm !! c = Some cl -> cm' !! c = close_send cl).
Proof.
  revert cm. induction ord as [|c ord IH]; intros cm Hnd Ho; simpl.
  { exists cm. split; [done|]. split; [done|]. by intros c cl ?%elem_of_nil. }
  apply NoDup_cons in Hnd as [Hn Hnd].
  destruct (Ho c (list_elem_of_here c ord)) as (cl & Hcl & Hop). rewrite Hcl.
  assert (Hs : exists cl', close_send cl = Some cl') by (unfold close_send; rewrite Hop; eauto).
  destruct Hs as [cl' Hs]. rewrite Hs. simpl.
  destruct (IH (<[c := cl']> cm) Hnd) as (cm' & Hrun & H1 & H2).
  { intros x Hx. assert (c <> x) by (by intros ->). rewrite lookup_insert_ne by done.
    apply Ho. by right. }
  exists cm'. split; [done|]. split.
  - intros x Hx. apply not_elem_of_cons in Hx as [Hxc Hx]. rewrite H1 by done.
    by rewrite lookup_insert_ne.
  - intros x clx [->|Hx]%elem_of_cons Hlx.
    + rewrite Hcl in Hlx. injection Hlx as <-. rewrite H1 by done. by rewrite lookup_insert_eq.
    + assert (c <> x) by (by intros ->). apply H2; [done|]. by rewrite lookup_insert_ne.
Qed.

Lemma NoDup_members (cm : gmap cid Client) (l : list (string * gset cid)) :
  NoDup l.*1 ->
  (forall f cs c, (f, cs) ∈ l -> c ∈ cs -> exists cl, cm !! c = Some cl /\ cl_fleetID cl = f) ->
  NoDup (concat (map (fun p => elements p.2) l)).
Proof.
  induction l as [|[f cs] l IH]; intros Hnd Hm; simpl; [constructor|].
  simpl in Hnd. apply NoDup_cons in Hnd as [Hn Hnd]. apply NoDup_app. split; [apply NoDup_elements|].
  split; [|apply IH; [done|]; intros f' cs' c Hin; apply Hm; by right].
  intros c Hc%elem_of_elements Hl. destruct (Hm f cs c (list_elem_of_here _ _) Hc) as (cl & E & Hf).
  apply list_elem_of_In, in_concat in Hl as (x & Hx & Hcx).
  apply in_map_iff in Hx as ([f' cs'] & <- & Hin). simpl in Hcx.
  apply list_elem_of_In in Hin, Hcx. apply elem_of_elements in Hcx.
  destruct (Hm f' cs' c (list_elem_of_further _ _ _ Hin) Hcx) as (cl' & E' & Hf').
  apply Hn. rewrite <- Hf. replace cl with cl' by congruence. rewrite Hf'.
  change f' with (fst (f', cs')). by apply list_elem_of_fmap_2.
Qed.

Lemma elem_of_members h c : c ∈ members h <-> exists f, member c f (h_fleets h).
Proof.
  unfold members. rewrite list_elem_of_In, in_concat. setoid_rewrite in_map_iff. split.
  - intros (x & ([f cs] & <- & Hin) & Hc). simpl in Hc.
    apply list_elem_of_In, elem_of_map_to_list in Hin. apply list_elem_of_In, elem_of_elements in Hc.
    by exists f, cs.
  - intros (f & cs & Hf & Hc). exists (elements cs). split.
    + exists (f, cs). split; [done|]. by apply list_elem_of_In, elem_of_map_to_list.
    + by apply list_elem_of_In, elem_of_elements.
Qed.

Lemma inv_shutdown h : hub_inv h -> exists h', shutdown h = Some h' /\ hub_inv h'.
Proof.
  intros [Hnd Hr Hf Hc]. unfold shutdown.
  destruct (close_all_spec (members h) (h_clients h)) as (cm' & -> & H1 & H2).
  { apply NoDup_members with (h_clients h); [apply NoDup_fst_map_to_list|].
    intros f cs c Hin%elem_of_map_to_list Hc'. apply Hf. by exists cs. }
  { intros c [f Hm]%elem_of_members. destruct (Hf c f Hm) as (cl & Hcl & <-). exists cl.
    split; [done|]. destruct (Hc c cl Hcl) as [_ Ho _ _]. by destruct (Ho Hm). }
  simpl. eexists. split; [done|].
  assert (Hno : forall c f, ~ member c f ∅) by (intros c f (cs & E & _); by rewrite lookup_empty in E).
  split; simpl; [done| | |].
  - intros c [cl Hcl]%Hr. destruct (decide (c ∈ members h)) as [Hm|Hm]; [|rewrite H1 by done; eauto].
    rewrite (H2 c cl) by done. apply elem_of_members in Hm as [f Hm].
    destruct (Hf c f Hm) as (cl0 & E & <-). rewrite Hcl in E. injection E as <-.
    destruct (Hc c cl Hcl) as [_ Ho _ _]. destruct (Ho Hm) as [Ho' _].
    unfold close_send. rewrite Ho'. eauto.
  - by intros c f Hm%Hno.
  - intros c cl' Hcl'. destruct (decide (c ∈ members h)) as [Hm|Hm].
    + pose proof Hm as [f Hmf]%elem_of_members. destruct (Hf c f Hmf) as (cl & E & <-).
      rewrite (H2 c cl) in Hcl' by done. eapply client_ok_close; [by apply Hc|done| |apply Hno].
      destruct (Hc c cl E) as [_ Ho _ _]. by destruct (Ho Hmf).
    + rewrite H1 in Hcl' by done. eapply client_ok_drop; [by apply Hc|]. by intros f Hx%Hno.
Qed.

(** No step panics, and every step keeps the invariant. *)
Lemma hub_step_inv h o : hub_inv h -> hub_step h o -> exists h', o = Some h' /\ hub_inv h'.
Proof.
  intros Hi Hs. pose proof Hi as [Hnd Hr Hf Hc].
  destruct Hs as [f c Hfr _|c q _ Hq|c q _ Hq|m q ord _ Hq Ho|_|m _|c cl x q Hcl Hx|c cl Hcl _|q1 c q2 _ _].
  - eexists. split; [done|]. by apply inv_connect.
  - eexists. split; [done|]. by apply inv_register.
  - by apply inv_remove.
  - by apply inv_fanout.
  - by apply inv_shutdown.
  - eexists. split; [done|]. by split.
  - eexists. split; [done|]. eapply hub_inv_client; [done..|].
    destruct (Hc c cl Hcl) as [H1 H2 H3 H4]. rewrite Hx in H1. simpl in H1.
    assert (Hrecv : recv (MkClient (cl_fleetID cl) q (cl_closed cl) (cl_written cl ++ [x]) (cl_done cl))
                    = recv cl) by (unfold recv; simpl; by rewrite Hx, <- (assoc_L (++))).
    split; [simpl; lia|done| |by rewrite Hrecv]. rewrite Hrecv. done.
  - eexists. split; [done|].
    apply (hub_inv_client (set_closing h (h_closing h ++ [c])) c cl); [by split|done|done|].
    destruct (Hc c cl Hcl) as [H1 H2 H3 H4]. by split.
  - eexists. split; [done|]. by split.
Qed.

Lemma hub_reachable_inv h : hub_reachable h -> hub_inv h.
Proof.
  intros Hr. eapply rtc_invariant; [|exact Hr|exact NewHub_inv].
  intros a b Hab Ha. destruct (hub_step_inv a (Some b) Ha Hab) as (h' & [= ->] & ?). done.
Qed.

(** ** Properties *)

(** C12. The hub never panics. In no reachable state, whatever the interleaving of
    connections, pumps, subscriptions and broadcasts and whatever order the map
    iteration takes, does an operation close a client's channel twice or send on a
    closed one. *)
Theorem hub_never_panics h : hub_reachable h -> ~ hub_step h None.
Proof.
  intros Hi%hub_reachable_inv Hs. by destruct (hub_step_inv h None Hi Hs) as (h' & ? & _).
Qed.

(** A client receives a gap-free run of its own fleet's broadcasts. What was
    written to a client or is buffered for it is a contiguous segment, in order, of what
    was broadcast to its fleet and to no other; while it is connected the segment ends
    with the latest broadcast, so a client that cannot keep up is evicted rather than
    skipped; and at most 256 messages are buffered for it. *)
Theorem hub_isolation h c cl :
  hub_reachable h -> h_clients h !! c = Some cl ->
  length (cl_send cl) <= sendBufferSize /\
  exists pre post, fleet_log (cl_fleetID cl) (h_log h) = pre ++ recv cl ++ post /\
    (member c (cl_fleetID cl) (h_fleets h) -> post = []).
Proof. intros [_ _ _ Hc]%hub_reachable_inv Hcl. by destruct (Hc c cl Hcl). Qed.

(** Shutting down leaves no fleet behind and closes the channel of every connected
    client, so that its write pump ends. *)
Theorem hub_shutdown_closes h :
  hub_reachable h ->
  exists h', shutdown h = Some h' /\ h_running h' = false /\ h_fleets h' = ∅ /\
    forall c f, member c f (h_fleets h) ->
      exists cl', h_clients h' !! c = Some cl' /\ cl_fleetID cl' = f /\ cl_closed cl' = true.
Proof.
  intros Hi%hub_reachable_inv. pose proof Hi as [Hnd Hr Hf Hc].
  destruct (inv_shutdown h Hi) as (h' & Hs & _). exists h'. split; [done|].
  unfold shutdown in Hs.
  destruct (close_all_spec (members h) (h_clients h)) as (cm' & Hrun & H1 & H2).
  { apply NoDup_members with (h_clients h); [apply NoDup_fst_map_to_list|].
    intros f cs c Hin%elem_of_map_to_list Hc'. apply Hf. by exists cs. }
  { intros c [f Hm]%elem_of_members. destruct (Hf c f Hm) as (cl & Hcl & <-). exists cl.
    split; [done|]. destruct (Hc c cl Hcl) as [_ Ho _ _]. by destruct (Ho Hm). }
  rewrite Hrun in Hs. simpl in Hs. injection Hs as <-. simpl. split_and!; [done|done|].
  intros c f Hm. destruct (Hf c f Hm) as (cl & Hcl & <-).
  rewrite (H2 c cl) by (rewrite ?elem_of_members; eauto). destruct (Hc c cl Hcl) as [_ Ho _ _].
  destruct (Ho Hm) as [Ho' _]. unfold close_send. rewrite Ho'. eauto.
Qed.

(** A socket is opened for a fleet only on that fleet's token: the request named a
    fleet and its token is accepted for exactly that, non-empty, fleet. Otherwise the
    answer is 400 without a fleet and 401 with the wrong token. *)
Theorem ServeWS_authorises {V} `{Validator V} rq (v : V) :
  let fleetID := query_get "fleet_id" (rq_query rq) in
  let '((f, ok), _) := v_FleetID (rq_cx rq) (rq_auth rq) (query_get "token" (rq_query rq)) v in
  match (ServeWS rq v).1 with
  | inr g => g = fleetID /\ fleetID <> ""%string /\ ok = true /\ f = fleetID
  | inl resp =>
      if bool_decide (fleetID = ""%string) then rs_status resp = StatusBadRequest
      else rs_status resp = StatusUnauthorized /\ (ok = false \/ f = ""%string \/ f <> fleetID)
  end.
Proof.
  simpl. unfold ServeWS.
  destruct (v_FleetID _ _ _ v) as [[f ok] v'].
  case_bool_decide as Hf; [done|]. destruct ok; simpl; [|auto].
  case_bool_decide as H1; simpl; [auto|]. case_bool_decide as H2; simpl; [auto|].
  auto.
Qed.

(** ** Examples and witnesses *)
Lemma next_unregister h c q h' :
  h_running h = true -> h_unregister h = c :: q ->
  removeClient c (set_unregister h q) = Some h' -> hub_next h h'.
Proof. intros Hr Hq Hs. unfold hub_next. rewrite <- Hs. by apply hs_unregister. Qed.
Lemma next_fanout h m q ord h' :
  h_running h = true -> h_broadcast h = m :: q ->
  ord = elements (default ∅ (h_fleets h !! bm_fleetID m)) ->
  fanOut m ord (set_broadcast h q) = Some h' -> hub_next h h'.
Proof. intros Hr Hq -> Hs. unfold hub_next. rewrite <- Hs. by apply hs_fanout. Qed.

(** A client whose connection ends before the hub has taken its registration can be
    unregistered first, which does nothing, and registered afterwards: it stays in its
    fleet although its pumps have ended and nothing will unregister it. *)
Example register_unregister_race :
  exists h cl, hub_reachable h /\ h_clients h !! 0 = Some cl /\ cl_done cl = true /\
    h_register h = [] /\ h_unregister h = [] /\ h_closing h = [] /\ member 0 "f" (h_fleets h).
Proof.
  do 2 eexists. split.
  { eapply rtc_l; [apply (hs_connect NewHub "f" 0); [done|unfold queue_cap; simpl; lia]|].
    eapply rtc_l; [eapply (hs_close _ 0); [apply lookup_insert_eq|done]|].
    eapply rtc_l; [eapply (hs_closing _ [] 0 []); [done|unfold queue_cap; simpl; lia]|].
    eapply rtc_l; [eapply (next_unregister _ 0 []); vm_compute; reflexivity|].
    apply rtc_once. apply (hs_register _ 0 []); done. }
  split; [vm_compute; reflexivity|]. split_and!; try done.
  exists {[0]}. split; [vm_compute; reflexivity|]. by apply elem_of_singleton.
Qed.

(** One client of [fleet-a] that received one broadcast. *)
Definition demo_client : Client := MkClient "fleet-a" ["{}"%string] false [] false.
Definition demo_hub : Hub :=
  MkHub [] [] [] {["fleet-a"%string := {[0]}]} {[0 := demo_client]} true []
    [MkBroadcastMsg "fleet-a" "{}"].
Lemma demo_hub_reachable : hub_reachable demo_hub.
Proof.
  eapply rtc_l; [apply (hs_connect NewHub "fleet-a" 0); [done|unfold queue_cap; simpl; lia]|].
  eapply rtc_l; [apply (hs_register _ 0 []); done|].
  eapply rtc_l; [apply (hs_publish _ (MkBroadcastMsg "fleet-a" "{}"));
                 apply Nat.ltb_lt; vm_compute; reflexivity|].
  apply rtc_once. apply (next_fanout _ (MkBroadcastMsg "fleet-a" "{}") [] [0]);
    vm_compute; reflexivity.
Qed.

Lemma hub_never_panics_witness : hub_reachable demo_hub /\ ~ hub_step demo_hub None.
Proof. exact (conj demo_hub_reachable (hub_never_panics demo_hub demo_hub_reachable)). Defined.

Lemma hub_isolation_witness :
  member 0 "fleet-a" (h_fleets demo_hub) /\
  exists pre post, fleet_log "fleet-a" (h_log demo_hub) = pre ++ ["{}"%string] ++ post /\
    (member 0 "fleet-a" (h_fleets demo_hub) -> post = []).
Proof.
  split; [exists {[0]}; split; [reflexivity|by apply elem_of_singleton]|].
  exact (proj2 (hub_isolation demo_hub 0 demo_client demo_hub_reachable eq_refl)).
Defined.

Lemma hub_shutdown_closes_witness :
  exists h', shutdown demo_hub = Some h' /\ h_fleets h' = ∅ /\
    exists cl', h_clients h' !! 0 = Some cl' /\ cl_closed cl' = true.
Proof.
  destruct (hub_shutdown_closes demo_hub demo_hub_reachable) as (h' & Hs & _ & Hf & Hc).
  exists h'. split; [exact Hs|]. split; [exact Hf|].
  destruct (Hc 0 "fleet-a"%string) as (cl' & H1 & _ & H2);
    [exists {[0]}; split; [reflexivity|by apply elem_of_singleton]|].
  exists cl'. split; assumption.
Defined.
