(* ===== verification/Client.v ===== *)
(** * The two pumps of a WebSocket client: [serving/internal/ws/client.go]

    A connected client is two goroutines, [readPump] and [writePump], the channel [send]
    the hub fills and closes, and a [sync.Once] through which whichever pump ends first
    closes [done] and asks the hub to unregister the client. The connection is the
    environment's: a read or a write may fail at any time, and fails once the connection
    is closed. [Hub] sees of all this what [hub_view] shows. *)
From S2P Require Import Prelude GoNum Json Events Hub.

(** What is written to the connection. *)
Inductive frame := Text (data : string) | AppPing (data : string) | PingFrame | CloseFrame.
(** Where a pump is: in its loop; past it, with its deferred calls ahead; about to call
    [close]; inside the function of [once], sending to [unregister]; ended. *)
Inductive pump := Looping | Deferred | Calling | InOnce | Exited.
Inductive once := NotRun | Running | Ran.
#[export] Instance pump_eq_dec : EqDecision pump.
Proof. solve_decision. Defined.
#[export] Instance once_eq_dec : EqDecision once.
Proof. solve_decision. Defined.

Record conn_client := MkConnClient {
  cc_fleetID : string;
  cc_send : list string; cc_closed : bool;     (* the channel, and whether the hub closed it *)
  cc_taken : list string;                      (* received from it so far *)
  cc_frames : list frame;                      (* written to the connection *)
  cc_conn_closed : bool;
  cc_done : bool;                              (* [done] is closed *)
  cc_once : once;
  cc_read : pump; cc_write : pump;
  cc_unregistered : nat                        (* sends to [unregister] that went through *)
}.
(** [ServeWS] starts both pumps of a [newClient]. *)
Definition open_client (fleetID : string) : conn_client :=
  MkConnClient fleetID [] false [] [] false false NotRun Looping Looping 0.

Definition set_read (p : pump) (c : conn_client) : conn_client :=
  MkConnClient (cc_fleetID c) (cc_send c) (cc_closed c) (cc_taken c) (cc_frames c)
    (cc_conn_closed c) (cc_done c) (cc_once c) p (cc_write c) (cc_unregistered c).
Definition set_write (p : pump) (c : conn_client) : conn_client :=
  MkConnClient (cc_fleetID c) (cc_send c) (cc_closed c) (cc_taken c) (cc_frames c)
    (cc_conn_closed c) (cc_done c) (cc_once c) (cc_read c) p (cc_unregistered c).
Definition set_send (q : list string) (closed : bool) (c : conn_client) : conn_client :=
  MkConnClient (cc_fleetID c) q closed (cc_taken c) (cc_frames c)
    (cc_conn_closed c) (cc_done c) (cc_once c) (cc_read c) (cc_write c) (cc_unregistered c).
Definition add_frames (fs : list frame) (c : conn_client) : conn_client :=
  MkConnClient (cc_fleetID c) (cc_send c) (cc_closed c) (cc_taken c) (cc_frames c ++ fs)
    (cc_conn_closed c) (cc_done c) (cc_once c) (cc_read c) (cc_write c) (cc_unregistered c).
Definition take_msg (x : string) (q : list string) (c : conn_client) : conn_client :=
  MkConnClient (cc_fleetID c) q (cc_closed c) (cc_taken c ++ [x]) (cc_frames c)
    (cc_conn_closed c) (cc_done c) (cc_once c) (cc_read c) (cc_write c) (cc_unregistered c).
Definition close_conn (c : conn_client) : conn_client :=
  MkConnClient (cc_fleetID c) (cc_send c) (cc_closed c) (cc_taken c) (cc_frames c)
    true (cc_done c) (cc_once c) (cc_read c) (cc_write c) (cc_unregistered c).

(** A write to the connection: what arrives, when it succeeds. *)
Definition write_frame (ok : bool) (f : frame) (c : conn_client) : bool * conn_client :=
  if ok && negb (cc_conn_closed c) then (true, add_frames [f] c) else (false, c).

(** ** The iterations of [writePump] *)
Definition on_message (ok : bool) (x : string) (q : list string) (c : conn_client) : conn_client :=
  let '(written, c') := write_frame ok (Text x) (take_msg x q c) in
  if written : bool then c' else set_write Deferred c'.
Definition app_ping : string := default ""%string (marshal_event PingEvent).
Definition on_tick (ok1 ok2 : bool) (c : conn_client) : conn_client :=
  let '(pinged, c1) := write_frame ok1 PingFrame c in
  if negb pinged then set_write Deferred c1
  else let '(written, c2) := write_frame ok2 (AppPing app_ping) c1 in
       if written : bool then c2 else set_write Deferred c2.
(** Its deferred function, up to the call of [close]. *)
Definition on_deferred (ok : bool) (c : conn_client) : conn_client :=
  set_write Calling (close_conn (write_frame ok CloseFrame c).2).

(** ** [close], called by the pump that [set] sets; [None]: [done] is closed twice. *)
Definition start_once (set : pump -> conn_client -> conn_client) (c : conn_client)
  : option conn_client :=
  if cc_done c then None
  else Some (set InOnce (MkConnClient (cc_fleetID c) (cc_send c) (cc_closed c) (cc_taken c)
    (cc_frames c) (cc_conn_closed c) true Running (cc_read c) (cc_write c) (cc_unregistered c))).
Definition finish_once (set : pump -> conn_client -> conn_client) (c : conn_client) : conn_client :=
  set Exited (MkConnClient (cc_fleetID c) (cc_send c) (cc_closed c) (cc_taken c)
    (cc_frames c) (cc_conn_closed c) (cc_done c) Ran (cc_read c) (cc_write c) (S (cc_unregistered c))).

(** Either pump, as what reads and sets its place. *)
Inductive side := Reader | Writer.
Definition at_side (s : side) (c : conn_client) : pump :=
  match s with Reader => cc_read c | Writer => cc_write c end.
Definition set_side (s : side) : pump -> conn_client -> conn_client :=
  match s with Reader => set_read | Writer => set_write end.

(** What the pumps do on their own: everything but a tick and an error of the
    connection while it is open. *)
Inductive pump_step (c : conn_client) : option conn_client -> Prop :=
| ps_read_closed :                (* reading a closed connection fails *)
    cc_read c = Looping -> cc_conn_closed c = true -> pump_step c (Some (set_read Calling c))
| ps_message ok x q :
    cc_write c = Looping -> cc_send c = x :: q -> pump_step c (Some (on_message ok x q c))
| ps_send_closed :
    cc_write c = Looping -> cc_send c = [] -> cc_closed c = true ->
    pump_step c (Some (set_write Deferred c))
| ps_done :
    cc_write c = Looping -> cc_done c = true -> pump_step c (Some (set_write Deferred c))
| ps_deferred ok : cc_write c = Deferred -> pump_step c (Some (on_deferred ok c))
| ps_once s : at_side s c = Calling -> cc_once c = NotRun -> pump_step c (start_once (set_side s) c)
| ps_once_ran s : at_side s c = Calling -> cc_once c = Ran -> pump_step c (Some (set_side s Exited c))
| ps_unregister s :               (* the hub's queue takes the client *)
    at_side s c = InOnce -> pump_step c (Some (finish_once (set_side s) c)).
(** And with the rest of the world: the peer, the ticker and the hub. *)
Inductive client_step (c : conn_client) : option conn_client -> Prop :=
| cs_pump c' : pump_step c c' -> client_step c c'
| cs_read_error : cc_read c = Looping -> client_step c (Some (set_read Calling c))
| cs_tick ok1 ok2 : cc_write c = Looping -> client_step c (Some (on_tick ok1 ok2 c))
| cs_enqueue x :
    cc_closed c = false -> length (cc_send c) < sendBufferSize ->
    client_step c (Some (set_send (cc_send c ++ [x]) false c))
| cs_hub_close : cc_closed c = false -> client_step c (Some (set_send (cc_send c) true c)).

Definition client_next (c c' : conn_client) : Prop := client_step c (Some c').
Definition pump_next (c c' : conn_client) : Prop := pump_step c (Some c').
Definition client_reachable (c : conn_client) : Prop :=
  exists fleetID, rtc client_next (open_client fleetID) c.

(** ** The invariant *)

(** The hub's messages among what was written. *)
Definition texts (fs : list frame) : list string :=
  flat_map (fun f => match f with Text x => [x] | _ => [] end) fs.
(** The writer is past its deferred close of the connection. *)
Definition past_close (p : pump) : bool :=
  match p with Looping | Deferred => false | _ => true end.
(** What the place of a pump says of [once]. *)
Definition once_at (p : pump) (o : once) : Prop :=
  match p with InOnce => o = Running | Exited => o = Ran | _ => True end.

Record client_inv (c : conn_client) : Prop := {
  ci_done : cc_done c = negb (bool_decide (cc_once c = NotRun));
  ci_unregistered : cc_unregistered c = if decide (cc_once c = Ran) then 1 else 0;
  ci_read : once_at (cc_read c) (cc_once c);
  ci_write : once_at (cc_write c) (cc_once c);
  ci_running : cc_once c = Running ->
    (cc_read c = InOnce /\ cc_write c <> InOnce) \/ (cc_write c = InOnce /\ cc_read c <> InOnce);
  ci_read_place : cc_read c <> Deferred;
  ci_conn : cc_conn_closed c = past_close (cc_write c);
  ci_texts : texts (cc_frames c) = cc_taken c \/
             (cc_write c <> Looping /\ exists x, cc_taken c = texts (cc_frames c) ++ [x]);
  ci_close : exists fs last, cc_frames c = fs ++ last /\ CloseFrame ∉ fs /\
             (last = [] \/ (last = [CloseFrame] /\ cc_conn_closed c = true));
  ci_cap : length (cc_send c) <= sendBufferSize
}.

Lemma texts_snoc fs f : texts (fs ++ [f]) = texts fs ++ texts [f].
Proof. apply flat_map_app. Qed.

Lemma open_client_inv f : client_inv (open_client f).
Proof.
  split; simpl; try done.
  - by left.
  - exists [], []. split; [done|]. split; [apply not_elem_of_nil|by left].
  - unfold sendBufferSize. lia.
Qed.

(** Nothing but a message or a ping is written while the connection is open. *)
Lemma open_frames c fs' :
  client_inv c -> cc_conn_closed c = false -> CloseFrame ∉ fs' ->
  exists fs last, cc_frames c ++ fs' = fs ++ last /\ CloseFrame ∉ fs /\
    (last = [] \/ (last = [CloseFrame] /\ cc_conn_closed c = true)).
Proof.
  intros Hi Ho Hn. destruct (ci_close c Hi) as (fs & l & E & Hfs & [->|[_ Hc]]); [|congruence].
  exists (fs ++ fs'), []. rewrite E, !app_nil_r. split; [done|]. split; [|by left].
  by intros [?|?]%elem_of_app.
Qed.
Lemma still_looping c : client_inv c -> cc_write c = Looping -> texts (cc_frames c) = cc_taken c.
Proof. intros Hi Hw. by destruct (ci_texts c Hi) as [?|[? _]]. Qed.

(** A step of one pump that leaves the connection and the messages alone. *)
Definition same_traffic (c c' : conn_client) : Prop :=
  cc_frames c' = cc_frames c /\ cc_taken c' = cc_taken c /\
  cc_conn_closed c' = cc_conn_closed c /\ length (cc_send c') <= sendBufferSize /\
  past_close (cc_write c') = past_close (cc_write c) /\
  (cc_write c <> Looping -> cc_write c' <> Looping).
Definition same_once (c c' : conn_client) : Prop :=
  cc_done c' = cc_done c /\ cc_once c' = cc_once c /\ cc_unregistered c' = cc_unregistered c.

Lemma once_ok c c' :
  client_inv c -> same_traffic c c' ->
  cc_done c' = negb (bool_decide (cc_once c' = NotRun)) ->
  cc_unregistered c' = (if decide (cc_once c' = Ran) then 1 else 0) ->
  once_at (cc_read c') (cc_once c') -> once_at (cc_write c') (cc_once c') ->
  (cc_once c' = Running ->
    (cc_read c' = InOnce /\ cc_write c' <> InOnce) \/ (cc_write c' = InOnce /\ cc_read c' <> InOnce)) ->
  cc_read c' <> Deferred -> client_inv c'.
Proof.
  intros Hi (Ef & Et & Ec & Hcap & Ep & Hl) ? ? ? ? ? ?.
  split; try done; rewrite ?Ef, ?Et, ?Ec, ?Ep; try apply Hi.
  destruct (ci_texts c Hi) as [?|[? ?]]; auto.
Qed.

(** What the writer does with a message, a tick and at its end. *)
Lemma on_message_inv ok x q c :
  client_inv c -> cc_write c = Looping -> cc_send c = x :: q -> client_inv (on_message ok x q c).
Proof.
  intros Hi Hw Hq. pose proof (still_looping c Hi Hw) as Ht. pose proof (ci_conn c Hi) as Hc.
  pose proof (ci_cap c Hi) as Hcap. rewrite Hq in Hcap. rewrite Hw in Hc.
  pose proof (open_frames c [Text x] Hi Hc ltac:(set_solver)) as Hf.
  unfold on_message, write_frame. simpl. rewrite Hc, andb_true_r. destruct ok.
  - split; simpl in *; try apply Hi; try lia; [by rewrite texts_snoc, Ht; left|done].
  - split; simpl in *; try apply Hi; try lia; try done.
    + intros [[? ?]|[? ?]]%(ci_running c Hi); [by left|congruence].
    + right. split; [done|]. exists x. by rewrite Ht.
Qed.

Lemma on_tick_inv ok1 ok2 c :
  client_inv c -> cc_write c = Looping -> client_inv (on_tick ok1 ok2 c).
Proof.
  intros Hi Hw. pose proof (still_looping c Hi Hw) as Ht. pose proof (ci_conn c Hi) as Hc.
  rewrite Hw in Hc.
  pose proof (open_frames c [PingFrame] Hi Hc ltac:(set_solver)) as Hf1.
  pose proof (open_frames c ([PingFrame] ++ [AppPing app_ping]) Hi Hc ltac:(set_solver)) as Hf2.
  assert (Hr : cc_once c = Running -> cc_read c = InOnce).
  { intros [[? ?]|[? ?]]%(ci_running c Hi); [done|congruence]. }
  unfold on_tick, write_frame. rewrite Hc, andb_true_r.
  destruct ok1; simpl; [rewrite Hc, andb_true_r; destruct ok2|];
    (split; simpl; rewrite ?texts_snoc, ?app_nil_r, <- ?(assoc_L (++));
     first [apply Hi|done|by left|by intros ?%Hr; left|by rewrite ?Hw, ?Hc|idtac]).
Qed.

Lemma on_deferred_inv ok c : client_inv c -> cc_write c = Deferred -> client_inv (on_deferred ok c).
Proof.
  intros Hi Hw. pose proof (ci_conn c Hi) as Hc. rewrite Hw in Hc. simpl in Hc.
  assert (Hr : cc_once c = Running -> cc_read c = InOnce).
  { intros [[? ?]|[? ?]]%(ci_running c Hi); [done|congruence]. }
  destruct (open_frames c [] Hi Hc (not_elem_of_nil _)) as (fs & l & Efs & Hfs & Hl).
  rewrite app_nil_r in Efs. assert (l = []) as -> by (destruct Hl as [?|[_ ?]]; congruence).
  rewrite app_nil_r in Efs.
  unfold on_deferred, write_frame. rewrite Hc, andb_true_r. destruct ok; simpl;
    (split; simpl; first [apply Hi|done|by intros ?%Hr; left|idtac]).
  - rewrite texts_snoc, app_nil_r. destruct (ci_texts c Hi) as [?|[? ?]]; auto.
  - exists fs, [CloseFrame]. rewrite Efs. auto.
  - destruct (ci_texts c Hi) as [?|[? ?]]; auto.
  - exists fs, []. rewrite Efs, app_nil_r. auto.
Qed.

(** ** Every step keeps the invariant, and none panics *)

(** A pump moves from one place to another, both before [close]. *)
Lemma set_read_inv c : client_inv c -> cc_read c = Looping -> client_inv (set_read Calling c).
Proof.
  intros Hi Hr. destruct Hi. split; simpl; try done.
  intros [[? ?]|[? ?]]%ci_running0; [congruence|by right].
Qed.
Lemma set_write_inv c : client_inv c -> cc_write c = Looping -> client_inv (set_write Deferred c).
Proof.
  intros Hi Hw. pose proof (still_looping c Hi Hw) as Ht. destruct Hi. rewrite Hw in *.
  split; simpl; try done; [|by left].
  intros [[? ?]|[? ?]]%ci_running0; [by left|done].
Qed.

Lemma start_once_inv s c :
  client_inv c -> at_side s c = Calling -> cc_once c = NotRun ->
  exists c', start_once (set_side s) c = Some c' /\ client_inv c'.
Proof.
  intros Hi Hs Ho. pose proof Hi as []. unfold start_once. rewrite ci_done0, Ho. simpl.
  eexists. split; [done|]. rewrite Ho in *.
  destruct s; simpl in *; apply (once_ok c); try done; unfold same_traffic; simpl; rewrite ?Hs in *;
    repeat split; try done; try (by destruct (cc_read c)); try (by destruct (cc_write c)).
  - intros _. left. split; [done|]. by intros E; rewrite E in ci_write0.
  - intros _. right. split; [done|]. by intros E; rewrite E in ci_read0.
Qed.

Lemma leave_inv s c :
  client_inv c -> at_side s c = Calling -> cc_once c = Ran -> client_inv (set_side s Exited c).
Proof.
  intros Hi Hs Ho. pose proof Hi as []. rewrite Ho in *.
  destruct s; simpl in *; apply (once_ok c); try done; unfold same_traffic; simpl;
    rewrite ?Ho, ?Hs in *; repeat split; try done.
Qed.

Lemma finish_once_inv s c :
  client_inv c -> at_side s c = InOnce -> client_inv (finish_once (set_side s) c).
Proof.
  intros Hi Hs. pose proof Hi as [].
  assert (Ho : cc_once c = Running) by (destruct s; simpl in Hs; rewrite Hs in *; done).
  rewrite Ho in *. simpl in *.
  assert (Hother : once_at (cc_read (finish_once (set_side s) c)) Ran /\
                   once_at (cc_write (finish_once (set_side s) c)) Ran).
  { destruct (ci_running0 eq_refl) as [[? ?]|[? ?]], s; simpl in *; try done;
      split; try done; [by destruct (cc_write c)|by destruct (cc_read c)]. }
  apply (once_ok c); destruct s; simpl in *; unfold same_traffic; simpl; rewrite ?Hs in *; try tauto;
    try done; try (by rewrite ci_unregistered0).
Qed.

Lemma pump_step_inv c o :
  client_inv c -> pump_step c o -> exists c', o = Some c' /\ client_inv c'.
Proof.
  intros Hi Hs. destruct Hs; eauto using set_read_inv, set_write_inv, on_message_inv,
    on_deferred_inv, start_once_inv, leave_inv, finish_once_inv.
Qed.
Lemma client_step_inv c o :
  client_inv c -> client_step c o -> exists c', o = Some c' /\ client_inv c'.
Proof.
  intros Hi Hs. destruct Hs; eauto using pump_step_inv, set_read_inv, on_tick_inv.
  - eexists. split; [done|]. destruct Hi. split; simpl; try done. rewrite length_app. simpl. lia.
  - eexists. split; [done|]. destruct Hi. by split.
Qed.
Lemma client_reachable_inv c : client_reachable c -> client_inv c.
Proof.
  intros [f Hr]. refine (rtc_ind_r (fun c' => client_inv c') _ _ _ _ Hr); [apply open_client_inv|].
  intros c1 c2 _ Hn Hi. by destruct (client_step_inv c1 _ Hi Hn) as (? & [= ->] & ?).
Qed.

(** ** The properties *)

(** The text messages a browser receives: the hub's, and the pings among them. *)
Definition text_messages (fs : list frame) : list string :=
  flat_map (fun f => match f with Text x | AppPing x => [x] | _ => [] end) fs.
Definition ping_of (f : frame) : Prop := match f with AppPing x => x = app_ping | _ => True end.
Lemma text_messages_elem fs x :
  Forall ping_of fs -> x ∈ text_messages fs -> x ∈ texts fs \/ x = app_ping.
Proof.
  induction 1 as [|f fs Hf _ IH]; [by intros ?%elem_of_nil|].
  unfold text_messages, texts in *. cbn [flat_map]. rewrite !elem_of_app.
  intros [Hx|Hx]; [|destruct (IH Hx); auto].
  destruct f as [y|y| |]; [auto| |by apply elem_of_nil in Hx..].
  apply list_elem_of_singleton in Hx as ->. by right.
Qed.
Lemma client_pings c : client_reachable c -> Forall ping_of (cc_frames c).
Proof.
  intros [f Hr]. apply (rtc_invariant client_next (fun c => Forall ping_of (cc_frames c)) (open_client f));
    [|exact Hr|constructor].
  intros c1 c2 Hs Hi. unfold client_next in Hs.
  assert (Hw : forall ok fr c, ping_of fr -> Forall ping_of (cc_frames c) ->
    Forall ping_of (cc_frames (write_frame ok fr c).2)).
  { intros ok fr c0 Hfr Hc0. unfold write_frame. destruct (ok && _); [|done].
    apply Forall_app. split; [done|by apply Forall_singleton]. }
  inversion Hs as [o Hp| |ok1 ok2 _| |]; subst; try done.
  - inversion Hp as [|ok x q Hwr Hq| | |ok Hwr|sd Hsd Ho E|sd|sd]; subst; try done.
    + unfold on_message. pose proof (Hw ok (Text x) (take_msg x q c1) I Hi) as H1.
      destruct (write_frame _ _ _) as [[] c']; done.
    + unfold on_deferred. simpl. by apply Hw.
    + unfold start_once in E. destruct (cc_done c1); [done|]. injection E as <-. by destruct sd.
    + by destruct sd.
    + by destruct sd.
  - unfold on_tick. pose proof (Hw ok1 PingFrame c1 I Hi) as H1.
    destruct (write_frame ok1 PingFrame c1) as [[] c2']; simpl in *; [|done].
    pose proof (Hw ok2 (AppPing app_ping) c2' eq_refl H1) as H2.
    by destruct (write_frame ok2 _ c2') as [[] c3].
Qed.

(** C13. However its two pumps, the hub, the ticker and the peer interleave, a client
    closes [done] at most once: no step panics. It is unregistered at most once, and
    exactly when the function of [once] is through; when both pumps have ended it was
    unregistered, and its connection is closed. Its connection is closed exactly from
    the end of the writer's loop on, and nothing is written after the close frame; the
    messages written are those taken from [send], in order, all of them but possibly
    the last, whose write failed and ended the writer's loop. *)
Theorem client_shuts_once c (Hc : client_reachable c) :
  (forall o, client_step c o -> is_Some o) /\
  (cc_done c = true <-> cc_once c <> NotRun) /\
  cc_unregistered c = (if decide (cc_once c = Ran) then 1 else 0) /\
  (cc_read c = Exited \/ cc_write c = Exited -> cc_unregistered c = 1) /\
  (cc_conn_closed c = true <-> cc_write c <> Looping /\ cc_write c <> Deferred) /\
  (forall fs1 fs2, cc_frames c = fs1 ++ CloseFrame :: fs2 -> fs2 = [] /\ cc_conn_closed c = true) /\
  (cc_taken c = texts (cc_frames c) \/
   (cc_write c <> Looping /\ exists x, cc_taken c = texts (cc_frames c) ++ [x])).
Proof.
  pose proof (client_reachable_inv c Hc) as Hi. pose proof Hi as [].
  split; [intros o Hs; destruct (client_step_inv c o Hi Hs) as (? & -> & _); eauto|].
  split; [rewrite ci_done0; destruct (cc_once c); simpl; naive_solver|].
  split; [done|]. split.
  { rewrite ci_unregistered0. intros [E|E]; rewrite E in *; simpl in *; by rewrite decide_True. }
  split; [rewrite ci_conn0; destruct (cc_write c); simpl; naive_solver|].
  split; [|destruct ci_texts0; auto].
  intros fs1 fs2 E. destruct ci_close0 as (fs & l & E' & Hfs & Hl). rewrite E in E'.
  destruct Hl as [->|[-> Hcl]].
  - rewrite app_nil_r in E'. subst. set_solver.
  - split; [|done]. destruct fs2 as [|f fs2 _] using rev_ind; [done|]. exfalso. apply Hfs.
    rewrite app_comm_cons, (assoc_L (++)) in E'. apply app_inj_tail in E' as [<- _]. set_solver.
Qed.

(** What is left for a pump to do. *)
Definition rank (p : pump) : nat :=
  match p with Looping => 4 | Deferred => 3 | Calling => 2 | InOnce => 1 | Exited => 0 end.
Definition pumps_left (c : conn_client) : nat :=
  rank (cc_read c) + rank (cc_write c) + length (cc_send c).

Lemma pump_step_left c c' : pump_step c (Some c') -> pumps_left c' < pumps_left c.
Proof.
  unfold pumps_left. intros Hs. remember (Some c') as o eqn:E.
  destruct Hs as [Hr|ok x q Hw Hq|Hw|Hw|ok Hw|s Hs|s Hs|s Hs]; try injection E as <-;
    try (destruct s; unfold start_once in *; destruct (cc_done c); simplify_eq/=; rewrite Hs; simpl; lia);
    simpl; rewrite ?Hr, ?Hw; simpl; try lia.
  - unfold on_message, write_frame. destruct (ok && _); simpl; rewrite Hq, ?Hw; simpl; lia.
  - unfold on_deferred, write_frame. destruct (ok && _); simpl; lia.
Qed.

(** Something has ended the client: the hub closed [send], the connection failed, or a
    pump is on its way out. *)
Definition ending (c : conn_client) : Prop :=
  cc_closed c = true \/ cc_read c <> Looping \/ cc_write c <> Looping.

Lemma pump_step_ending c c' : pump_step c (Some c') -> ending c -> ending c'.
Proof.
  unfold ending. intros Hs. remember (Some c') as o eqn:E.
  destruct Hs as [Hr|ok x q Hw Hq|Hw|Hw|ok Hw|s Hs|s Hs|s Hs]; try injection E as <-;
    try (destruct s; unfold start_once in *; destruct (cc_done c); simplify_eq/=; naive_solver);
    try (simpl; naive_solver).
  unfold on_message, write_frame. destruct (ok && _); simpl; naive_solver.
Qed.

(** The pumps of a client can only wait in their loops, for a message or the peer. *)
Lemma pumps_stuck c :
  client_inv c -> (forall o, ~ pump_step c o) ->
  (cc_read c = Exited /\ cc_write c = Exited) \/
  (cc_read c = Looping /\ cc_write c = Looping /\ cc_closed c = false /\ cc_send c = []).
Proof.
  intros Hi Hst. pose proof Hi as [].
  assert (Hnone : forall s, at_side s c = Looping \/ at_side s c = Exited).
  { intros s. destruct (at_side s c) eqn:Hs; auto; exfalso.
    - destruct s; simpl in Hs; [done|]. by apply (Hst _ (ps_deferred c true Hs)).
    - destruct (cc_once c) eqn:Ho.
      + by apply (Hst _ (ps_once c s Hs Ho)).
      + destruct (ci_running0 eq_refl) as [[Hx _]|[Hx _]];
          [by apply (Hst _ (ps_unregister c Reader Hx))|by apply (Hst _ (ps_unregister c Writer Hx))].
      + by apply (Hst _ (ps_once_ran c s Hs Ho)).
    - by apply (Hst _ (ps_unregister c s Hs)). }
  destruct (Hnone Writer) as [Hw|Hw], (Hnone Reader) as [Hr|Hr]; simpl in Hw, Hr; auto.
  - right. split; [done|]. split; [done|]. destruct (cc_send c) as [|x q] eqn:Eq.
    + destruct (cc_closed c) eqn:Ec; [|done]. exfalso. by apply (Hst _ (ps_send_closed c Hw Eq Ec)).
    + exfalso. by apply (Hst _ (ps_message c true x q Hw Eq)).
  - exfalso. rewrite Hr in ci_read0. simpl in ci_read0. rewrite ci_read0 in ci_done0.
    by apply (Hst _ (ps_done c Hw ci_done0)).
  - exfalso. rewrite Hw in ci_conn0. by apply (Hst _ (ps_read_closed c Hr ci_conn0)).
Qed.

(** C30. The pumps always come to rest: from any reachable state their own steps cannot
    go on for ever, and while some step is left they have not stopped. Where they rest,
    either the client is alive, with both pumps in their loops and every message that
    was in [send] taken, or both have returned, the connection is closed and the hub
    was told exactly once. Once anything ends the client, the hub closing [send], an error
    of the connection or either pump leaving its loop, they can only come to rest
    returned: no goroutine is leaked while the hub takes its unregistrations. *)
Theorem pumps_finish c (Hc : client_reachable c) :
  Acc (flip pump_next) c /\
  forall c', rtc pump_next c c' -> (forall o, ~ pump_step c' o) ->
    (cc_read c' = Exited /\ cc_write c' = Exited /\ cc_conn_closed c' = true /\
     cc_unregistered c' = 1) \/
    (~ ending c /\ cc_read c' = Looping /\ cc_write c' = Looping /\ cc_send c' = []).
Proof.
  split.
  - clear Hc. induction c as [c IH] using (induction_ltof1 _ pumps_left).
    constructor. intros c' Hs. apply IH. by apply pump_step_left.
  - intros c' Hr Hst. pose proof (client_reachable_inv c Hc) as Hi.
    assert (client_inv c' /\ (ending c -> ending c')) as [Hi' He].
    { refine (rtc_ind_r (fun c' => client_inv c' /\ (ending c -> ending c')) _ _ _ _ Hr); [done|].
      intros c1 c2 _ Hs [Hi1 He1]. destruct (pump_step_inv c1 _ Hi1 Hs) as (? & [= <-] & ?).
      split; [done|]. intros H. eapply pump_step_ending; [exact Hs|auto]. }
    destruct (pumps_stuck c' Hi' Hst) as [[E1 E2]|(E1 & E2 & E3 & E4)].
    + left. destruct Hi'. rewrite E1, E2 in *. simpl in *. rewrite ci_conn0, ci_unregistered0.
      by rewrite decide_True.
    + right. split; [|done]. intros [?|[?|?]]%He; congruence.
Qed.

(** A client that gets one message before the hub closes it. *)
Definition sample_client : conn_client :=
  set_send ["hello"%string] true (open_client "f1"%string).
Definition sample_calling : conn_client :=
  on_deferred true (set_write Deferred (on_message true "hello"%string [] sample_client)).
Definition sample_once : conn_client :=
  default sample_calling (start_once set_write sample_calling).
Definition sample_closed : conn_client :=
  set_read Exited (set_read Calling (finish_once set_write sample_once)).

Lemma sample_client_reachable : client_reachable sample_client.
Proof.
  exists "f1"%string.
  eapply rtc_l; [apply (cs_enqueue (open_client "f1"%string) "hello"%string);
                 [done|unfold sendBufferSize; simpl; lia]|].
  eapply rtc_l; [by apply cs_hub_close|]. apply rtc_refl.
Qed.
Lemma sample_runs : rtc pump_next sample_client sample_closed.
Proof.
  eapply rtc_l; [by apply (ps_message _ true "hello"%string [])|].
  eapply rtc_l; [by apply ps_send_closed|].
  eapply rtc_l; [by apply (ps_deferred _ true)|].
  apply (rtc_l _ _ sample_once); [by apply (ps_once sample_calling Writer)|].
  eapply rtc_l; [by apply (ps_unregister _ Writer)|].
  eapply rtc_l; [by apply ps_read_closed|].
  eapply rtc_l; [by apply (ps_once_ran _ Reader)|]. apply rtc_refl.
Qed.
Lemma sample_closed_reachable : client_reachable sample_closed.
Proof.
  destruct sample_client_reachable as [f Hf]. exists f. etrans; [exact Hf|].
  eapply rtc_subrel; [|exact sample_runs]. intros c c' Hs. by apply cs_pump.
Qed.

Lemma client_shuts_once_witness :
  client_reachable sample_closed /\ cc_unregistered sample_closed = 1 /\
  cc_frames sample_closed = [Text "hello"%string; CloseFrame] /\ cc_conn_closed sample_closed = true.
Proof.
  split; [exact sample_closed_reachable|].
  destruct (client_shuts_once sample_closed sample_closed_reachable) as (_ & _ & _ & H1 & H2 & _).
  split; [apply H1; by left|]. split; [reflexivity|]. by apply H2.
Defined.

Lemma pumps_finish_witness :
  client_reachable sample_client /\ Acc (flip pump_next) sample_client /\
  cc_unregistered sample_closed = 1.
Proof.
  split; [exact sample_client_reachable|].
  destruct (pumps_finish sample_client sample_client_reachable) as [Hacc Hrest].
  split; [exact Hacc|]. destruct (Hrest sample_closed sample_runs) as [(_ & _ & _ & H1)|(He & _)].
  - intros o Hs. destruct Hs as [| | | | |[]|[]|[]]; discriminate.
  - exact H1.
  - exfalso. apply He. by left.
Defined.

(** ** The hub's view *)

(** What [Hub] keeps of a client; there, [written] is what the writer took. *)
Definition hub_view (c : conn_client) : Client :=
  MkClient (cc_fleetID c) (cc_send c) (cc_closed c) (cc_taken c)
    (negb (bool_decide (cc_once c = NotRun))).
(** Client [k] of hub [h] is [c]: its state is the view of [c], and while it is in the
    function of [once] the hub has its send to [unregister] pending. *)
Definition hub_has (h : Hub) (k : cid) (c : conn_client) : Prop :=
  h_clients h !! k = Some (hub_view c) /\ (cc_once c = Running -> k ∈ h_closing h).

Lemma hub_has_stutter h k c c' :
  hub_has h k c -> hub_view c' = hub_view c -> (cc_once c' = Running -> cc_once c = Running) ->
  hub_has h k c'.
Proof. intros [H1 H2] Hv Ho. split; [by rewrite H1, Hv|auto]. Qed.

Lemma hub_take h k c c' x q :
  hub_has h k c -> cc_send c = x :: q -> cc_once c' = cc_once c ->
  hub_view c' = MkClient (cc_fleetID c) q (cc_closed c) (cc_taken c ++ [x])
                  (negb (bool_decide (cc_once c = NotRun))) ->
  exists h', hub_next h h' /\ hub_has h' k c'.
Proof.
  intros [H1 H2] Hq Ho Hv. eexists. split; [by apply (hs_write h k (hub_view c) x q)|].
  split; simpl; [by rewrite lookup_insert_eq, Hv|]. by rewrite Ho.
Qed.

(** C22. The hub's model of a client is what its pumps do: whatever step a client in any
    reachable state takes, the hub can follow it. A step of a pump, a tick or a read
    error is invisible to the hub, or one of its own steps for that client (the writer
    takes a message; a pump enters [close]; its send to [unregister], while that queue
    has room), after which the hub again holds the client's view; the two steps the hub
    itself takes for a client are [enqueue] and the close of [send]. *)
Theorem pumps_refine_hub h k c c'
    (Hc : client_reachable c) (Hh : hub_has h k c) (Hs : client_next c c')
    (Hroom : length (h_unregister h) < queue_cap) :
  hub_has h k c' \/ (exists h', hub_next h h' /\ hub_has h' k c') \/
  (exists x, enqueue x (hub_view c) = Some (true, hub_view c')) \/
  close_send (hub_view c) = Some (hub_view c').
Proof.
  pose proof (client_reachable_inv c Hc) as Hi. unfold client_next in Hs.
  remember (Some c') as o eqn:E.
  destruct Hs as [o Hp|Hr|ok1 ok2 Hw|x Ho Hl|Ho]; try injection E as <-.
  - destruct Hp as [Hr|ok x q Hw Hq|Hw|Hw|ok Hw|s Hs Hn|s Hs Hn|s Hs]; try injection E as <-.
    + by left.
    + right; left. apply (hub_take h k c _ x q Hh Hq);
        unfold on_message, write_frame; by destruct (ok && _).
    + by left.
    + by left.
    + left. apply (hub_has_stutter h k c); [done| |]; unfold on_deferred, write_frame;
        by destruct (ok && _).
    + right; left. unfold start_once in E. destruct (cc_done c); [done|]. injection E as <-.
      destruct Hh as [H1 H2]. eexists. split; [apply (hs_close h k (hub_view c)); [done|]|].
      * simpl. by rewrite Hn.
      * split; [simpl; rewrite lookup_insert_eq; by destruct s|]. intros _. simpl. set_solver.
    + left. apply (hub_has_stutter h k c); [done| |]; by destruct s.
    + right; left. destruct Hh as [H1 H2].
      assert (Hrun : cc_once c = Running).
      { destruct Hi, s; simpl in Hs; rewrite Hs in *; done. }
      destruct (list_elem_of_split _ _ (H2 Hrun)) as (q1 & q2 & Eq).
      eexists. split; [by apply (hs_closing h q1 k q2)|]. split; [|by destruct s].
      simpl. rewrite H1. unfold hub_view. rewrite Hrun. by destruct s.
  - by left.
  - left. unfold on_tick, write_frame. apply (hub_has_stutter h k c); [done| |];
      destruct (ok1 && _); simpl; try done; by destruct (ok2 && _).
  - right; right; left. exists x. unfold enqueue, chan_try_send. simpl. rewrite Ho.
    by rewrite (proj2 (Nat.ltb_lt _ _) Hl).
  - right; right; right. unfold close_send. simpl. by rewrite Ho.
Qed.

Definition sample_hub : Hub := set_clients NewHub {[0 := hub_view sample_client]}.

Lemma pumps_refine_hub_witness :
  hub_has sample_hub 0 sample_client /\
  exists h', hub_next sample_hub h' /\ hub_has h' 0 (on_message true "hello"%string [] sample_client).
Proof.
  assert (Hh : hub_has sample_hub 0 sample_client) by (split; [reflexivity|done]).
  split; [exact Hh|].
  destruct (pumps_refine_hub sample_hub 0 sample_client _ sample_client_reachable Hh
              (cs_pump _ _ (ps_message sample_client true "hello"%string [] eq_refl eq_refl)))
    as [[H1 _]|[H1|[[x H1]|H1]]].
  - simpl. unfold queue_cap. lia.
  - discriminate H1.
  - exact H1.
  - discriminate H1.
  - discriminate H1.
Defined.
