(* ===== verification/Subs.v ===== *)
(** * The Redis subscriptions of the hub: [startFleetSubscriptions], [drainTelemetry], [drainAlerts]

    A fleet's entry in the hub holds two Redis subscriptions, each with a goroutine that
    decodes what is published and queues it for broadcast. [addClient] starts them with
    the entry, [removeClient] and [shutdown] cancel and close them. Here they run beside
    the hub of [Hub], whose step of an arbitrary publication they refine. *)
From S2P Require Import Prelude GoNum Json Events Hub.

Inductive topic := Telemetry | Alerts.
Definition drain_payload (k : topic) : option json -> option string :=
  match k with Telemetry => drain_telemetry | Alerts => drain_alert end.

(** Where the goroutine is: in its select; offering an event to the hub; returned. *)
Inductive drain := Receiving | Offering (data : string) | Stopped.
Record subscription := MkSubscription {
  sb_topic : topic;
  sb_chan : list (option json);      (* delivered by Redis, not yet received *)
  sb_closed : bool;                  (* [Close] closed that channel *)
  sb_cancelled : bool;               (* the entry's [cancel] was called *)
  sb_at : drain;
  sb_taken : list (option json);     (* received so far *)
  sb_sent : list string              (* queued for broadcast so far *)
}.
Definition subscribe (k : topic) : subscription := MkSubscription k [] false false Receiving [] [].

Definition set_chan (q : list (option json)) (s : subscription) : subscription :=
  MkSubscription (sb_topic s) q (sb_closed s) (sb_cancelled s) (sb_at s) (sb_taken s) (sb_sent s).
Definition set_at (x : drain) (s : subscription) : subscription :=
  MkSubscription (sb_topic s) (sb_chan s) (sb_closed s) (sb_cancelled s) x (sb_taken s) (sb_sent s).
(** [cancel] and [Close]. *)
Definition unsubscribe (s : subscription) : subscription :=
  MkSubscription (sb_topic s) (sb_chan s) true true (sb_at s) (sb_taken s) (sb_sent s).
(** One message: an event to offer, or a payload that does not decode. *)
Definition receive (p : option json) (q : list (option json)) (s : subscription) : subscription :=
  MkSubscription (sb_topic s) q (sb_closed s) (sb_cancelled s)
    (match drain_payload (sb_topic s) p with Some data => Offering data | None => Receiving end)
    (sb_taken s ++ [p]) (sb_sent s).
Definition sent (data : string) (s : subscription) : subscription :=
  MkSubscription (sb_topic s) (sb_chan s) (sb_closed s) (sb_cancelled s) Receiving
    (sb_taken s) (sb_sent s ++ [data]).

(** What a goroutine does on its own, under the context of the hub ([done]: it has
    ended), when the hub's queue has room or not; with what it queues. *)
Inductive drain_step (done room : bool) (s : subscription) : subscription -> option string -> Prop :=
| ds_receive p q :
    sb_at s = Receiving -> sb_chan s = p :: q -> drain_step done room s (receive p q s) None
| ds_closed :
    sb_at s = Receiving -> sb_chan s = [] -> sb_closed s = true ->
    drain_step done room s (set_at Stopped s) None
| ds_offer data :
    sb_at s = Offering data -> room = true -> drain_step done room s (sent data s) (Some data)
| ds_cancelled :
    sb_at s <> Stopped -> done || sb_cancelled s = true ->
    drain_step done room s (set_at Stopped s) None.

(** ** The hub with its subscriptions *)
Record wired := MkWired {
  wd_hub : Hub;
  wd_subs : list (string * subscription);   (* every subscription ever started *)
  wd_done : bool                            (* the context of [Run] has ended *)
}.
Definition new_wired : wired := MkWired NewHub [] false.

(** [addClient] on the entry's side, before it changes the map. *)
Definition startFleetSubscriptions (c : cid) (h : Hub) (subs : list (string * subscription))
  : list (string * subscription) :=
  match h_clients h !! c with
  | None => subs
  | Some cl =>
      match h_fleets h !! cl_fleetID cl with
      | Some _ => subs
      | None => subs ++ [(cl_fleetID cl, subscribe Telemetry); (cl_fleetID cl, subscribe Alerts)]
      end
  end.
(** The entry of [fleetID] goes: its pair is cancelled (an earlier pair already was). *)
Definition stop_fleet (fleetID : string) (subs : list (string * subscription))
  : list (string * subscription) :=
  map (fun p => if bool_decide (p.1 = fleetID) then (p.1, unsubscribe p.2) else p) subs.
(** [removeClient] on the entry's side, after its change of the set of clients. *)
Definition stop_if_empty (c : cid) (h : Hub) (subs : list (string * subscription))
  : list (string * subscription) :=
  match h_clients h !! c with
  | None => subs
  | Some cl =>
      match h_fleets h !! cl_fleetID cl with
      | None => subs
      | Some cs => if decide (cs ∖ {[c]} = ∅) then stop_fleet (cl_fleetID cl) subs else subs
      end
  end.
Definition stop_all (h : Hub) (subs : list (string * subscription)) : list (string * subscription) :=
  foldr stop_fleet subs (elements (dom (h_fleets h))).

(** What [Run], Redis and the subscriptions' goroutines do. *)
Inductive inner_step (w : wired) : wired -> Prop :=
| wd_register c q :
    h_running (wd_hub w) = true -> h_register (wd_hub w) = c :: q ->
    inner_step w (MkWired (addClient c (set_register (wd_hub w) q))
                    (startFleetSubscriptions c (wd_hub w) (wd_subs w)) (wd_done w))
| wd_unregister c q h' :
    h_running (wd_hub w) = true -> h_unregister (wd_hub w) = c :: q ->
    removeClient c (set_unregister (wd_hub w) q) = Some h' ->
    inner_step w (MkWired h' (stop_if_empty c (wd_hub w) (wd_subs w)) (wd_done w))
| wd_shutdown h' :
    h_running (wd_hub w) = true -> wd_done w = true -> shutdown (wd_hub w) = Some h' ->
    inner_step w (MkWired h' (stop_all (wd_hub w) (wd_subs w)) (wd_done w))
| wd_fanout m q ord h' :
    h_running (wd_hub w) = true -> h_broadcast (wd_hub w) = m :: q ->
    ord ≡ₚ elements (default ∅ (h_fleets (wd_hub w) !! bm_fleetID m)) ->
    fanOut m ord (set_broadcast (wd_hub w) q) = Some h' ->
    inner_step w (MkWired h' (wd_subs w) (wd_done w))
| wd_delivered i f s p :          (* Redis delivers a message *)
    wd_subs w !! i = Some (f, s) -> sb_closed s = false ->
    inner_step w (MkWired (wd_hub w) (<[i := (f, set_chan (sb_chan s ++ [p]) s)]> (wd_subs w)) (wd_done w))
| wd_drain i f s s' o :
    wd_subs w !! i = Some (f, s) ->
    drain_step (wd_done w) (bool_decide (length (h_broadcast (wd_hub w)) < broadcast_cap)) s s' o ->
    inner_step w (MkWired
      (set_broadcast (wd_hub w) (h_broadcast (wd_hub w) ++ map (MkBroadcastMsg f) (option_list o)))
      (<[i := (f, s')]> (wd_subs w)) (wd_done w))
| wd_ctx_done : inner_step w (MkWired (wd_hub w) (wd_subs w) true).
(** And with the rest: handlers, the clients' pumps, [broadcastEvent]. *)
Inductive wired_step (w : wired) : wired -> Prop :=
| wd_inner w' : inner_step w w' -> wired_step w w'
| wd_outside h' :
    hub_next (wd_hub w) h' -> h_fleets h' = h_fleets (wd_hub w) ->
    h_log h' = h_log (wd_hub w) ->
    wired_step w (MkWired h' (wd_subs w) (wd_done w)).
Definition wired_reachable (w : wired) : Prop := rtc wired_step new_wired w.

(** ** What the hub's steps do to the entries and the broadcasts *)

(** Everything broadcast so far, fanned out or still queued. *)
Definition broadcasts (h : Hub) : list broadcastMsg := h_log h ++ h_broadcast h.

Lemma addClient_same c h :
  broadcasts (addClient c h) = broadcasts h /\
  forall f, is_Some (h_fleets (addClient c h) !! f) <->
    is_Some (h_fleets h !! f) \/ exists cl, h_clients h !! c = Some cl /\ cl_fleetID cl = f.
Proof.
  unfold addClient. destruct (h_clients h !! c) as [cl|]; (split; [done|]); intros f; simpl.
  - destruct (decide (cl_fleetID cl = f)) as [<-|Hne].
    + rewrite lookup_insert_eq. split; [eauto|by eexists].
    + rewrite lookup_insert_ne by done. split; [auto|intros [?|(cl' & [= <-] & ?)]]; done.
  - split; [auto|by intros [?|(? & ? & _)]].
Qed.

Lemma removeClient_same c h h' :
  removeClient c h = Some h' -> broadcasts h' = broadcasts h /\
  forall f, is_Some (h_fleets h' !! f) <-> is_Some (h_fleets h !! f) /\
    ~ (exists cl cs, h_clients h !! c = Some cl /\ cl_fleetID cl = f /\
         h_fleets h !! f = Some cs /\ cs ∖ {[c]} = ∅).
Proof.
  unfold removeClient. destruct (h_clients h !! c) as [cl|] eqn:Hcl.
  2:{ intros [= <-]. split; [done|]. intros f. split; [|by intros [? _]].
      intros ?. split; [done|]. by intros (? & ? & ? & _). }
  destruct (h_fleets h !! cl_fleetID cl) as [cs|] eqn:Hcs.
  2:{ intros [= <-]. split; [done|]. intros f. split; [|by intros [? _]].
      intros ?. split; [done|]. intros (? & ? & [= <-] & <- & E & _). congruence. }
  intros Hr.
  assert (exists cm cs', cs' = cs ∖ {[c]} /\ h' = set_clients (set_fleets h
            (if decide (cs' = ∅) then delete (cl_fleetID cl) (h_fleets h)
             else <[cl_fleetID cl := cs']> (h_fleets h))) cm) as (cm & cs' & Ecs & ->).
  { destruct (decide (c ∈ cs)) as [Hin|Hn].
    - destruct (close_send cl) as [cl'|]; [|done]. simpl in Hr. injection Hr as <-. eauto.
    - simpl in Hr. injection Hr as <-. exists (h_clients h), cs. split; [set_solver|done]. }
  split; [done|]. intros f. simpl. destruct (decide (cl_fleetID cl = f)) as [<-|Hne].
  - rewrite Hcs. destruct (decide (cs' = ∅)) as [E|E].
    + rewrite lookup_delete_eq. split; [by intros [? ?]|]. intros [_ []]. rewrite Ecs in E. eauto 8.
    + rewrite lookup_insert_eq. split; [|eauto]. intros _. split; [eauto|].
      intros (? & ? & [= <-] & _ & [= <-] & E'). congruence.
  - replace ((if decide (cs' = ∅) then delete (cl_fleetID cl) (h_fleets h)
              else <[cl_fleetID cl := cs']> (h_fleets h)) !! f) with (h_fleets h !! f).
    2:{ destruct (decide (cs' = ∅)); [by rewrite lookup_delete_ne|by rewrite lookup_insert_ne]. }
    split; [|by intros [? _]]. intros ?. split; [done|]. by intros (? & ? & [= <-] & ? & _).
Qed.

Lemma shutdown_same h h' :
  shutdown h = Some h' -> broadcasts h' = broadcasts h /\ h_fleets h' = ∅.
Proof.
  unfold shutdown. destruct (close_all _ _); [|done]. by intros [= <-].
Qed.

Lemma fanOut_same m q ord h h' :
  h_broadcast h = m :: q -> fanOut m ord (set_broadcast h q) = Some h' ->
  broadcasts h' = broadcasts h /\ forall f, is_Some (h_fleets h' !! f) <-> is_Some (h_fleets h !! f).
Proof.
  unfold fanOut, broadcasts. intros Hq. rewrite Hq. simpl.
  destruct (h_fleets h !! bm_fleetID m) as [cs|] eqn:Hcs.
  - destruct (fan_loop _ _ _ _) as [[cs' cm]|]; [|done]. simpl. intros [= <-]. simpl.
    split; [by rewrite <- (assoc_L (++))|]. intros f.
    destruct (decide (bm_fleetID m = f)) as [<-|Hne];
      [by rewrite lookup_insert_eq, Hcs; split; eauto|by rewrite lookup_insert_ne].
  - intros [= <-]. simpl. split; [by rewrite <- (assoc_L (++))|done].
Qed.

(** Broadcasts are never lost or reordered. *)
Lemma hub_next_broadcasts h h' :
  hub_next h h' -> exists new, broadcasts h' = broadcasts h ++ new.
Proof.
  intros Hs. unfold hub_next in Hs. remember (Some h') as o eqn:E.
  destruct Hs; try injection E as <-; try (exists []; rewrite app_nil_r; reflexivity).
  - exists []. rewrite app_nil_r. by apply (addClient_same c (set_register h q)).
  - exists []. rewrite app_nil_r. by apply (removeClient_same c (set_unregister h q)).
  - exists []. rewrite app_nil_r. by apply (fanOut_same m q ord h h').
  - exists []. rewrite app_nil_r. by apply shutdown_same.
  - exists [m]. unfold broadcasts. simpl. apply (assoc_L (++)).
Qed.

(** ** The invariant *)

(** The subscriptions of [f] that were not cancelled. *)
Definition running (f : string) (subs : list (string * subscription)) : list subscription :=
  map snd (List.filter (fun p => bool_decide (p.1 = f) && negb (sb_cancelled p.2)) subs).
Definition pair_of (entry : bool) : list topic := if entry then [Telemetry; Alerts] else [].

(** What a subscription received, decoded, is what it queued, but for the event it holds. *)
Record sub_ok (s : subscription) : Prop := {
  so_order : exists left_, omap (drain_payload (sb_topic s)) (sb_taken s) = sb_sent s ++ left_ /\
    match sb_at s with
    | Receiving => left_ = []
    | Offering data => left_ = [data]
    | Stopped => length left_ <= 1
    end;
  so_closed : sb_closed s = sb_cancelled s
}.
Record wired_inv (w : wired) : Prop := {
  wi_hub : hub_reachable (wd_hub w);
  wi_pairs : forall f, map sb_topic (running f (wd_subs w)) =
               pair_of (bool_decide (is_Some (h_fleets (wd_hub w) !! f)));
  wi_subs : forall f s, (f, s) ∈ wd_subs w ->
              sub_ok s /\ sublist (sb_sent s) (fleet_log f (broadcasts (wd_hub w)))
}.

Lemma running_app f l1 l2 : running f (l1 ++ l2) = running f l1 ++ running f l2.
Proof. unfold running. by rewrite List.filter_app, map_app. Qed.

Lemma running_stop f g subs :
  running g (stop_fleet f subs) = if decide (g = f) then [] else running g subs.
Proof.
  unfold running, stop_fleet. induction subs as [|[f' s] subs IH]; simpl; [by destruct (decide _)|].
  destruct (decide (g = f)) as [->|Hne].
  - destruct (bool_decide_reflect (f' = f)); simpl; [by rewrite andb_false_r|].
    by rewrite bool_decide_false.
  - destruct (bool_decide_reflect (f' = f)) as [->|]; simpl.
    + rewrite bool_decide_false by done. done.
    + destruct (bool_decide (f' = g) && _); simpl; by rewrite IH.
Qed.

Lemma running_stop_all g h subs :
  running g (stop_all h subs) = if decide (is_Some (h_fleets h !! g)) then [] else running g subs.
Proof.
  unfold stop_all.
  assert (Hl : forall l, running g (foldr stop_fleet subs l) = if decide (g ∈ l) then [] else running g subs).
  { induction l as [|f l IH]; simpl; [done|]. rewrite running_stop, IH.
    destruct (decide (g = f)), (decide (g ∈ l)), (decide (g ∈ f :: l)) as [|Hn]; try done; set_solver. }
  rewrite Hl. destruct (decide (g ∈ _)) as [E|E], (decide (is_Some _)) as [E'|E']; try done; exfalso.
  - apply E'. by apply elem_of_elements, elem_of_dom in E.
  - apply E. by apply elem_of_elements, elem_of_dom.
Qed.

(** Replacing a subscription by one as active. *)
Lemma running_insert g i f s s' subs :
  subs !! i = Some (f, s) -> sb_topic s' = sb_topic s -> sb_cancelled s' = sb_cancelled s ->
  map sb_topic (running g (<[i := (f, s')]> subs)) = map sb_topic (running g subs).
Proof.
  intros Hi Ht Hc. apply list_elem_of_split_length in Hi as (l1 & l2 & -> & ->).
  rewrite insert_app_r_alt, Nat.sub_diag by done. simpl.
  change ((f, s') :: l2) with ([(f, s')] ++ l2). change ((f, s) :: l2) with ([(f, s)] ++ l2).
  rewrite !running_app, !map_app. f_equal. f_equal. unfold running. simpl. rewrite Hc.
  destruct (bool_decide (f = g) && _); simpl; by rewrite ?Ht.
Qed.

Lemma unsubscribe_ok s : sub_ok s -> sub_ok (unsubscribe s).
Proof. by intros [? ?]. Qed.

Lemma elem_of_stop f g s subs :
  (g, s) ∈ stop_fleet f subs -> exists s0, (g, s0) ∈ subs /\ (s = s0 \/ s = unsubscribe s0).
Proof.
  intros ([f' s0] & E & Hin)%list_elem_of_fmap. exists s0.
  destruct (bool_decide _) in E; injection E as -> ->; auto.
Qed.
Lemma elem_of_stop_all g s h subs :
  (g, s) ∈ stop_all h subs -> exists s0, (g, s0) ∈ subs /\ (s = s0 \/ s = unsubscribe s0).
Proof.
  unfold stop_all. generalize (elements (dom (h_fleets h))). intros l. revert s.
  induction l as [|f l IH]; intros s Hin; simpl in Hin; [eauto|].
  apply elem_of_stop in Hin as (s1 & (s0 & H0 & H1)%IH & H2). exists s0. split; [done|].
  destruct H1 as [->| ->], H2 as [->| ->]; auto.
Qed.

Lemma drain_step_ok done room s s' o :
  sub_ok s -> drain_step done room s s' o ->
  sub_ok s' /\ sb_topic s' = sb_topic s /\ sb_cancelled s' = sb_cancelled s /\
  sb_sent s' = sb_sent s ++ option_list o.
Proof.
  intros [(l & Ho & Hl) Hc] Hs. destruct Hs as [p q Ha Hq|Ha Hq Hcl|data Ha Hr|Ha Hd]; simpl;
    rewrite ?app_nil_r; (split; [|done]); (split; [|done]); simpl.
  - rewrite Ha in Hl. subst l. rewrite omap_app, Ho, app_nil_r. simpl.
    destruct (drain_payload (sb_topic s) p); eexists; split; try reflexivity; by rewrite ?app_nil_r.
  - rewrite Ha in Hl. subst l. exists []. simpl. split; [done|lia].
  - rewrite Ha in Hl. subst l. exists []. by rewrite Ho, app_nil_r.
  - exists l. split; [done|]. destruct (sb_at s); subst; simpl; lia.
Qed.

Lemma fleet_log_app f l1 l2 : fleet_log f (l1 ++ l2) = fleet_log f l1 ++ fleet_log f l2.
Proof. unfold fleet_log. by rewrite List.filter_app, map_app. Qed.
Lemma fleet_log_own f xs : fleet_log f (map (MkBroadcastMsg f) xs) = xs.
Proof.
  unfold fleet_log. induction xs as [|x xs IH]; simpl; [done|].
  rewrite bool_decide_true by done. simpl. by rewrite IH.
Qed.
Lemma sent_later h h' f xs :
  hub_next h h' -> sublist xs (fleet_log f (broadcasts h)) -> sublist xs (fleet_log f (broadcasts h')).
Proof.
  intros [new ->]%hub_next_broadcasts Hs. rewrite fleet_log_app. by apply sublist_inserts_r.
Qed.

(** A step of the hub that stops some subscriptions. *)
Lemma wired_inv_hub w h' subs' done' :
  wired_inv w -> hub_next (wd_hub w) h' ->
  (forall f s, (f, s) ∈ subs' ->
     (exists s0, (f, s0) ∈ wd_subs w /\ (s = s0 \/ s = unsubscribe s0)) \/
     (exists k, s = subscribe k)) ->
  (forall f, map sb_topic (running f subs') = pair_of (bool_decide (is_Some (h_fleets h' !! f)))) ->
  wired_inv (MkWired h' subs' done').
Proof.
  intros [Hh Hp Hs] Hn Hfrom Hpairs. split; simpl; [|done|].
  - by eapply rtc_r.
  - intros f s [(s0 & Hin & Hs0)|[k ->]]%Hfrom.
    + destruct (Hs f s0 Hin) as [Hok Hsent]. split; [|apply (sent_later _ _ _ _ Hn)];
        destruct Hs0 as [->| ->]; auto using unsubscribe_ok.
    + split; [|apply sublist_nil_l]. split; [by exists []|done].
Qed.

Lemma pairs_kept w f o :
  wired_inv w -> (is_Some o <-> is_Some (h_fleets (wd_hub w) !! f)) ->
  map sb_topic (running f (wd_subs w)) = pair_of (bool_decide (@is_Some (gset cid) o)).
Proof. intros Hi Ho. by rewrite (wi_pairs w Hi), (bool_decide_ext _ _ Ho). Qed.

Lemma running_new f g :
  map sb_topic (running f [(g, subscribe Telemetry); (g, subscribe Alerts)]) =
  pair_of (bool_decide (g = f)).
Proof. unfold running. simpl. by destruct (bool_decide (g = f)). Qed.

Lemma inv_register_subs w c q :
  wired_inv w -> h_running (wd_hub w) = true -> h_register (wd_hub w) = c :: q ->
  wired_inv (MkWired (addClient c (set_register (wd_hub w) q))
               (startFleetSubscriptions c (wd_hub w) (wd_subs w)) (wd_done w)).
Proof.
  intros Hi Hr Hq. pose proof (addClient_same c (set_register (wd_hub w) q)) as [_ Hsame].
  simpl in Hsame. apply (wired_inv_hub w); [done|by apply (hs_register _ c q)|..].
  - intros f s. unfold startFleetSubscriptions.
    destruct (h_clients _ !! c) as [cl|]; [|eauto]. destruct (h_fleets _ !! _); [eauto|].
    rewrite elem_of_app, !elem_of_cons, elem_of_nil.
    intros [?|[[= -> ->]|[[= -> ->]|[]]]]; eauto.
  - intros f. unfold startFleetSubscriptions. specialize (Hsame f).
    destruct (h_clients _ !! c) as [cl|] eqn:Hcl;
      [|apply pairs_kept; [done|]; rewrite Hsame; naive_solver].
    destruct (h_fleets (wd_hub w) !! cl_fleetID cl) as [cs|] eqn:Hcs;
      [apply pairs_kept; [done|]; rewrite Hsame; naive_solver|].
    rewrite running_app, map_app, running_new.
    destruct (decide (cl_fleetID cl = f)) as [<-|Hne].
    + rewrite (wi_pairs w Hi), (bool_decide_false (is_Some (_ !! _))) by (rewrite Hcs; by intros [? [=]]).
      rewrite !bool_decide_true by (done || (apply Hsame; eauto)). done.
    + rewrite (bool_decide_false (cl_fleetID cl = f)) by done. rewrite app_nil_r.
      apply pairs_kept; [done|]. rewrite Hsame. naive_solver.
Qed.

Lemma inv_unregister_subs w c q h' :
  wired_inv w -> h_running (wd_hub w) = true -> h_unregister (wd_hub w) = c :: q ->
  removeClient c (set_unregister (wd_hub w) q) = Some h' ->
  wired_inv (MkWired h' (stop_if_empty c (wd_hub w) (wd_subs w)) (wd_done w)).
Proof.
  intros Hi Hr Hq Hrem. pose proof (removeClient_same _ _ _ Hrem) as [_ Hsame]. simpl in Hsame.
  apply (wired_inv_hub w); [done|by apply (next_unregister _ c q)|..].
  - intros f s. unfold stop_if_empty. destruct (h_clients _ !! c) as [cl|]; [|eauto].
    destruct (h_fleets _ !! _); [|eauto]. destruct (decide _); [|eauto].
    intros Hin%elem_of_stop. by left.
  - intros f. unfold stop_if_empty. specialize (Hsame f).
    destruct (h_clients _ !! c) as [cl|] eqn:Hcl;
      [|apply pairs_kept; [done|]; rewrite Hsame; naive_solver].
    destruct (h_fleets (wd_hub w) !! cl_fleetID cl) as [cs|] eqn:Hcs;
      [|apply pairs_kept; [done|]; rewrite Hsame; naive_solver].
    destruct (decide (cs ∖ {[c]} = ∅)) as [He|He].
    + rewrite running_stop. destruct (decide (f = cl_fleetID cl)) as [->|Hne].
      * rewrite bool_decide_false; [done|]. rewrite Hsame. intros [_ []]. by exists cl, cs.
      * apply pairs_kept; [done|]. rewrite Hsame. naive_solver.
    + apply pairs_kept; [done|]. rewrite Hsame. naive_solver.
Qed.

Lemma inv_drain_subs w i f s s' o :
  wired_inv w -> wd_subs w !! i = Some (f, s) ->
  drain_step (wd_done w) (bool_decide (length (h_broadcast (wd_hub w)) < broadcast_cap)) s s' o ->
  wired_inv (MkWired
    (set_broadcast (wd_hub w) (h_broadcast (wd_hub w) ++ map (MkBroadcastMsg f) (option_list o)))
    (<[i := (f, s')]> (wd_subs w)) (wd_done w)).
Proof.
  intros [Hh Hp Hs] Hi Hd.
  destruct (Hs f s (list_elem_of_lookup_2 _ _ _ Hi)) as [Hok Hsent].
  destruct (drain_step_ok _ _ _ _ _ Hok Hd) as (Hok' & Ht & Hc & Hsent').
  split; simpl; [| |].
  - destruct o as [data|]; simpl; [|by rewrite app_nil_r; destruct (wd_hub w)].
    eapply rtc_r; [exact Hh|]. apply hs_publish.
    inversion Hd as [| |? ? Hroom|]; subst. by apply bool_decide_eq_true in Hroom.
  - intros g. rewrite <- Hp. by apply (running_insert _ _ _ s).
  - intros g s1. unfold broadcasts in *. simpl.
    rewrite (assoc_L (++)), fleet_log_app.
    intros [j Hj]%list_elem_of_lookup. destruct (decide (i = j)) as [<-|Hne].
    + rewrite list_lookup_insert_eq in Hj by (by eapply lookup_lt_Some). injection Hj as <- <-.
      split; [done|]. rewrite Hsent', fleet_log_own. by apply sublist_app.
    + rewrite list_lookup_insert_ne in Hj by done.
      destruct (Hs g s1 (list_elem_of_lookup_2 _ _ _ Hj)) as [? ?]. split; [done|].
      by apply sublist_inserts_r.
Qed.

Lemma wired_step_inv w w' : wired_inv w -> wired_step w w' -> wired_inv w'.
Proof.
  intros Hi Hs. pose proof Hi as [Hh Hp Hsubs].
  destruct Hs as [? [c q ? ?|c q h' ? ? ?|h' Hr ? Hsh|m q ord h' Hr Hq Ho Hf|i f s p Hl Ho|
                  i f s s' o ? ?|]|h' Hn Hfl _].
  - by apply inv_register_subs.
  - by eapply inv_unregister_subs.
  - pose proof (shutdown_same _ _ Hsh) as [_ Hempty].
    apply (wired_inv_hub w); [done|unfold hub_next; rewrite <- Hsh; by apply hs_shutdown|..].
    + intros f s Hin%elem_of_stop_all. by left.
    + intros f. rewrite running_stop_all, Hempty, lookup_empty.
      rewrite (bool_decide_false (is_Some None)) by (intros [? [=]]).
      destruct (decide _) as [|Hn]; [done|]. by rewrite Hp, bool_decide_false.
  - pose proof (fanOut_same _ _ _ _ _ Hq Hf) as [_ Hsame].
    apply (wired_inv_hub w); [done|unfold hub_next; rewrite <- Hf; by eapply hs_fanout|eauto|].
    intros f. by rewrite Hp, (bool_decide_ext _ _ (Hsame f)).
  - split; simpl; [done|intros g; rewrite <- Hp; by apply (running_insert _ _ _ s)|].
    intros g s1 [j Hj]%list_elem_of_lookup. destruct (decide (i = j)) as [<-|Hne].
    + rewrite list_lookup_insert_eq in Hj by (by eapply lookup_lt_Some). injection Hj as <- <-.
      destruct (Hsubs f s (list_elem_of_lookup_2 _ _ _ Hl)) as [[? ?] ?]. by split.
    + rewrite list_lookup_insert_ne in Hj by done. apply Hsubs. by eapply list_elem_of_lookup_2.
  - by eapply inv_drain_subs.
  - by split.
  - apply (wired_inv_hub w); [done|done|eauto|]. intros f. by rewrite Hp, Hfl.
Qed.

Lemma new_wired_inv : wired_inv new_wired.
Proof.
  split; simpl; [constructor|intros f; by rewrite bool_decide_false by (intros [? [=]])|].
  by intros f s ?%elem_of_nil.
Qed.
Lemma wired_reachable_inv w : wired_reachable w -> wired_inv w.
Proof. intros Hr. eapply rtc_invariant; [|exact Hr|exact new_wired_inv]. eauto using wired_step_inv. Qed.

(** ** The properties *)

(** C14. In every state the hub reaches with its subscriptions, a fleet has exactly one
    telemetry and one alert subscription that are not cancelled while it has an entry,
    and none otherwise: none is leaked and none is missing. Each subscription queues for
    its own fleet exactly the events its payloads decode to, in the order Redis delivered
    them, but for the one it holds, which is lost when it is cancelled then; all it has
    queued is in that order among the broadcasts of its fleet. And the hub underneath is
    one the theorems on the hub alone speak of. *)
Theorem subscriptions_match_fleets w (Hw : wired_reachable w) :
  hub_reachable (wd_hub w) /\
  (forall f, map sb_topic (running f (wd_subs w)) =
     if decide (is_Some (h_fleets (wd_hub w) !! f)) then [Telemetry; Alerts] else []) /\
  (forall f s, (f, s) ∈ wd_subs w ->
     sublist (sb_sent s) (fleet_log f (broadcasts (wd_hub w))) /\
     exists left_, omap (drain_payload (sb_topic s)) (sb_taken s) = sb_sent s ++ left_ /\
       length left_ <= 1 /\ (sb_at s = Receiving -> left_ = [])).
Proof.
  destruct (wired_reachable_inv w Hw) as [Hh Hp Hs]. split; [exact Hh|]. split.
  - intros f. rewrite Hp. by destruct (decide _) as [E|E];
      [rewrite bool_decide_true|rewrite bool_decide_false].
  - intros f s [[(l & Ho & Hl) _] Hsent]%Hs. split; [exact Hsent|]. exists l. split; [exact Ho|].
    destruct (sb_at s); subst; simpl; split; try done; lia.
Qed.

(** What is left for a goroutine to do without further messages. *)
Definition drain_left (s : subscription) : nat :=
  2 * length (sb_chan s) +
  match sb_at s with Receiving => 1 | Offering _ => 2 | Stopped => 0 end.
Lemma drain_step_left done room s s' o : drain_step done room s s' o -> drain_left s' < drain_left s.
Proof.
  unfold drain_left. destruct 1 as [p q Ha Hq|Ha Hq Hc|data Ha|Ha Hd]; simpl; rewrite ?Ha, ?Hq; simpl;
    try lia.
  - destruct (drain_payload _ p); simpl; lia.
  - destruct (sb_at s); [lia|lia|done].
Qed.
Definition drain_next (done room : bool) (s s' : subscription) : Prop :=
  exists o, drain_step done room s s' o.
Lemma drain_next_cancelled done room s s' :
  rtc (drain_next done room) s s' -> sb_cancelled s' = sb_cancelled s.
Proof. induction 1 as [|s1 s2 s3 [o Hs] _ IH]; [done|]. rewrite IH. by destruct Hs. Qed.

(** A subscription of no entry was cancelled. *)
Lemma stray_cancelled w f s :
  wired_inv w -> (f, s) ∈ wd_subs w -> h_fleets (wd_hub w) !! f = None -> sb_cancelled s = true.
Proof.
  intros Hi Hin Hn. pose proof (wi_pairs w Hi f) as Hp.
  rewrite Hn, bool_decide_false in Hp by (intros [? [=]]). simpl in Hp. apply map_eq_nil in Hp.
  destruct (sb_cancelled s) eqn:Hc; [done|]. exfalso.
  assert (In s (running f (wd_subs w))) as Hs; [|by rewrite Hp in Hs].
  unfold running. apply in_map_iff. exists (f, s). split; [done|]. apply filter_In.
  split; [by apply list_elem_of_In|]. simpl. by rewrite bool_decide_true, Hc.
Qed.

(** No subscription goroutine outlives its fleet. Left to itself a goroutine always comes
    to rest, and once the fleet's entry is gone or the context has ended it can only come
    to rest returned, also when the hub no longer takes broadcasts and their queue is
    full. *)
Theorem subscriptions_end w f s room
    (Hw : wired_reachable w) (Hs : (f, s) ∈ wd_subs w)
    (Hend : wd_done w = true \/ h_fleets (wd_hub w) !! f = None) :
  Acc (flip (drain_next (wd_done w) room)) s /\
  forall s', rtc (drain_next (wd_done w) room) s s' ->
    (forall s'', ~ drain_next (wd_done w) room s' s'') -> sb_at s' = Stopped.
Proof.
  split.
  - clear Hs. induction s as [s IH] using (induction_ltof1 _ drain_left).
    constructor. intros s' [o Hs']. apply IH. by eapply drain_step_left.
  - intros s' Hr Hst. destruct (sb_at s') eqn:Ha; [..|done]; exfalso;
      (apply (Hst (set_at Stopped s')); exists None; apply ds_cancelled; [by rewrite Ha|]);
      rewrite (drain_next_cancelled _ _ _ _ Hr);
      (destruct Hend as [->|Hn]; [done|]);
      rewrite (stray_cancelled w f s (wired_reachable_inv w Hw) Hs Hn); apply orb_true_r.
Qed.

(** ** Witnesses: one client connects, a message that is no JSON arrives, the hub shuts down *)
Definition sample_subs (s : subscription) : list (string * subscription) :=
  [("f"%string, s); ("f"%string, subscribe Alerts)].
Definition sample_connected : wired :=
  MkWired (addClient 0 (set_register (set_clients NewHub {[0 := newClient "f"]}) []))
    (sample_subs (receive None [] (set_chan [None] (subscribe Telemetry)))) false.
Definition sample_shut : wired :=
  MkWired (default NewHub (shutdown (wd_hub sample_connected)))
    (stop_all (wd_hub sample_connected) (wd_subs sample_connected)) true.

Lemma sample_connected_reachable : wired_reachable sample_connected.
Proof.
  eapply rtc_l; [apply (wd_outside new_wired (set_register (set_clients NewHub {[0 := newClient "f"]}) [0])); [|done|done];
    apply (hs_connect NewHub "f" 0); [done|unfold queue_cap; simpl; lia]|].
  eapply rtc_l; [apply wd_inner, (wd_register _ 0 []); done|].
  eapply rtc_l; [apply wd_inner, (wd_delivered _ 0 "f" (subscribe Telemetry) None); done|].
  apply rtc_once, wd_inner.
  exact (wd_drain (MkWired (wd_hub sample_connected) (sample_subs (set_chan [None] (subscribe Telemetry))) false)
    0 "f" (set_chan [None] (subscribe Telemetry)) _ None eq_refl 
    (ds_receive false true (set_chan [None] (subscribe Telemetry)) None [] eq_refl eq_refl)).
Qed.
Lemma sample_shut_reachable : wired_reachable sample_shut.
Proof.
  eapply rtc_r; [eapply rtc_r; [exact sample_connected_reachable|apply wd_inner, wd_ctx_done]|].
  apply wd_inner, (wd_shutdown (MkWired (wd_hub sample_connected) (wd_subs sample_connected) true));
    [done|done|vm_compute; reflexivity].
Qed.

Lemma subscriptions_match_fleets_witness :
  map sb_topic (running "f" (wd_subs sample_connected)) = [Telemetry; Alerts] /\
  running "f" (wd_subs sample_shut) = [].
Proof.
  pose proof (subscriptions_match_fleets sample_connected sample_connected_reachable) as (_ & H1 & _).
  pose proof (subscriptions_match_fleets sample_shut sample_shut_reachable) as (_ & H2 & _).
  split; [exact (H1 "f"%string)|]. apply (map_eq_nil sb_topic). exact (H2 "f"%string).
Defined.

Lemma subscriptions_end_witness :
  let s := unsubscribe (subscribe Alerts) in
  ("f"%string, s) ∈ wd_subs sample_shut /\
  Acc (flip (drain_next true false)) s /\ sb_at (set_at Stopped s) = Stopped.
Proof.
  intros s. assert (Hin : ("f"%string, s) ∈ wd_subs sample_shut).
  { apply (list_elem_of_lookup_2 _ 1). reflexivity. }
  split; [exact Hin|].
  destruct (subscriptions_end sample_shut "f" s false sample_shut_reachable Hin (or_introl eq_refl))
    as [Hacc Hrest].
  split; [exact Hacc|]. apply Hrest.
  - apply rtc_once. exists None. by apply ds_cancelled.
  - intros s'' [o Hs]. inversion Hs; done.
Defined.
