(* ===== verification/Sockets.v ===== *)
(** * A WebSocket from end to end: [ServeWS], the hub, its subscriptions and the pumps

    [Hub], [Subs] and [Client] each model one side of the same goroutines. Here they run as
    one system: [ServeWS] authorises a request, registers a client and starts its pumps; the
    channel [send] is one object, which the hub fills and closes and the writer empties; and
    everything that is broadcast comes from a subscription or from a job. *)
From S2P Require Import Prelude GoNum Strconv Json Redis Domain Auth Http Events Hub Client Subs.

(** What a client does without the hub: its pumps, an error of the connection, a tick. *)
Inductive own_step (c : conn_client) : conn_client -> Prop :=
| os_pump c' : pump_step c (Some c') -> own_step c c'
| os_read_error : cc_read c = Looping -> own_step c (set_read Calling c)
| os_tick ok1 ok2 : cc_write c = Looping -> own_step c (on_tick ok1 ok2 c).

(** The pumps see the channel as the hub leaves it. *)
Definition see_channel (h : Hub) (k : cid) (c : conn_client) : conn_client :=
  match h_clients h !! k with
  | Some cl => set_send (cl_send cl) (cl_closed cl) c
  | None => c
  end.
(** The hub sees what the pumps did: the channel, and that [once] runs. *)
Definition see_client (k : cid) (c' : conn_client) (h : Hub) : Hub :=
  set_clients h (<[k := hub_view c']> (h_clients h)).

Section Sockets.
Context {V : Type} `{Validator V}.

Record live := MkLive {
  lv_wired : wired;
  lv_conns : gmap cid conn_client;
  lv_grants : gmap cid (request * V);      (* what each client was opened for *)
  lv_jobs : list (string * envelope)       (* the events of jobs that were queued *)
}.
Definition lv_hub (l : live) : Hub := wd_hub (lv_wired l).
Definition move_hub (h : Hub) (l : live) : wired := MkWired h (wd_subs (lv_wired l)) (wd_done (lv_wired l)).
Definition new_live : live := MkLive new_wired ∅ ∅ [].

(** [ServeWS] after the upgrade. *)
Definition open_socket (k : cid) (fleetID : string) (rq : request) (v : V) (l : live) : live :=
  let h := lv_hub l in
  MkLive
    (move_hub (set_register (set_clients h (<[k := newClient fleetID]> (h_clients h))) (h_register h ++ [k])) l)
    (<[k := open_client fleetID]> (lv_conns l)) (<[k := (rq, v)]> (lv_grants l)) (lv_jobs l).
(** [broadcastEvent], called by a job. *)
Definition job_broadcast (fleetID : string) (evt : envelope) (l : live) : live :=
  let q := h_broadcast (lv_hub l) in
  let q' := broadcastEvent fleetID evt q in
  MkLive (move_hub (set_broadcast (lv_hub l) q') l) (lv_conns l) (lv_grants l)
    (if (length q' =? length q)%nat then lv_jobs l else lv_jobs l ++ [(fleetID, evt)]).
(** A step of the hub's goroutine, of Redis or of a subscription. *)
Definition live_inner (w' : wired) (l : live) : live :=
  MkLive w' (map_imap (fun k c => Some (see_channel (wd_hub w') k c)) (lv_conns l))
    (lv_grants l) (lv_jobs l).
Definition live_own (k : cid) (c' : conn_client) (h : Hub) (l : live) : live :=
  MkLive (move_hub h l) (<[k := c']> (lv_conns l)) (lv_grants l) (lv_jobs l).

Inductive live_step (l : live) : live -> Prop :=
| ls_serve k rq v fleetID :       (* the upgrade succeeded, and [register] has room *)
    (ServeWS rq v).1 = inr fleetID -> h_clients (lv_hub l) !! k = None ->
    length (h_register (lv_hub l)) < queue_cap ->
    live_step l (open_socket k fleetID rq v l)
| ls_inner w' :
    inner_step (lv_wired l) w' -> live_step l (live_inner w' l)
| ls_job fleetID evt : live_step l (job_broadcast fleetID evt l)
| ls_own k c c' :                 (* [once] neither starts nor ends *)
    lv_conns l !! k = Some c -> own_step c c' -> cc_once c' = cc_once c ->
    live_step l (live_own k c' (see_client k c' (lv_hub l)) l)
| ls_close k c c' :
    lv_conns l !! k = Some c -> own_step c c' -> cc_once c = NotRun -> cc_once c' = Running ->
    let h := see_client k c' (lv_hub l) in
    live_step l (live_own k c' (set_closing h (h_closing h ++ [k])) l)
| ls_unregister k c c' q1 q2 :    (* the send to [unregister] goes through *)
    lv_conns l !! k = Some c -> own_step c c' -> cc_once c = Running -> cc_once c' = Ran ->
    h_closing (lv_hub l) = q1 ++ k :: q2 -> length (h_unregister (lv_hub l)) < queue_cap ->
    let h := see_client k c' (lv_hub l) in
    live_step l (live_own k c' (set_closing (set_unregister h (h_unregister h ++ [k])) (q1 ++ q2)) l).
Definition live_reachable (l : live) : Prop := rtc live_step new_live l.
End Sockets.
Arguments live V : clear implicits.

(** ** What the hub does to a channel *)
Definition chan_next (cl cl' : Client) : Prop :=
  (exists x, enqueue x cl = Some (true, cl')) \/ close_send cl = Some cl'.
(** Every client the hub has keeps its place, and its channel was used as one. *)
Definition chans (cm cm' : gmap cid Client) : Prop := forall k,
  match cm !! k with
  | Some cl => exists cl', cm' !! k = Some cl' /\ rtc chan_next cl cl'
  | None => cm' !! k = None
  end.
Lemma chans_refl cm : chans cm cm.
Proof. intros k. destruct (cm !! k) as [cl|] eqn:E; [|done]. eauto using rtc_refl. Qed.
Lemma chans_trans cm1 cm2 cm3 : chans cm1 cm2 -> chans cm2 cm3 -> chans cm1 cm3.
Proof.
  intros H1 H2 k. specialize (H1 k). destruct (cm1 !! k) as [cl|].
  - destruct H1 as (cl2 & E2 & R1). specialize (H2 k). rewrite E2 in H2.
    destruct H2 as (cl3 & E3 & R2). exists cl3. split; [done|by etrans].
  - specialize (H2 k). by rewrite H1 in H2.
Qed.
Lemma chans_insert cm c cl cl' : cm !! c = Some cl -> rtc chan_next cl cl' -> chans cm (<[c := cl']> cm).
Proof.
  intros Hc Hr k. destruct (decide (c = k)) as [<-|Hne].
  - rewrite Hc, lookup_insert_eq. eauto.
  - rewrite lookup_insert_ne by done. apply chans_refl.
Qed.
Lemma chans_fan data ord cs cm cs' cm' : fan_loop data ord cs cm = Some (cs', cm') -> chans cm cm'.
Proof.
  revert cs cm. induction ord as [|c ord IH]; intros cs cm; simpl; [intros [= _ ->]; apply chans_refl|].
  destruct (cm !! c) as [cl|] eqn:Hc; [|apply IH].
  destruct (enqueue data cl) as [[ok cl1]|] eqn:He; [|done]. simpl.
  destruct ok.
  - intros Hl. eapply chans_trans; [|by eapply IH]. apply (chans_insert _ _ cl); [done|].
    apply rtc_once. left. by exists data.
  - destruct (close_send cl1) as [cl2|] eqn:Hs; [|done]. simpl. intros Hl.
    eapply chans_trans; [|by eapply IH]. apply (chans_insert _ _ cl); [done|]. apply rtc_once. right.
    unfold enqueue, chan_try_send in He. destruct cl as [f q [] wr dn]; [done|]. simpl in *.
    destruct (_ <? _); by simplify_eq.
Qed.
Lemma chans_close ord cm cm' : close_all ord cm = Some cm' -> chans cm cm'.
Proof.
  revert cm. induction ord as [|c ord IH]; intros cm; simpl; [intros [= ->]; apply chans_refl|].
  destruct (cm !! c) as [cl|] eqn:Hc; [|apply IH].
  destruct (close_send cl) as [cl1|] eqn:He; [|done]. simpl. intros Hl.
  eapply chans_trans; [|by eapply IH]. apply (chans_insert _ _ cl); [done|].
  apply rtc_once. by right.
Qed.
Lemma inner_chans w w' :
  inner_step w w' -> chans (h_clients (wd_hub w)) (h_clients (wd_hub w')) /\
    h_closing (wd_hub w') = h_closing (wd_hub w).
Proof.
  destruct 1 as [c q|c q h' _ _ Hr|h' _ _ Hs|m q ord h' _ _ _ Hf|i f s p|i f s s' o|]; simpl;
    try (split; [apply chans_refl|done]).
  - unfold addClient. destruct (_ !! c); (split; [apply chans_refl|done]).
  - unfold removeClient in Hr. simpl in Hr.
    destruct (h_clients _ !! c) as [cl|] eqn:Hc; [|simplify_eq; split; [apply chans_refl|done]].
    destruct (h_fleets _ !! _) as [cs|]; [|simplify_eq; split; [apply chans_refl|done]].
    destruct (decide _); simpl in Hr; [|simplify_eq; split; [apply chans_refl|done]].
    destruct (close_send cl) as [cl'|] eqn:Hs; [|done]. simpl in Hr. injection Hr as <-. simpl.
    split; [|done]. apply (chans_insert _ _ cl); [done|]. apply rtc_once. by right.
  - unfold shutdown in Hs. destruct (close_all _ _) as [cm|] eqn:Hc; [|done]. simpl in Hs.
    injection Hs as <-. simpl. split; [by eapply chans_close|done].
  - unfold fanOut in Hf. simpl in Hf. destruct (h_fleets _ !! _) as [cs|]; [|simplify_eq; split; [apply chans_refl|done]].
    destruct (fan_loop _ _ _ _) as [[cs' cm]|] eqn:Hl; [|done]. simpl in Hf. injection Hf as <-. simpl.
    split; [by eapply chans_fan|done].
Qed.

(** A use of the channel by the hub is a step of the client. *)
Lemma chan_client c cl :
  chan_next (hub_view c) cl ->
  client_next c (set_send (cl_send cl) (cl_closed cl) c) /\
  hub_view (set_send (cl_send cl) (cl_closed cl) c) = cl.
Proof.
  intros [[x He]|Hc].
  - unfold enqueue in He. simpl in He. destruct (cc_closed c) eqn:Ho; [done|].
    destruct (chan_try_send _ _ _) as [ok q] eqn:Ec. injection He as -> <-.
    apply chan_try_send_true in Ec as [Hl ->]. split; [|done]. by apply (cs_enqueue c x).
  - unfold close_send in Hc. simpl in Hc. destruct (cc_closed c) eqn:Ho; [done|].
    injection Hc as <-. split; [|done]. by apply cs_hub_close.
Qed.
Lemma chans_client c cl :
  rtc chan_next (hub_view c) cl ->
  rtc client_next c (set_send (cl_send cl) (cl_closed cl) c) /\
  hub_view (set_send (cl_send cl) (cl_closed cl) c) = cl.
Proof.
  intros Hr. refine (rtc_ind_r (fun cl => rtc client_next c (set_send (cl_send cl) (cl_closed cl) c) /\
    hub_view (set_send (cl_send cl) (cl_closed cl) c) = cl) _ _ _ _ Hr).
  - by destruct c.
  - intros cl1 cl2 _ Hs [H1 H2]. rewrite <- H2 in Hs. apply chan_client in Hs as [H3 H4].
    split; [by eapply rtc_r|done].
Qed.
Lemma own_client c c' : own_step c c' -> client_next c c'.
Proof. intros []; [by apply cs_pump|by apply cs_read_error|by apply cs_tick]. Qed.

(** ** What a client's own step is to the hub *)
Lemma see_same h k c : h_clients h !! k = Some (hub_view c) -> see_client k c h = h.
Proof. intros Hk. unfold see_client. rewrite insert_id by done. by destruct h. Qed.
(** [once] starts, ends, or is left alone; then the hub sees at most a message taken. *)
Lemma own_cases h k c c' :
  client_inv c -> h_clients h !! k = Some (hub_view c) -> own_step c c' ->
  (cc_once c' = cc_once c /\
   (hub_view c' = hub_view c \/ hub_next h (see_client k c' h))) \/
  (cc_once c = NotRun /\ cc_once c' = Running /\
   hub_next h (set_closing (see_client k c' h) (h_closing h ++ [k]))) \/
  (cc_once c = Running /\ cc_once c' = Ran /\ hub_view c' = hub_view c).
Proof.
  intros Hi Hk Hs. destruct Hs as [c' Hp|Hr|ok1 ok2 Hw].
  - remember (Some c') as o eqn:E.
    destruct Hp as [Hr|ok x q Hw Hq|Hw|Hw|ok Hw|s Hs Hn|s Hs Hn|s Hs]; try injection E as <-.
    + left. auto.
    + left. split; [unfold on_message, write_frame; by destruct (ok && _)|]. right.
      assert (Hv : hub_view (on_message ok x q c) = MkClient (cc_fleetID c) q (cc_closed c)
        (cc_taken c ++ [x]) (negb (bool_decide (cc_once c = NotRun))))
        by (unfold on_message, write_frame; by destruct (ok && _)).
      unfold see_client. rewrite Hv. by apply (hs_write h k (hub_view c) x q).
    + left. auto.
    + left. auto.
    + left. split; [|left]; unfold on_deferred, write_frame; by destruct (ok && _).
    + right; left. unfold start_once in E. destruct (cc_done c) eqn:Hd; [done|]. injection E as <-.
      split; [done|]. split; [by destruct s|]. unfold see_client.
      replace (hub_view _) with (MkClient (cl_fleetID (hub_view c)) (cl_send (hub_view c))
        (cl_closed (hub_view c)) (cl_written (hub_view c)) true) by (by destruct s).
      apply (hs_close h k (hub_view c)); [done|]. simpl. by rewrite Hn.
    + left. destruct s; auto.
    + right; right. assert (Hrun : cc_once c = Running).
      { destruct Hi, s; simpl in Hs; rewrite Hs in *; done. }
      split; [done|]. split; [by destruct s|]. unfold hub_view. rewrite Hrun. by destruct s.
  - left. auto.
  - left. unfold on_tick, write_frame. destruct (ok1 && _); simpl; [destruct (ok2 && _)|]; auto.
Qed.

(** ** Where broadcasts come from *)

(** All that the subscriptions of a fleet have queued, and the events of jobs for it. *)
Definition all_sent (f : string) (subs : list (string * subscription)) : list string :=
  concat (map (fun p => if bool_decide (p.1 = f) then sb_sent p.2 else []) subs).
Definition job_events (f : string) (jobs : list (string * envelope)) : list string :=
  omap (fun p => if bool_decide (p.1 = f) then marshal_event p.2 else None) jobs.

Lemma all_sent_stop f g subs : all_sent f (stop_fleet g subs) = all_sent f subs.
Proof.
  unfold all_sent, stop_fleet. rewrite map_map. f_equal. apply map_ext. intros [g' s]. simpl.
  by destruct (bool_decide (g' = g)).
Qed.
Lemma all_sent_stop_all f h subs : all_sent f (stop_all h subs) = all_sent f subs.
Proof.
  unfold stop_all. induction (elements _) as [|g gs IH]; [done|]. simpl. by rewrite all_sent_stop.
Qed.
Lemma all_sent_insert f i g s s' new subs :
  subs !! i = Some (g, s) -> sb_sent s' = sb_sent s ++ new ->
  all_sent f (<[i := (g, s')]> subs) ≡ₚ all_sent f subs ++ (if bool_decide (g = f) then new else []).
Proof.
  intros Hi Hs. destruct (gather_insert subs i (g, s) Hi) as (rest & Hg).
  destruct (Hg _ (fun p => if bool_decide (p.1 = f) then sb_sent p.2 else [])) as [H1 H2].
  unfold all_sent. rewrite H2, H1. simpl. rewrite Hs. destruct (bool_decide _); [|by rewrite app_nil_r].
  solve_Permutation.
Qed.
(** A step broadcasts exactly what a subscription queues in it. *)
Lemma inner_sources w w' f :
  inner_step w w' -> exists new,
    fleet_log f (broadcasts (wd_hub w')) = fleet_log f (broadcasts (wd_hub w)) ++ new /\
    all_sent f (wd_subs w') ≡ₚ all_sent f (wd_subs w) ++ new.
Proof.
  destruct 1 as [c q|c q h' _ _ Hr|h' _ _ Hs|m q ord h' _ Hq _ Hf|i g s p Hi|i g s s' o Hi Hd|]; simpl.
  - exists []. rewrite !app_nil_r. split; [by rewrite (proj1 (addClient_same c (set_register (wd_hub w) q)))|].
    unfold startFleetSubscriptions. destruct (h_clients _ !! c); [|done]. destruct (h_fleets _ !! _); [done|].
    unfold all_sent. rewrite map_app, concat_app. simpl.
    by destruct (bool_decide _); simpl; rewrite app_nil_r.
  - exists []. rewrite !app_nil_r. split; [by rewrite (proj1 (removeClient_same _ _ _ Hr))|].
    unfold stop_if_empty. destruct (h_clients _ !! c); [|done]. destruct (h_fleets _ !! _); [|done].
    destruct (decide _); [by rewrite all_sent_stop|done].
  - exists []. rewrite !app_nil_r, all_sent_stop_all. split; [by rewrite (proj1 (shutdown_same _ _ Hs))|done].
  - exists []. rewrite !app_nil_r. split; [by rewrite (proj1 (fanOut_same _ _ _ _ _ Hq Hf))|done].
  - exists []. rewrite !app_nil_r. split; [done|].
    rewrite (all_sent_insert f i g s (set_chan (sb_chan s ++ [p]) s) [] _ Hi) by (by rewrite app_nil_r).
    by destruct (bool_decide _); rewrite app_nil_r.
  - exists (if bool_decide (g = f) then option_list o else []). split.
    + unfold broadcasts. simpl. rewrite (assoc_L (++)), fleet_log_app. f_equal.
      destruct (bool_decide_reflect (g = f)) as [->|Hne]; [apply fleet_log_own|].
      unfold fleet_log. destruct o; simpl; [|done]. by rewrite bool_decide_false.
    + apply (all_sent_insert f i g s); [done|].
      by destruct Hd; simpl; rewrite ?app_nil_r.
  - exists []. by rewrite !app_nil_r.
Qed.

(** ** The invariant *)
Section Invariant.
Context {V : Type} `{Validator V}.
Notation live := (live V).

Record live_inv (l : live) : Prop := {
  li_wired : wired_reachable (lv_wired l);
  li_conn : forall k c, lv_conns l !! k = Some c ->
    client_reachable c /\ hub_has (lv_hub l) k c /\
    exists rq v, lv_grants l !! k = Some (rq, v) /\ (ServeWS rq v).1 = inr (cc_fleetID c);
  li_fresh : forall k, h_clients (lv_hub l) !! k = None -> lv_conns l !! k = None;
  li_sources : forall f, fleet_log f (broadcasts (lv_hub l)) ≡ₚ
    all_sent f (wd_subs (lv_wired l)) ++ job_events f (lv_jobs l)
}.
Lemma new_live_inv : live_inv new_live.
Proof. split; [constructor|by intros k c|done|by intros f]. Qed.

(** A step outside the hub's own goroutines. *)
Lemma outside_reachable h' (l : live) :
  wired_reachable (lv_wired l) -> h' = lv_hub l \/ hub_next (lv_hub l) h' ->
  h_fleets h' = h_fleets (lv_hub l) -> h_log h' = h_log (lv_hub l) -> wired_reachable (move_hub h' l).
Proof.
  intros Hw [->|Hn] Hf Hl; unfold move_hub, lv_hub in *; [by destruct (lv_wired l)|].
  eapply rtc_r; [exact Hw|by apply wd_outside].
Qed.

Lemma serve_inv k rq v f (l : live) :
  live_inv l -> (ServeWS rq v).1 = inr f -> h_clients (lv_hub l) !! k = None ->
  length (h_register (lv_hub l)) < queue_cap -> live_inv (open_socket k f rq v l).
Proof.
  intros [Hw Hc Hf Hs] Hrq Hk Hl. split; simpl.
  - apply outside_reachable; [done| |done|done]. right. by apply hs_connect.
  - intros k' c' Hk'. destruct (decide (k = k')) as [<-|Hne].
    + rewrite lookup_insert_eq in Hk'. injection Hk' as <-. split; [exists f; constructor|].
      split; [split; [apply lookup_insert_eq|done]|]. exists rq, v. by rewrite lookup_insert_eq.
    + rewrite lookup_insert_ne in Hk' by done. destruct (Hc k' c' Hk') as (H1 & [H2 H3] & H4).
      split; [done|]. split; [split; [simpl; by rewrite lookup_insert_ne|done]|].
      by rewrite lookup_insert_ne.
  - intros k'. destruct (decide (k = k')) as [<-|Hne]; [by rewrite lookup_insert_eq|].
    rewrite !lookup_insert_ne by done. apply Hf.
  - intros g. apply Hs.
Qed.

Lemma job_inv f e (l : live) : live_inv l -> live_inv (job_broadcast f e l).
Proof.
  intros [Hw Hc Hf Hs]. unfold job_broadcast, broadcastEvent.
  assert (Hsame : live_inv (MkLive (move_hub (set_broadcast (lv_hub l) (h_broadcast (lv_hub l))) l)
    (lv_conns l) (lv_grants l) (lv_jobs l))).
  { split; try done. simpl. unfold move_hub, lv_hub. by destruct (lv_wired l) as [[]]. }
  destruct (marshal_event e) as [data|] eqn:Em; [|by rewrite Nat.eqb_refl].
  destruct (chan_try_send _ _ _) as [[] q'] eqn:Ec; simpl.
  - apply chan_try_send_true in Ec as [Hl ->]. rewrite length_app. simpl.
    rewrite (proj2 (Nat.eqb_neq _ _)) by lia. split; simpl.
    + apply outside_reachable; [done| |done|done]. right. by apply hs_publish.
    + apply Hc.
    + apply Hf.
    + intros g. unfold broadcasts, job_events. simpl.
      rewrite (assoc_L (++)), fleet_log_app, omap_app, (assoc_L (++)).
      apply Permutation_app; [apply Hs|]. simpl.
      unfold fleet_log. simpl. destruct (bool_decide_reflect (f = g)); simpl; [by rewrite Em|done].
  - apply chan_try_send_false in Ec as [_ ->]. by rewrite Nat.eqb_refl.
Qed.

Lemma inner_inv w' (l : live) :
  live_inv l -> inner_step (lv_wired l) w' ->
  live_inv (live_inner w' l).
Proof.
  intros [Hw Hc Hf Hs] Hstep. destruct (inner_chans _ _ Hstep) as [Hch Hcl].
  split; simpl.
  - eapply rtc_r; [exact Hw|by apply wd_inner].
  - intros k c Hk. rewrite map_lookup_imap in Hk. destruct (lv_conns l !! k) as [c0|] eqn:Hk0; [|done].
    simpl in Hk. injection Hk as <-. destruct (Hc k c0 Hk0) as ([f Hr] & [Hv Ho] & Hg).
    specialize (Hch k). unfold lv_hub in Hv. rewrite Hv in Hch. destruct Hch as (cl & Hk' & Hch).
    apply chans_client in Hch as [Hr' Hv']. unfold see_channel. rewrite Hk'. split_and!.
    + exists f. by etrans.
    + split; [unfold lv_hub; simpl; by rewrite Hk', Hv'|]. simpl. intros Hrun. unfold lv_hub. simpl. rewrite Hcl. by apply Ho.
    + done.
  - intros k Hk. rewrite map_lookup_imap, Hf; [done|]. specialize (Hch k). unfold lv_hub in *. simpl in Hk.
    destruct (h_clients (wd_hub (lv_wired l)) !! k); [|done]. destruct Hch as (? & ? & _). congruence.
  - intros f. destruct (inner_sources _ _ f Hstep) as (new & E1 & E2).
    unfold lv_hub in *. simpl. rewrite E1, E2, Hs. solve_Permutation.
Qed.

(** A step of a client, with what it does to the queues of the hub. *)
Lemma own_inv k c c' h' (l : live) :
  live_inv l -> lv_conns l !! k = Some c -> own_step c c' ->
  h' = lv_hub l \/ hub_next (lv_hub l) h' ->
  h_clients h' = <[k := hub_view c']> (h_clients (lv_hub l)) ->
  h_fleets h' = h_fleets (lv_hub l) -> h_log h' = h_log (lv_hub l) ->
  h_broadcast h' = h_broadcast (lv_hub l) ->
  (cc_once c' = Running -> k ∈ h_closing h') ->
  (forall k', k' <> k -> k' ∈ h_closing (lv_hub l) -> k' ∈ h_closing h') ->
  live_inv (live_own k c' h' l).
Proof.
  intros [Hw Hc Hf Hs] Hk Hstep Hn Hcm Hfl Hlog Hb Hrun Hother.
  destruct (Hc k c Hk) as ([f Hr] & [Hv _] & Hg). split; simpl.
  - by apply outside_reachable.
  - intros k' c1 Hk'. unfold lv_hub. simpl. unfold hub_has. rewrite Hcm.
    destruct (decide (k = k')) as [<-|Hne].
    + rewrite lookup_insert_eq in Hk'. rewrite lookup_insert_eq. injection Hk' as <-.
      split; [|split; [done|]].
      * exists f. eapply rtc_r; [exact Hr|by apply own_client].
      * replace (cc_fleetID c') with (cc_fleetID c); [done|]. apply own_client in Hstep.
        assert (Hfleet : forall o, client_step c o -> match o with Some c' => cc_fleetID c' = cc_fleetID c | None => True end).
        { clear. intros o Hs. destruct Hs as [o Hp| |ok1 ok2|x|]; try done.
          - destruct Hp as [| ok x q| | |ok|s|s|s]; try done; try (by destruct s).
            + unfold on_message, write_frame. by destruct (ok && _).
            + unfold on_deferred, write_frame. by destruct (ok && _).
            + unfold start_once. destruct (cc_done c); [done|]. by destruct s.
          - unfold on_tick, write_frame. destruct (ok1 && _); simpl; [by destruct (ok2 && _)|done]. }
        symmetry. exact (Hfleet _ Hstep).
    + rewrite lookup_insert_ne in Hk' by done. rewrite lookup_insert_ne by done. destruct (Hc k' c1 Hk') as (H1 & [H2 H3] & H4).
      split; [done|]. split; [split; [done|]|done]. intros ?. apply Hother; [done|auto].
  - intros k'. unfold lv_hub. simpl. rewrite Hcm. destruct (decide (k = k')) as [<-|Hne].
    + by rewrite lookup_insert_eq.
    + rewrite !lookup_insert_ne by done. apply Hf.
  - intros g. unfold broadcasts, lv_hub in *. simpl. rewrite Hlog, Hb. apply Hs.
Qed.

Lemma live_step_inv (l l' : live) : live_inv l -> live_step l l' -> live_inv l'.
Proof.
  intros Hi Hs. destruct Hs as [k rq v f Hrq Hk Hl|w' Hw|f e|k c c' Hk Hs Ho|k c c' Hk Hs Ho Ho' h|
      k c c' q1 q2 Hk Hs Ho Ho' Hq Hl h].
  - by apply serve_inv.
  - by apply inner_inv.
  - by apply job_inv.
  - destruct (li_conn l Hi k c Hk) as (Hr & [Hv Hrun] & _).
    apply (own_inv k c c'); try done; [|by rewrite Ho].
    destruct (own_cases (lv_hub l) k c c' (client_reachable_inv c Hr) Hv Hs) as [[_ [E|?]]|[(? & ? & _)|(? & ? & _)]];
      [|by right|congruence|congruence].
    left. apply see_same. by rewrite E.
  - destruct (li_conn l Hi k c Hk) as (Hr & [Hv _] & _).
    apply (own_inv k c c'); try done; [| |].
    + right. destruct (own_cases (lv_hub l) k c c' (client_reachable_inv c Hr) Hv Hs)
        as [[? _]|[(_ & _ & Hn)|(? & ? & _)]]; [congruence|exact Hn|congruence].
    + intros _. simpl. apply elem_of_app. right. by left.
    + intros k' _ Hin. simpl. apply elem_of_app. by left.
  - destruct (li_conn l Hi k c Hk) as (Hr & [Hv _] & _).
    assert (E : h = lv_hub l).
    { destruct (own_cases (lv_hub l) k c c' (client_reachable_inv c Hr) Hv Hs)
        as [[? _]|[(? & _ & _)|(_ & _ & E)]]; [congruence|congruence|].
      apply see_same. by rewrite E. }
    apply (own_inv k c c'); try done; [| |].
    + right. rewrite E. by apply (hs_closing (lv_hub l) q1 k q2).
    + intros ?. congruence.
    + intros k' Hne. simpl. rewrite Hq, !elem_of_app, elem_of_cons. naive_solver.
Qed.
Lemma live_reachable_inv (l : live) : live_reachable l -> live_inv l.
Proof. intros Hr. eapply rtc_invariant; [|exact Hr|exact new_live_inv]. eauto using live_step_inv. Qed.
End Invariant.

(** What was written to a client is a segment of what was fanned out to its fleet; while it
    is connected and its writer runs, the rest is what is buffered for it. *)
Lemma written_segment {V} `{Validator V} (l : live V) k c :
  live_reachable l -> lv_conns l !! k = Some c -> exists pre post,
    fleet_log (cc_fleetID c) (h_log (lv_hub l)) = pre ++ texts (cc_frames c) ++ post /\
    (member k (cc_fleetID c) (h_fleets (lv_hub l)) -> cc_write c = Looping -> post = cc_send c).
Proof.
  intros Hl Hc. destruct (live_reachable_inv l Hl) as [Hw Hcs _ _].
  destruct (Hcs k c Hc) as (Hr & [Hv _] & _). destruct (wired_reachable_inv _ Hw) as [Hh _ _].
  destruct (hi_client _ (hub_reachable_inv _ Hh) k _ Hv) as [_ _ _ (pre & post & Hrecv & Hm)].
  unfold recv in Hrecv. simpl in Hrecv, Hm. unfold lv_hub. rewrite Hrecv.
  destruct (ci_texts _ (client_reachable_inv c Hr)) as [->|[Hne [x ->]]].
  - exists pre, (cc_send c ++ post). rewrite <- (assoc_L (++)). split; [done|].
    intros Hin _. by rewrite (Hm Hin), app_nil_r.
  - exists pre, ([x] ++ cc_send c ++ post). rewrite <- !(assoc_L (++)). by split.
Qed.

(** A socket is granted to a token that is accepted for the fleet it asks for. *)
Lemma ServeWS_granted {V} `{Validator V} rq (v : V) f :
  (ServeWS rq v).1 = inr f ->
  f <> ""%string /\ query_get "fleet_id" (rq_query rq) = f /\
  (v_FleetID (rq_cx rq) (rq_auth rq) (query_get "token" (rq_query rq)) v).1 = (f, true).
Proof.
  unfold ServeWS. destruct (bool_decide_reflect (query_get "fleet_id" (rq_query rq) = ""%string)); [done|].
  destruct (v_FleetID _ _ _ v) as [[g ok] v']. destruct ok; [|done]. simpl.
  case_bool_decide; [done|]. case_bool_decide as Hne; [done|]. simpl.
  intros [= <-]. by subst g.
Qed.

(** ** The property *)

(** C8. What reaches a WebSocket, from the request to the frames. In every state the
    whole system reaches, a client was opened by a request that named a fleet and whose
    token the validator accepts for exactly that fleet. The messages written to its
    connection are a gap-free run, in order, of what was fanned out to that fleet and to
    no other; while it is connected and its writer runs, all that the run lacks of the
    latest broadcast is buffered for it, at most 256 messages: a client that cannot keep up
    is evicted rather than skipped. And what is broadcast for the fleet is, with nothing
    added or lost, what its own Redis subscriptions queued and the events of jobs for it;
    each subscription's part is in order, the decoded payloads Redis delivered to it. *)
Theorem socket_end_to_end {V} `{Validator V} (l : live V) k c
    (Hl : live_reachable l) (Hc : lv_conns l !! k = Some c) :
  let f := cc_fleetID c in
  let all := fleet_log f (broadcasts (lv_hub l)) in
  (exists rq v, lv_grants l !! k = Some (rq, v) /\ f <> ""%string /\
     query_get "fleet_id" (rq_query rq) = f /\
     (v_FleetID (rq_cx rq) (rq_auth rq) (query_get "token" (rq_query rq)) v).1 = (f, true)) /\
  (exists pre post, fleet_log f (h_log (lv_hub l)) = pre ++ texts (cc_frames c) ++ post /\
     (member k f (h_fleets (lv_hub l)) -> cc_write c = Looping -> post = cc_send c)) /\
  length (cc_send c) <= sendBufferSize /\
  all ≡ₚ all_sent f (wd_subs (lv_wired l)) ++ job_events f (lv_jobs l) /\
  (forall s, (f, s) ∈ wd_subs (lv_wired l) ->
     sublist (sb_sent s) all /\ sb_sent s `prefix_of` omap (drain_payload (sb_topic s)) (sb_taken s)).
Proof.
  intros f all. destruct (live_reachable_inv l Hl) as [Hw Hcs _ Hsrc].
  destruct (Hcs k c Hc) as (Hr & _ & rq & v & Hg & Hrq).
  destruct (wired_reachable_inv _ Hw) as [_ _ Hs]. split_and!.
  - exists rq, v. split; [done|]. by apply ServeWS_granted.
  - by apply (written_segment l k c).
  - apply (client_reachable_inv c Hr).
  - apply Hsrc.
  - intros s [[(left_ & Ho & _) _] Hsub]%Hs. split; [exact Hsub|]. by exists left_.
Qed.

(** ** Witness: a client of [fleet-a] is told that a vehicle is online *)
#[local] Instance demo_validator : Validator unit :=
  {| v_FleetID := fun _ _ token v => (if bool_decide (token = "t"%string) then ("fleet-a"%string, true)
                                      else (""%string, false), v) |}.
Definition demo_ws : request :=
  MkRequest "GET" ["ws"]%string [("fleet_id", "fleet-a"); ("token", "t")]%string (fun _ => ""%string)
    None Live (at_once 0%Z) 0%Z id.
Definition demo_text : string := default ""%string (marshal_event (OnlineEvent "v1")).
Definition demo_opened : live unit := open_socket 0 "fleet-a" demo_ws tt new_live.
Definition demo_registered : live unit :=
  live_inner (MkWired (addClient 0 (set_register (lv_hub demo_opened) []))
    (startFleetSubscriptions 0 (lv_hub demo_opened) []) false) demo_opened.
Definition demo_queued : live unit := job_broadcast "fleet-a" (OnlineEvent "v1") demo_registered.
Definition demo_fanned : live unit :=
  live_inner (MkWired (default NewHub (fanOut (MkBroadcastMsg "fleet-a" demo_text) [0]
    (set_broadcast (lv_hub demo_queued) []))) (wd_subs (lv_wired demo_queued)) false) demo_queued.
Definition demo_conn : conn_client :=
  set_send [demo_text] false (open_client "fleet-a").
Definition demo_written : live unit :=
  let c' := on_message true demo_text [] demo_conn in
  live_own 0 c' (see_client 0 c' (lv_hub demo_fanned)) demo_fanned.

Lemma demo_registered_reachable : live_reachable demo_registered.
Proof.
  eapply rtc_l; [apply (ls_serve new_live 0 demo_ws tt "fleet-a"); [vm_compute; reflexivity|done|]|].
  { apply Nat.ltb_lt. vm_compute. reflexivity. }
  apply rtc_once. refine (ls_inner demo_opened _ (wd_register (lv_wired demo_opened) 0 [] _ _)); vm_compute; reflexivity.
Qed.
Lemma demo_written_reachable : live_reachable demo_written.
Proof.
  unfold live_reachable. transitivity demo_registered; [exact demo_registered_reachable|].
  eapply rtc_l; [apply (ls_job _ "fleet-a" (OnlineEvent "v1"))|].
  eapply rtc_l; [apply ls_inner, (wd_fanout _ (MkBroadcastMsg "fleet-a" demo_text) [] [0]);
    [vm_compute; reflexivity|vm_compute; reflexivity| |vm_compute; reflexivity]|].
  { replace (elements _) with [0] by (vm_compute; reflexivity). done. }
  apply rtc_once. apply (ls_own demo_fanned 0 demo_conn); [vm_compute; reflexivity| |reflexivity].
  by apply os_pump, ps_message.
Qed.

Lemma socket_end_to_end_witness :
  exists c, lv_conns demo_written !! 0 = Some c /\ texts (cc_frames c) = [demo_text] /\
    fleet_log "fleet-a" (broadcasts (lv_hub demo_written)) ≡ₚ
      all_sent "fleet-a" (wd_subs (lv_wired demo_written)) ++ [demo_text].
Proof.
  exists (on_message true demo_text [] demo_conn).
  assert (Hc : lv_conns demo_written !! 0 = Some (on_message true demo_text [] demo_conn))
    by (vm_compute; reflexivity).
  split; [exact Hc|]. split; [vm_compute; reflexivity|].
  exact (proj1 (proj2 (proj2 (proj2 (socket_end_to_end demo_written 0 _ demo_written_reachable Hc))))).
Defined.
