(* ===== verification/EndToEnd.v ===== *)
(** * From a device to a browser: both services as one system

    The ingestion service (its HTTP server, dispatcher, state writers and alert
    evaluators), Redis and the hub of the serving service run side by side. What travels
    between them is text: the body of a request is decoded by [json.Decode], a state or an
    alert is published as [json.Marshal] writes it, and a subscription of the hub is
    delivered what [json.Unmarshal] makes of a text published on its channel. *)
From S2P Require Import Prelude GoNum Strconv Json JsonParse JsonNumbers Redis Domain Rfc3339 RedisStore Auth Http Tables Timescale Dispatcher StateWriters AlertEvaluator Evaluators IngestHttp Events Hub Client Subs Sockets Messages.
Local Open Scope Z_scope.

(** ** The system *)
(** The channels [startFleetSubscriptions] subscribes to. *)
Definition topic_channel (k : topic) (fleetID : string) : string :=
  match k with
  | Telemetry => "fleet:" ++ fleetID ++ ":telemetry"
  | Alerts => "fleet:" ++ fleetID ++ ":alerts"
  end%string.
(** A channel the hub subscribes to. *)
Definition fleet_channel (ch : string) : Prop := exists k f, ch = topic_channel k f.
(** Redis delivers to a subscription only what was published on its channel. *)
Definition delivers (pub : list (string * string)) (w w' : wired) : Prop := forall i f s s' p,
  wd_subs w !! i = Some (f, s) -> wd_subs w' !! i = Some (f, s') -> sb_chan s' = sb_chan s ++ [p] ->
  exists text, p = Unmarshal text /\ (topic_channel (sb_topic s) f, text) ∈ pub.

Section System.
(** [V]: the authenticator of the devices; [W]: the one of the operators. *)
Context {V W P R : Type} `{Validator V, Validator W, Database P, RedisServer R}.
Variables ts_ping redis_ping : context -> res unit.

Record system := MkSystem {
  sy_disp : Dispatcher;
  sy_auth : V;
  sy_states : list sw_stage;                   (* the state writers *)
  sy_alerts : list Evaluators.stage;           (* the alert evaluators *)
  sy_db : P;
  sy_redis : R;
  sy_now : Time;
  sy_live : live W;                            (* the hub, its subscriptions and clients *)
  sy_grants : list (msg * (request * V))       (* what each message was admitted for *)
}.
Definition with_disp (d : Dispatcher) (s : system) : system :=
  MkSystem d (sy_auth s) (sy_states s) (sy_alerts s) (sy_db s) (sy_redis s) (sy_now s) (sy_live s) (sy_grants s).
Definition with_states (x : list sw_stage) (r : R) (s : system) : system :=
  MkSystem (sy_disp s) (sy_auth s) x (sy_alerts s) (sy_db s) r (sy_now s) (sy_live s) (sy_grants s).
Definition with_alerts (x : list Evaluators.stage) (d : P) (r : R) (s : system) : system :=
  MkSystem (sy_disp s) (sy_auth s) (sy_states s) x d r (sy_now s) (sy_live s) (sy_grants s).
Definition with_live (l : live W) (s : system) : system :=
  MkSystem (sy_disp s) (sy_auth s) (sy_states s) (sy_alerts s) (sy_db s) (sy_redis s) (sy_now s) l (sy_grants s).
Definition published (s : system) : list (string * string) := rs_pub (contents (sy_redis s)).
(** The context of the ingestion service. *)
Definition sy_cx (s : system) : context := if ctx_done (sy_disp s) then Cancelled else Live.
(** Messages admitted by a request are recorded with it. *)
Definition requested (d : Dispatcher) (v : V) (rq : request) (s : system) : system :=
  MkSystem d v (sy_states s) (sy_alerts s) (sy_db s) (sy_redis s) (sy_now s) (sy_live s)
    (sy_grants s ++ map (fun m => (m, (rq, sy_auth s)))
       (drop (length (admitted (sy_disp s))) (admitted d))).
(** A move of the dispatcher beside its HTTP handlers. *)
Definition disp_moves (s : system) (d : Dispatcher) : Prop :=
  step (sy_disp s) d /\ admitted d = admitted (sy_disp s).

Inductive system_step (s : system) : system -> Prop :=
| sy_request body rq resp d v :          (* the ingestion service answers a request *)
    rq_body rq = Decode body ->
    ServeHTTP ts_ping redis_ping rq (sy_disp s, sy_auth s) = (resp, (d, v)) ->
    system_step s (requested d v rq s)
| sy_dispatch d :                        (* no state writer, no evaluator takes a message *)
    disp_moves s d -> ch_out (StateChan d) = ch_out (StateChan (sy_disp s)) ->
    ch_out (AlertChan d) = ch_out (AlertChan (sy_disp s)) ->
    system_step s (with_disp d s)
| sy_to_state d i b m :                  (* state writer [i] takes one *)
    disp_moves s d -> ch_out (StateChan d) = ch_out (StateChan (sy_disp s)) ++ [m] ->
    sy_states s !! i = Some (Gathering b) ->
    system_step s (with_states (<[i := sw_take m b]> (sy_states s)) (sy_redis s) (with_disp d s))
| sy_state_tick i b :
    sy_states s !! i = Some (Gathering b) -> b <> [] ->
    system_step s (with_states (<[i := Writing b false]> (sy_states s)) (sy_redis s) s)
| sy_state_end i b :
    sy_states s !! i = Some (Gathering b) -> ctx_done (sy_disp s) = true ->
    system_step s (with_states (<[i := sw_finish b]> (sy_states s)) (sy_redis s) s)
| sy_state_write i b ret :
    sy_states s !! i = Some (Writing b ret) ->
    system_step s (with_states (<[i := if ret then Finished else Gathering []]> (sy_states s))
      (PipelineStateUpdates (sy_cx s) (sy_now s) b (sy_redis s)).2 s)
| sy_to_alert d i m :                    (* evaluator [i] takes one *)
    disp_moves s d -> ch_out (AlertChan d) = ch_out (AlertChan (sy_disp s)) ++ [m] ->
    sy_alerts s !! i = Some Idle ->
    system_step s (with_alerts (<[i := Scanning m DefaultAlertRules]> (sy_alerts s)) (sy_db s) (sy_redis s)
      (with_disp d s))
| sy_alert_call i e e' d r pub :
    sy_alerts s !! i = Some e ->
    act (sy_now s) e (sy_db s) (sy_redis s) = Some (e', (d, r), pub) ->
    system_step s (with_alerts (<[i := e']> (sy_alerts s)) d r s)
| sy_alert_end i :
    sy_alerts s !! i = Some Idle -> ctx_done (sy_disp s) = true ->
    system_step s (with_alerts (<[i := Ended]> (sy_alerts s)) (sy_db s) (sy_redis s) s)
| sy_serving l :                         (* requests for a WebSocket, the hub, Redis, the jobs, the pumps *)
    live_step (sy_live s) l -> delivers (published s) (lv_wired (sy_live s)) (lv_wired l) ->
    system_step s (with_live l s)
| sy_world t d r :                       (* time and other clients, who do not publish here *)
    sy_now s <= t -> published s ⊆ rs_pub (contents r) ->
    (forall ch text, (ch, text) ∈ rs_pub (contents r) -> fleet_channel ch -> (ch, text) ∈ published s) ->
    system_step s (MkSystem (sy_disp s) (sy_auth s) (sy_states s) (sy_alerts s) d r t (sy_live s) (sy_grants s)).

(** What the two [main]s start, on a Redis nobody published to yet. *)
Inductive system_start : system -> Prop :=
| system_starts n1 n2 n3 workers evals d v p r t :
    NewDispatcher n1 n2 n3 = Some d -> rs_pub (contents r) = [] ->
    system_start (MkSystem d v (replicate (Z.to_nat workers) (Gathering []))
      (replicate (Z.to_nat evals) Idle) p r t new_live []).
Definition system_reachable (s : system) : Prop := exists s0, system_start s0 /\ rtc system_step s0 s.

(** [m] is the message of a POST whose key was accepted for the fleet [m] names. *)
Definition from_device (s : system) (m : msg) : Prop := exists rq v p,
  (m, (rq, v)) ∈ sy_grants s /\ rq_method rq = "POST"%string /\ rq_path rq = telemetry_path /\
  decoded rq = Some p /\ m = message_of (rq_now rq) p /\
  (v_FleetID (rq_cx rq) (rq_auth rq) (api_key rq) v).1 = (FleetID m, true).
End System.
Arguments system : clear implicits.

(** ** What is published, and for which message *)
Lemma telemetry_channel_inj f g : telemetry_channel f = telemetry_channel g -> f = g.
Proof. unfold telemetry_channel. intros E%(inj (String.app _)). by eapply string_app_inj_r. Qed.
Lemma alerts_channel_inj f g : alerts_channel f = alerts_channel g -> f = g.
Proof. unfold alerts_channel. intros E%(inj (String.app _)). by eapply string_app_inj_r. Qed.
(** The last letters differ. *)
Lemma channels_differ f g : telemetry_channel f <> alerts_channel g.
Proof.
  unfold telemetry_channel, alerts_channel. intros E%(inj (String.app _)).
  apply (f_equal (fun s => reverse (String.list_ascii_of_string s))) in E.
  rewrite !list_ascii_app, !reverse_app in E. discriminate E.
Qed.

(** The text [ch] got was written for one of the messages [ms]. *)
Definition backed_text (ms : list msg) (ch text : string) : Prop :=
  (exists m, m ∈ ms /\ ch = telemetry_channel (FleetID m) /\ text = Marshal (state_json m)) \/
  (exists m rule t, m ∈ ms /\ rule ∈ DefaultAlertRules /\ rule_Evaluator rule m = true /\
     ch = alerts_channel (FleetID m) /\ text = alertPayload m rule t).
Lemma backed_more ms ms' ch text : ms ⊆ ms' -> backed_text ms ch text -> backed_text ms' ch text.
Proof. intros Hs [(m & ? & ?)|(m & rule & t & ? & ?)]; [left|right]; naive_solver. Qed.

(** Nothing published is taken back, and what is new is backed by [ms]. *)
Definition publishes (ms : list msg) (st st' : rstate) : Prop :=
  exists new, rs_pub st' = rs_pub st ++ new /\ Forall (fun p => backed_text ms p.1 p.2) new.
Lemma publishes_refl ms st st' : rs_pub st' = rs_pub st -> publishes ms st st'.
Proof. intros E. exists []. by rewrite E, app_nil_r. Qed.
Lemma publishes_trans ms st1 st2 st3 : publishes ms st1 st2 -> publishes ms st2 st3 -> publishes ms st1 st3.
Proof.
  intros (n1 & E1 & F1) (n2 & E2 & F2). exists (n1 ++ n2). rewrite E2, E1, (assoc_L (++)).
  split; [done|]. by apply Forall_app.
Qed.
Lemma cmd_publishes t ms c rep st st' : cmd_of ms c -> cmd_sem t c st = Some (rep, st') -> publishes ms st st'.
Proof.
  intros (m & Hm & Hc). unfold state_cmds in Hc. rewrite !elem_of_cons, elem_of_nil in Hc.
  destruct Hc as [->|[->|[->|[]]]]; cbn [cmd_sem].
  - destruct (Redis.live t _ st) as [[s|h]|]; [done| |];
      [destruct (rs_kv st !! _) as [[y e]|]|]; intros E%some_pair_inj; subst st'; by apply publishes_refl.
  - destruct (Redis.live t _ st); intros E%some_pair_inj; subst st'; by apply publishes_refl.
  - intros E%some_pair_inj. subst st'. eexists. split; [done|]. constructor; [left|constructor]. by exists m.
Qed.
Lemma run_publishes t ms cs st : Forall (cmd_of ms) cs -> publishes ms st (run_cmds t cs st).
Proof.
  intros Hcs. revert st. induction Hcs as [|c cs Hc _ IH]; intros st; [by apply publishes_refl|].
  unfold run_cmds. simpl. destruct (cmd_sem t c st) as [[rep st']|] eqn:E; [|apply IH].
  eapply publishes_trans; [by eapply cmd_publishes|apply IH].
Qed.
Lemma update_publishes {R} `{RedisLaws R} cx t b (r : R) :
  publishes b (contents r) (contents (PipelineStateUpdates cx t b r).2).
Proof.
  simpl. unfold RedisStore_PipelineStateUpdates.
  destruct (state_pipeline b) as [cs|e] eqn:E; [|by apply publishes_refl]. apply state_pipeline_cmds in E.
  destruct (redis_exec cx t cs r) as [[[]|e] r'] eqn:Ex; simpl.
  - apply redis_exec_ok in Ex. rewrite Ex. by apply run_publishes.
  - apply redis_exec_err in Ex as (cs' & [rest ->] & Ex). rewrite Ex.
    apply Forall_app in E as [E _]. by apply run_publishes.
Qed.
(** An evaluator works on one of the messages, with rules of the list. *)
Definition stage_ok (ms : list msg) (e : Evaluators.stage) : Prop :=
  match e with
  | Idle | Ended => True
  | Scanning m rules => m ∈ ms /\ rules ⊆ DefaultAlertRules
  | Inserting m rule rules _ | Releasing m rule rules _ | Publishing m rule rules _ =>
      m ∈ ms /\ rules ⊆ DefaultAlertRules /\ rule ∈ DefaultAlertRules /\ rule_Evaluator rule m = true
  end.
Lemma stage_more ms ms' e : ms ⊆ ms' -> stage_ok ms e -> stage_ok ms' e.
Proof. intros Hs. destruct e; simpl; naive_solver. Qed.
Lemma act_publishes {P R} `{Database P} `{RedisLaws R} t ms e (d : P) (r : R) e' d' r' pub :
  stage_ok ms e -> act t e d r = Some (e', (d', r'), pub) ->
  stage_ok ms e' /\ publishes ms (contents r) (contents r').
Proof.
  intros He. destruct e as [|m [|rule rules]|m rule rules c|m rule rules c|m rule rules c|]; try done;
    unfold act; simpl in He.
  - intros [= <- <- <- <-]. split; [done|by apply publishes_refl].
  - destruct He as [Hm Hr]. assert (Hr' : rules ⊆ DefaultAlertRules /\ rule ∈ DefaultAlertRules) by set_solver.
    destruct (rule_Evaluator rule m) eqn:Ev; cbn [negb];
      [|intros [= <- <- <- <-]; split; [by split; [|apply Hr']|by apply publishes_refl]].
    pose proof (TryClaim_pub Live t (VehicleID m) (rule_Type rule) r) as Hp.
    destruct (TryClaimAlertDedup Live t (VehicleID m) (rule_Type rule) r) as [[[]|x] r1];
      intros [= <- <- <- <-]; (split; [simpl; tauto|by apply publishes_refl]).
  - destruct (InsertAlert _ _ _ _ _ _ _ d) as [[u|x] d1]; intros [= <- <- <- <-];
      (split; [done|by apply publishes_refl]).
  - pose proof (Release_pub Live t (VehicleID m) (rule_Type rule) r) as Hp.
    destruct (ReleaseAlertDedup Live t (VehicleID m) (rule_Type rule) r) as [x r1].
    intros [= <- <- <- <-]. split; [simpl; tauto|by apply publishes_refl].
  - pose proof (Publish_pub Live t (FleetID m) (alertPayload m rule t) r) as Hp. simpl in Hp.
    destruct (PublishAlert Live t (FleetID m) (alertPayload m rule t) r) as [x r1] eqn:E.
    intros [= <- <- <- <-]. split; [simpl; tauto|]. simpl in E. rewrite E in Hp. simpl in Hp.
    destruct Hp as [Hp|Hp]; [by apply publishes_refl|]. eexists. split; [exact Hp|].
    constructor; [right|constructor]. exists m, rule, t. simpl. tauto.
Qed.

(** ** What the hub's subscriptions have heard *)
Definition heard (pub : list (string * string)) (w : wired) : Prop := forall f x p,
  (f, x) ∈ wd_subs w -> p ∈ sb_taken x ++ sb_chan x ->
  exists text, p = Unmarshal text /\ (topic_channel (sb_topic x) f, text) ∈ pub.
Lemma heard_more pub pub' w : pub ⊆ pub' -> heard pub w -> heard pub' w.
Proof. intros Hs Hh f x p Hx Hp. destruct (Hh f x p Hx Hp) as (text & ? & ?). exists text. auto. Qed.
(** A change of one subscription that hears nothing new. *)
Lemma heard_insert pub h done_ w i f x x' :
  heard pub w -> wd_subs w !! i = Some (f, x) -> sb_topic x' = sb_topic x ->
  (forall p, p ∈ sb_taken x' ++ sb_chan x' -> p ∈ sb_taken x ++ sb_chan x \/
     exists text, p = Unmarshal text /\ (topic_channel (sb_topic x) f, text) ∈ pub) ->
  heard pub (MkWired h (<[i := (f, x')]> (wd_subs w)) done_).
Proof.
  intros Hh Hi Ht Hp g y p Hy Hin. simpl in Hy. apply list_elem_of_lookup in Hy as [j Hj].
  destruct (decide (i = j)) as [<-|Hne].
  - rewrite list_lookup_insert_eq in Hj by (by eapply lookup_lt_Some). injection Hj as <- <-.
    rewrite Ht. destruct (Hp p Hin) as [Hin'|?]; [|done]. eapply Hh; [|exact Hin'].
    by eapply list_elem_of_lookup_2.
  - rewrite list_lookup_insert_ne in Hj by done. eapply Hh; [|exact Hin]. by eapply list_elem_of_lookup_2.
Qed.
Lemma heard_stop pub h done_ w (stop : list (string * subscription)) :
  heard pub w ->
  (forall f x, (f, x) ∈ stop -> (exists y, (f, y) ∈ wd_subs w /\ (x = y \/ x = unsubscribe y)) \/
     exists k, x = subscribe k) ->
  heard pub (MkWired h stop done_).
Proof.
  intros Hh Hs f x p Hx Hp. destruct (Hs f x Hx) as [(y & Hy & [-> | ->])|[k ->]].
  - by apply (Hh f y).
  - by apply (Hh f y).
  - by apply elem_of_nil in Hp.
Qed.
Lemma inner_heard pub w w' : heard pub w -> delivers pub w w' -> inner_step w w' -> heard pub w'.
Proof.
  intros Hh Hd Hs. destruct Hs as [c q Hr Hq|c q h' Hr Hq Hrem|h' Hr Hdone Hsh|m q ord h' Hr Hq Ho Hf|
      i f x p Hi Ho|i f x x' o Hi Hstep|].
  - apply (heard_stop pub _ _ w); [done|]. intros f x. unfold startFleetSubscriptions.
    destruct (h_clients _ !! c); [|eauto]. destruct (h_fleets _ !! _); [eauto|].
    rewrite elem_of_app, !elem_of_cons, elem_of_nil. intros [?|[[= -> ->]|[[= -> ->]|[]]]]; eauto.
  - apply (heard_stop pub _ _ w); [done|]. intros f x. unfold stop_if_empty.
    destruct (h_clients _ !! c); [|eauto]. destruct (h_fleets _ !! _); [|eauto].
    destruct (decide _); [|eauto]. intros Hin%elem_of_stop. by left.
  - apply (heard_stop pub _ _ w); [done|]. intros f x Hin%elem_of_stop_all. by left.
  - by apply (heard_stop pub _ _ w); [|eauto].
  - apply (heard_insert pub _ _ w i f x); try done. simpl. intros p'. rewrite !elem_of_app, list_elem_of_singleton.
    intros [?|[?| ->]]; [auto|auto|right]. apply (Hd i f x (set_chan (sb_chan x ++ [p]) x)); [done| |done]. simpl.
    apply list_lookup_insert_eq. by eapply lookup_lt_Some.
  - apply (heard_insert pub _ _ w i f x); try done; [by destruct Hstep|]. intros p' Hp. left. revert Hp.
    destruct Hstep as [p q Ha Hq|Ha Hq Hc|data Ha Hroom|Ha Hc]; simpl; try done. rewrite Hq. set_solver.
  - done.
Qed.

(** ** The invariant *)
Lemma Conserved_same d d' :
  (forall k, chan_of k d' = chan_of k d) -> admitted d' = admitted d -> run_at d' = run_at d ->
  ingress d' = ingress d -> ingress_cap d' = ingress_cap d -> Conserved d -> Conserved d'.
Proof.
  intros Hc Ha Hr Hi Hcap [H1 H2 H3]. split; [intros k; by rewrite Hc, Ha, Hr, Hi|by rewrite Hi, Hcap|].
  intros k. by rewrite Hc.
Qed.
(** What was taken from a queue was admitted. *)
Lemma taken_admitted d k m : Conserved d -> m ∈ ch_out (chan_of k d) -> m ∈ admitted d.
Proof.
  intros Hc Hm. rewrite (cons_flow d Hc k). unfold ch_received. rewrite !elem_of_app. auto.
Qed.
(** No step of the hub's side but one of [inner_step] touches the subscriptions. *)
Lemma live_step_subs {W} `{Validator W} (l l' : live W) :
  live_step l l' -> inner_step (lv_wired l) (lv_wired l') \/ wd_subs (lv_wired l') = wd_subs (lv_wired l).
Proof. intros []; simpl; auto. Qed.

Section Invariant.
Context {V W P R : Type} `{Validator V, Validator W, Database P, RedisLaws R}.
Variables ts_ping redis_ping : context -> res unit.
Notation system := (system V W P R).
Notation system_step := (system_step (V:=V) (W:=W) (P:=P) (R:=R) ts_ping redis_ping).

Record system_inv (s : system) : Prop := {
  sy_conserved : Conserved (sy_disp s);
  sy_origin : forall m, m ∈ admitted (sy_disp s) -> from_device s m /\ message_ok m;
  sy_held : forall i x, sy_states s !! i = Some x -> sw_holds x ⊆ admitted (sy_disp s);
  sy_judged : forall i e, sy_alerts s !! i = Some e -> stage_ok (admitted (sy_disp s)) e;
  sy_backed : forall ch text, (ch, text) ∈ published s -> fleet_channel ch ->
    backed_text (admitted (sy_disp s)) ch text;
  sy_hub : live_reachable (sy_live s);
  sy_heard : heard (published s) (lv_wired (sy_live s))
}.

Lemma start_inv (s : system) : system_start s -> system_inv s.
Proof.
  intros [n1 n2 n3 workers evals d v p r t Hn Hr]. split; simpl.
  - by eapply Conserved_new.
  - unfold NewDispatcher in Hn. destruct (_ && _ && _)%Z; [|done]. injection Hn as <-.
    by intros m ?%elem_of_nil.
  - intros i x Hx. apply lookup_replicate in Hx as [-> _]. by intros m ?%elem_of_nil.
  - intros i x Hx. by apply lookup_replicate in Hx as [-> _].
  - unfold published. simpl. rewrite Hr. by intros ch text ?%elem_of_nil.
  - apply rtc_refl.
  - by intros f x q ?%elem_of_nil.
Qed.

(** A move of the dispatcher keeps all but what the workers hold. *)
Lemma disp_moves_inv (s : system) d :
  system_inv s -> disp_moves s d -> system_inv (with_disp d s).
Proof.
  intros [Hc Ho Hs Ha Hb Hl Hh] [Hd He]. split; simpl; rewrite ?He; try done.
  by eapply Conserved_step.
Qed.
Lemma with_states_inv (s : system) i x r :
  system_inv s -> sw_holds x ⊆ admitted (sy_disp s) ->
  publishes (admitted (sy_disp s)) (contents (sy_redis s)) (contents r) ->
  system_inv (with_states (<[i := x]> (sy_states s)) r s).
Proof.
  intros [Hc Ho Hs Ha Hb Hl Hh] Hx (new & Hp & Hn). unfold published in *.
  split; simpl; unfold published; simpl; try done.
  - intros j y Hj. apply list_lookup_insert_Some in Hj as [(_ & <- & _)|[_ Hj]]; [done|by eapply Hs].
  - rewrite Hp. intros ch text [?|Hin]%elem_of_app Hf; [auto|]. rewrite Forall_forall in Hn. by apply (Hn _ Hin).
  - eapply heard_more; [|exact Hh]. rewrite Hp. set_solver.
Qed.
Lemma with_alerts_inv (s : system) i e d r :
  system_inv s -> stage_ok (admitted (sy_disp s)) e ->
  publishes (admitted (sy_disp s)) (contents (sy_redis s)) (contents r) ->
  system_inv (with_alerts (<[i := e]> (sy_alerts s)) d r s).
Proof.
  intros [Hc Ho Hs Ha Hb Hl Hh] Hx (new & Hp & Hn). unfold published in *.
  split; simpl; unfold published; simpl; try done.
  - intros j y Hj. apply list_lookup_insert_Some in Hj as [(_ & <- & _)|[_ Hj]]; [done|by eapply Ha].
  - rewrite Hp. intros ch text [?|Hin]%elem_of_app Hf; [auto|]. rewrite Forall_forall in Hn. by apply (Hn _ Hin).
  - eapply heard_more; [|exact Hh]. rewrite Hp. set_solver.
Qed.

Lemma request_inv (s : system) body rq resp d v :
  system_inv s -> rq_body rq = Decode body ->
  ServeHTTP ts_ping redis_ping rq (sy_disp s, sy_auth s) = (resp, (d, v)) ->
  system_inv (requested d v rq s).
Proof.
  intros [Hc Ho Hs Ha Hb Hl Hh] Hbody Hreq.
  pose proof (serve_admits ts_ping redis_ping rq (sy_disp s) (sy_auth s)) as Hadm.
  pose proof (serve_dispatches ts_ping redis_ping rq (sy_disp s) (sy_auth s)) as Hd. simpl in Hd.
  rewrite Hreq in Hadm, Hd. simpl in Hd.
  assert (Hcons : Conserved d).
  { destruct Hd as [->|(m & Hd)]; [done|]. destruct (Dispatch m (sy_disp s)) as [b d1] eqn:E.
    pose proof (Conserved_dispatch m b _ _ E Hc) as Hc1. destruct Hd as [->|Hd]; [done|].
    rewrite Hd. eapply Conserved_same; [..|exact Hc1]; done. }
  assert (Hmore : exists new, admitted d = admitted (sy_disp s) ++ new /\
    Forall (fun m => message_ok m /\ exists p, rq_method rq = "POST"%string /\ rq_path rq = telemetry_path /\
      decoded rq = Some p /\ m = message_of (rq_now rq) p /\
      (v_FleetID (rq_cx rq) (rq_auth rq) (api_key rq) (sy_auth s)).1 = (FleetID m, true)) new).
  { destruct Hadm as [[-> _]|(Hm & Hp & _ & p & Hdec & _ & _ & _ & Hk & -> & _)].
    - exists []. by rewrite app_nil_r.
    - eexists. split; [done|]. constructor; [|constructor].
      split; [|by exists p]. apply (message_of_ok _ body). by rewrite <- Hbody. }
  destruct Hmore as (new & Hnew & Hall).
  assert (Hsub : admitted (sy_disp s) ⊆ admitted d) by (rewrite Hnew; set_solver).
  assert (Hgr : sy_grants (requested d v rq s) = sy_grants s ++ map (fun m => (m, (rq, sy_auth s))) new).
  { simpl. by rewrite Hnew, drop_app_length. }
  split; simpl; try done.
  - rewrite Hnew. intros m [Hm|Hm]%elem_of_app.
    + destruct (Ho m Hm) as [(rq0 & v0 & p & Hin & Hrest) Hok]. split; [|done]. exists rq0, v0, p.
      split; [|done]. rewrite Hgr. apply elem_of_app. by left.
    + rewrite Forall_forall in Hall. destruct (Hall m Hm) as [Hok (p & Hrest)]. split; [|done].
      exists rq, (sy_auth s), p. split; [|done]. rewrite Hgr. apply elem_of_app. right.
      apply list_elem_of_fmap. by exists m.
  - intros i x Hx. etrans; [by eapply Hs|done].
  - intros i e He. eapply stage_more; [exact Hsub|by eapply Ha].
  - intros ch text Hin Hf. eapply backed_more; [exact Hsub|by apply Hb].
Qed.

Lemma system_step_inv (s s' : system) : system_inv s -> system_step s s' -> system_inv s'.
Proof.
  intros Hi Hstep.
  destruct Hstep as [body rq resp d v Hb Hr|d Hm _ _|d i b m Hm Ht Hw|i b Hw _|i b Hw _|i b ret Hw|
    d i m Hm Ht Hw|i e e' d r pub Hw Hact|i Hw _|l Hl Hd|t d r Ht Hsub Hnew].
  - by eapply request_inv.
  - by apply disp_moves_inv.
  - pose proof (disp_moves_inv _ _ Hi Hm) as Hi'. apply (with_states_inv (with_disp d s)); [done| |by apply publishes_refl].
    assert (Hin : m ∈ admitted d).
    { apply (taken_admitted d ToState); [apply (sy_conserved _ Hi')|]. simpl. rewrite Ht. set_solver. }
    pose proof (sy_held _ Hi' i _ Hw) as Hh. simpl in *. unfold sw_take. case_match; simpl; set_solver.
  - apply with_states_inv; [done|exact (sy_held _ Hi i _ Hw)|by apply publishes_refl].
  - apply with_states_inv; [done| |by apply publishes_refl]. pose proof (sy_held _ Hi i _ Hw). by destruct b.
  - apply with_states_inv; [done|by destruct ret; intros m ?%elem_of_nil|].
    destruct (update_publishes (sy_cx s) (sy_now s) b (sy_redis s)) as (new & Hp & Hn). exists new. split; [done|].
    eapply Forall_impl; [exact Hn|]. intros p. apply backed_more. exact (sy_held _ Hi i _ Hw).
  - pose proof (disp_moves_inv _ _ Hi Hm) as Hi'. apply (with_alerts_inv (with_disp d s)); [done| |by apply publishes_refl].
    split; [|done]. apply (taken_admitted d ToAlert); [apply (sy_conserved _ Hi')|]. simpl. rewrite Ht. set_solver.
  - destruct (act_publishes _ _ _ _ _ _ _ _ _ (sy_judged _ Hi i _ Hw) Hact) as [Hok Hp].
    by apply with_alerts_inv.
  - by apply with_alerts_inv; [|done|apply publishes_refl].
  - destruct Hi as [Hc Ho Hs Ha Hb Hlr Hh]. split; simpl; try done; [by eapply rtc_r|].
    destruct (live_step_subs _ _ Hl) as [Hin|E]; [by eapply inner_heard|].
    intros f x p. rewrite E. apply Hh.
  - destruct Hi as [Hc Ho Hs Ha Hb Hlr Hh]. split; simpl; try done.
    + intros ch text Hin Hf. apply Hb; [|done]. by apply Hnew.
    + eapply heard_more; [|exact Hh]. done.
Qed.
Lemma system_reachable_inv (s : system) : system_reachable ts_ping redis_ping s -> system_inv s.
Proof.
  intros (s0 & Hs0 & Hr). eapply rtc_invariant; [|exact Hr|by apply start_inv]. eauto using system_step_inv.
Qed.
End Invariant.

(** ** The property *)
Lemma all_sent_elem f subs text :
  text ∈ all_sent f subs -> exists x, (f, x) ∈ subs /\ text ∈ sb_sent x.
Proof.
  unfold all_sent. rewrite list_elem_of_In, in_concat. intros (l & ([g x] & <- & Hin)%in_map_iff & Ht).
  simpl in Ht. destruct (bool_decide_reflect (g = f)) as [->|]; [|done].
  exists x. by rewrite !list_elem_of_In.
Qed.
Lemma job_events_elem f jobs text :
  text ∈ job_events f jobs -> exists e, (f, e) ∈ jobs /\ marshal_event e = Some text.
Proof.
  unfold job_events. intros ([g e] & Hin & He)%list_elem_of_omap. simpl in He.
  destruct (bool_decide_reflect (g = f)) as [->|]; [|done]. eauto.
Qed.
(** A text on a socket was broadcast for its fleet. *)
Lemma written_broadcast {W} `{Validator W} (l : live W) k c text :
  live_reachable l -> lv_conns l !! k = Some c -> text ∈ texts (cc_frames c) ->
  text ∈ fleet_log (cc_fleetID c) (broadcasts (lv_hub l)).
Proof.
  intros Hl Hc Ht. destruct (written_segment l k c Hl Hc) as (pre & post & E & _).
  unfold broadcasts. rewrite fleet_log_app, E, !elem_of_app. auto.
Qed.
(** What a subscription queued is a decoded payload it received. *)
Lemma sent_decoded x text :
  sub_ok x -> text ∈ sb_sent x -> exists p, p ∈ sb_taken x /\ drain_payload (sb_topic x) p = Some text.
Proof.
  intros [(left_ & E & _) _] Ht. assert (Hin : text ∈ omap (drain_payload (sb_topic x)) (sb_taken x)).
  { rewrite E. apply elem_of_app. by left. }
  apply list_elem_of_omap in Hin as (p & ? & ?). eauto.
Qed.
(** The two ways a fleet's channel gets a text, as its subscription decodes it. *)
Lemma decoded_origin {V W P R} (s : system V W P R) `{Validator V} k f text out :
  (forall m, m ∈ admitted (sy_disp s) -> from_device s m /\ message_ok m) ->
  backed_text (admitted (sy_disp s)) (topic_channel k f) text ->
  drain_payload k (Unmarshal text) = Some out ->
  exists m, from_device s m /\ FleetID m = f /\
    match k with
    | Telemetry => drain_telemetry (Some (state_json m)) = Some out
    | Alerts => exists rule t, rule ∈ DefaultAlertRules /\ rule_Evaluator rule m = true /\
        drain_alert (Some (alert_json m rule t)) = Some out
    end.
Proof.
  intros Ho [(m & Hm & Hch & ->)|(m & rule & t & Hm & Hr & He & Hch & ->)] Hout;
    destruct (Ho m Hm) as [Hd Hok]; exists m; (split; [exact Hd|]); destruct k;
    cbn [topic_channel drain_payload] in *.
  - apply telemetry_channel_inj in Hch as ->. by rewrite state_text_read in Hout.
  - by destruct (channels_differ (FleetID m) f).
  - by destruct (channels_differ f (FleetID m)).
  - apply alerts_channel_inj in Hch as ->. rewrite alert_text_read in Hout by done.
    split; [done|]. exists rule, t. split_and!; assumption.
Qed.

(** The pings among the text messages say nothing else. *)
Lemma app_ping_reads : Unmarshal app_ping = Some (JObj [("type", JStr "ping")]%string).
Proof. vm_compute. reflexivity. Qed.


(** ** Witness: a device posts one message, an operator of its fleet sees it *)
#[local] Existing Instance Sockets.demo_validator.
Notation demo_system := (system unit unit MemDB MemRedis).
#[local] Notation demo_step := (system_step (V:=unit) (W:=unit) (P:=MemDB) (R:=MemRedis) (fun _ => Ok tt) (fun _ => Ok tt)).
Definition fleet_a : string := "fleet-a".
Definition demo_text_body : string :=
  Marshal (JObj [("vehicle_id", JStr "v1"); ("fleet_id", JStr fleet_a)]%string).
Definition demo_post : request := demo_request "POST" telemetry_path "t" (Decode demo_text_body).

Definition run_started : demo_system :=
  MkSystem demo_disp tt [Gathering []] [] (MkMemDB empty_db []) empty_redis 5 new_live [].
Definition run_opened : demo_system := with_live demo_opened run_started.
Definition run_registered : demo_system := with_live demo_registered run_opened.
Definition answered : response * (Dispatcher * unit) :=
  ServeHTTP (fun _ => Ok tt) (fun _ => Ok tt) demo_post (sy_disp run_registered, tt).
Definition run_posted : demo_system := requested answered.2.1 tt demo_post run_registered.
Definition posted : msg := message_of 0 (default zero_payload (decoded demo_post)).
Definition hand (k : Dispatcher.stage) (d : Dispatcher) : Dispatcher :=
  set_run (after_send posted k) (Dispatcher.set_chan k (MkChannel (ch_cap (chan_of k d)) [] (ch_out (chan_of k d) ++ [posted])) d).
Definition run_received : demo_system :=
  with_disp (set_run (Sending posted ToDB) (set_ingress [] (sy_disp run_posted))) run_posted.
Definition run_to_db : demo_system := with_disp (hand ToDB (sy_disp run_received)) run_received.
Definition run_to_state : demo_system :=
  with_states [sw_take posted []] empty_redis (with_disp (hand ToState (sy_disp run_to_db)) run_to_db).
Definition run_ticked : demo_system := with_states [Writing [posted] false] empty_redis run_to_state.
Definition run_written : demo_system :=
  with_states [Gathering []] (PipelineStateUpdates Live 5 [posted] empty_redis).2 run_ticked.

(** What the hub does next. *)
Definition state_text : string := Marshal (state_json posted).
Definition position_text : string := default ""%string (drain_telemetry (Unmarshal state_text)).
Definition sub0 (w : wired) : subscription := default (subscribe Telemetry) (snd <$> wd_subs w !! 0%nat).
Definition with_sub0 (x : subscription) (w : wired) : list (string * subscription) :=
  <[0%nat := (fleet_a, x)]> (wd_subs w).
Definition live_delivered : live unit :=
  let w := lv_wired demo_registered in
  live_inner (MkWired (wd_hub w) (with_sub0 (set_chan (sb_chan (sub0 w) ++ [Unmarshal state_text]) (sub0 w)) w) (wd_done w))
    demo_registered.
Definition live_decoded : live unit :=
  let w := lv_wired live_delivered in
  live_inner (MkWired (set_broadcast (wd_hub w) (h_broadcast (wd_hub w) ++ []))
    (with_sub0 (receive (Unmarshal state_text) [] (sub0 w)) w) (wd_done w)) live_delivered.
Definition live_queued : live unit :=
  let w := lv_wired live_decoded in
  live_inner (MkWired (set_broadcast (wd_hub w) (h_broadcast (wd_hub w) ++ [MkBroadcastMsg fleet_a position_text]))
    (with_sub0 (sent position_text (sub0 w)) w) (wd_done w)) live_decoded.
Definition live_fanned : live unit :=
  live_inner (MkWired (default NewHub (fanOut (MkBroadcastMsg fleet_a position_text) [0%nat]
    (set_broadcast (lv_hub live_queued) []))) (wd_subs (lv_wired live_queued))
    (wd_done (lv_wired live_queued))) live_queued.
Definition shown : conn_client := on_message true position_text [] (set_send [position_text] false (open_client fleet_a)).
Definition live_shown : live unit := live_own 0%nat shown (see_client 0%nat shown (lv_hub live_fanned)) live_fanned.
Definition run_shown : demo_system := with_live live_shown run_written.

(** A step that appends to no subscription's channel delivers nothing. *)
Definition quiet (w w' : wired) : bool :=
  forallb (fun p => Nat.leb (length (sb_chan p.2.2)) (length (sb_chan p.1.2))) (zip (wd_subs w) (wd_subs w')).
Lemma quiet_delivers pub w w' : quiet w w' = true -> delivers pub w w'.
Proof.
  intros Hq i f x x' p Hi Hi' E. unfold quiet in Hq. rewrite forallb_forall in Hq.
  specialize (Hq ((f, x), (f, x'))). rewrite <- list_elem_of_In in Hq. simpl in Hq.
  apply leb_complete in Hq; [rewrite E, length_app in Hq; simpl in Hq; lia|].
  apply (list_elem_of_lookup_2 _ i), lookup_zip_with_Some. eauto 10.
Qed.
Lemma run_quiet (s : demo_system) l :
  live_step (sy_live s) l -> quiet (lv_wired (sy_live s)) (lv_wired l) = true -> demo_step s (with_live l s).
Proof. intros Hl Hq. by apply sy_serving; [|apply quiet_delivers]. Qed.
Ltac evaluate := vm_compute; reflexivity.
Lemma step_opened : demo_step run_started run_opened.
Proof.
  apply run_quiet; [|evaluate].
  apply (ls_serve new_live 0%nat demo_ws tt "fleet-a"); [evaluate|done|]. apply Nat.ltb_lt. evaluate.
Qed.
Lemma step_registered : demo_step run_opened run_registered.
Proof.
  apply run_quiet; [|evaluate].
  refine (ls_inner demo_opened _ (wd_register (lv_wired demo_opened) 0%nat [] _ _)); evaluate.
Qed.
Lemma step_posted : demo_step run_registered run_posted.
Proof. apply (sy_request _ _ run_registered demo_text_body demo_post answered.1 answered.2.1 tt); evaluate. Qed.
Lemma step_received : demo_step run_posted run_received.
Proof.
  apply (sy_dispatch _ _ run_posted (sy_disp run_received)); [split|evaluate..]; [|evaluate].
  apply (step_recv posted []); evaluate.
Qed.
Lemma step_to_db : demo_step run_received run_to_db.
Proof.
  apply (sy_dispatch _ _ run_received (sy_disp run_to_db)); [split|evaluate..]; [|evaluate].
  apply (step_handoff posted ToDB); evaluate.
Qed.
Lemma step_to_state : demo_step run_to_db run_to_state.
Proof.
  apply (sy_to_state _ _ run_to_db (sy_disp run_to_state) 0%nat [] posted); [split|evaluate..]; [|evaluate].
  apply (step_handoff posted ToState); evaluate.
Qed.
Lemma step_ticked : demo_step run_to_state run_ticked.
Proof. apply (sy_state_tick _ _ run_to_state 0%nat [posted]); [evaluate|done]. Qed.
Lemma step_written : demo_step run_ticked run_written.
Proof. apply (sy_state_write _ _ run_ticked 0%nat [posted] false). evaluate. Qed.
Lemma run_on (s : demo_system) l l' :
  live_step l l' -> quiet (lv_wired l) (lv_wired l') = true -> demo_step (with_live l s) (with_live l' s).
Proof. intros Hl Hq. by apply (sy_serving _ _ (with_live l s)); [|apply quiet_delivers]. Qed.
(** What Redis delivers was published. *)
Lemma delivers_one pub w i f x text :
  wd_subs w !! i = Some (f, x) -> (topic_channel (sb_topic x) f, text) ∈ pub ->
  delivers pub w (MkWired (wd_hub w) (<[i := (f, set_chan (sb_chan x ++ [Unmarshal text]) x)]> (wd_subs w)) (wd_done w)).
Proof.
  intros Hi Hin j g y y' p Hj Hj' E. simpl in Hj'. destruct (decide (i = j)) as [<-|Hne].
  - rewrite list_lookup_insert_eq in Hj' by (by eapply lookup_lt_Some).
    rewrite Hi in Hj. injection Hj as <- <-. injection Hj' as <-. simpl in E.
    apply (inj (sb_chan x ++.)) in E. exists text. split; [congruence|done].
  - rewrite list_lookup_insert_ne in Hj' by done. rewrite Hj in Hj'. injection Hj' as <-.
    apply (f_equal length) in E. rewrite length_app in E. simpl in E. lia.
Qed.
Lemma step_delivered : demo_step run_written (with_live live_delivered run_written).
Proof.
  apply sy_serving.
  - apply ls_inner, (wd_delivered (lv_wired demo_registered) 0%nat fleet_a (sub0 (lv_wired demo_registered))
      (Unmarshal state_text)); evaluate.
  - apply delivers_one; [evaluate|].
    replace (sb_topic _) with Telemetry by evaluate. cbn [topic_channel].
    replace (published run_written) with [(telemetry_channel fleet_a, state_text)] by evaluate.
    by apply list_elem_of_singleton.
Qed.
Lemma step_decoded : demo_step (with_live live_delivered run_written) (with_live live_decoded run_written).
Proof.
  apply run_on; [|evaluate].
  refine (ls_inner live_delivered _ (wd_drain (lv_wired live_delivered) 0%nat fleet_a
    (sub0 (lv_wired live_delivered)) _ None _ (ds_receive _ _ _ (Unmarshal state_text) [] _ _))); evaluate.
Qed.
Lemma step_queued : demo_step (with_live live_decoded run_written) (with_live live_queued run_written).
Proof.
  apply run_on; [|evaluate].
  refine (ls_inner live_decoded _ (wd_drain (lv_wired live_decoded) 0%nat fleet_a
    (sub0 (lv_wired live_decoded)) _ (Some position_text) _ (ds_offer _ _ _ position_text _ _))); evaluate.
Qed.
Lemma step_fanned : demo_step (with_live live_queued run_written) (with_live live_fanned run_written).
Proof.
  apply run_on; [|evaluate].
  refine (ls_inner live_queued _ (wd_fanout (lv_wired live_queued) (MkBroadcastMsg fleet_a position_text) []
    [0%nat] _ _ _ _ _)); [evaluate|evaluate| |evaluate].
  replace (elements _) with [0%nat] by evaluate. done.
Qed.
Lemma step_shown : demo_step (with_live live_fanned run_written) run_shown.
Proof.
  unfold run_shown. apply run_on; [|evaluate].
  refine (ls_own live_fanned 0%nat (set_send [position_text] false (open_client fleet_a)) shown _ _ _); [evaluate| |evaluate].
  apply os_pump, ps_message; evaluate.
Qed.
Lemma run_reachable : system_reachable (V:=unit) (W:=unit) (P:=MemDB) (R:=MemRedis) (fun _ => Ok tt) (fun _ => Ok tt) run_shown.
Proof.
  exists run_started. split; [by apply (system_starts 1 1 1 1 0)|].
  apply (rtc_l _ _ _ _ step_opened), (rtc_l _ _ _ _ step_registered), (rtc_l _ _ _ _ step_posted),
    (rtc_l _ _ _ _ step_received), (rtc_l _ _ _ _ step_to_db), (rtc_l _ _ _ _ step_to_state),
    (rtc_l _ _ _ _ step_ticked), (rtc_l _ _ _ _ step_written), (rtc_l _ _ _ _ step_delivered),
    (rtc_l _ _ _ _ step_decoded), (rtc_l _ _ _ _ step_queued), (rtc_l _ _ _ _ step_fanned),
    (rtc_once _ _ step_shown).
Qed.

