(* ===== verification/Geo.v ===== *)
(** * [serving/internal/jobs/geo.go] and what the jobs share

    Distances in binary64 arithmetic. [math.Sin], [math.Cos] and [math.Atan2] are the
    interface [Trig]: nothing is assumed of them. The world of a job is Redis, the
    database and the hub's broadcast queue; a tick of a job runs at one instant. *)
From Stdlib Require Import SpecFloat.
From S2P Require Import Prelude GoNum Strconv Json Redis Domain RedisStore Tables Events.
Local Open Scope Z_scope.

(** ** Tickers *)
Definition intervalFromSeconds (seconds : Z) : Z :=
  let seconds := if seconds <? 1 then 1 else seconds in int_mul seconds Second.

(** [time.Unix(sec, 0)]: the seconds are counted from year 1 in 64 bits. *)
Definition time_Unix (sec : Z) : Time :=
  (wrap64 (sec + 62135596800) - 62135596800) * Second.
(** [now.Sub(t)], which saturates. *)
Definition time_Sub (now t : Time) : Z := Z.max int64_min (Z.min int64_max (now - t)).

(** ** Distances *)
Class Trig := { Sin : float64 -> float64; Cos : float64 -> float64;
                Atan2 : float64 -> float64 -> float64 }.

Definition f_one : float64 := f_of_Z 1.
Definition f_two : float64 := f_of_Z 2.
(** The binary64 nearest to pi. *)
Definition Pi : float64 := S754_finite false 7074237752028440 (-51).

Section Geo.
Context `{Trig}.

Definition haversineKm (lat1 lng1 lat2 lng2 : float64) : float64 :=
  let r := f_of_Z 6371 in
  let rad x := f_div (f_mul x Pi) (f_of_Z 180) in
  let dLat := rad (f_sub lat2 lat1) in
  let dLng := rad (f_sub lng2 lng1) in
  let sLat := Sin (f_div dLat f_two) in
  let sLng := Sin (f_div dLng f_two) in
  let a := f_add (f_mul sLat sLat)
             (f_mul (f_mul (f_mul (Cos (rad lat1)) (Cos (rad lat2))) sLng) sLng) in
  f_mul (f_mul r f_two) (Atan2 (f_sqrt a) (f_sqrt (f_sub f_one a))).

(** The clamped parameter of the projection on the segment. *)
Definition clamp01 (t : float64) : float64 := math_Max f_zero (math_Min f_one t).
Definition pointToSegmentDistanceKm (pLat pLng aLat aLng bLat bLng : float64) : float64 :=
  if f_eqb aLat bLat && f_eqb aLng bLng then haversineKm pLat pLng aLat aLng
  else
    let dLat := f_sub bLat aLat in
    let dLng := f_sub bLng aLng in
    let t := f_div (f_add (f_mul (f_sub pLat aLat) dLat) (f_mul (f_sub pLng aLng) dLng))
                   (f_add (f_mul dLat dLat) (f_mul dLng dLng)) in
    let t := clamp01 t in
    haversineKm pLat pLng (f_add aLat (f_mul t dLat)) (f_add aLng (f_mul t dLng)).
End Geo.

(** A flat Earth, on which the examples can be computed. *)
Definition flat_trig : Trig :=
  {| Sin := fun x => x; Cos := fun _ => f_one; Atan2 := fun y _ => y |}.

(** ** The world of the jobs *)
Record World (R P : Type) := MkWorld { w_redis : R; w_db : P; w_hub : list broadcastMsg }.
Arguments MkWorld {R P}.
Arguments w_redis {R P}.
Arguments w_db {R P}.
Arguments w_hub {R P}.
Section World.
Context {R P : Type}.
Definition on_redis {A} (f : R -> A * R) : M (World R P) A := fun w =>
  let '(a, r) := f (w_redis w) in (a, MkWorld r (w_db w) (w_hub w)).
Definition on_db {A} (f : P -> A * P) : M (World R P) A := fun w =>
  let '(a, p) := f (w_db w) in (a, MkWorld (w_redis w) p (w_hub w)).
Definition on_hub (f : list broadcastMsg -> list broadcastMsg) : M (World R P) unit := fun w =>
  (tt, MkWorld (w_redis w) (w_db w) (f (w_hub w))).
End World.

(** Both services answer every call. *)
Definition up (w : World MemRedis MemDB) : Prop :=
  outages (w_redis w) = [] /\ db_outages (w_db w) = [].

(** The position among the first two values of an HMGET: [None] when one is missing or
    does not parse. *)
Definition position_of (vals : list (option string)) : option (float64 * float64) :=
  match vals with
  | Some lat :: Some lng :: _ =>
      let '(x, ok1) := ParseFloat lat in
      let '(y, ok2) := ParseFloat lng in
      if (ok1 : bool) && (ok2 : bool) then Some (x, y) else None
  | _ => None
  end.

(** ** Properties *)

(** The seconds a [time.Duration] can hold. *)
Definition max_interval_seconds : Z := 9223372036.

(** The tickers of the jobs get a positive period, at least a second, for every
    configured number of seconds up to 9223372036. *)
Theorem intervalFromSeconds_positive s :
  s <= max_interval_seconds ->
  intervalFromSeconds s = Z.max 1 s * Second /\ Second <= intervalFromSeconds s.
Proof.
  unfold max_interval_seconds, intervalFromSeconds, int_mul, Second. intros Hs.
  rewrite wrap64_id; destruct (Z.ltb_spec s 1); unfold in_int64, int64_min, int64_max; lia.
Qed.
Lemma intervalFromSeconds_positive_witness :
  (60 <= max_interval_seconds) /\
  intervalFromSeconds 60 = Z.max 1 60 * Second /\ Second <= intervalFromSeconds 60.
Proof.
  assert (H60 : 60 <= max_interval_seconds) by (unfold max_interval_seconds; lia).
  exact (conj H60 (intervalFromSeconds_positive 60 H60)).
Defined.

(** One second more, and the period is negative: [time.NewTicker] panics. *)
Example intervalFromSeconds_overflow : intervalFromSeconds (max_interval_seconds + 1) < 0.
Proof. vm_compute. done. Qed.

(** The projection parameter is clamped to the segment. *)
Lemma clamp01_range t :
  is_nan t = false -> f_ltb (clamp01 t) f_zero = false /\ f_ltb f_one (clamp01 t) = false.
Proof.
  intros Hn. unfold clamp01.
  assert (Hmin : is_nan (math_Min f_one t) = false /\ f_ltb f_one (math_Min f_one t) = false).
  { destruct t as [s|[]| |s m e]; try done. unfold math_Min. change f_one with (S754_finite false 4503599627370496 (-52)).
    destruct (f_ltb _ (S754_finite s m e)) eqn:E; [by rewrite f_ltb_irrefl|done]. }
  destruct Hmin as [Hm1 Hm2]. destruct (math_Min f_one t) as [[]|[]| |s m e]; try done.
  unfold math_Max, f_gtb. change f_zero with (S754_zero false) in *.
  destruct (SFltb (S754_finite s m e) (S754_zero false)) eqn:E; [by vm_compute|].
  by split.
Qed.

(** On the flat Earth: a degree is 111.19 km, points on the segment and beyond its end. *)
Example geo_flat :
  let d x1 y1 x2 y2 := f_trunc (f_mul (haversineKm (H:=flat_trig) (f_of_Z x1) (f_of_Z y1)
                                         (f_of_Z x2) (f_of_Z y2)) (f_of_Z 100)) in
  let s px py ax ay bx by_ := f_trunc (f_mul (pointToSegmentDistanceKm (H:=flat_trig) (f_of_Z px)
      (f_of_Z py) (f_of_Z ax) (f_of_Z ay) (f_of_Z bx) (f_of_Z by_)) (f_of_Z 100)) in
  d 12 77 12 77 = 0 /\ d 0 0 0 1 = 11119 /\ s 0 1 0 0 0 2 = 0 /\ s 0 3 0 0 0 2 = 11119 /\
  s 1 3 0 0 0 2 = d 1 3 0 2.
Proof. vm_compute. done. Qed.
