(* ===== verification/Heartbeat.v ===== *)
(** * [serving/internal/jobs/heartbeat_monitor.go]

    A tick checks every active vehicle: its state hash in Redis tells when a message
    was last received; the status kept under another key, without expiry, tells which
    transition to announce. *)
From S2P Require Import Prelude GoNum Strconv Json Redis Domain Rfc3339 RedisStore Tables Events Geo.
Local Open Scope Z_scope.
Local Open Scope fleet_scope.

Definition online_key (vehicleID : string) : string :=
  ("vehicle:" ++ vehicleID ++ ":online_status")%string.

Record HeartbeatMonitor := MkHeartbeatMonitor { hb_interval : Z; defaultThreshold : Z }.
Definition NewHeartbeatMonitor (intervalSec thresholdSec : Z) : HeartbeatMonitor :=
  MkHeartbeatMonitor (intervalFromSeconds intervalSec) (int_mul thresholdSec Second).

Section Heartbeat.
Context {R P : Type} `{RedisServer R} `{Database P}.
Notation W := (World R P).

(** [current, _ := redis.Get(...)]: an error reads as the empty string. *)
Definition get_or_empty (cx : context) (now : Time) (k : string) : M W string :=
  let! r := on_redis (redis_get cx now k) in
  retM (match r with Ok (Some s) => s | _ => ""%string end).
Definition set_key (cx : context) (now : Time) (k v : string) (ttl : Z) : M W (res unit) :=
  on_redis (redis_unit cx now (SET k v ttl)).

Definition setOffline (cx : context) (now : Time) (vehicleID fleetID onlineKey : string)
    (lastSeen : Time) : M W unit :=
  let! current := get_or_empty cx now onlineKey in
  if bool_decide (current = "offline"%string) then retM tt
  else set_key cx now onlineKey "offline" 0 >>
       on_hub (BroadcastOffline fleetID vehicleID lastSeen).

Definition heartbeat_check (cx : context) (now : Time) (vehicleID fleetID : string)
    (threshold : Z) : M W unit :=
  let stateKey := state_key vehicleID in
  let onlineKey := online_key vehicleID in
  let! recvStr := on_redis (redis_hget cx now stateKey "received_at") in
  match recvStr with
  | Ok None => setOffline cx now vehicleID fleetID onlineKey zero_time
  | Err _ => retM tt
  | Ok (Some s) =>
      match ParseInt s with
      | None => retM tt
      | Some recvUnix =>
          let! current := get_or_empty cx now onlineKey in
          if threshold <? time_Sub now (time_Unix recvUnix)
          then setOffline cx now vehicleID fleetID onlineKey (time_Unix recvUnix)
          else if bool_decide (current <> "online"%string)
               then set_key cx now onlineKey "online" 0 >>
                    on_hub (BroadcastOnline fleetID vehicleID)
               else retM tt
      end
  end.

(** [SELECT fleet_id, staleness_threshold_seconds FROM fleet_config]; an error leaves
    the map empty. *)
Definition thresholds_of (d : db) : gmap string Z :=
  foldl (fun m r => <[fc_fleet_id r := int_mul (fc_staleness_threshold_seconds r) Second]> m)
    ∅ (db_fleet_config d).
Definition loadFleetThresholds (cx : context) : M W (gmap string Z) :=
  let! r := on_db (pg_query cx thresholds_of) in
  retM (match r with Ok m => m | Err _ => ∅ end).

Definition active_vehicles (d : db) : list (string * string) :=
  map (fun r => (vr_vehicle_id r, vr_fleet_id r)) (List.filter vr_active (db_vehicles d)).
Definition heartbeat_tick (h : HeartbeatMonitor) (cx : context) (now : Time) : M W unit :=
  let! thresholds := loadFleetThresholds cx in
  let! rows := on_db (pg_query cx active_vehicles) in
  match rows with
  | Err _ => retM tt
  | Ok vs =>
      forM (fun p => heartbeat_check cx now p.1 p.2
                       (default (defaultThreshold h) (thresholds !! p.2))) vs
  end.
End Heartbeat.

(** ** Specification: a verdict, and the transition it causes *)
Inductive verdict := Unknown | Fresh | Stale (lastSeen : Time).
Definition verdict_of (now : Time) (threshold : Z) (vehicleID : string) (st : rstate) : verdict :=
  match live now (state_key vehicleID) st with
  | None => Stale zero_time
  | Some (RStr _) => Unknown
  | Some (RHash h) =>
      match h !! "received_at"%string with
      | None => Stale zero_time
      | Some s =>
          match ParseInt s with
          | None => Unknown
          | Some n => if threshold <? time_Sub now (time_Unix n) then Stale (time_Unix n) else Fresh
          end
      end
  end.
(** The recorded status; it never expires. *)
Definition status (now : Time) (vehicleID : string) (st : rstate) : string :=
  match live now (online_key vehicleID) st with Some (RStr s) => s | _ => ""%string end.
Definition next_status (v : verdict) (s : string) : string :=
  match v with Unknown => s | Fresh => "online" | Stale _ => "offline" end.
Definition transition (vehicleID : string) (v : verdict) (s : string) : option envelope :=
  match v with
  | Unknown => None
  | Fresh => if bool_decide (s = "online"%string) then None else Some (OnlineEvent vehicleID)
  | Stale t => if bool_decide (s = "offline"%string) then None else Some (OfflineEvent vehicleID t)
  end.
Definition announce (fleetID : string) (e : option envelope) (q : list broadcastMsg)
  : list broadcastMsg :=
  match e with None => q | Some e => broadcastEvent fleetID e q end.

(** ** Lemmas *)
Lemma online_key_inj a b : online_key a = online_key b -> a = b.
Proof. unfold online_key. intros Heq%(inj (String.app _)). by eapply string_app_inj_r. Qed.

(** The last character of the two suffixes differs. *)
Lemma string_last_app a x y b :
  String.list_ascii_of_string (a ++ String x EmptyString) =
  String.list_ascii_of_string (b ++ String y EmptyString) -> x = y.
Proof. rewrite !list_ascii_app. simpl. intros Heq. by apply app_inj_tail in Heq as [_ ->]. Qed.

Lemma state_online_ne a b : state_key a <> online_key b.
Proof.
  intros Heq. apply (f_equal String.list_ascii_of_string) in Heq.
  unfold state_key, online_key in Heq. rewrite !list_ascii_app in Heq.
  apply (f_equal (fun l => last l)) in Heq. revert Heq.
  rewrite !last_app. simpl. done.
Qed.

Lemma foldl_announce {A} (g h : A -> option envelope) (fl : A -> string) l q :
  (forall x, x ∈ l -> g x = h x) ->
  foldl (fun q x => announce (fl x) (g x) q) q l = foldl (fun q x => announce (fl x) (h x) q) q l.
Proof.
  revert q. induction l as [|x l IH]; intros q Hl; simpl; [done|].
  rewrite (Hl x) by (by left). apply IH. intros y Hy. apply Hl. by right.
Qed.

Section Reliable.
Notation W := (World MemRedis MemDB).
(** One check, on services that are up: the status follows the verdict, and exactly
    the change of status is announced. *)
Lemma heartbeat_check_spec now v f thr (w : W) :
  up w ->
  let st := mem (w_redis w) in
  let vd := verdict_of now thr v st in
  let w' := (heartbeat_check Live now v f thr w).2 in
  up w' /\ tables (w_db w') = tables (w_db w) /\
  status now v (mem (w_redis w')) = next_status vd (status now v st) /\
  (forall t k, k <> online_key v -> live t k (mem (w_redis w')) = live t k st) /\
  w_hub w' = announce f (transition v vd (status now v st)) (w_hub w).
Proof.
  destruct w as [[st os] [d ds] q]. intros [Ho Hd]. simpl in Ho, Hd. subst os ds.
  unfold heartbeat_check, verdict_of, status, setOffline, get_or_empty, set_key, on_redis, on_hub,
    bindM, retM, redis_hget, redis_get, redis_unit, up. simpl.
  assert (Hset : forall s t k, k <> online_key v ->
            live t k (put (online_key v) (RStr s) (expiry now 0) st) = live t k st)
    by (intros; by apply live_put_ne).
  assert (Heq : forall s, live now (online_key v) (put (online_key v) (RStr s) (expiry now 0) st)
                  = Some (RStr s)) by (intros; by rewrite live_put_eq).
  destruct (live now (state_key v) st) as [[s|h]|]; simpl; [done| |].
  - destruct (h !! "received_at"%string) as [s|]; simpl.
    + destruct (ParseInt s) as [n|]; simpl; [|done].
      destruct (live now (online_key v) st) as [[c|h']|] eqn:Ec; simpl;
        destruct (thr <? time_Sub now (time_Unix n)); simpl; rewrite ?Ec; simpl;
        repeat case_bool_decide; simplify_eq/=; rewrite ?Heq, ?Ec; try (split_and!; auto; congruence).
    + destruct (live now (online_key v) st) as [[c|h']|] eqn:Ec; simpl;
        repeat case_bool_decide; simplify_eq/=; rewrite ?Heq, ?Ec; try (split_and!; auto; congruence).
  - destruct (live now (online_key v) st) as [[c|h']|] eqn:Ec; simpl;
      repeat case_bool_decide; simplify_eq/=; rewrite ?Heq, ?Ec; try (split_and!; auto; congruence).
Qed.

(** What a vehicle's check needs of the world is not touched by another's. *)
Lemma verdict_frame now thr v v' st st' :
  v <> v' -> (forall t k, k <> online_key v' -> live t k st' = live t k st) ->
  verdict_of now thr v st' = verdict_of now thr v st /\ status now v st' = status now v st.
Proof.
  intros Hne Hl. unfold verdict_of, status.
  rewrite !Hl by (first [apply state_online_ne|by intros ?%online_key_inj]). done.
Qed.

Definition vehicle_transition (now : Time) (thr : string -> Z) (st : rstate) (p : string * string)
  : option envelope :=
  transition p.1 (verdict_of now (thr p.2) p.1 st) (status now p.1 st).

Lemma heartbeat_loop now (thr : string -> Z) vs (w : W) :
  NoDup vs.*1 -> up w ->
  let st := mem (w_redis w) in
  let w' := (forM (fun p => heartbeat_check Live now p.1 p.2 (thr p.2)) vs w).2 in
  (forall v f, (v, f) ∈ vs -> status now v (mem (w_redis w')) =
     next_status (verdict_of now (thr f) v st) (status now v st)) /\
  (forall v, v ∉ vs.*1 -> status now v (mem (w_redis w')) = status now v st) /\
  w_hub w' = foldl (fun q p => announce p.2 (vehicle_transition now thr st p) q) (w_hub w) vs.
Proof.
  revert w. induction vs as [|[v f] vs IH]; intros w Hnd Hup; simpl.
  { split; [by intros v f ?%elem_of_nil|done]. }
  simpl in Hnd. apply NoDup_cons in Hnd as [Hn Hnd]. unfold bindM.
  destruct (heartbeat_check_spec now v f (thr f) w Hup) as (Hup1 & _ & Hs1 & Hl1 & Hq1).
  destruct (heartbeat_check Live now v f (thr f) w) as [u w1]. cbn [snd] in *.
  destruct (IH w1 Hnd Hup1) as (IH1 & IH2 & IH3).
  assert (Hframe : forall v', v' <> v ->
            (forall thr0, verdict_of now thr0 v' (mem (w_redis w1)) =
                          verdict_of now thr0 v' (mem (w_redis w))) /\
            status now v' (mem (w_redis w1)) = status now v' (mem (w_redis w))).
  { intros v' Hne. split; [intros thr0; apply (verdict_frame now thr0 v' v _ _ Hne Hl1)|].
    apply (verdict_frame now 0 v' v _ _ Hne Hl1). }
  split; [|split].
  - intros v' f' [[= -> ->]|Hin]%elem_of_cons.
    + rewrite IH2 by done. exact Hs1.
    + assert (Hne : v' <> v) by (intros ->; apply Hn; by apply (list_elem_of_fmap_2 fst vs (v, f'))).
      destruct (Hframe v' Hne) as [Hv Hst]. by rewrite (IH1 v' f' Hin), Hv, Hst.
  - intros v' [Hne Hnin]%not_elem_of_cons. destruct (Hframe v' Hne) as [_ Hst].
    by rewrite IH2, Hst.
  - rewrite IH3, Hq1. apply foldl_announce. intros p Hp.
    assert (Hne : p.1 <> v) by (intros <-; apply Hn; by apply list_elem_of_fmap_2).
    unfold vehicle_transition. destruct (Hframe p.1 Hne) as [Hv Hst]. by rewrite Hv, Hst.
Qed.
End Reliable.

(** The threshold of a fleet: its row of [fleet_config] (the last one, but the table has
    one row per fleet), or the default. *)
Definition threshold_for (h : HeartbeatMonitor) (d : db) (fleetID : string) : Z :=
  match List.find (fun r => bool_decide (fc_fleet_id r = fleetID)) (rev (db_fleet_config d)) with
  | Some r => int_mul (fc_staleness_threshold_seconds r) Second
  | None => defaultThreshold h
  end.
Lemma find_app {A} (p : A -> bool) l l' :
  List.find p (l ++ l') = match List.find p l with Some x => Some x | None => List.find p l' end.
Proof. induction l as [|x l IH]; simpl; [done|]. by destruct (p x). Qed.
Lemma threshold_for_code h d fleetID :
  default (defaultThreshold h) (thresholds_of d !! fleetID) = threshold_for h d fleetID.
Proof.
  unfold threshold_for, thresholds_of. generalize (db_fleet_config d). intros l.
  assert (Hg : forall m : gmap string Z,
    foldl (fun m r => <[fc_fleet_id r := int_mul (fc_staleness_threshold_seconds r) Second]> m) m l !! fleetID =
    match List.find (fun r => bool_decide (fc_fleet_id r = fleetID)) (rev l) with
    | Some r => Some (int_mul (fc_staleness_threshold_seconds r) Second)
    | None => m !! fleetID
    end).
  { induction l as [|r l IH]; intros m; [done|]. cbn [foldl rev]. rewrite IH, find_app.
    destruct (List.find _ (rev l)); [done|]. cbn [List.find]. case_bool_decide as Hr.
    - subst fleetID. apply lookup_insert_eq.
    - by apply lookup_insert_ne. }
  rewrite Hg, lookup_empty. by destruct (List.find _ _).
Qed.

(** What the state hash of a vehicle says of when it was last heard of. *)
Definition received_at (now : Time) (v : string) (st : rstate) : option string :=
  match live now (state_key v) st with Some (RHash h) => h !! "received_at"%string | _ => None end.
Definition no_string (now : Time) (v : string) (st : rstate) : Prop :=
  forall s, live now (state_key v) st <> Some (RStr s).
Lemma status_silent now thr v st :
  no_string now v st -> received_at now v st = None -> verdict_of now thr v st = Stale zero_time.
Proof.
  unfold no_string, received_at, verdict_of. destruct (live _ _ _) as [[s|h]|]; [|by intros _ ->|done].
  intros Hs. by destruct (Hs s).
Qed.
Lemma status_heard now thr v st s :
  received_at now v st = Some s ->
  verdict_of now thr v st =
  match ParseInt s with
  | Some n => if thr <? time_Sub now (time_Unix n) then Stale (time_Unix n) else Fresh
  | None => Unknown
  end.
Proof. unfold received_at, verdict_of. destruct (live _ _ _) as [[]|]; [done| |done]. by intros ->. Qed.


(** *** The state hash expires *)
Lemma live_expired t k v e st : e <= t -> live t k (put k v (Some e) st) = None.
Proof. intros Ht. rewrite live_put_eq. by rewrite (proj2 (Z.ltb_ge t e)). Qed.

(** What [state_cmds] leaves in the hash of the vehicle: its fields, over those of an
    older hash. *)
Lemma state_cmds_live t0 m st :
  (forall s, live t0 (state_key (VehicleID m)) st <> Some (RStr s)) ->
  exists h0, forall t, live t (state_key (VehicleID m)) (run_cmds t0 (state_cmds m) st) =
      if t <? t0 + state_ttl then Some (RHash (hmerge (state_fields m) h0)) else None.
Proof.
  intros Hns. set (k := state_key (VehicleID m)) in *.
  assert (Hset : exists h0 e, (forall e0, e = Some e0 -> t0 < e0) /\
            cmd_sem t0 (HSET k (state_fields m)) st =
            Some (RpOK, put k (RHash (hmerge (state_fields m) h0)) e st)).
  { cbn [cmd_sem]. destruct (live t0 k st) as [[s|h0]|] eqn:E; [by destruct (Hns s)| |].
    - unfold live in E. destruct (rs_kv st !! k) as [[x ex]|] eqn:Ek; [|done].
      exists h0, ex. split; [|done]. intros e0 ->. destruct (Z.ltb_spec t0 e0); done.
    - by exists ∅, None. }
  destruct Hset as (h0 & e & He & Hcmd). exists h0. intros t.
  unfold run_cmds, state_cmds. fold k. cbn [foldl]. rewrite Hcmd. cbn [cmd_sem].
  assert (Hlive : live t0 k (put k (RHash (hmerge (state_fields m) h0)) e st) =
                  Some (RHash (hmerge (state_fields m) h0))).
  { rewrite live_put_eq. destruct e as [e0|]; [|done].
    by rewrite (proj2 (Z.ltb_lt t0 e0)) by (by apply He). }
  rewrite Hlive. cbn [foldl]. unfold live, put. cbn [rs_kv]. by rewrite lookup_insert_eq.
Qed.

(** The fields of the hash read back. *)
Lemma state_field f s m h0 :
  NoDup (state_fields m).*1 -> (f, s) ∈ state_fields m -> hmerge (state_fields m) h0 !! f = Some s.
Proof.
  unfold hmerge. generalize (state_fields m). intros l. revert h0.
  induction l as [|[f' s'] l IH]; intros h0 Hnd Hin; [by apply elem_of_nil in Hin|].
  simpl in Hnd. apply NoDup_cons in Hnd as [Hn Hnd]. simpl.
  apply elem_of_cons in Hin as [[= -> ->]|Hin]; [|by apply IH].
  assert (Hout : forall h : gmap string string, h !! f' = Some s' -> hmerge l h !! f' = Some s').
  { unfold hmerge. clear -Hn. induction l as [|[f s] l IH]; intros h Hh; [done|]. simpl in *.
    apply not_elem_of_cons in Hn as [Hne Hn]. apply IH; [done|]. by rewrite lookup_insert_ne. }
  apply Hout. apply lookup_insert_eq.
Qed.
Lemma state_fields_nodup m : NoDup (state_fields m).*1.
Proof. apply (bool_decide_unpack _). by vm_compute. Qed.

(** A silent vehicle is declared offline after at most 30 seconds. The state hash
    the ingestion service writes lives for 30 seconds, so whatever the fleet's
    staleness threshold, from then on the verdict is stale with no last-seen time;
    before that, the threshold decides. A threshold above 30 seconds, such as the
    default of 60, has no effect. *)
Theorem staleness_capped_by_state_ttl t0 m st thr now :
  (forall s, live t0 (state_key (VehicleID m)) st <> Some (RStr s)) ->
  in_int64 (Unix (ReceivedAt m)) ->
  verdict_of now thr (VehicleID m) (run_cmds t0 (state_cmds m) st) =
  if now <? t0 + state_ttl
  then if thr <? time_Sub now (time_Unix (Unix (ReceivedAt m)))
       then Stale (time_Unix (Unix (ReceivedAt m))) else Fresh
  else Stale zero_time.
Proof.
  intros Hns Hr. destruct (state_cmds_live t0 m st Hns) as (h0 & Hl).
  unfold verdict_of. rewrite Hl. destruct (now <? t0 + state_ttl); [|done].
  rewrite (state_field "received_at" (FormatInt (Unix (ReceivedAt m))) m h0 (state_fields_nodup m)).
  - by rewrite ParseInt_FormatInt by done.
  - unfold state_fields. in_list.
Qed.

(** ** Witnesses *)
Definition demo_vehicle (v f : string) (active : bool) : vehicle_row :=
  MkVehicleRow v f "Truck" "TEST-1" "truck" None None active.
Definition demo_fleet_db : db :=
  MkDb [] [] 1 [demo_vehicle "v1" "fleet-a" true; demo_vehicle "v2" "fleet-b" true;
                demo_vehicle "v3" "fleet-a" false] [] [] [] [MkFleetConfigRow "fleet-b" 10] [] [].
(** [v1] and [v2] were heard of 20 seconds ago. *)
Definition demo_heard : rstate :=
  let fields := [("received_at", "100")]%string in
  put (state_key "v1") (RHash (hmerge fields ∅)) None
    (put (state_key "v2") (RHash (hmerge fields ∅)) None (MkRstate ∅ [])).
Definition demo_world : World MemRedis MemDB :=
  MkWorld (MkMemRedis demo_heard []) (MkMemDB demo_fleet_db []) [].


Lemma staleness_capped_by_state_ttl_witness :
  let m := MkTelemetryMessage (100 * Second) 0 "v1" "fleet-a" f_zero f_zero f_zero f_zero f_zero
             f_zero f_zero true true "{}" in
  let st := run_cmds (100 * Second) (state_cmds m) (MkRstate ∅ []) in
  verdict_of (129 * Second) (60 * Second) "v1" st = Fresh /\
  verdict_of (130 * Second) (60 * Second) "v1" st = Stale zero_time.
Proof.
  split.
  - rewrite (staleness_capped_by_state_ttl (100 * Second)
      (MkTelemetryMessage (100 * Second) 0 "v1" "fleet-a" f_zero f_zero f_zero f_zero f_zero
         f_zero f_zero true true "{}") (MkRstate ∅ []) (60 * Second) (129 * Second));
      [vm_compute; reflexivity|discriminate|split; vm_compute; discriminate].
  - rewrite (staleness_capped_by_state_ttl (100 * Second)
      (MkTelemetryMessage (100 * Second) 0 "v1" "fleet-a" f_zero f_zero f_zero f_zero f_zero
         f_zero f_zero true true "{}") (MkRstate ∅ []) (60 * Second) (130 * Second));
      [vm_compute; reflexivity|discriminate|split; vm_compute; discriminate].
Defined.
