(* ===== verification/StopDetector.v ===== *)
(** * [serving/internal/jobs/stop_detector.go]

    For every trip in progress, the position of its vehicle is compared with the stops
    of its route; the progress rows move from PENDING to ARRIVED to DEPARTED, or to
    MISSED, and arriving at the last stop completes the trip. *)
From Stdlib Require Import SpecFloat.
From S2P Require Import Prelude GoNum Strconv Json Redis Domain RedisStore Tables Events Geo.
Local Open Scope Z_scope.
Local Open Scope fleet_scope.

Record tripStopRow := MkTripStopRow {
  ts_tripID : string; ts_vehicleID : string; ts_fleetID : string;
  ts_stopID : string; ts_stopName : string; ts_stopSequence : Z;
  ts_stopLat : float64; ts_stopLng : float64; ts_arrivalRadiusKm : float64;
  ts_status : string; ts_isFinalStop : bool
}.

(** ** The queries *)
Definition active_trips (d : db) : list string :=
  map tp_trip_id (List.filter (fun t => bool_decide (tp_status t = TripInProgress)) (db_trips d)).

(** The progress rows of a stop of a trip, and the status the left join gives. *)
Definition is_progress (tripID stopID : string) (g : progress_row) : bool :=
  bool_decide (pg_trip_id g = tripID) && bool_decide (pg_stop_id g = stopID).
Definition joined_statuses (d : db) (tripID stopID : string) : list string :=
  match List.filter (is_progress tripID stopID) (db_progress d) with
  | [] => [StopPending]
  | gs => map pg_status gs
  end.
(** The join, with the window maximum of the sequence numbers of the route. *)
Definition joined_stops (d : db) (tripID : string) : list tripStopRow :=
  t ← List.filter (fun t => bool_decide (tp_trip_id t = tripID)) (db_trips d);
  v ← List.filter (fun v => bool_decide (vr_vehicle_id v = tp_vehicle_id t)) (db_vehicles d);
  let stops := List.filter (fun s => bool_decide (rs_route_id s = tp_route_id t)) (db_stops d) in
  s ← stops;
  st ← joined_statuses d (tp_trip_id t) (rs_stop_id s);
  [MkTripStopRow (tp_trip_id t) (tp_vehicle_id t) (vr_fleet_id v) (rs_stop_id s)
     (rs_stop_name s) (rs_stop_sequence s) (rs_lat s) (rs_lng s) (rs_arrival_radius_km s) st
     (forallb (fun s' => rs_stop_sequence s' <=? rs_stop_sequence s) stops)].
Definition seq_le (a b : tripStopRow) : Prop := ts_stopSequence a <= ts_stopSequence b.
#[export] Instance seq_le_dec : RelDecision seq_le.
Proof. intros a b. apply Z_le_dec. Defined.
#[export] Instance seq_le_trans : Transitive seq_le.
Proof. intros a b c. unfold seq_le. lia. Qed.
#[export] Instance seq_le_total : Total seq_le.
Proof. intros a b. unfold seq_le. lia. Qed.
Definition trip_stops (d : db) (tripID : string) : list tripStopRow :=
  merge_sort seq_le (joined_stops d tripID).

(** ** The updates *)
Definition coalesce {A} (a b : option A) : option A := match a with Some _ => a | None => b end.
Definition mark_row (status : string) (arrivedAt departedAt : option Time) (g : progress_row)
  : progress_row :=
  MkProgressRow (pg_trip_id g) (pg_stop_id g) status
    (coalesce arrivedAt (pg_arrived_at g)) (coalesce departedAt (pg_departed_at g)).
Definition mark_stmt (tripID stopID status : string) (arrivedAt departedAt : option Time) (d : db)
  : option (unit * db) :=
  Some (tt, set_progress d (map (fun g =>
    if is_progress tripID stopID g then mark_row status arrivedAt departedAt g else g)
    (db_progress d))).
Definition complete_row (now : Time) (tripID : string) (t : trip_row) : trip_row :=
  if bool_decide (tp_trip_id t = tripID)
  then MkTripRow (tp_trip_id t) (tp_vehicle_id t) (tp_driver_id t) (tp_route_id t) TripCompleted
         (tp_scheduled_departure t) (tp_actual_departure t) (Some now) (tp_created_at t)
  else t.
Definition complete_stmt (now : Time) (tripID : string) (d : db) : option (unit * db) :=
  Some (tt, set_trips d (map (complete_row now tripID) (db_trips d))).

Section StopDetector.
Context {R P : Type} `{Trig} `{RedisServer R} `{Database P}.
Notation W := (World R P).

(** The error of either update is only logged. *)
Definition markStop (cx : context) (tripID stopID status : string)
    (arrivedAt departedAt : option Time) : M W unit :=
  on_db (pg_run cx (mark_stmt tripID stopID status arrivedAt departedAt)) >> retM tt.
Definition completeTrip (cx : context) (now : Time) (tripID : string) : M W unit :=
  on_db (pg_run cx (complete_stmt now tripID)) >> retM tt.

Definition maxArrivedSeq (stops : list tripStopRow) : Z :=
  foldl (fun mx st =>
    if (bool_decide (ts_status st = StopArrived) || bool_decide (ts_status st = StopDeparted)) &&
       (mx <? ts_stopSequence st) then ts_stopSequence st else mx) 0 stops.

(** The body of the loop over the stops. *)
Definition process_stop (cx : context) (now : Time) (vehicleID fleetID : string)
    (lat lng : float64) (maxSeq : Z) (st : tripStopRow) : M W unit :=
  let dist := haversineKm lat lng (ts_stopLat st) (ts_stopLng st) in
  if bool_decide (ts_status st = StopPending) then
    if ts_stopSequence st <? maxSeq
    then markStop cx (ts_tripID st) (ts_stopID st) StopMissed None None
    else if f_leb dist (ts_arrivalRadiusKm st) then
      markStop cx (ts_tripID st) (ts_stopID st) StopArrived (Some now) None >>
      on_hub (BroadcastStopArrived fleetID
        (MkStopArrivedPayload vehicleID (ts_tripID st) (ts_stopID st) (ts_stopName st) now)) >>
      if ts_isFinalStop st then completeTrip cx now (ts_tripID st) else retM tt
    else retM tt
  else if bool_decide (ts_status st = StopArrived) then
    if f_gtb dist (ts_arrivalRadiusKm st)
    then markStop cx (ts_tripID st) (ts_stopID st) StopDeparted None (Some now)
    else retM tt
  else retM tt.

Definition processTrip (cx : context) (now : Time) (tripID : string) : M W unit :=
  let! r := on_db (pg_query cx (fun d => trip_stops d tripID)) in
  match r with
  | Ok ((st0 :: _) as stops) =>
      let vehicleID := ts_vehicleID st0 in
      let fleetID := ts_fleetID st0 in
      let! vals := on_redis (redis_hmget cx now (state_key vehicleID) ["lat"; "lng"]%string) in
      match vals with
      | Err _ => retM tt
      | Ok vals =>
          match position_of vals with
          | None => retM tt
          | Some (lat, lng) =>
              forM (process_stop cx now vehicleID fleetID lat lng (maxArrivedSeq stops)) stops
          end
      end
  | _ => retM tt
  end.

Definition stop_tick (cx : context) (now : Time) : M W unit :=
  let! trips := on_db (pg_query cx active_trips) in
  match trips with
  | Err _ => retM tt
  | Ok ts => forM (processTrip cx now) ts
  end.
End StopDetector.

(** ** What the query returns *)
Definition stop_status (d : db) (tripID stopID : string) : string :=
  match List.filter (is_progress tripID stopID) (db_progress d) with
  | g :: _ => pg_status g
  | [] => StopPending
  end.

Lemma joined_statuses_key d tripID stopID :
  keys d -> joined_statuses d tripID stopID = [stop_status d tripID stopID].
Proof.
  intros Hk. unfold joined_statuses, stop_status.
  assert (Heq : forall l, List.filter (is_progress tripID stopID) l =
            List.filter (fun g => bool_decide ((pg_trip_id g, pg_stop_id g) = (tripID, stopID))) l).
  { intros l. apply List.filter_ext. intros g. unfold is_progress.
    rewrite <- bool_decide_and. apply bool_decide_ext. split; [intros [-> ->]; done|by intros [= -> ->]]. }
  rewrite Heq. destruct (select_key (fun g => (pg_trip_id g, pg_stop_id g)) (db_progress d)
    (tripID, stopID) (key_progress d Hk)) as [->|(g & -> & _)]; done.
Qed.

Lemma bind_singletons {A B} (f : A -> B) (l : list A) : l ≫= (fun x => [f x]) = map f l.
Proof. induction l as [|x l IH]; simpl; [done|]. by f_equal. Qed.

(** The stops of a trip, each once, with its recorded status. *)
Lemma trip_stops_spec d tripID :
  keys d ->
  NoDup (map ts_stopID (trip_stops d tripID)) /\
  Forall (fun st => ts_tripID st = tripID /\ ts_status st = stop_status d tripID (ts_stopID st))
    (trip_stops d tripID).
Proof.
  intros Hk. unfold trip_stops. set (j := joined_stops d tripID).
  assert (Hj : NoDup (map ts_stopID j) /\
            Forall (fun st => ts_tripID st = tripID /\
                      ts_status st = stop_status d tripID (ts_stopID st)) j).
  { unfold j, joined_stops. clear j.
    destruct (select_key tp_trip_id (db_trips d) tripID (key_trip d Hk)) as [->|(t & -> & _ & Ht)];
      [by split; constructor|].
    cbn [mbind list_bind]. rewrite app_nil_r.
    destruct (select_key vr_vehicle_id (db_vehicles d) (tp_vehicle_id t) (key_vehicle d Hk))
      as [->|(v & -> & _)]; [by split; constructor|].
    cbn [mbind list_bind]. rewrite app_nil_r. set (stops := List.filter _ (db_stops d)).
    assert (Hs : NoDup (map rs_stop_id stops)) by apply NoDup_filter_map, Hk.
    match goal with |- context [stops ≫= ?f] => set (F := f) end.
    assert (HF : stops ≫= F = map (fun s => MkTripStopRow (tp_trip_id t) (tp_vehicle_id t)
        (vr_fleet_id v) (rs_stop_id s) (rs_stop_name s) (rs_stop_sequence s) (rs_lat s) (rs_lng s)
        (rs_arrival_radius_km s) (stop_status d (tp_trip_id t) (rs_stop_id s))
        (forallb (fun s' => rs_stop_sequence s' <=? rs_stop_sequence s) stops)) stops).
    { rewrite <- bind_singletons. apply list_bind_ext; [|done]. intros s. unfold F.
      rewrite joined_statuses_key by done. done. }
    rewrite HF, map_map. split; [exact Hs|]. apply Forall_map, Forall_forall.
    intros s _. simpl. by rewrite Ht. }
  destruct Hj as [Hj1 Hj2]. split.
  - by rewrite (merge_sort_Permutation seq_le j).
  - by rewrite (merge_sort_Permutation seq_le j).
Qed.

(** ** The life of a stop *)

(** One step of the state machine of a progress row, at the instant [now]. *)
Inductive row_step (now : Time) : progress_row -> progress_row -> Prop :=
| step_arrive g : pg_status g = StopPending ->
    row_step now g (mark_row StopArrived (Some now) None g)
| step_miss g : pg_status g = StopPending ->
    row_step now g (mark_row StopMissed None None g)
| step_depart g : pg_status g = StopArrived ->
    row_step now g (mark_row StopDeparted None (Some now) g).

(** The rows after a tick on stops of which [rest] are still to be processed. *)
Definition moved (now : Time) (rest : list tripStopRow) (g g' : progress_row) : Prop :=
  g' = g \/ (row_step now g g' /\
             Forall (fun st => is_progress (ts_tripID st) (ts_stopID st) g = false) rest).

Section Legal.
Context {R P : Type} `{Trig} `{RedisLaws R} `{DatabaseLaws P}.
Notation W := (World R P).
Definition progress_of (w : W) : list progress_row := db_progress (tables (w_db w)).

(** What one stop's turn does to the progress rows, whatever fails. *)
Lemma process_stop_effect cx now v f lat lng mx st (w : W) :
  let w' := (process_stop cx now v f lat lng mx st w).2 in
  progress_of w' = progress_of w \/
  exists status a dp, progress_of w' = map (fun g =>
      if is_progress (ts_tripID st) (ts_stopID st) g then mark_row status a dp g else g)
      (progress_of w) /\
    forall g, pg_status g = ts_status st -> row_step now g (mark_row status a dp g).
Proof.
  unfold process_stop, markStop, completeTrip, progress_of, on_db, on_hub, bindM, retM.
  destruct w as [r p q]. simpl w_db. simpl w_redis. simpl w_hub.
  assert (Hm : forall s a dp,
    db_progress (tables (pg_run cx (mark_stmt (ts_tripID st) (ts_stopID st) s a dp) p).2) =
      db_progress (tables p) \/
    db_progress (tables (pg_run cx (mark_stmt (ts_tripID st) (ts_stopID st) s a dp) p).2) =
      map (fun g => if is_progress (ts_tripID st) (ts_stopID st) g then mark_row s a dp g else g)
        (db_progress (tables p))).
  { intros s a dp. destruct (pg_run_effect cx (mark_stmt (ts_tripID st) (ts_stopID st) s a dp) p)
      as [->|[u E]]; [by left|right]. injection E as _ <-. done. }
  assert (Hc : forall p1, db_progress (tables (pg_run cx (complete_stmt now (ts_tripID st)) p1).2) =
            db_progress (tables p1)).
  { intros p1. destruct (pg_run_effect cx (complete_stmt now (ts_tripID st)) p1) as [->|[u E]];
      [done|]. by injection E as _ <-. }
  case_bool_decide as Hp; [destruct (_ <? mx); [|destruct (f_leb _ _)]|
    case_bool_decide as Ha; [destruct (f_gtb _ _)|]]; simpl; try by left.
  - specialize (Hm StopMissed None None). destruct (pg_run _ _ p) as [u p1]. simpl in *.
    destruct Hm as [Hm|Hm]; [by left|right]. do 3 eexists. split; [exact Hm|].
    intros g Hg. apply step_miss. congruence.
  - specialize (Hm StopArrived (Some now) None). destruct (pg_run _ _ p) as [u p1]. simpl in *.
    assert (Hdone : forall l, l = db_progress (tables p1) ->
      l = db_progress (tables p) \/ exists status a dp,
        l = map (fun g => if is_progress (ts_tripID st) (ts_stopID st) g
                                       then mark_row status a dp g else g) (db_progress (tables p)) /\
        forall g, pg_status g = ts_status st -> row_step now g (mark_row status a dp g)).
    { intros l ->. destruct Hm as [Hm|Hm]; [by left|right]. do 3 eexists. split; [exact Hm|].
      intros g Hg. apply step_arrive. congruence. }
    destruct (ts_isFinalStop st); simpl; [|by apply Hdone].
    specialize (Hc p1). destruct (pg_run _ _ p1) as [u2 p2]. by apply Hdone.
  - specialize (Hm StopDeparted None (Some now)). destruct (pg_run _ _ p) as [u p1]. simpl in *.
    destruct Hm as [Hm|Hm]; [by left|right]. do 3 eexists. split; [exact Hm|].
    intros g Hg. apply step_depart. congruence.
Qed.

Lemma moved_skip now st rest g g' : moved now (st :: rest) g g' -> moved now rest g g'.
Proof. intros [->|[Hs Hf]]; [by left|right]. split; [done|]. by apply Forall_cons in Hf as [_ ?]. Qed.

Lemma process_stops_moved cx now v f lat lng mx stops (w : W) d trip :
  NoDup (map ts_stopID stops) ->
  Forall (fun st => ts_tripID st = trip /\ ts_status st = stop_status d trip (ts_stopID st)) stops ->
  (forall st g, st ∈ stops -> g ∈ db_progress d ->
     is_progress (ts_tripID st) (ts_stopID st) g = true -> pg_status g = ts_status st) ->
  Forall2 (moved now stops) (db_progress d) (progress_of w) ->
  Forall2 (moved now []) (db_progress d)
    (progress_of (forM (process_stop cx now v f lat lng mx) stops w).2).
Proof.
  revert w. induction stops as [|st stops IH]; intros w Hnd Hst Hlink Hm; simpl; [done|].
  apply NoDup_cons in Hnd as [Hn Hnd]. apply Forall_cons in Hst as [[Htrip _] Hst]. unfold bindM.
  pose proof (process_stop_effect cx now v f lat lng mx st w) as He.
  destruct (process_stop cx now v f lat lng mx st w) as [u w1]. cbn [snd] in He.
  apply IH; [done|done|by intros st' g ?; apply Hlink; right|].
  destruct He as [->|(s & a & dp & -> & Hlegal)].
  { eapply Forall2_impl; [exact Hm|]. intros g g'. apply moved_skip. }
  apply Forall2_fmap_r. eapply Forall2_impl_in; [exact Hm|].
  intros g g' Hg Hmv. unfold compose. destruct (is_progress (ts_tripID st) (ts_stopID st) g') eqn:Eg.
  - assert (g' = g) as ->.
    { destruct Hmv as [->|[Hs Hf]]; [done|]. apply Forall_cons in Hf as [Hf _].
      destruct Hs; simpl in Eg; unfold is_progress in *; simpl in *; congruence. }
    right. split; [apply Hlegal; apply (Hlink st g); [by left|done..]|].
    apply Forall_forall. intros st' Hst'. apply Forall_forall with (x := st') in Hst as [Ht' _]; [|done].
    apply not_true_is_false. unfold is_progress in *. rewrite andb_true_iff, !bool_decide_eq_true in *.
    intros [_ Hs']. destruct Eg as [_ Hs]. apply Hn. rewrite <- Hs, Hs'.
    by apply (list_elem_of_fmap_2 ts_stopID).
  - by apply moved_skip in Hmv.
Qed.
End Legal.

Section Legal.
Context {R P : Type} `{Trig} `{RedisLaws R} `{DatabaseLaws P}.

Lemma stop_status_link d trip st g :
  keys d -> ts_tripID st = trip -> ts_status st = stop_status d trip (ts_stopID st) ->
  g ∈ db_progress d -> is_progress (ts_tripID st) (ts_stopID st) g = true ->
  pg_status g = ts_status st.
Proof.
  intros Hk <- -> Hg Hp.
  pose proof (joined_statuses_key d (ts_tripID st) (ts_stopID st) Hk) as Hj.
  unfold joined_statuses in Hj. unfold stop_status.
  assert (Hin : g ∈ List.filter (is_progress (ts_tripID st) (ts_stopID st)) (db_progress d))
    by (apply list_elem_of_In, List.filter_In; by rewrite <- list_elem_of_In).
  destruct (List.filter _ (db_progress d)) as [|g0 gs]; [by apply elem_of_nil in Hin|].
  simpl in Hj. injection Hj as Hg0 Hgs. destruct gs; [|done].
  by apply list_elem_of_singleton in Hin as ->.
Qed.

End Legal.

(** ** What a tick does when the services are up *)
Section Reliable.
Context `{Trig}.
Notation W := (World MemRedis MemDB).

(** The vehicle has just reached the stop; and what happens to the stop's row. Which
    stops are passed is the caller's: see [overtaken]. *)
Definition arrives (lat lng : float64) (passed : tripStopRow -> bool) (st : tripStopRow) : bool :=
  bool_decide (ts_status st = StopPending) && negb (passed st) &&
  f_leb (haversineKm lat lng (ts_stopLat st) (ts_stopLng st)) (ts_arrivalRadiusKm st).
Definition stop_update (now : Time) (lat lng : float64) (passed : tripStopRow -> bool)
    (st : tripStopRow) (g : progress_row) : progress_row :=
  if arrives lat lng passed st then mark_row StopArrived (Some now) None g
  else if bool_decide (ts_status st = StopPending) && passed st
  then mark_row StopMissed None None g
  else if bool_decide (ts_status st = StopArrived) &&
          f_gtb (haversineKm lat lng (ts_stopLat st) (ts_stopLng st)) (ts_arrivalRadiusKm st)
  then mark_row StopDeparted None (Some now) g
  else g.
Definition arrival_event (now : Time) (v : string) (st : tripStopRow) : envelope :=
  StopArrivedEvent (MkStopArrivedPayload v (ts_tripID st) (ts_stopID st) (ts_stopName st) now).
Definition is_stop_of (st : tripStopRow) (g : progress_row) : bool :=
  is_progress (ts_tripID st) (ts_stopID st) g.

Lemma process_stop_up now v f lat lng mx passed st (w : W) :
  passed st = (ts_stopSequence st <? mx) -> up w ->
  let w' := (process_stop Live now v f lat lng mx st w).2 in
  up w' /\
  db_progress (tables (w_db w')) =
    map (fun g => if is_stop_of st g then stop_update now lat lng passed st g else g)
      (db_progress (tables (w_db w))) /\
  db_trips (tables (w_db w')) =
    (if arrives lat lng passed st && ts_isFinalStop st
     then map (complete_row now (ts_tripID st)) (db_trips (tables (w_db w)))
     else db_trips (tables (w_db w))) /\
  w_hub w' = if arrives lat lng passed st then broadcastEvent f (arrival_event now v st) (w_hub w)
             else w_hub w.
Proof.
  intros Hps. destruct w as [[rs os] [d ds] q]. intros [Ho Hd]. simpl in Ho, Hd. subst os ds.
  unfold process_stop, arrives, stop_update, is_stop_of, markStop, completeTrip, on_db, on_hub,
    bindM, retM, arrives. rewrite Hps.
  assert (Hid : forall l, l = map (fun g : progress_row => if is_progress (ts_tripID st) (ts_stopID st) g then g else g) l).
  { induction l as [|g l IH]; simpl; [done|]. rewrite <- IH. by case_match. }
  generalize (f_leb (haversineKm lat lng (ts_stopLat st) (ts_stopLng st)) (ts_arrivalRadiusKm st)),
    (f_gtb (haversineKm lat lng (ts_stopLat st) (ts_stopLng st)) (ts_arrivalRadiusKm st)).
  intros near far. case_bool_decide as Hp.
  - rewrite (bool_decide_false (ts_status st = StopArrived)) by (rewrite Hp; done).
    destruct (ts_stopSequence st <? mx); simpl; [repeat split|].
    destruct near; simpl; [by destruct (ts_isFinalStop st)|]. by rewrite <- Hid.
  - simpl. case_bool_decide; simpl; [destruct far; simpl; [done|]|]; by rewrite <- Hid.
Qed.

Lemma process_stops_up now v f lat lng mx passed stops (w : W) :
  (forall st, passed st = (ts_stopSequence st <? mx)) -> up w ->
  let w' := (forM (process_stop Live now v f lat lng mx) stops w).2 in
  up w' /\
  db_progress (tables (w_db w')) =
    map (fun g => foldl (fun g st => if is_stop_of st g then stop_update now lat lng passed st g else g)
                    g stops) (db_progress (tables (w_db w))) /\
  db_trips (tables (w_db w')) =
    foldl (fun ts st => if arrives lat lng passed st && ts_isFinalStop st
                        then map (complete_row now (ts_tripID st)) ts else ts)
      (db_trips (tables (w_db w))) stops /\
  w_hub w' = foldl (fun q st => broadcastEvent f (arrival_event now v st) q) (w_hub w)
               (List.filter (arrives lat lng passed) stops).
Proof.
  intros Hps. revert w. induction stops as [|st stops IH]; intros w Hup; cbn [forM foldl List.filter].
  { split; [done|]. split; [by rewrite map_id|done]. }
  unfold bindM. destruct (process_stop_up now v f lat lng mx passed st w (Hps st) Hup) as (H1 & H2 & H3 & H4).
  destruct (process_stop Live now v f lat lng mx st w) as [u w1]. cbn [snd] in *.
  destruct (IH w1 H1) as (I1 & I2 & I3 & I4). split; [done|]. split; [|split].
  - by rewrite I2, H2, map_map.
  - by rewrite I3, H3.
  - rewrite I4, H4. by destruct (arrives lat lng passed st).
Qed.

Lemma stop_update_ids now lat lng passed st st' g :
  is_stop_of st' (stop_update now lat lng passed st g) = is_stop_of st' g.
Proof. unfold stop_update, is_stop_of. by repeat case_match. Qed.

(** A row is touched by the one stop that is its own. *)
Lemma foldl_stop_update now lat lng passed stops g trip :
  NoDup (map ts_stopID stops) -> Forall (fun st => ts_tripID st = trip) stops ->
  foldl (fun g st => if is_stop_of st g then stop_update now lat lng passed st g else g) g stops =
  match List.find (fun st => is_stop_of st g) stops with
  | Some st => stop_update now lat lng passed st g
  | None => g
  end.
Proof.
  assert (Hskip : forall stops g, (forall st, st ∈ stops -> is_stop_of st g = false) ->
    foldl (fun g st => if is_stop_of st g then stop_update now lat lng passed st g else g) g stops = g).
  { induction stops0 as [|st l IH]; intros g0 Hl; simpl; [done|].
    rewrite (Hl st) by (by left). apply IH. intros st' ?. apply Hl. by right. }
  revert g. induction stops as [|st stops IH]; intros g Hnd Ht; simpl; [done|].
  apply NoDup_cons in Hnd as [Hn Hnd]. apply Forall_cons in Ht as [Ht1 Ht].
  destruct (is_stop_of st g) eqn:E; [|by apply IH].
  apply Hskip. intros st' Hin. rewrite stop_update_ids. apply not_true_is_false.
  unfold is_stop_of, is_progress in *. rewrite andb_true_iff, !bool_decide_eq_true in *.
  intros [_ Hs]. destruct E as [_ Hs0]. apply Hn. rewrite <- Hs0, Hs.
  by apply (list_elem_of_fmap_2 ts_stopID).
Qed.

Lemma foldl_complete now (c : tripStopRow -> bool) stops trip ts :
  Forall (fun st => ts_tripID st = trip) stops ->
  foldl (fun ts st => if c st then map (complete_row now (ts_tripID st)) ts else ts) ts stops =
  if existsb c stops then map (complete_row now trip) ts else ts.
Proof.
  assert (Hidem : forall ts, map (complete_row now trip) (map (complete_row now trip) ts) =
            map (complete_row now trip) ts).
  { intros ts0. rewrite map_map. apply map_ext. intros t. unfold complete_row.
    destruct (bool_decide (tp_trip_id t = trip)) eqn:E; simpl; by rewrite E. }
  revert ts. induction stops as [|st stops IH]; intros ts Ht; simpl; [done|].
  apply Forall_cons in Ht as [-> Ht]. rewrite IH by done.
  destruct (c st); simpl; [|done]. destruct (existsb c stops); [apply Hidem|done].
Qed.
End Reliable.

(** ** What the rows of the query are, and which stops are passed *)

(** A stop the vehicle has been at. *)
Definition reached (st : tripStopRow) : bool :=
  bool_decide (ts_status st = "ARRIVED"%string) || bool_decide (ts_status st = "DEPARTED"%string).
(** A stop further along the route has been reached. Sequence numbers start at 1; one
    below 0, if there were any, counts as passed from the start. *)
Definition overtaken (stops : list tripStopRow) (st : tripStopRow) : bool :=
  existsb (fun st' => reached st' && (ts_stopSequence st <? ts_stopSequence st')) stops ||
  (ts_stopSequence st <? 0).

Lemma maxArrivedSeq_overtaken stops st :
  overtaken stops st = (ts_stopSequence st <? maxArrivedSeq stops).
Proof.
  unfold overtaken, maxArrivedSeq, reached. change StopArrived with "ARRIVED"%string.
  change StopDeparted with "DEPARTED"%string. generalize 0. induction stops as [|x l IH]; intros mx; [done|].
  cbn [existsb foldl]. rewrite <- IH.
  destruct (bool_decide _ || bool_decide _); cbn [andb]; [|done].
  destruct (Z.ltb_spec mx (ts_stopSequence x)), (existsb _ l); cbn [orb];
    rewrite ?orb_true_r, ?orb_true_l, ?orb_false_r, ?orb_false_l; try done.
  - destruct (Z.ltb_spec (ts_stopSequence st) (ts_stopSequence x)), (Z.ltb_spec (ts_stopSequence st) mx);
      done || lia.
  - destruct (Z.ltb_spec (ts_stopSequence st) (ts_stopSequence x)), (Z.ltb_spec (ts_stopSequence st) mx);
      done || lia.
Qed.

(** The stop, of the route of the trip, that a row is about. *)
Record stop_on_trip (d : db) (trip : string) (st : tripStopRow) (t : trip_row) (v : vehicle_row)
    (s : stop_row) : Prop := {
  on_trip : t ∈ db_trips d /\ tp_trip_id t = trip /\ ts_tripID st = trip;
  on_vehicle : v ∈ db_vehicles d /\ vr_vehicle_id v = tp_vehicle_id t /\
    ts_vehicleID st = tp_vehicle_id t /\ ts_fleetID st = vr_fleet_id v;
  on_route : s ∈ db_stops d /\ rs_route_id s = tp_route_id t;
  on_stop : ts_stopID st = rs_stop_id s /\ ts_stopName st = rs_stop_name s /\
    ts_stopSequence st = rs_stop_sequence s /\ ts_stopLat st = rs_lat s /\ ts_stopLng st = rs_lng s /\
    ts_arrivalRadiusKm st = rs_arrival_radius_km s;
  on_final : ts_isFinalStop st = true <->
    forall s', s' ∈ db_stops d -> rs_route_id s' = tp_route_id t ->
               rs_stop_sequence s' <= rs_stop_sequence s
}.

(** The stops of the trip: every stop of the route, in the order of their numbers, each
    with its recorded status, PENDING when there is none. *)
Lemma trip_stops_rows d trip :
  keys d ->
  StronglySorted (fun a b => ts_stopSequence a <= ts_stopSequence b) (trip_stops d trip) /\
  (forall t v s, t ∈ db_trips d -> tp_trip_id t = trip -> v ∈ db_vehicles d ->
     vr_vehicle_id v = tp_vehicle_id t -> s ∈ db_stops d -> rs_route_id s = tp_route_id t ->
     exists st, st ∈ trip_stops d trip /\ stop_on_trip d trip st t v s) /\
  Forall (fun st => ts_status st = stop_status d trip (ts_stopID st) /\
                    exists t v s, stop_on_trip d trip st t v s) (trip_stops d trip).
Proof.
  intros Hk. destruct (trip_stops_spec d trip Hk) as [_ Hst].
  assert (Hrow : forall st, st ∈ trip_stops d trip <-> st ∈ joined_stops d trip).
  { intros st. unfold trip_stops. by rewrite (merge_sort_Permutation seq_le). }
  assert (Hfin : forall t s, forallb (fun s' => rs_stop_sequence s' <=? rs_stop_sequence s)
      (List.filter (fun s => bool_decide (rs_route_id s = tp_route_id t)) (db_stops d)) = true <->
    forall s', s' ∈ db_stops d -> rs_route_id s' = tp_route_id t ->
               rs_stop_sequence s' <= rs_stop_sequence s).
  { intros t s. rewrite forallb_forall. split.
    - intros Hall s' Hin Hr. apply Z.leb_le, Hall, list_elem_of_In, elem_of_select.
      by rewrite bool_decide_eq_true.
    - intros Hall s' [Hin Hr%bool_decide_eq_true]%list_elem_of_In%elem_of_select.
      apply Z.leb_le. by apply Hall. }
  split; [|split].
  - apply (StronglySorted_merge_sort seq_le).
  - intros t v s Ht Hid Hv Hvid Hs Hr. eexists. split.
    + apply Hrow. unfold joined_stops. apply list_elem_of_bind. exists t. split.
      2:{ apply elem_of_select. by rewrite bool_decide_eq_true. }
      apply list_elem_of_bind. exists v. split.
      2:{ apply elem_of_select. by rewrite bool_decide_eq_true. }
      cbv zeta. apply list_elem_of_bind. exists s. split.
      2:{ apply elem_of_select. by rewrite bool_decide_eq_true. }
      rewrite joined_statuses_key by done. cbn. apply list_elem_of_singleton. reflexivity.
    + by split; cbn; rewrite ?Hfin.
  - apply Forall_forall. intros st Hin. rewrite Forall_forall in Hst.
    split; [by apply Hst|]. apply Hrow in Hin. unfold joined_stops in Hin.
    apply list_elem_of_bind in Hin as (t & Hin & [Ht Hid%bool_decide_eq_true]%elem_of_select).
    apply list_elem_of_bind in Hin as (v & Hin & [Hv Hvid%bool_decide_eq_true]%elem_of_select).
    cbv zeta in Hin.
    apply list_elem_of_bind in Hin as (s & Hin & [Hs Hr%bool_decide_eq_true]%elem_of_select).
    apply list_elem_of_bind in Hin as (stt & Hin & _). apply list_elem_of_singleton in Hin as ->.
    exists t, v, s. by split; cbn; rewrite ?Hfin.
Qed.


(** ** Examples and witnesses *)
Definition demo_stop (id : string) (seq lng : Z) : stop_row :=
  MkStopRow id "r1" seq id f_zero (f_of_Z lng) f_one.
Definition demo_trip_db (progress : list progress_row) : db :=
  MkDb [] [] 1 [MkVehicleRow "v1" "fleet-a" "Truck" "TEST-1" "truck" None None true] [] []
    [demo_stop "s2" 2 1; demo_stop "s1" 1 0] []
    [MkTripRow "t1" "v1" "d1" "r1" TripInProgress 0 None None 0] progress.
Definition demo_at (lng : string) : MemRedis :=
  MkMemRedis (put (state_key "v1") (RHash (<["lat" := "0"]> {["lng" := lng]}))%string None
                (MkRstate ∅ [])) [].
Definition demo_progress : list progress_row :=
  [MkProgressRow "t1" "s1" StopPending None None; MkProgressRow "t1" "s2" StopPending None None].

Lemma demo_keys progress :
  NoDup (map (fun g => (pg_trip_id g, pg_stop_id g)) progress) -> keys (demo_trip_db progress).
Proof.
  split; simpl; [by apply NoDup_singleton| |by constructor|by apply NoDup_singleton|done].
  apply NoDup_cons. split; [by intros ?%list_elem_of_singleton|apply NoDup_singleton].
Qed.
Lemma demo_progress_nodup : NoDup (map (fun g => (pg_trip_id g, pg_stop_id g)) demo_progress).
Proof. apply NoDup_cons. split; [by intros ?%list_elem_of_singleton|apply NoDup_singleton]. Qed.

(** A trip whose progress rows were never created, which nothing in the services does:
    arriving at a stop leaves no trace and is announced again by the next tick. *)
Example arrival_without_progress_row :
  let w := MkWorld (demo_at "0") (MkMemDB (demo_trip_db []) []) [] in
  let tick w := (stop_tick (H:=flat_trig) Live 5 w).2 in
  db_progress (tables (w_db (tick (tick w)))) = [] /\ length (w_hub (tick (tick w))) = 2%nat.
Proof. vm_compute. done. Qed.


