(* ===== verification/Eta.v ===== *)
(** * [serving/internal/jobs/eta_estimator.go]

    For every trip in progress, the time of arrival at its next pending stop, stored
    for ten minutes. The trips are visited in the order a Go map gives, which is the
    parameter [shuffle]. *)
From Stdlib Require Import SpecFloat.
From S2P Require Import Prelude GoNum Strconv Json Redis Domain Rfc3339 RedisStore Tables Events.
From S2P Require Import Geo StopDetector.
Local Open Scope Z_scope.
Local Open Scope fleet_scope.

Record nextStop := MkNextStop { ns_vehicleID : string; ns_lat : float64; ns_lng : float64 }.

(** The pending stops of a trip, by sequence. *)
Definition stop_row_le (a b : stop_row) : Prop := rs_stop_sequence a <= rs_stop_sequence b.
#[export] Instance stop_row_le_dec : RelDecision stop_row_le.
Proof. intros a b. apply Z_le_dec. Defined.
#[export] Instance stop_row_le_trans : Transitive stop_row_le.
Proof. intros a b c. unfold stop_row_le. lia. Qed.
#[export] Instance stop_row_le_total : Total stop_row_le.
Proof. intros a b. unfold stop_row_le. lia. Qed.
Definition pending_stops (d : db) (t : trip_row) : list stop_row :=
  merge_sort stop_row_le
    (s ← List.filter (fun s => bool_decide (rs_route_id s = tp_route_id t)) (db_stops d);
     st ← joined_statuses d (tp_trip_id t) (rs_stop_id s);
     if bool_decide (st = StopPending) then [s] else []).
(** The rows of the query. They come ordered by trip and sequence; only the order
    within a trip matters to what follows. *)
Definition eta_rows (d : db) : list (string * nextStop) :=
  t ← List.filter (fun t => bool_decide (tp_status t = TripInProgress)) (db_trips d);
  map (fun s => (tp_trip_id t, MkNextStop (tp_vehicle_id t) (rs_lat s) (rs_lng s)))
    (pending_stops d t).
(** The map of first pending stops. *)
Definition next_stops (rows : list (string * nextStop)) : gmap string nextStop :=
  foldl (fun m row => match m !! row.1 with Some _ => m | None => <[row.1 := row.2]> m end)
    ∅ rows.

Definition eta_key (tripID : string) : string := ("trip:" ++ tripID ++ ":eta")%string.
(** The speed used: the reported one when it parses and exceeds 5 km/h, else 60. *)
Definition eta_speed (v : option (option string)) : float64 :=
  match v with
  | Some (Some s) =>
      let '(x, ok) := ParseFloat s in
      if (ok : bool) && f_gtb x (f_of_Z 5) then x else f_of_Z 60
  | _ => f_of_Z 60
  end.
(** [Format(time.RFC3339)]: whole seconds. *)
Definition format_seconds (t : Time) : string :=
  default ""%string (format_rfc3339 (UTC (of_Unix (Unix t)))).

Section Eta.
Context `{Trig}.
Definition eta_time (now : Time) (lat lng dLat dLng speed : float64) : Time :=
  let distKm := haversineKm lat lng dLat dLng in
  let etaMinutes := f_mul (f_div distKm speed) (f_of_Z 60) in
  now + int_mul (int64_of_float etaMinutes) Minute.

Context {R P : Type} `{RedisServer R} `{Database P}.
Notation W := (World R P).

Definition computeAndStore (cx : context) (now : Time) (tripID : string) (ns : nextStop)
  : M W unit :=
  let! r := on_redis (redis_hmget cx now (state_key (ns_vehicleID ns))
                        ["lat"; "lng"; "speed_kmh"]%string) in
  match r with
  | Err _ => retM tt
  | Ok vals =>
      match position_of vals with
      | None => retM tt
      | Some (vLat, vLng) =>
          let eta := eta_time now vLat vLng (ns_lat ns) (ns_lng ns) (eta_speed (vals !! 2%nat)) in
          on_redis (redis_unit cx now (SET (eta_key tripID) (format_seconds eta) (10 * Minute))) >>
          retM tt
      end
  end.

Variable shuffle : list (string * nextStop) -> list (string * nextStop).
Definition eta_tick (cx : context) (now : Time) : M W unit :=
  let! r := on_db (pg_query cx eta_rows) in
  match r with
  | Err _ => retM tt
  | Ok rows =>
      forM (fun p => computeAndStore cx now p.1 p.2) (shuffle (map_to_list (next_stops rows)))
  end.
End Eta.

(** ** Lemmas *)
Lemma eta_key_inj a b : eta_key a = eta_key b -> a = b.
Proof. unfold eta_key. intros Heq%(inj (String.app _)). by eapply string_app_inj_r. Qed.

Lemma state_eta_ne a b : state_key a <> eta_key b.
Proof. unfold state_key, eta_key. intros Heq. simpl in Heq. discriminate. Qed.

(** The speed is always above 5, so the division is by a positive number. *)
Lemma eta_speed_positive v : f_gtb (eta_speed v) (f_of_Z 5) = true.
Proof.
  unfold eta_speed. destruct v as [[s|]|]; [|by vm_compute..].
  destruct (ParseFloat s) as [x []]; cbn [andb]; [|by vm_compute].
  destruct (f_gtb x (f_of_Z 5)) eqn:E; [done|by vm_compute].
Qed.

(** The map holds the first row of each trip. *)
Lemma next_stops_lookup rows t :
  next_stops rows !! t = snd <$> List.find (fun r => bool_decide (r.1 = t)) rows.
Proof.
  unfold next_stops.
  assert (Hg : forall m : gmap string nextStop, foldl (fun (m : gmap string nextStop) (row : string * nextStop) =>
              match m !! row.1 with Some _ => m | None => <[row.1 := row.2]> m end) m rows !! t =
            match m !! t with Some x => Some x
            | None => snd <$> List.find (fun r => bool_decide (r.1 = t)) rows end);
    [|by rewrite Hg, lookup_empty].
  induction rows as [|[t' ns] rows IH]; intros m; simpl; [by destruct (m !! t)|].
  rewrite IH. case_bool_decide as Ht; simpl.
  - subst t'. destruct (m !! t) eqn:E; [by rewrite E|]. by rewrite lookup_insert_eq.
  - destruct (m !! t') eqn:E; [done|]. by rewrite lookup_insert_ne.
Qed.

(** ** What a tick stores *)
Section Reliable.
Context `{Trig}.
Notation W := (World MemRedis MemDB).

(** The estimate for a stop from the vehicle's state: now and as many whole minutes as the
    great circle takes at the reported speed, at 60 km/h when none above 5 is reported;
    none when a coordinate is missing or no number. *)
Definition estimate (now : Time) (st : rstate) (ns : nextStop) : option string :=
  match live now (state_key (ns_vehicleID ns)) st with
  | Some (RHash h) =>
      match ParseFloat <$> h !! "lat"%string, ParseFloat <$> h !! "lng"%string with
      | Some (lat, true), Some (lng, true) =>
          let speed :=
            match ParseFloat <$> h !! "speed_kmh"%string with
            | Some (x, true) => if f_gtb x (f_of_Z 5) then x else f_of_Z 60
            | _ => f_of_Z 60
            end in
          let minutes := f_mul (f_div (haversineKm lat lng (ns_lat ns) (ns_lng ns)) speed) (f_of_Z 60) in
          Some (format_seconds (now + int_mul (int64_of_float minutes) Minute))
      | _, _ => None
      end
  | _ => None
  end.

Lemma estimate_code now st ns :
  estimate now st ns =
  match live now (state_key (ns_vehicleID ns)) st with
  | Some (RHash h) =>
      pos ← position_of (map (fun f => h !! f) ["lat"; "lng"; "speed_kmh"]%string);
      Some (format_seconds (eta_time now pos.1 pos.2 (ns_lat ns) (ns_lng ns)
                              (eta_speed (Some (h !! "speed_kmh"%string)))))
  | _ => None
  end.
Proof.
  unfold estimate, position_of, eta_time, eta_speed.
  destruct (live _ _ _) as [[s|h]|]; [done| |done]. cbn [map].
  destruct (h !! "lat"%string) as [a|], (h !! "lng"%string) as [b|];
    cbn [fmap option_fmap option_map mbind option_bind];
    try destruct (ParseFloat a) as [x []]; try destruct (ParseFloat b) as [y []];
    cbn [andb mbind option_bind fst snd]; try reflexivity.
  destruct (h !! "speed_kmh"%string) as [s|]; cbn [fmap option_fmap option_map]; [|reflexivity].
  by destruct (ParseFloat s) as [z []].
Qed.
Lemma computeAndStore_up now t ns (w : W) :
  up w ->
  let w' := (computeAndStore Live now t ns w).2 in
  up w' /\ w_db w' = w_db w /\ w_hub w' = w_hub w /\
  mem (w_redis w') = match estimate now (mem (w_redis w)) ns with
                     | Some s => put (eta_key t) (RStr s) (Some (now + 10 * Minute)) (mem (w_redis w))
                     | None => mem (w_redis w)
                     end.
Proof.
  destruct w as [[st os] [d ds] q]. intros [Ho Hd]. simpl in Ho, Hd. subst os ds.
  rewrite estimate_code. unfold computeAndStore, on_redis, bindM, retM, redis_hmget, redis_unit. simpl.
  destruct (live now (state_key (ns_vehicleID ns)) st) as [[s|h]|]; simpl; [done| |done].
  destruct (h !! "lat"%string), (h !! "lng"%string); simpl; try done.
  destruct (ParseFloat _) as [x []], (ParseFloat _) as [y []]; simpl; try done.
Qed.

Lemma estimate_frame now st t v e ns :
  estimate now (put (eta_key t) v e st) ns = estimate now st ns.
Proof.
  unfold estimate. rewrite live_put_ne; [done|]. intros Heq. symmetry in Heq. by apply state_eta_ne in Heq.
Qed.

Lemma eta_loop now l (w : W) :
  up w -> NoDup l.*1 ->
  let st := mem (w_redis w) in
  let st' := mem (w_redis (forM (fun p => computeAndStore Live now p.1 p.2) l w).2) in
  (forall t ns, (t, ns) ∈ l -> live now (eta_key t) st' =
     match estimate now st ns with Some s => Some (RStr s) | None => live now (eta_key t) st end) /\
  (forall u k, (forall t, t ∈ l.*1 -> k <> eta_key t) -> live u k st' = live u k st).
Proof.
  revert w. induction l as [|[t ns] l IH]; intros w Hup Hnd; cbn [forM].
  { split; [by intros t ns ?%elem_of_nil|done]. }
  simpl in Hnd. apply NoDup_cons in Hnd as [Hn Hnd]. unfold bindM. cbn [fst snd].
  destruct (computeAndStore_up now t ns w Hup) as (Hup1 & _ & _ & Hst).
  destruct (computeAndStore Live now t ns w) as [u w1]. cbn [snd] in *.
  destruct (IH w1 Hup1 Hnd) as [IH1 IH2]. split.
  - intros t' ns' [[= -> ->]|Hin]%elem_of_cons.
    + rewrite IH2 by (intros t'' Ht Heq; apply eta_key_inj in Heq; by subst).
      rewrite Hst. destruct (estimate now (mem (w_redis w)) ns); [|done].
      rewrite live_put_eq. by rewrite (proj2 (Z.ltb_lt now _)) by (unfold Minute, Second; lia).
    + assert (Hne : eta_key t <> eta_key t').
      { intros ->%eta_key_inj. apply Hn. by apply (list_elem_of_fmap_2 fst l (t', ns')). }
      rewrite (IH1 t' ns' Hin), Hst.
      destruct (estimate now (mem (w_redis w)) ns); [|done].
      rewrite estimate_frame. by rewrite live_put_ne.
  - intros u' k Hk. rewrite IH2 by (intros t' Ht; apply Hk; by right). rewrite Hst.
    destruct (estimate now (mem (w_redis w)) ns); [|done].
    rewrite live_put_ne; [done|]. intros Heq. symmetry in Heq. revert Heq. apply Hk. by left.
Qed.
End Reliable.

(** ** The rows of the query *)

(** A stop the trip has still to make. *)
Definition still_pending (d : db) (t : trip_row) (s : stop_row) : Prop :=
  s ∈ db_stops d /\ rs_route_id s = tp_route_id t /\
  stop_status d (tp_trip_id t) (rs_stop_id s) = "PENDING"%string.

Lemma pending_stops_in d t s : keys d -> s ∈ pending_stops d t <-> still_pending d t s.
Proof.
  intros Hk. unfold pending_stops, still_pending. rewrite (merge_sort_Permutation stop_row_le).
  rewrite list_elem_of_bind. split.
  - intros (s' & Hin & [Hs Hr%bool_decide_eq_true]%elem_of_select).
    rewrite joined_statuses_key in Hin by done. cbn [mbind list_bind] in Hin. rewrite app_nil_r in Hin.
    case_bool_decide as Hp; [|by apply elem_of_nil in Hin]. apply list_elem_of_singleton in Hin as ->. done.
  - intros (Hs & Hr & Hp). exists s. rewrite elem_of_select, bool_decide_eq_true. split; [|done].
    rewrite joined_statuses_key by done. cbn [mbind list_bind]. rewrite Hp. by left.
Qed.
Lemma pending_stops_first d t s rest :
  keys d -> pending_stops d t = s :: rest ->
  still_pending d t s /\ forall s', still_pending d t s' -> rs_stop_sequence s <= rs_stop_sequence s'.
Proof.
  intros Hk E.
  assert (Hs : StronglySorted stop_row_le (s :: rest))
    by (rewrite <- E; apply StronglySorted_merge_sort; apply _).
  assert (Hin : forall s', still_pending d t s' -> s' ∈ s :: rest)
    by (intros s'; rewrite <- E; by apply pending_stops_in).
  split; [apply (pending_stops_in d t s Hk); rewrite E; by left|].
  intros s' [->|Hs']%Hin%elem_of_cons; [lia|]. apply StronglySorted_inv in Hs as [_ Hs].
  rewrite Forall_forall in Hs. by apply Hs.
Qed.

(** The first row of a trip is for its first pending stop. *)
Definition row_of (t : trip_row) (s : stop_row) : string * nextStop :=
  (tp_trip_id t, MkNextStop (tp_vehicle_id t) (rs_lat s) (rs_lng s)).
Lemma find_other_trip (l : list stop_row) t tripID rest :
  tp_trip_id t <> tripID ->
  List.find (fun r => bool_decide (r.1 = tripID)) (map (row_of t) l ++ rest) =
  List.find (fun r => bool_decide (r.1 = tripID)) rest.
Proof. intros Hne. induction l as [|s l IH]; simpl; [done|]. by rewrite bool_decide_false. Qed.
Lemma eta_rows_find d tripID :
  keys d ->
  match List.find (fun r => bool_decide (r.1 = tripID)) (eta_rows d) with
  | Some r => exists t s, t ∈ db_trips d /\ tp_status t = "IN_PROGRESS"%string /\
      tp_trip_id t = tripID /\ head (pending_stops d t) = Some s /\ r = row_of t s
  | None => forall t, t ∈ db_trips d -> tp_status t = "IN_PROGRESS"%string ->
      tp_trip_id t = tripID -> pending_stops d t = []
  end.
Proof.
  intros Hk. unfold eta_rows. pose proof (key_trip d Hk) as Hnd. revert Hnd.
  fold row_of. induction (db_trips d) as [|t l IH]; intros Hnd; [by intros t ?%elem_of_nil|].
  simpl in Hnd. apply NoDup_cons in Hnd as [Hn Hnd]. specialize (IH Hnd). cbn [List.filter].
  assert (Hskip : match List.find (fun r => bool_decide (r.1 = tripID))
      (t' ← List.filter (fun t => bool_decide (tp_status t = TripInProgress)) l;
       map (row_of t') (pending_stops d t')) with
    | Some r => exists t0 s, t0 ∈ t :: l /\ tp_status t0 = "IN_PROGRESS"%string /\
        tp_trip_id t0 = tripID /\ head (pending_stops d t0) = Some s /\ r = row_of t0 s
    | None => forall t0, t0 ∈ l -> tp_status t0 = "IN_PROGRESS"%string ->
        tp_trip_id t0 = tripID -> pending_stops d t0 = []
    end).
  { unfold row_of in *. destruct (List.find _ _); [|done].
    destruct IH as (t0 & s & ? & ?). exists t0, s. split; [by right|done]. }
  clear IH. case_bool_decide as Hs; cbn [mbind list_bind]; fold (row_of t).
  - destruct (decide (tp_trip_id t = tripID)) as [Hid|Hid].
    + destruct (pending_stops d t) as [|s rest] eqn:E; cbn [map app List.find].
      * destruct (List.find _ _); [done|]. intros t0 [->|Ht0]%elem_of_cons; [done|by apply Hskip].
      * cbn [row_of fst]. rewrite bool_decide_true by done. exists t, s. rewrite E. split_and!; try done. by left.
    + change (map (fun s => (tp_trip_id t, MkNextStop (tp_vehicle_id t) (rs_lat s) (rs_lng s))))
        with (map (row_of t)). rewrite find_other_trip by done.
      destruct (List.find _ _); [done|]. intros t0 [->|Ht0]%elem_of_cons; [done|by apply Hskip].
  - destruct (List.find _ _); [done|]. intros t0 [->|Ht0]%elem_of_cons; [done|by apply Hskip].
Qed.

(** C33. The estimates of a tick. With the services up and in whatever order the map of
    trips is visited, after a tick each trip in progress that has a pending stop has
    stored the estimate to one of its pending stops, stops of its route that none of its
    other pending stops comes before, from the position and speed then in Redis, if the
    position is known; no other key changes, so no estimate is stored for a trip that is
    not in progress or has no pending stop. *)
Theorem eta_tick_estimates `{Trig} shuffle now (w : World MemRedis MemDB) :
  (forall l, shuffle l ≡ₚ l) -> up w ->
  let d := tables (w_db w) in
  keys d ->
  let st := mem (w_redis w) in
  let st' := mem (w_redis (eta_tick shuffle Live now w).2) in
  (forall t s0, t ∈ db_trips d -> tp_status t = "IN_PROGRESS"%string -> still_pending d t s0 ->
     exists s, still_pending d t s /\
       (forall s', still_pending d t s' -> rs_stop_sequence s <= rs_stop_sequence s') /\
       live now (eta_key (tp_trip_id t)) st' =
         match estimate now st (MkNextStop (tp_vehicle_id t) (rs_lat s) (rs_lng s)) with
         | Some text => Some (RStr text)
         | None => live now (eta_key (tp_trip_id t)) st
         end) /\
  (forall u k, (forall t s, t ∈ db_trips d -> tp_status t = "IN_PROGRESS"%string ->
                  still_pending d t s -> k <> eta_key (tp_trip_id t)) ->
     live u k st' = live u k st).
Proof.
  intros Hsh Hup d Hk st. set (rows := eta_rows d).
  assert (Hrun : (eta_tick shuffle Live now w).2 =
    (forM (fun p => computeAndStore Live now p.1 p.2) (shuffle (map_to_list (next_stops rows))) w).2).
  { subst rows d. destruct w as [r [d ds] q]. destruct Hup as [_ Hd]. simpl in Hd. subst ds. done. }
  rewrite Hrun. set (l := shuffle (map_to_list (next_stops rows))).
  assert (Hl : l ≡ₚ map_to_list (next_stops rows)) by apply Hsh.
  assert (Hnd : NoDup l.*1) by (rewrite Hl; apply NoDup_fst_map_to_list).
  destruct (eta_loop now l w Hup Hnd) as [H1 H2]. split.
  - intros t s0 Ht Hs Hp. pose proof (next_stops_lookup rows (tp_trip_id t)) as Hlk.
    pose proof (eta_rows_find d (tp_trip_id t) Hk) as Hfind. fold rows in Hfind.
    destruct (List.find _ rows) as [r|].
    + destruct Hfind as (t' & s & Ht' & _ & Hid & Hhd & ->).
      assert (t' = t) as -> by (by apply (NoDup_map_inj tp_trip_id (db_trips d)); [apply Hk|..]).
      destruct (pending_stops d t) as [|s1 rest] eqn:E; [done|]. injection Hhd as ->.
      destruct (pending_stops_first d t s rest Hk E) as [Hs1 Hmin]. exists s. split; [done|]. split; [done|].
      apply H1. rewrite Hl. by apply elem_of_map_to_list.
    + apply (pending_stops_in d t s0 Hk) in Hp. rewrite (Hfind t) in Hp by done. by apply elem_of_nil in Hp.
  - intros u k Hk'. apply H2. intros tripID Hin Heq. subst k.
    apply list_elem_of_fmap in Hin as ([t' ns] & Heq & Hin). simpl in Heq. subst t'.
    rewrite Hl in Hin. apply elem_of_map_to_list in Hin. rewrite next_stops_lookup in Hin.
    pose proof (eta_rows_find d tripID Hk) as Hfind. fold rows in Hfind.
    destruct (List.find _ rows) as [r|]; [|done].
    destruct Hfind as (t & s & Ht & Hs & Hid & Hhd & _).
    destruct (pending_stops d t) as [|s1 rest] eqn:E; [done|].
    apply (Hk' t s1 Ht Hs); [|by rewrite Hid]. apply (pending_stops_in d t s1 Hk). rewrite E. by left.
Qed.

Lemma eta_tick_estimates_witness :
  let w := MkWorld (demo_at "0") (MkMemDB (demo_trip_db demo_progress) []) [] in
  let st' := mem (w_redis (eta_tick (H:=flat_trig) (@rev _) Live 0 w).2) in
  live 0 (eta_key "t1") st' = Some (RStr "1970-01-01T00:00:00Z") /\
  exists s, still_pending (demo_trip_db demo_progress)
              (MkTripRow "t1" "v1" "d1" "r1" TripInProgress 0 None None 0) s /\ rs_stop_sequence s <= 1.
Proof.
  split; [vm_compute; reflexivity|].
  destruct (eta_tick_estimates (H:=flat_trig) (@rev _) 0
    (MkWorld (demo_at "0") (MkMemDB (demo_trip_db demo_progress) []) [])) as [Htrips _].
  - intros l. symmetry. apply Permutation_rev.
  - split; reflexivity.
  - exact (demo_keys demo_progress demo_progress_nodup).
  - assert (Hp : still_pending (demo_trip_db demo_progress)
      (MkTripRow "t1" "v1" "d1" "r1" TripInProgress 0 None None 0) (demo_stop "s1" 1 0)).
    { split; [|split; [reflexivity|vm_compute; reflexivity]]. right. left. }
    destruct (Htrips (MkTripRow "t1" "v1" "d1" "r1" TripInProgress 0 None None 0) (demo_stop "s1" 1 0))
      as (s & Hs & Hmin & _); [by left|reflexivity|exact Hp|].
    exists s. split; [exact Hs|]. exact (Hmin _ Hp).
Defined.
