(* ===== verification/Deviation.v ===== *)
(** * [serving/internal/jobs/deviation_detector.go]

    For every trip in progress, the distance of the vehicle from the polyline of its
    route is compared with the corridor: outside it an alert is raised, at most once
    in ten minutes per trip, and inside it the open alerts of the vehicle are resolved. *)
From Stdlib Require Import SpecFloat.
From S2P Require Import Prelude GoNum Strconv Json Redis Domain RedisStore Tables Events.
From S2P Require Import Geo StopDetector.
Local Open Scope Z_scope.
Local Open Scope fleet_scope.

Record stopPoint := MkStopPoint { sp_lat : float64; sp_lng : float64 }.
Record activeTrip := MkActiveTrip {
  at_tripID : string; at_vehicleID : string; at_fleetID : string;
  at_corridorRadiusKm : float64; at_stops : list stopPoint
}.

(** ** Queries *)
Definition deviation_trips (d : db) : list activeTrip :=
  t ← List.filter (fun t => bool_decide (tp_status t = TripInProgress)) (db_trips d);
  v ← List.filter (fun v => bool_decide (vr_vehicle_id v = tp_vehicle_id t)) (db_vehicles d);
  r ← List.filter (fun r => bool_decide (rr_route_id r = tp_route_id t)) (db_routes d);
  [MkActiveTrip (tp_trip_id t) (tp_vehicle_id t) (vr_fleet_id v) (rr_corridor_radius_km r) []].
Definition stop_seq_le (a b : stop_row) : Prop := rs_stop_sequence a <= rs_stop_sequence b.
#[export] Instance stop_seq_le_dec : RelDecision stop_seq_le.
Proof. intros a b. apply Z_le_dec. Defined.
Definition route_points (d : db) (tripID : string) : list stopPoint :=
  map (fun s => MkStopPoint (rs_lat s) (rs_lng s)) (merge_sort stop_seq_le
    (t ← List.filter (fun t => bool_decide (tp_trip_id t = tripID)) (db_trips d);
     List.filter (fun s => bool_decide (rs_route_id s = tp_route_id t)) (db_stops d))).

(** ** Distance to the route *)
Section Distance.
Context `{Trig}.
Fixpoint segment_distances (lat lng : float64) (stops : list stopPoint) : list float64 :=
  match stops with
  | a :: rest =>
      match rest with
      | b :: _ =>
          pointToSegmentDistanceKm lat lng (sp_lat a) (sp_lng a) (sp_lat b) (sp_lng b) ::
          segment_distances lat lng rest
      | [] => []
      end
  | [] => []
  end.
(** 1e18, which is exact in binary64. *)
Definition f_huge : float64 := f_of_Z (10 ^ 18).
Definition minDistanceToRoute (lat lng : float64) (stops : list stopPoint) : float64 :=
  match stops with
  | [] => f_zero
  | [p] => haversineKm lat lng (sp_lat p) (sp_lng p)
  | _ => foldl (fun mn dist => if f_ltb dist mn then dist else mn) f_huge
           (segment_distances lat lng stops)
  end.
End Distance.

Definition dev_key (vehicleID : string) : string := ("vehicle:" ++ vehicleID ++ ":deviation")%string.
Definition deviation_key (vehicleID tripID : string) : string :=
  ("deviation:" ++ vehicleID ++ ":" ++ tripID)%string.
Definition deviation_window : Z := 10 * Minute.

(** ** Statements

    The insertion has no ON CONFLICT clause: a row the exclusion constraint rejects is
    an error. *)
Definition insert_deviation_stmt (now : Time) (vehicleID severity : string) (km : float64) (d : db)
  : option (unit * db) :=
  let rows := List.filter (fun v => bool_decide (vr_vehicle_id v = vehicleID)) (db_vehicles d) in
  foldl (fun acc v =>
    st ← acc;
    let a := new_alert (db_alert_seq st.2) now vehicleID (vr_fleet_id v) AlertRouteDeviation severity km in
    if alert_checks a && negb (excl_conflict st.2 a) then Some (tt, append_alert st.2 a) else None)
    (Some (tt, d)) rows.
Definition open_deviation (vehicleID : string) (a : alert_row) : bool :=
  bool_decide (al_vehicle_id a = vehicleID) && bool_decide (al_alert_type a = AlertRouteDeviation) &&
  bool_decide (al_resolved_at a = None).
Definition resolve_row (now : Time) (by_ : string) (a : alert_row) : alert_row :=
  MkAlertRow (al_id a) (al_vehicle_id a) (al_fleet_id a) (al_alert_type a) (al_severity a)
    (al_triggered_value a) (al_created_at a) (al_acknowledged_at a) (al_acknowledged_by a)
    (Some now) (Some by_).
Definition auto_resolve_stmt (now : Time) (vehicleID : string) (d : db) : option (unit * db) :=
  Some (tt, set_alerts d (map (fun a => if open_deviation vehicleID a then resolve_row now "system" a
                                        else a) (db_alerts d)) (db_alert_seq d)).

Section Deviation.
Context {R P : Type} `{Trig} `{RedisServer R} `{Database P}.
Notation W := (World R P).

(** The failure of the claim reads as not claimed; the failure of the insertion is only
    logged. *)
Definition fireAlert (cx : context) (now : Time) (t : activeTrip) (deviationKm : float64) : M W unit :=
  let! set := on_redis (redis_setnx cx now (deviation_key (at_vehicleID t) (at_tripID t)) "1"
                          deviation_window) in
  match set with
  | Ok true =>
      let severity := if f_gtb deviationKm (f_mul (at_corridorRadiusKm t) f_two)
                      then SeverityCritical else SeverityWarning in
      on_db (pg_run cx (insert_deviation_stmt now (at_vehicleID t) severity deviationKm)) >> retM tt
  | _ => retM tt
  end.

Definition autoResolve (cx : context) (now : Time) (vehicleID tripID : string) : M W unit :=
  let! r := on_db (pg_run cx (auto_resolve_stmt now vehicleID)) in
  match r with
  | Err _ => retM tt
  | Ok _ => on_redis (redis_unit cx now (DEL (deviation_key vehicleID tripID))) >> retM tt
  end.

Definition checkTrip (cx : context) (now : Time) (t : activeTrip) : M W unit :=
  let! r := on_redis (redis_hmget cx now (state_key (at_vehicleID t)) ["lat"; "lng"]%string) in
  match r with
  | Err _ => retM tt
  | Ok vals =>
      match position_of vals with
      | None => retM tt
      | Some (lat, lng) =>
          let minDist := minDistanceToRoute lat lng (at_stops t) in
          let devKey := dev_key (at_vehicleID t) in
          if f_gtb minDist (at_corridorRadiusKm t) then
            on_redis (redis_unit cx now (SET devKey "true" 0)) >>
            fireAlert cx now t minDist >>
            on_hub (BroadcastDeviation (at_fleetID t)
              (MkVehicleDeviationPayload (at_vehicleID t) (at_tripID t) minDist))
          else
            on_redis (redis_unit cx now (SET devKey "false" 0)) >>
            autoResolve cx now (at_vehicleID t) (at_tripID t)
      end
  end.

(** [loadActiveTrips]: a trip whose stops cannot be loaded is left out. *)
Fixpoint load_stops (cx : context) (ts : list activeTrip) : M W (list activeTrip) :=
  match ts with
  | [] => retM []
  | t :: ts' =>
      let! stops := on_db (pg_query cx (fun d => route_points d (at_tripID t))) in
      let! rest := load_stops cx ts' in
      retM (match stops with
            | Err _ => rest
            | Ok s => MkActiveTrip (at_tripID t) (at_vehicleID t) (at_fleetID t)
                        (at_corridorRadiusKm t) s :: rest
            end)
  end.
Definition loadActiveTrips (cx : context) : M W (res (list activeTrip)) :=
  let! rows := on_db (pg_query cx deviation_trips) in
  match rows with
  | Err e => retM (Err e)
  | Ok ts => let! l := load_stops cx ts in retM (Ok l)
  end.
Definition deviation_tick (cx : context) (now : Time) : M W unit :=
  let! trips := loadActiveTrips cx in
  match trips with
  | Err _ => retM tt
  | Ok ts => forM (checkTrip cx now) ts
  end.
End Deviation.

(** ** The distance is the least of the segments' *)
Lemma fold_min_spec l m :
  let r := foldl (fun mn dist => if f_ltb dist mn then dist else mn) m l in
  (r = m \/ r ∈ l) /\ f_ltb m r = false /\ Forall (fun d => f_ltb d r = false) l.
Proof.
  revert m. induction l as [|d l IH]; intros m; simpl.
  { split_and!; [by left|apply f_ltb_irrefl|constructor]. }
  destruct (IH (if f_ltb d m then d else m)) as (H1 & H2 & H3).
  set (r := foldl _ _ l) in *. destruct (f_ltb d m) eqn:E.
  - split_and!; [right; destruct H1 as [->|?]; [by left|by right]| |by constructor].
    apply not_true_is_false. intros Hm. rewrite (f_ltb_trans d m r E Hm) in H2. done.
  - split_and!; [destruct H1 as [->|?]; [by left|right; by right]|done|].
    constructor; [|done]. apply not_true_is_false. intros Hd. destruct H1 as [Hr|Hr].
    + rewrite Hr in Hd. congruence.
    + assert (f_ltb r m = true \/ f_ltb r m = false) as [Hrm|Hrm] by (destruct (f_ltb r m); auto).
      * rewrite (f_ltb_trans d r m Hd Hrm) in E. done.
      * clear -Hd Hr Hrm E H2 H3. subst r. revert Hd Hrm Hr.
        assert (Hgen : forall l m, let r := foldl (fun mn dist => if f_ltb dist mn then dist else mn) m l in
                  r = m \/ f_ltb r m = true).
        { clear. induction l as [|x l IH]; intros m; simpl; [by left|].
          destruct (IH (if f_ltb x m then x else m)) as [->|Hlt].
          - destruct (f_ltb x m) eqn:E; [by right|by left].
          - destruct (f_ltb x m) eqn:E; [right; by eapply f_ltb_trans|by right]. }
        destruct (Hgen l m) as [->|Hlt]; intros; congruence.
Qed.

(** The deviation is measured to the nearest segment. For a route of two stops or
    more the measured distance is that of one of its segments, or 1e18 if none is
    nearer, and no segment is nearer than it. *)
Theorem minDistanceToRoute_least `{Trig} lat lng p q rest :
  let stops := p :: q :: rest in
  let r := minDistanceToRoute lat lng stops in
  (r = f_huge \/ r ∈ segment_distances lat lng stops) /\
  Forall (fun d => f_ltb d r = false) (segment_distances lat lng stops).
Proof.
  intros stops r. destruct (fold_min_spec (segment_distances lat lng stops) f_huge) as (H1 & _ & H3).
  by split.
Qed.

(** ** Alerts of one deviation *)
Section Reliable.
Notation W := (World MemRedis MemDB).

Definition severity_of (t : activeTrip) (km : float64) : AlertSeverity :=
  if f_gtb km (f_mul (at_corridorRadiusKm t) f_two) then SeverityCritical else SeverityWarning.
Definition claim_key (t : activeTrip) : string := deviation_key (at_vehicleID t) (at_tripID t).

Lemma fireAlert_up now t km (w : W) :
  up w ->
  let w' := (fireAlert Live now t km w).2 in
  up w' /\ w_hub w' = w_hub w /\
  match live now (claim_key t) (mem (w_redis w)) with
  | Some _ => mem (w_redis w') = mem (w_redis w) /\ tables (w_db w') = tables (w_db w)
  | None =>
      mem (w_redis w') = put (claim_key t) (RStr "1") (Some (now + deviation_window)) (mem (w_redis w)) /\
      tables (w_db w') =
        match insert_deviation_stmt now (at_vehicleID t) (severity_of t km) km (tables (w_db w)) with
        | Some (_, d) => d
        | None => tables (w_db w)
        end
  end.
Proof.
  destruct w as [[st os] [d ds] q]. intros [Ho Hd]. simpl in Ho, Hd. subst os ds.
  unfold fireAlert, severity_of, claim_key, on_redis, on_db, bindM, retM, redis_setnx. simpl.
  destruct (live now _ st) as [x|]; simpl; [done|].
  by destruct (insert_deviation_stmt _ _ _ _ _) as [[[] d']|].
Qed.

Lemma autoResolve_up now v trip (w : W) :
  up w ->
  let w' := (autoResolve Live now v trip w).2 in
  up w' /\ w_hub w' = w_hub w /\
  mem (w_redis w') = MkRstate (delete (deviation_key v trip) (rs_kv (mem (w_redis w))))
                       (rs_pub (mem (w_redis w))) /\
  db_alerts (tables (w_db w')) =
    map (fun a => if open_deviation v a then resolve_row now "system" a else a)
      (db_alerts (tables (w_db w))).
Proof.
  destruct w as [[st os] [d ds] q]. intros [Ho Hd]. simpl in Ho, Hd. by subst os ds.
Qed.
End Reliable.

(** One alert per deviation and ten minutes. With the services up, the first
    [fireAlert] of a trip claims its window and inserts at most the one alert of its
    vehicle; while the window is open, every further call leaves Redis and the
    database as they are. *)
Theorem fireAlert_window now now2 t km km2 (w : World MemRedis MemDB) :
  up w -> now <= now2 < now + deviation_window ->
  live now (claim_key t) (mem (w_redis w)) = None ->
  let w1 := (fireAlert Live now t km w).2 in
  let w2 := (fireAlert Live now2 t km2 w1).2 in
  mem (w_redis w2) = mem (w_redis w1) /\ tables (w_db w2) = tables (w_db w1) /\
  live now2 (claim_key t) (mem (w_redis w1)) = Some (RStr "1") /\
  tables (w_db w1) =
    default (tables (w_db w)) (snd <$> insert_deviation_stmt now (at_vehicleID t)
                                         (severity_of t km) km (tables (w_db w))).
Proof.
  intros Hup Hnow Hfree w1 w2. destruct (fireAlert_up now t km w Hup) as (Hup1 & _ & H1).
  rewrite Hfree in H1. destruct H1 as [Hm Ht]. fold w1 in Hup1, Hm, Ht.
  assert (Hl : live now2 (claim_key t) (mem (w_redis w1)) = Some (RStr "1")).
  { rewrite Hm, live_put_eq. by rewrite (proj2 (Z.ltb_lt now2 _)) by lia. }
  destruct (fireAlert_up now2 t km2 w1 Hup1) as (_ & _ & H2). rewrite Hl in H2.
  destruct H2 as [Hm2 Ht2]. split_and!; [done|done|done|].
  rewrite Ht. by destruct (insert_deviation_stmt _ _ _ _ _) as [[[] d']|].
Qed.

(** A deviation that starts again is not alerted. If the vehicle had an alert
    within the last five minutes, even one already resolved, the exclusion constraint
    rejects the new one; the window stays claimed all the same, so that for ten minutes
    from then on no alert is inserted for the trip. *)
Theorem redeviation_alert_lost now now2 t km km2 (w : World MemRedis MemDB) a v :
  up w -> now <= now2 < now + deviation_window ->
  live now (claim_key t) (mem (w_redis w)) = None ->
  List.filter (fun v => bool_decide (vr_vehicle_id v = at_vehicleID t)) (db_vehicles (tables (w_db w))) = [v] ->
  a ∈ db_alerts (tables (w_db w)) -> al_vehicle_id a = at_vehicleID t ->
  al_alert_type a = AlertRouteDeviation -> al_created_at a <= now < al_created_at a + alert_window ->
  let w1 := (fireAlert Live now t km w).2 in
  let w2 := (fireAlert Live now2 t km2 w1).2 in
  tables (w_db w1) = tables (w_db w) /\ tables (w_db w2) = tables (w_db w).
Proof.
  intros Hup Hnow Hfree Hv Ha Hav Hat Hac w1 w2.
  destruct (fireAlert_up now t km w Hup) as (Hup1 & _ & H1).
  rewrite Hfree in H1. destruct H1 as [Hm Ht]. fold w1 in Hup1, Hm, Ht.
  assert (Hnone : insert_deviation_stmt now (at_vehicleID t) (severity_of t km) km (tables (w_db w)) = None).
  { unfold insert_deviation_stmt. rewrite Hv. simpl.
    assert (Hx : forall f sev, excl_conflict (tables (w_db w))
              (new_alert (db_alert_seq (tables (w_db w))) now (at_vehicleID t) f AlertRouteDeviation sev km) = true).
    { intros f sev. apply existsb_exists. exists a. split; [by apply list_elem_of_In|].
      unfold dedup_excl. simpl. rewrite Hav, Hat, !bool_decide_true by done. simpl.
      apply andb_true_iff. rewrite !Z.ltb_lt. unfold alert_window, Minute, Second in *. lia. }
    simpl in Hx. by rewrite Hx, andb_false_r. }
  rewrite Hnone in Ht. split; [done|].
  assert (Hl : live now2 (claim_key t) (mem (w_redis w1)) = Some (RStr "1")).
  { rewrite Hm, live_put_eq. by rewrite (proj2 (Z.ltb_lt now2 _)) by lia. }
  destruct (fireAlert_up now2 t km2 w1 Hup1) as (_ & _ & H2). rewrite Hl in H2.
  destruct H2 as [_ Ht2]. by rewrite <- Ht.
Qed.


(** ** Examples and witnesses *)
Definition demo_active : activeTrip :=
  MkActiveTrip "t1" "v1" "fleet-a" f_one [MkStopPoint f_zero f_zero; MkStopPoint f_zero f_two].
Definition demo_dev_db (alerts : list alert_row) : db :=
  MkDb [] alerts 7 [MkVehicleRow "v1" "fleet-a" "Truck" "TEST-1" "truck" None None true] []
    [MkRouteRow "r1" "Route" "O" f_zero f_zero "D" f_zero f_two f_one None true]
    [demo_stop "s2" 2 2; demo_stop "s1" 1 0] []
    [MkTripRow "t1" "v1" "d1" "r1" TripInProgress 0 None None 0] [].
Definition demo_old_alert : alert_row :=
  MkAlertRow 1 "v1" "fleet-a" AlertRouteDeviation SeverityWarning (Some f_two) 0 None None
    (Some (60 * Second)) (Some "system"%string).
Definition demo_dev_world (alerts : list alert_row) : World MemRedis MemDB :=
  MkWorld empty_redis (MkMemDB (demo_dev_db alerts) []) [].

(** Off the route at 0, back on it at one minute, off it again from two minutes on: the
    second deviation is announced to the dashboards but gets no alert. *)
Example redeviation_ticks :
  let at_ lat lng := RHash (<["lat" := lat]> {["lng" := lng]})%string in
  let move pos w := MkWorld (MkMemRedis (put (state_key "v1") pos None (mem (w_redis w))) [])
                      (w_db w) (w_hub w) in
  let tick now pos w := (deviation_tick (H:=flat_trig) Live now (move pos w)).2 in
  let w := tick (9 * Minute) (at_ "5" "1")%string (tick (2 * Minute) (at_ "5" "1")%string
             (tick Minute (at_ "0" "1")%string (tick 0 (at_ "5" "1")%string (demo_dev_world [])))) in
  map (fun a => (al_created_at a, al_resolved_at a)) (db_alerts (tables (w_db w))) = [(0, Some Minute)] /\
  length (w_hub w) = 3%nat.
Proof. vm_compute. done. Qed.

Lemma fireAlert_window_witness :
  let w1 := (fireAlert Live 0 demo_active (f_of_Z 5) (demo_dev_world [])).2 in
  let w2 := (fireAlert Live Minute demo_active (f_of_Z 6) w1).2 in
  map al_severity (db_alerts (tables (w_db w1))) = [SeverityCritical] /\
  tables (w_db w2) = tables (w_db w1).
Proof.
  split; [vm_compute; reflexivity|].
  refine (proj1 (proj2 (fireAlert_window 0 Minute demo_active (f_of_Z 5) (f_of_Z 6)
            (demo_dev_world []) _ _ _))).
  - split; reflexivity.
  - unfold deviation_window, Minute, Second. lia.
  - reflexivity.
Defined.

Lemma redeviation_alert_lost_witness :
  let w := demo_dev_world [demo_old_alert] in
  let w1 := (fireAlert Live (2 * Minute) demo_active (f_of_Z 5) w).2 in
  let w2 := (fireAlert Live (11 * Minute) demo_active (f_of_Z 5) w1).2 in
  tables (w_db w1) = tables (w_db w) /\ tables (w_db w2) = tables (w_db w).
Proof.
  apply (redeviation_alert_lost (2 * Minute) (11 * Minute) demo_active (f_of_Z 5)
           (f_of_Z 5) (demo_dev_world [demo_old_alert]) demo_old_alert
           (MkVehicleRow "v1" "fleet-a" "Truck" "TEST-1" "truck" None None true));
    try reflexivity.
  - split; reflexivity.
  - unfold deviation_window, Minute, Second. lia.
  - by left.
  - unfold alert_window, Minute, Second. simpl. lia.
Defined.

