(* ===== verification/JobEvents.v ===== *)
(** * What the jobs broadcast, and to whom

    The jobs run on a [World] whose queue is the hub's. A small program logic follows a
    tick through its calls: the registry of vehicles stays as it is, and whatever is put in
    the queue is an event of a vehicle, for the fleet the registry has it in. So a tick is a
    sequence of steps of the system of [Sockets], whose clients then read of their own
    fleet's vehicles only. *)
From S2P Require Import Prelude GoNum Json Redis Domain Auth RedisStore Tables Events Hub Client Subs Sockets.
From S2P Require Import Geo Heartbeat StopDetector Eta Deviation.
Local Open Scope Z_scope.
Local Open Scope fleet_scope.

(** The vehicle an event is about. *)
Definition vehicle_of (e : envelope) : option string :=
  match e with
  | PositionEvent p => Some (vp_VehicleID p)
  | AlertEvent p => Some (va_VehicleID p)
  | OfflineEvent v _ | OnlineEvent v | AlertResolvedEvent _ v _ => Some v
  | DeviationEvent p => Some (vd_VehicleID p)
  | StopArrivedEvent p => Some (sa_VehicleID p)
  | PingEvent => None
  end.
(** The registry [vs] has the event's vehicle in the fleet [f]. *)
Definition owns (vs : list vehicle_row) (f : string) (e : envelope) : Prop :=
  exists v, v ∈ vs /\ vehicle_of e = Some (vr_vehicle_id v) /\ vr_fleet_id v = f.
(** A queue after some events, each for the fleet of its vehicle. *)
Definition queued_for (vs : list vehicle_row) (q q' : list broadcastMsg) : Prop :=
  exists f e, owns vs f e /\ q' = broadcastEvent f e q.

(** ** The logic *)
Section Logic.
Context {R P : Type} `{RedisServer R} `{DatabaseLaws P}.
Notation W := (World R P).
Variable vs : list vehicle_row.

Definition job {A} (c : M W A) (post : A -> Prop) : Prop := forall w,
  db_vehicles (tables (w_db w)) = vs ->
  db_vehicles (tables (w_db (c w).2)) = vs /\
  rtc (queued_for vs) (w_hub w) (w_hub (c w).2) /\ post (c w).1.

Lemma job_ret {A} (a : A) (post : A -> Prop) : post a -> job (retM a) post.
Proof. intros Ha w Hw. split; [done|]. split; [constructor|done]. Qed.
Lemma job_bind {A B} (c : M W A) (k : A -> M W B) p post :
  job c p -> (forall a, p a -> job (k a) post) -> job (bindM c k) post.
Proof.
  intros Hc Hk w Hw. unfold bindM. destruct (Hc w Hw) as (Hv & Hq & Hp).
  destruct (c w) as [a w1]. simpl in *. destruct (Hk a Hp w1 Hv) as (Hv' & Hq' & Hp').
  split; [done|]. split; [by etrans|done].
Qed.
Lemma job_weaken {A} (c : M W A) (p q : A -> Prop) : job c p -> (forall a, p a -> q a) -> job c q.
Proof. intros Hc Hi w Hw. destruct (Hc w Hw) as (? & ? & ?). auto. Qed.
Lemma job_redis {A} (f : R -> A * R) : job (on_redis f) (fun _ => True).
Proof. intros w Hw. unfold on_redis. destruct (f (w_redis w)). split; [done|]. split; [constructor|done]. Qed.
Lemma job_query {A} cx (q : db -> A) :
  job (on_db (pg_query cx q)) (fun r => forall a, r = Ok a -> exists d, db_vehicles d = vs /\ a = q d).
Proof.
  intros w Hw. unfold on_db. pose proof (pg_query_tables cx q (w_db w)) as Ht.
  destruct (pg_query cx q (w_db w)) as [r p'] eqn:E. simpl in *. rewrite Ht.
  split; [done|]. split; [constructor|]. intros a ->.
  apply pg_query_ok in E as [-> _]. eauto.
Qed.
Lemma job_run {A} cx (f : db -> option (A * db)) :
  (forall d a d', f d = Some (a, d') -> db_vehicles d' = db_vehicles d) ->
  job (on_db (pg_run cx f)) (fun _ => True).
Proof.
  intros Hf w Hw. unfold on_db. pose proof (pg_run_effect cx f (w_db w)) as Ht.
  destruct (pg_run cx f (w_db w)) as [r p']. simpl in *. split; [|split; [constructor|done]].
  destruct Ht as [->|[a Ha]]; [done|]. by rewrite (Hf _ _ _ Ha).
Qed.
Lemma job_hub f e : owns vs f e -> job (on_hub (broadcastEvent f e)) (fun _ => True).
Proof. intros Ho w Hw. split; [done|]. split; [|done]. apply rtc_once. by exists f, e. Qed.
Lemma job_forM {A} (f : A -> M W unit) l :
  (forall x, x ∈ l -> job (f x) (fun _ => True)) -> job (forM f l) (fun _ => True).
Proof.
  induction l as [|x l IH]; intros Hf; simpl; [by apply job_ret|].
  eapply job_bind; [apply Hf; by left|]. intros _ _. apply IH. intros y Hy. apply Hf. by right.
Qed.
End Logic.

(** Goes through a computation: its calls, its loops and the cases it distinguishes. *)
Ltac solve_job :=
  repeat (intros; lazymatch goal with
  | |- job _ (bindM (on_redis _) _) _ => eapply job_bind; [apply job_redis|]
  | |- job _ (bindM (on_db (pg_query _ _)) _) _ => eapply job_bind; [apply job_query|cbn beta]
  | |- job _ (bindM _ _) _ => apply (job_bind _ _ _ (fun _ => True))
  | |- job _ (forM _ _) _ => apply job_forM
  | |- job _ (match ?x with _ => _ end) _ => destruct x
  | |- job _ (retM _) _ => by apply job_ret
  | |- job _ (on_redis _) _ => apply job_redis
  | |- job _ (on_hub _) _ => apply job_hub
  | |- job _ (on_db (pg_run _ _)) _ => apply job_run
  end).

Section Ticks.
Context {R P : Type} `{Trig} `{RedisServer R} `{DatabaseLaws P}.
Notation W := (World R P).
Variable vs : list vehicle_row.

Lemma job_setOffline cx now v f k t :
  owns vs f (OfflineEvent v t) -> job (R:=R) (P:=P) vs (setOffline cx now v f k t) (fun _ => True).
Proof. intros Ho. unfold setOffline, get_or_empty, set_key. solve_job. exact Ho. Qed.
Lemma job_check cx now v f thr :
  (forall e, vehicle_of e = Some v -> owns vs f e) ->
  job (R:=R) (P:=P) vs (heartbeat_check cx now v f thr) (fun _ => True).
Proof.
  intros Ho. unfold heartbeat_check, setOffline, get_or_empty, set_key. solve_job; by apply Ho.
Qed.
Lemma job_heartbeat h cx now : job (R:=R) (P:=P) vs (heartbeat_tick h cx now) (fun _ => True).
Proof.
  unfold heartbeat_tick, loadFleetThresholds. solve_job. intros p Hin.
  match goal with Hr : forall l, Ok ?rows = Ok l -> _ |- _ => destruct (Hr rows eq_refl) as (d & Hd & ->) end.
  apply list_elem_of_fmap in Hin as (r & -> & Hin).
  apply list_elem_of_In, filter_In, proj1, list_elem_of_In in Hin.
  rewrite Hd in Hin. apply job_check. intros e He. by exists r.
Qed.
Lemma job_eta shuffle cx now : job (R:=R) (P:=P) vs (eta_tick shuffle cx now) (fun _ => True).
Proof. unfold eta_tick, computeAndStore. solve_job. Qed.

(** The vehicle and fleet of every stop of a trip come from the registry. *)
Lemma trip_stops_owned d tripID st :
  st ∈ trip_stops d tripID ->
  exists v, v ∈ db_vehicles d /\ vr_vehicle_id v = ts_vehicleID st /\ vr_fleet_id v = ts_fleetID st.
Proof.
  unfold trip_stops. rewrite merge_sort_Permutation. unfold joined_stops.
  rewrite list_elem_of_bind. intros (t & Hin & _).
  apply list_elem_of_bind in Hin as (v & Hin & Hv).
  apply list_elem_of_In, filter_In in Hv as [Hv Hid]. apply bool_decide_eq_true in Hid.
  apply list_elem_of_bind in Hin as (s & Hin & _).
  apply list_elem_of_bind in Hin as (x & ->%list_elem_of_singleton & _).
  exists v. split; [by apply list_elem_of_In|done].
Qed.
Lemma job_stops cx now : job (R:=R) (P:=P) vs (stop_tick cx now) (fun _ => True).
Proof.
  unfold stop_tick. solve_job. intros tripID _. unfold processTrip. solve_job.
  match goal with Hr : forall l, Ok ?rows = Ok l -> _ |- _ => destruct (Hr rows eq_refl) as (d & Hd & Hrows) end.
  intros st _. unfold process_stop, markStop, completeTrip. solve_job;
    try (unfold mark_stmt, complete_stmt; by intros; simplify_eq).
  destruct (trip_stops_owned d tripID t) as (v & Hin & Hv & Hf); [rewrite <- Hrows; by left|].
  exists v. rewrite <- Hd. split; [done|]. split; [simpl; by rewrite Hv|done].
Qed.

(** Each trip the deviation detector loads has the fleet the registry has its vehicle in. *)
Definition trip_owned (t : activeTrip) : Prop :=
  exists v, v ∈ vs /\ vr_vehicle_id v = at_vehicleID t /\ vr_fleet_id v = at_fleetID t.
Lemma deviation_trips_owned d : db_vehicles d = vs -> Forall trip_owned (deviation_trips d).
Proof.
  intros Hd. apply Forall_forall. unfold deviation_trips. intros t Hin.
  apply list_elem_of_bind in Hin as (tr & Hin & _).
  apply list_elem_of_bind in Hin as (v & Hin & Hv).
  apply list_elem_of_In, filter_In in Hv as [Hv Hid]. apply bool_decide_eq_true in Hid.
  apply list_elem_of_bind in Hin as (r & ->%list_elem_of_singleton & _).
  exists v. rewrite <- Hd. split; [by apply list_elem_of_In|done].
Qed.
Lemma job_load_stops cx ts :
  Forall trip_owned ts -> job (R:=R) (P:=P) vs (load_stops cx ts) (Forall trip_owned).
Proof.
  induction 1 as [|t ts Ht _ IH]; simpl; [by apply job_ret|].
  eapply job_bind; [apply job_query|]. intros stops _.
  eapply job_bind; [exact IH|]. intros rest Hrest. apply job_ret.
  destruct stops; [|done]. by constructor.
Qed.
Lemma insert_deviation_vehicles now v sev km d u d' :
  insert_deviation_stmt now v sev km d = Some (u, d') -> db_vehicles d' = db_vehicles d.
Proof.
  unfold insert_deviation_stmt. generalize (List.filter (fun r => bool_decide (vr_vehicle_id r = v)) (db_vehicles d)).
  intros l. revert u d'. induction l as [|r l IH] using rev_ind; intros u d'; simpl; [by intros [= _ ->]|].
  rewrite foldl_app. simpl. destruct (foldl _ _ l) as [[u1 d1]|] eqn:E; [|done]. simpl.
  destruct (_ && _); [|done]. intros [= _ <-]. simpl. by apply (IH u1 d1).
Qed.
Lemma job_deviation cx now : job (R:=R) (P:=P) vs (deviation_tick cx now) (fun _ => True).
Proof.
  unfold deviation_tick, loadActiveTrips.
  apply (job_bind _ _ _ (fun r => forall ts, r = Ok ts -> Forall trip_owned ts)).
  - eapply job_bind; [apply job_query|]. intros [ts|e] Hr; [|by apply job_ret].
    destruct (Hr ts eq_refl) as (d & Hd & ->).
    eapply job_bind; [by apply job_load_stops, deviation_trips_owned|].
    intros l Hl. apply job_ret. by intros ts [= <-].
  - intros [ts|e] Hts; [|by apply job_ret]. apply job_forM. intros t Hin.
    destruct (proj1 (Forall_forall _ _) (Hts ts eq_refl) t Hin) as (v & Hv & Hid & Hf).
    unfold checkTrip, fireAlert, autoResolve. solve_job;
      try (unfold auto_resolve_stmt; by intros; simplify_eq);
      [intros d u d'; apply insert_deviation_vehicles|].
    exists v. split; [done|]. split; [simpl; by rewrite Hid|done].
Qed.
End Ticks.

(** A tick of any of the four jobs. *)
Inductive job_tick {R P} `{Trig} `{RedisServer R} `{Database P} : M (World R P) unit -> Prop :=
| jt_heartbeat h cx now : job_tick (heartbeat_tick h cx now)
| jt_deviation cx now : job_tick (deviation_tick cx now)
| jt_stops cx now : job_tick (stop_tick cx now)
| jt_eta shuffle cx now : job_tick (eta_tick shuffle cx now).
Lemma tick_job {R P} `{Trig} `{RedisServer R} `{DatabaseLaws P} vs (c : M (World R P) unit) :
  job_tick c -> job vs c (fun _ => True).
Proof. intros []; [apply job_heartbeat|apply job_deviation|apply job_stops|apply job_eta]. Qed.

(** ** The queue is the hub's *)
Lemma queued_live {V} `{Validator V} vs q q' (l : live V) :
  rtc (queued_for vs) q q' -> h_broadcast (lv_hub l) = q ->
  exists l' new, rtc live_step l l' /\ h_broadcast (lv_hub l') = q' /\
    lv_jobs l' = lv_jobs l ++ new /\ Forall (fun p => owns vs p.1 p.2) new.
Proof.
  intros Hr. revert l. induction Hr as [q|q q1 q2 (f & e & Ho & ->) _ IH]; intros l Hq.
  - exists l, []. rewrite app_nil_r. split; [constructor|auto].
  - destruct (IH (job_broadcast f e l)) as (l' & new & Hl & Hq' & Hj & Hn); [simpl; by rewrite Hq|].
    simpl in Hj.
    exists l', ((if (length (broadcastEvent f e (h_broadcast (lv_hub l))) =? length (h_broadcast (lv_hub l)))%nat
                 then [] else [(f, e)]) ++ new).
    split; [by eapply rtc_l; [apply ls_job|]|]. split; [done|].
    destruct (_ =? _)%nat; simpl; [done|]. rewrite Hj, <- (assoc_L (++)). split; [done|].
    by constructor.
Qed.

(** C9. A tick of a job reaches the WebSockets of the right fleets only. Whatever fails
    in it, a tick of the heartbeat monitor, the deviation detector, the stop detector or
    the arrival estimator leaves the registry as it is, and the queue it leaves is one the
    hub reaches by broadcasting events, each of a vehicle and for the fleet the registry
    has that vehicle in; so after it every socket still shows its own fleet's events only,
    and every event of a job among them is of one of that fleet's vehicles. *)
Theorem job_tick_tenancy {V R P} `{Validator V} `{Trig} `{RedisServer R} `{DatabaseLaws P}
    (tick : M (World R P) unit) (w : World R P) (l : live V)
    (Htick : job_tick tick) (Hl : live_reachable l) (Hq : w_hub w = h_broadcast (lv_hub l)) :
  let vs := db_vehicles (tables (w_db w)) in
  db_vehicles (tables (w_db (tick w).2)) = vs /\
  exists l' new, live_reachable l' /\ h_broadcast (lv_hub l') = w_hub (tick w).2 /\
    lv_jobs l' = lv_jobs l ++ new /\ Forall (fun p => owns vs p.1 p.2) new /\
    forall k c, lv_conns l' !! k = Some c ->
      let f := cc_fleetID c in
      let all := fleet_log f (broadcasts (lv_hub l')) in
      (exists pre post, all = pre ++ texts (cc_frames c) ++ post) /\
      all ≡ₚ all_sent f (wd_subs (lv_wired l')) ++ job_events f (lv_jobs l) ++ job_events f new.
Proof.
  intros vs. destruct (tick_job vs tick Htick w eq_refl) as (Hv & Hr & _). split; [done|].
  rewrite Hq in Hr. destruct (queued_live vs _ _ l Hr eq_refl) as (l' & new & Hl' & Hq' & Hj & Hn).
  exists l', new. assert (Hr' : live_reachable l') by (unfold live_reachable in *; by etrans).
  split_and!; try done. intros k c Hc f all. split.
  { destruct (written_segment l' k c Hr' Hc) as (pre & post & E & _). unfold all, f, broadcasts.
    rewrite fleet_log_app, E. exists pre. eexists. by rewrite <- !(assoc_L (++)). }
  unfold all. rewrite (li_sources _ (live_reachable_inv l' Hr')), Hj. unfold job_events. by rewrite omap_app.
Qed.

(** ** Witness: a heartbeat finds two vehicles back, while a client of [fleet-a] is connected *)
#[local] Existing Instance demo_validator.
Lemma job_tick_tenancy_witness :
  let tick := heartbeat_tick (NewHeartbeatMonitor 10 60) Live (120 * Second) in
  map bm_fleetID (w_hub (tick demo_world).2) = ["fleet-a"; "fleet-b"]%string /\
  exists l' new, live_reachable l' /\ h_broadcast (lv_hub l') = w_hub (tick demo_world).2 /\
    lv_jobs l' = new /\ Forall (fun p => owns (db_vehicles demo_fleet_db) p.1 p.2) new.
Proof.
  intros tick. split; [vm_compute; reflexivity|].
  destruct (job_tick_tenancy (H0:=flat_trig) tick demo_world demo_registered
    (jt_heartbeat (H:=flat_trig) _ _ _) demo_registered_reachable eq_refl)
    as (_ & l' & new & Hl' & Hq & Hj & Hn & _).
  exists l', new. split; [exact Hl'|]. split; [exact Hq|]. split; [exact Hj|exact Hn].
Defined.
