(* ===== verification/Jobs.v ===== *)
(** * The loops around the jobs, and what the two [main] functions start

    Each job's [Run] makes a ticker, ticks once, and then ticks until its context is done
    ([serving/internal/jobs]: the four [Run] methods are the same but for the tick).
    [serving/main.go] and [ingestion/main.go] start the jobs, the dispatcher and the
    writers with the periods and sizes of the configuration; [time.NewTicker] panics on a
    period that is not positive, [make] on a negative size. *)
From S2P Require Import Prelude GoNum Strconv Json JsonParse Redis Domain Rfc3339 Config RedisStore Tables Dispatcher Writers.
From S2P Require Import Events Geo Heartbeat StopDetector Eta Deviation.
Local Open Scope Z_scope.
Local Open Scope fleet_scope.

(** ** [Run] *)

(** [time.NewTicker] accepts the period. *)
Definition ticker_ok (period : Z) : bool := 0 <? period.
Inductive job_event := JobTick (cx : context) (now : Time) | JobDone.
Section Run.
Context {W : Type} (tick : context -> Time -> M W unit).
Fixpoint job_loop (es : list job_event) : M W unit :=
  match es with
  | JobTick cx now :: es' => tick cx now >> job_loop es'
  | JobDone :: _ | [] => retM tt
  end.
(** [None]: the panic of [NewTicker]. *)
Definition job_Run (interval : Z) (cx : context) (now : Time) (es : list job_event)
  : option (M W unit) :=
  if ticker_ok interval then Some (tick cx now >> job_loop es) else None.
End Run.

(** The four jobs; but for the clients they hold, a monitor is its period and its default
    threshold, a detector or estimator its period. *)
Definition NewStopDetector (intervalSec : Z) : Z := intervalFromSeconds intervalSec.
Definition NewETAEstimator (intervalSec : Z) : Z := intervalFromSeconds intervalSec.
Definition NewDeviationDetector (intervalSec : Z) : Z := intervalFromSeconds intervalSec.
Section JobRuns.
Context {R P : Type} `{Trig} `{RedisServer R} `{Database P}.
Notation W := (World R P).
Definition HeartbeatMonitor_Run (h : HeartbeatMonitor) : context -> Time -> list job_event -> option (M W unit) :=
  job_Run (heartbeat_tick h) (hb_interval h).
Definition StopDetector_Run (interval : Z) : context -> Time -> list job_event -> option (M W unit) :=
  job_Run stop_tick interval.
Definition ETAEstimator_Run (shuffle : list (string * nextStop) -> list (string * nextStop))
    (interval : Z) : context -> Time -> list job_event -> option (M W unit) :=
  job_Run (eta_tick shuffle) interval.
Definition DeviationDetector_Run (interval : Z) : context -> Time -> list job_event -> option (M W unit) :=
  job_Run deviation_tick interval.
End JobRuns.

(** ** What [serving/main.go] starts *)
Record job_intervals := MkJobIntervals {
  ji_heartbeat : HeartbeatMonitor; ji_deviation : Z; ji_stops : Z; ji_eta : Z
}.
(** The ETA estimator shares the period of the stop detector. *)
Definition serving_jobs (cfg : Serving.Config) : job_intervals :=
  MkJobIntervals
    (NewHeartbeatMonitor (Serving.HeartbeatIntervalSeconds cfg) (Serving.StalenessThresholdSeconds cfg))
    (NewDeviationDetector (Serving.DeviationDetectorIntervalSeconds cfg))
    (NewStopDetector (Serving.StopDetectorIntervalSeconds cfg))
    (NewETAEstimator (Serving.StopDetectorIntervalSeconds cfg)).
Definition serving_start (cfg : Serving.Config) : option job_intervals :=
  let j := serving_jobs cfg in
  if ticker_ok (hb_interval (ji_heartbeat j)) && ticker_ok (ji_deviation j) &&
     ticker_ok (ji_stops j) && ticker_ok (ji_eta j) then Some j else None.

(** ** What [ingestion/main.go] starts *)
Definition ingestion_start (cfg : Ingestion.Config) : option (Dispatcher * list DBWriter) :=
  d ← NewDispatcher (Ingestion.DBChannelSize cfg) (Ingestion.StateChannelSize cfg)
        (Ingestion.AlertChannelSize cfg);
  let w := NewDBWriter (Ingestion.DBBatchSize cfg) (Ingestion.DBFlushIntervalMS cfg) in
  let ws := replicate (Z.to_nat (Ingestion.DBWriterWorkers cfg)) w in
  if forallb (fun w => ticker_ok (flush_period w)) ws then Some (d, ws) else None.

(** ** Starting up *)
Definition max_flush_ms : Z := 9223372036854.
Lemma ticker_interval s :
  s <= max_interval_seconds -> ticker_ok (intervalFromSeconds s) = true /\
    intervalFromSeconds s = Z.max 1 s * Second.
Proof.
  unfold max_interval_seconds, intervalFromSeconds, int_mul, ticker_ok, Second. intros Hs.
  rewrite wrap64_id; destruct (Z.ltb_spec s 1); unfold in_int64, int64_min, int64_max; lia.
Qed.
Lemma ticker_flush size ms :
  ms <= max_flush_ms -> ticker_ok (flush_period (NewDBWriter size ms)) = true /\
    flush_period (NewDBWriter size ms) = Z.max 1 ms * Millisecond.
Proof.
  unfold max_flush_ms, flush_period, NewDBWriter, int_mul, ticker_ok, Millisecond. intros Hs. cbn [flushMS].
  rewrite wrap64_id; destruct (Z.ltb_spec ms 1); unfold in_int64, int64_min, int64_max; lia.
Qed.

(** C31. Both services start within the range of their settings. Whatever the environment
    holds, malformed values included, the jobs of the serving service get the periods
    they are configured for, at least a second each, unless one is set above 9223372036
    seconds; and the ingestion service gets its queues and as many writers as configured,
    each with a batch of at least one and a period of at least a millisecond, unless the
    period is set above 9223372036854 ms or a queue's size is negative, on which it
    panics. *)
Theorem services_start env :
  let s := Serving.Load env in
  let i := Ingestion.Load env in
  (Forall (fun x => x <= max_interval_seconds) [Serving.HeartbeatIntervalSeconds s;
     Serving.DeviationDetectorIntervalSeconds s; Serving.StopDetectorIntervalSeconds s] ->
   exists j, serving_start s = Some j /\
     hb_interval (ji_heartbeat j) = Z.max 1 (Serving.HeartbeatIntervalSeconds s) * Second /\
     ji_deviation j = Z.max 1 (Serving.DeviationDetectorIntervalSeconds s) * Second /\
     ji_stops j = Z.max 1 (Serving.StopDetectorIntervalSeconds s) * Second /\ ji_eta j = ji_stops j) /\
  (Ingestion.DBFlushIntervalMS i <= max_flush_ms ->
   let sizes := [Ingestion.DBChannelSize i; Ingestion.StateChannelSize i; Ingestion.AlertChannelSize i] in
   (Exists (fun n => n < 0) sizes -> ingestion_start i = None) /\
   (Forall (fun n => 0 <= n) sizes -> exists d ws, ingestion_start i = Some (d, ws) /\
      length ws = Z.to_nat (Ingestion.DBWriterWorkers i) /\
      map (fun c => Z.of_nat (ch_cap c)) [DBChan d; StateChan d; AlertChan d] = sizes /\
      Forall (fun w => 1 <= batchSize w /\
        flush_period w = Z.max 1 (Ingestion.DBFlushIntervalMS i) * Millisecond) ws)).
Proof.
  intros s0 i0. generalize s0, i0. clear s0 i0 env. intros s i. split.
  - intros Hs. rewrite !Forall_cons in Hs. destruct Hs as (H1 & H2 & H3 & _).
    apply ticker_interval in H1 as [O1 E1], H2 as [O2 E2], H3 as [O3 E3].
    exists (serving_jobs s). unfold serving_start, serving_jobs, NewDeviationDetector, NewStopDetector, NewETAEstimator.
    simpl. by rewrite O1, O2, O3.
  - intros Hms sizes. destruct (ticker_flush (Ingestion.DBBatchSize i) _ Hms) as [Hok Hp].
    unfold sizes, ingestion_start, NewDispatcher. split.
    + intros Hneg. rewrite !Exists_cons, Exists_nil in Hneg.
      destruct (Z.leb_spec 0 (Ingestion.DBChannelSize i)), (Z.leb_spec 0 (Ingestion.StateChannelSize i)),
        (Z.leb_spec 0 (Ingestion.AlertChannelSize i)); simpl; first [done|lia].
    + rewrite !Forall_cons. intros (H1 & H2 & H3 & _).
      rewrite !(proj2 (Z.leb_le 0 _)) by done. simpl.
      assert (Hall : forallb (fun w => ticker_ok (flush_period w))
        (replicate (Z.to_nat (Ingestion.DBWriterWorkers i))
           (NewDBWriter (Ingestion.DBBatchSize i) (Ingestion.DBFlushIntervalMS i))) = true).
      { apply forallb_forall. intros w Hw%list_elem_of_In%elem_of_replicate. destruct Hw as [-> _]. done. }
      rewrite Hall. eexists _, _. split; [done|]. split; [apply length_replicate|].
      simpl. split; [by rewrite !Z2Nat.id by done|]. apply Forall_replicate. split; [|done].
      simpl. destruct (Z.ltb_spec (Ingestion.DBBatchSize i) 1); lia.
Qed.

(** ** The life of the heartbeat monitor *)

(** What a message in the hub's queue says, to whoever reads its text, of the vehicle [v]
    being online: its type, when it is one of the two and names the vehicle. *)
Definition presence (v : string) (m : broadcastMsg) : option string :=
  match Unmarshal (bm_data m) with
  | Some (JObj fs) =>
      match jfield "type" fs, jfield "payload" fs with
      | Some (JStr t), Some (JObj p) =>
          match jfield "vehicle_id" p with
          | Some (JStr v') =>
              if bool_decide (v' = v) && bool_decide (t ∈ ["vehicle.online"; "vehicle.offline"]%string)
              then Some t else None
          | _ => None
          end
      | _, _ => None
      end
  | _ => None
  end.

(** Between two ticks anything may happen to Redis, the database and the queue but to the
    recorded statuses, which only the monitor writes; when the next tick begins both
    services are up, the queue has room for an event of each active vehicle, and the time
    a vehicle was last heard of, as recorded, is in a year of four digits. *)
Record quiet (now now' : Time) (w w' : World MemRedis MemDB) : Prop := {
  quiet_up : up w';
  quiet_keys : NoDup (active_vehicles (tables (w_db w'))).*1;
  quiet_status : forall v, status now' v (mem (w_redis w')) = status now v (mem (w_redis w));
  quiet_room : (length (w_hub w') + length (active_vehicles (tables (w_db w'))) <= broadcast_cap)%nat;
  quiet_times : forall v s n, received_at now' v (mem (w_redis w')) = Some s -> ParseInt s = Some n ->
    is_Some (format_rfc3339 (UTC (time_Unix n)))
}.
(** A run of the monitor: the instant and the world after its last tick, with what its
    ticks have put in the hub's queue about [v] being online. *)
Inductive monitored (h : HeartbeatMonitor) (v : string)
  : Time -> World MemRedis MemDB -> list string -> Prop :=
| monitored_start now w : monitored h v now w []
| monitored_tick now now' w w1 es :
    monitored h v now w es -> quiet now now' w w1 ->
    let w2 := (heartbeat_tick h Live now' w1).2 in
    monitored h v now' w2 (es ++ omap (presence v) (drop (length (w_hub w1)) (w_hub w2))).

(** *** What a tick puts in the queue *)
Definition event_message (fleetID : string) (e : envelope) : list broadcastMsg :=
  match marshal_event e with Some data => [MkBroadcastMsg fleetID data] | None => [] end.
Lemma announce_room f e q :
  (length q < broadcast_cap)%nat ->
  announce f e q = q ++ match e with Some e => event_message f e | None => [] end.
Proof.
  intros Hq. unfold announce, event_message, broadcastEvent. destruct e as [e|]; [|by rewrite app_nil_r].
  destruct (marshal_event e); [|by rewrite app_nil_r]. unfold chan_try_send.
  rewrite (proj2 (Nat.ltb_lt _ _) Hq). done.
Qed.
Lemma announces_room {A} (fl : A -> string) (g : A -> option envelope) l q :
  (length q + length l <= broadcast_cap)%nat ->
  foldl (fun q x => announce (fl x) (g x) q) q l =
  q ++ (x ← l; match g x with Some e => event_message (fl x) e | None => [] end).
Proof.
  revert q. induction l as [|x l IH]; intros q Hq; [by rewrite app_nil_r|].
  cbn [foldl length] in *. rewrite announce_room by lia. rewrite IH.
  - cbn [mbind list_bind]. by rewrite app_assoc.
  - rewrite length_app. destruct (g x) as [e|]; simpl; [|lia].
    unfold event_message. destruct (marshal_event e); simpl; lia.
Qed.

Lemma jfield_here k v fs : jfield k ((k, v) :: fs) = Some v.
Proof. simpl. by rewrite bool_decide_true. Qed.
Lemma jfield_there k k' v fs : k <> k' -> jfield k ((k', v) :: fs) = jfield k fs.
Proof. intros Hne. simpl. by rewrite bool_decide_false. Qed.
(** The text of an event read back. *)
Lemma presence_text v f t v' rest :
  t = "vehicle.online"%string \/ t = "vehicle.offline"%string ->
  Forall (fun p => exists s, p.2 = JStr s) rest ->
  presence v (MkBroadcastMsg f (Marshal (JObj [("type", JStr t);
    ("payload", JObj (("vehicle_id", JStr v') :: rest))]%string))) =
  if bool_decide (v' = v) then Some t else None.
Proof.
  intros Ht Hrest. unfold presence. cbn [bm_data]. rewrite Unmarshal_Marshal.
  - rewrite jfield_here, jfield_there, jfield_here, jfield_here by done.
    rewrite (bool_decide_true (t ∈ _)) by (destruct Ht as [->| ->]; [by left|by right; left]).
    by rewrite andb_true_r.
  - unfold maxNestingDepth. replace (Z.to_nat 10000) with (S (S (Z.to_nat 9998))) by lia.
    constructor. repeat constructor. eapply Forall_impl; [exact Hrest|].
    intros p [x Hx]. rewrite Hx. constructor.
Qed.
Lemma online_message f v :
  event_message f (OnlineEvent v) = [MkBroadcastMsg f (Marshal (JObj [("type", JStr "vehicle.online");
    ("payload", JObj [("vehicle_id", JStr v)])]%string))].
Proof. reflexivity. Qed.
Lemma offline_message f v t text :
  format_rfc3339 (UTC t) = Some text ->
  event_message f (OfflineEvent v t) = [MkBroadcastMsg f (Marshal (JObj [("type", JStr "vehicle.offline");
    ("payload", JObj [("vehicle_id", JStr v); ("last_seen_at", JStr text)])]%string))].
Proof. intros Ht. unfold event_message, marshal_event, payload_json, mtime. by rewrite Ht. Qed.

(** What a verdict that changes the recorded status [s] makes the hub tell of the vehicle. *)
Definition told (vd : verdict) (s : string) : list string :=
  match vd with
  | Unknown => []
  | Fresh => if bool_decide (s = "online"%string) then [] else ["vehicle.online"%string]
  | Stale _ => if bool_decide (s = "offline"%string) then [] else ["vehicle.offline"%string]
  end.
Lemma transition_told f v v' vd s :
  (forall t, vd = Stale t -> is_Some (format_rfc3339 (UTC t))) ->
  omap (presence v) (match transition v' vd s with Some e => event_message f e | None => [] end) =
  if bool_decide (v' = v) then told vd s else [].
Proof.
  intros Ht. destruct vd as [| |t]; cbn [transition told]; [by case_bool_decide| |].
  - destruct (bool_decide (s = "online"%string)); [by case_bool_decide|].
    rewrite online_message. cbn [omap list_omap].
    rewrite presence_text by (by left || constructor). by case_bool_decide.
  - destruct (bool_decide (s = "offline"%string)); [by case_bool_decide|].
    destruct (Ht t eq_refl) as [text Htext]. rewrite (offline_message f v' t text Htext).
    cbn [omap list_omap]. rewrite presence_text; [by case_bool_decide|by right|].
    apply Forall_singleton. by exists text.
Qed.
Lemma omap_bind {A B C} (p : B -> option C) (f : A -> list B) (l : list A) :
  omap p (x ← l; f x) = x ← l; omap p (f x).
Proof. induction l as [|x l IH]; [done|]. cbn [mbind list_bind]. by rewrite omap_app, IH. Qed.
Lemma bind_once {A} (key : A -> string) (f : A -> list string) (v : string) (l : list A) :
  NoDup (map key l) ->
  (x ← l; if bool_decide (key x = v) then f x else []) =
  match List.find (fun x => bool_decide (key x = v)) l with Some x => f x | None => [] end.
Proof.
  induction l as [|x l IH]; intros Hnd; [done|]. simpl in Hnd. apply NoDup_cons in Hnd as [Hn Hnd].
  cbn [mbind list_bind List.find]. rewrite IH by done. case_bool_decide as Hx; [|done].
  destruct (List.find _ l) as [y|] eqn:E; [|by rewrite app_nil_r].
  apply find_some in E as [Hy Hk%bool_decide_eq_true]. destruct Hn. rewrite Hx, <- Hk.
  by apply (list_elem_of_fmap_2 key), list_elem_of_In.
Qed.

(** A tick and the vehicle [v]: what the hub is told of it is its change of status. *)
Lemma tick_of_vehicle h now v (w : World MemRedis MemDB) :
  up w -> NoDup (active_vehicles (tables (w_db w))).*1 ->
  (length (w_hub w) + length (active_vehicles (tables (w_db w))) <= broadcast_cap)%nat ->
  (forall v s n, received_at now v (mem (w_redis w)) = Some s -> ParseInt s = Some n ->
     is_Some (format_rfc3339 (UTC (time_Unix n)))) ->
  let w' := (heartbeat_tick h Live now w).2 in
  let s := status now v (mem (w_redis w)) in
  let s' := status now v (mem (w_redis w')) in
  (omap (presence v) (drop (length (w_hub w)) (w_hub w')) = [] /\ s' = s) \/
  (omap (presence v) (drop (length (w_hub w)) (w_hub w')) = [("vehicle." ++ s')%string] /\ s <> s' /\
   s' ∈ ["online"; "offline"]%string).
Proof.
  destruct w as [[st os] [d ds] q]. intros [Ho Hd] Hnd Hroom Htime. simpl in Ho, Hd. subst os ds.
  set (thr f := default (defaultThreshold h) (thresholds_of d !! f)).
  destruct (heartbeat_loop now thr (active_vehicles d)
    (MkWorld (MkMemRedis st []) (MkMemDB d []) q) Hnd (conj eq_refl eq_refl)) as (H1 & H2 & H3).
  change (heartbeat_tick h Live now (MkWorld (MkMemRedis st []) (MkMemDB d []) q)) with
    (forM (fun p => heartbeat_check Live now p.1 p.2 (thr p.2)) (active_vehicles d)
       (MkWorld (MkMemRedis st []) (MkMemDB d []) q)).
  cbn [tables MemDB_database mem_db w_db w_redis w_hub mem] in *. cbv zeta.
  rewrite H3, announces_room, drop_app_length by done. rewrite omap_bind.
  assert (Hstale : forall p t, verdict_of now (thr p.2) p.1 st = Stale t ->
    is_Some (format_rfc3339 (UTC t))).
  { intros p t Hv. unfold verdict_of in Hv.
    pose proof (Htime p.1) as Hp. unfold received_at in Hp.
    destruct (live now (state_key p.1) st) as [[s|hs]|]; [done| |injection Hv as <-; by eexists].
    destruct (hs !! "received_at"%string) as [s|] eqn:Es; [|injection Hv as <-; by eexists].
    destruct (ParseInt s) as [n|] eqn:En; [|done].
    destruct (_ <? _); [|done]. injection Hv as <-. by eapply Hp. }
  rewrite (list_bind_ext _ (fun p => if bool_decide (p.1 = v)
    then told (verdict_of now (thr p.2) p.1 st) (status now p.1 st) else [])
    _ (active_vehicles d)); [|intros p; apply transition_told; intros t; apply Hstale|done].
  rewrite bind_once by done.
  destruct (List.find _ _) as [[v' f]|] eqn:E; simpl.
  - apply find_some in E as [Hin Hv]. apply list_elem_of_In in Hin.
    apply bool_decide_eq_true in Hv. simpl in Hv. subst v'.
    rewrite (H1 v f Hin). destruct (verdict_of _ _ _ _) as [| |t]; simpl; [by left|..];
      case_bool_decide as Hs; [left|right|left|right]; rewrite ?Hs; split_and!; try done.
    + by left.
    + by right; left.
  - left. split; [done|]. apply H2. intros ([v' f] & Hv & Hin)%list_elem_of_fmap. simpl in Hv. subst v'.
    apply list_elem_of_In, (find_none _ _ E) in Hin. by apply bool_decide_eq_false in Hin.
Qed.


(** ** Witnesses *)
Lemma services_start_witness :
  let s := Serving.Load (fun _ => ""%string) in
  Forall (fun x => x <= max_interval_seconds) [Serving.HeartbeatIntervalSeconds s;
     Serving.DeviationDetectorIntervalSeconds s; Serving.StopDetectorIntervalSeconds s] /\
  exists j, serving_start s = Some j /\
     hb_interval (ji_heartbeat j) = Z.max 1 (Serving.HeartbeatIntervalSeconds s) * Second /\
     ji_deviation j = Z.max 1 (Serving.DeviationDetectorIntervalSeconds s) * Second /\
     ji_stops j = Z.max 1 (Serving.StopDetectorIntervalSeconds s) * Second /\ ji_eta j = ji_stops j.
Proof.
  assert (H : Forall (fun x => x <= max_interval_seconds)
    [Serving.HeartbeatIntervalSeconds (Serving.Load (fun _ => ""%string));
     Serving.DeviationDetectorIntervalSeconds (Serving.Load (fun _ => ""%string));
     Serving.StopDetectorIntervalSeconds (Serving.Load (fun _ => ""%string))])
    by (apply (bool_decide_unpack _); vm_compute; reflexivity).
  exact (conj H (proj1 (services_start (fun _ => ""%string)) H)).
Defined.

(** Without expiring keys, nothing needs to happen between two ticks. *)
Definition time_readable (x : rval * option Z) : bool :=
  match x.1 with
  | RHash h =>
      match (s ← h !! "received_at"%string; ParseInt s) with
      | Some n => match format_rfc3339 (UTC (time_Unix n)) with Some _ => true | None => false end
      | None => true
      end
  | RStr _ => true
  end.
Lemma quiet_same now now' (w : World MemRedis MemDB) :
  up w -> NoDup (active_vehicles (tables (w_db w))).*1 ->
  (length (w_hub w) + length (active_vehicles (tables (w_db w))) <= broadcast_cap)%nat ->
  map_Forall (fun _ x => x.2 = None /\ time_readable x = true) (rs_kv (mem (w_redis w))) ->
  quiet now now' w w.
Proof.
  intros Hup Hnd Hroom Hx. split; [done|done| |done|].
  - intros v. unfold status, live.
    destruct (rs_kv (mem (w_redis w)) !! online_key v) as [[x e]|] eqn:E; [|done].
    apply Hx in E as [E _]. simpl in E. by subst e.
  - intros v s n. unfold received_at, live.
    destruct (rs_kv (mem (w_redis w)) !! state_key v) as [[x e]|] eqn:E; [|done].
    apply Hx in E as [E Ht]. simpl in E. subst e. unfold time_readable in Ht. simpl in Ht.
    destruct x as [|hs]; [done|]. intros Hs Hn. rewrite Hs in Ht. cbn [mbind option_bind] in Ht.
    rewrite Hn in Ht. destruct (format_rfc3339 _); [by eexists|done].
Qed.
