(* ===== verification/Helpers.v ===== *)
(** * [serving/internal/handler/helpers.go] and what the handlers share

    The world of a handler is the one of the jobs. A handler's queries run one after
    the other on the same tables. *)
From Stdlib Require Import SpecFloat Ascii.
From S2P Require Import Prelude GoNum Strconv Json Redis Domain Rfc3339 RedisStore Auth Http Tables.
From S2P Require Import Events Geo Eta.
Local Open Scope Z_scope.
Local Open Scope fleet_scope.

Definition writeJSON {W} (status : Z) (v : json) : M W response := retM (encode_body status v).
Definition write_error {W} (status : Z) (msg : string) : M W response :=
  writeJSON status (json_map [("error"%string, JStr msg)]).

(** [parsePagination]: the page and the limit. *)
Definition parsePagination (pageStr limitStr : string) : Z * Z :=
  (match Atoi pageStr with Some n => if 0 <? n then n else 1 | None => 1 end,
   match Atoi limitStr with Some n => if (0 <? n) && (n <=? 100) then n else 50 | None => 50 end).
Definition page_offset (page limit : Z) : Z := int_mul (int_sub page 1) limit.

(** [parseBool] and [parseFloat] on a value of an HMGET. *)
Definition parseBool (v : option string) : bool :=
  match v with
  | None => false
  | Some s => bool_decide (s = "1"%string) || bool_decide (s = "true"%string)
  end.
Definition parseFloat (v : option string) : float64 :=
  match v with None => f_zero | Some s => Sscanf_f s end.
(** [parseMapFloat] and [parseMapBool] on the map of an HGETALL, in which a missing
    field reads as the empty string. *)
Definition map_get (m : gmap string string) (key : string) : string := default ""%string (m !! key).
Definition parseMapFloat (m : gmap string string) (key : string) : float64 :=
  (ParseFloat (map_get m key)).1.
Definition parseMapBool (m : gmap string string) (key : string) : bool :=
  let v := map_get m key in
  bool_decide (v = "1"%string) || bool_decide (v = "true"%string).

(** [LIMIT l OFFSET o]: a negative offset is an error of the server. *)
Definition limit_offset {A} (limit offset : Z) (l : list A) : option (list A) :=
  if offset <? 0 then None
  else Some (firstn (Z.to_nat limit) (skipn (Z.to_nat offset) l)).

(** [ORDER BY]. Rows that tie come in whatever order the query's plan gives them, which
    another limit or offset may change: each query ranks the rows it reads in its own
    way, [ties], before they are sorted. *)
Definition rank_le {A} (ties : nat -> nat) (a b : nat * A) : Prop := (ties a.1 <= ties b.1)%nat.
#[export] Instance rank_le_dec {A} ties : RelDecision (@rank_le A ties).
Proof. intros a b. unfold rank_le. apply _. Defined.
Definition rearrange {A} (ties : nat -> nat) (l : list A) : list A :=
  map snd (merge_sort (rank_le ties) (zip (seq 0 (length l)) l)).
Definition order_by {A} (R : relation A) `{!RelDecision R} (ties : nat -> nat) (l : list A)
  : list A := merge_sort R (rearrange ties l).

Definition pagination_json (p : PaginationMeta) : json := JObj [
  ("page", jint (pm_Page p)); ("limit", jint (pm_Limit p)); ("total", jint (pm_Total p));
  ("pages", jint (pm_Pages p))]%string.

(** The [k]th page of a listing, the first being page 1. *)
Definition page_of {A} (limit : Z) (l : list A) (k : nat) : list A :=
  default [] (limit_offset limit (page_offset (Z.of_nat k) limit) l).

(** A query that may fail on the server. *)
Definition pg_try {P A} `{Database P} (cx : context) (q : db -> option A) (p : P) : res A * P :=
  pg_run cx (fun d => a ← q d; Some (a, d)) p.

(** [QueryRow(...).Scan(...)] whose error, also that of having no row, is only used to
    leave something out. [ok] tells whether the server accepts the text parameters. *)
Definition query_opt {R P A} `{Database P} (cx : context) (ok : bool) (q : db -> option A)
  : M (World R P) (option A) :=
  let! r := on_db (pg_try cx (fun d => if ok then q d else None)) in
  retM (match r with Ok a => Some a | Err _ => None end).

(** A field with [omitempty]. *)
Definition opt_field (k : string) (o : option json) : list (string * json) :=
  match o with None => [] | Some v => [(k, v)] end.

(** ** Lemmas *)
Lemma parsePagination_range pageStr limitStr :
  let '(page, limit) := parsePagination pageStr limitStr in
  1 <= page <= int64_max /\ 1 <= limit <= 100.
Proof.
  unfold parsePagination, Atoi. split.
  - destruct (ParseInt pageStr) as [n|] eqn:E; [|unfold int64_max; lia].
    apply ParseInt_range in E. unfold in_int64 in E.
    destruct (Z.ltb_spec 0 n); unfold int64_max in *; lia.
  - destruct (ParseInt limitStr) as [n|]; [|lia].
    destruct (Z.ltb_spec 0 n), (Z.leb_spec n 100); simpl; lia.
Qed.

Lemma page_offset_exact page limit :
  1 <= page -> 1 <= limit <= 100 -> (page - 1) * limit <= int64_max ->
  page_offset page limit = (page - 1) * limit.
Proof.
  intros Hp Hl Hb. unfold page_offset, int_mul, int_sub, int64_max in *.
  rewrite (wrap64_id (page - 1)) by (unfold in_int64, int64_min, int64_max; nia).
  apply wrap64_id. unfold in_int64, int64_min, int64_max. nia.
Qed.

(** Consecutive pages of [m] make up the list. *)
Lemma pages_concat {A} (m n : nat) (l : list A) :
  concat (map (fun k => firstn m (skipn (k * m) l)) (seq 0 n)) = firstn (n * m) l.
Proof.
  induction n as [|n IH]; [done|].
  rewrite seq_S, map_app, concat_app, IH. simpl. rewrite app_nil_r.
  rewrite (Nat.add_comm m (n * m)). apply take_take_drop.
Qed.

(** How many pages are announced, against the length of the listing. *)
Lemma pages_bound limit (len : nat) :
  1 <= limit <= 100 -> Z.of_nat len + limit <= int64_max ->
  let n := Z.to_nat (pm_Pages (NewPagination 1 limit (Z.of_nat len))) in
  (n = 0 /\ len = 0)%nat \/
  (Z.of_nat n * limit < int64_max /\ Z.of_nat len <= Z.of_nat n * limit).
Proof.
  intros Hl Hmax n. unfold n.
  pose proof (NewPagination_pages 1 limit (Z.of_nat len)) as Hp. cbv zeta in Hp.
  specialize (Hp ltac:(lia) ltac:(lia) ltac:(lia)).
  set (pages := pm_Pages _) in *. unfold int64_max in *. destruct Hp as [Hp|[H1 H2]].
  - right. assert (0 <= pages) by nia. rewrite Z2Nat.id by done. nia.
  - left. lia.
Qed.

Lemma page_of_slice {A} limit (l : list A) k :
  1 <= limit <= 100 -> (1 <= k)%nat -> Z.of_nat k * limit <= int64_max ->
  page_of limit l k = firstn (Z.to_nat limit) (skipn ((k - 1) * Z.to_nat limit) l).
Proof.
  intros Hl Hk Hb. unfold page_of. rewrite page_offset_exact by (unfold int64_max in *; nia). unfold limit_offset.
  rewrite (proj2 (Z.ltb_ge _ 0)) by nia. simpl. f_equal. f_equal.
  rewrite Z2Nat.inj_mul by lia. f_equal. lia.
Qed.

(** The announced pages of a listing, in order, are the listing; none is longer than the
    limit. *)
Lemma pages_cover {A} limit (l : list A) :
  1 <= limit <= 100 -> Z.of_nat (length l) + limit <= int64_max ->
  let pages := seq 1 (Z.to_nat (pm_Pages (NewPagination 1 limit (Z.of_nat (length l))))) in
  Forall (fun k => Z.of_nat (length (page_of limit l k)) <= limit) pages /\
  concat (map (page_of limit l) pages) = l.
Proof.
  intros Hl Hmax. pose proof (pages_bound limit (length l) Hl Hmax) as Hn.
  cbv zeta in *. set (n := Z.to_nat _) in *.
  assert (Hrow : forall k, k ∈ seq 1 n -> page_of limit l k =
            firstn (Z.to_nat limit) (skipn ((k - 1) * Z.to_nat limit) l)).
  { intros k [Hk1 Hk2]%elem_of_seq. apply page_of_slice; [done|done|].
    destruct Hn as [[Hn0 _]|[Hn1 _]]; [lia|nia]. }
  split.
  - apply Forall_forall. intros k Hk. rewrite Hrow by done. rewrite length_take. lia.
  - rewrite (map_ext_in _ (fun k => firstn (Z.to_nat limit) (skipn ((k - 1) * Z.to_nat limit) l))).
    2:{ intros k Hk%list_elem_of_In. by apply Hrow. }
    rewrite <- seq_shift, map_map.
    rewrite (map_ext _ (fun k => firstn (Z.to_nat limit) (skipn (k * Z.to_nat limit) l)))
      by (intros k; by rewrite Nat.sub_succ, Nat.sub_0_r).
    rewrite pages_concat. apply firstn_all2. destruct Hn as [[Hn0 Hq]|[_ Hn2]]; nia.
Qed.

(** Whatever the ranking, the rows are the rows, sorted. *)
Lemma rearrange_perm {A} ties (l : list A) : rearrange ties l ≡ₚ l.
Proof.
  unfold rearrange. rewrite (merge_sort_Permutation (rank_le ties)).
  change (map snd) with (fmap (M:=list) (@snd nat A)). rewrite snd_zip; [done|]. by rewrite length_seq.
Qed.
Lemma order_by_perm {A} (R : relation A) `{!RelDecision R} ties l : order_by R ties l ≡ₚ l.
Proof. unfold order_by. rewrite (merge_sort_Permutation R). apply rearrange_perm. Qed.
Lemma order_by_sorted {A} (R : relation A) `{!RelDecision R, !Transitive R, !Total R} ties l :
  StronglySorted R (order_by R ties l).
Proof. apply StronglySorted_merge_sort; apply _. Qed.

Lemma StronglySorted_map {A B} (R : relation A) (S : relation B) (f : A -> B) l :
  (forall a b, R a b -> S (f a) (f b)) -> StronglySorted R l -> StronglySorted S (map f l).
Proof.
  intros Hf. induction 1 as [|a l Hl IH Ha]; simpl; constructor; [done|].
  apply Forall_map. eapply Forall_impl; [exact Ha|]. intros b. apply Hf.
Qed.
(** With distinct keys the keys tell the rows apart. *)
Lemma perm_by_key {A K} (key : A -> K) (l l' : list A) :
  l ≡ₚ l' -> map key l = map key l' -> NoDup (map key l) -> l = l'.
Proof.
  intros Hp Hk Hnd.
  assert (Hinj' : forall x y, x ∈ l -> y ∈ l' -> key x = key y -> x = y)
    by (intros x y Hx Hy; apply (NoDup_map_inj key l); [done|done|by rewrite Hp]).
  clear Hp Hnd. revert l' Hk Hinj'. induction l as [|a l IH]; intros [|b l'] Hk Hinj; try done.
  injection Hk as Hab Hk. f_equal; [apply Hinj; [by left|by left|done]|].
  apply IH; [done|]. intros x y Hx Hy. apply Hinj; by right.
Qed.

Lemma parsePagination_print k limit :
  1 <= k <= int64_max -> 1 <= limit <= 100 ->
  parsePagination (FormatInt k) (FormatInt limit) = (k, limit).
Proof.
  intros Hk Hl. unfold parsePagination, Atoi.
  rewrite !ParseInt_FormatInt by (unfold in_int64, int64_min, int64_max in *; lia).
  rewrite (proj2 (Z.ltb_lt 0 k)), (proj2 (Z.ltb_lt 0 limit)), (proj2 (Z.leb_le limit 100)) by lia. done.
Qed.
Lemma NewPagination_ceil page limit total :
  1 <= limit -> 0 <= total -> total + limit <= int64_max ->
  NewPagination page limit total = MkPaginationMeta page limit total ((total + limit - 1) / limit).
Proof.
  intros Hl Ht Hb. unfold NewPagination, int_sub, int_add, int64_max in *.
  rewrite (proj2 (Z.ltb_lt 0 limit)) by lia.
  rewrite (wrap64_id (total + limit)) by (unfold in_int64, int64_min, int64_max; lia).
  rewrite wrap64_id by (unfold in_int64, int64_min, int64_max; lia).
  by rewrite Z.quot_div_nonneg by lia.
Qed.

(** ** Pages of a listing whose order has ties

    Each page is cut from the order its own query gives. The sort keys, page after page,
    are those of the listing; the rows are too when no two rows have the same key. *)
Section Pages.
Context {A K : Type} (R : relation A) (S : relation K) (key : A -> K).
Context `{!RelDecision R, !Transitive R, !Total R, !AntiSymm eq S}.
Hypothesis key_order : forall a b, R a b -> S (key a) (key b).

Lemma order_by_keys ties ties' (l : list A) :
  map key (order_by R ties l) = map key (order_by R ties' l).
Proof.
  apply (StronglySorted_unique S).
  - apply (StronglySorted_map R); [done|]. by apply order_by_sorted.
  - apply (StronglySorted_map R); [done|]. by apply order_by_sorted.
  - by rewrite !order_by_perm.
Qed.
Lemma order_by_distinct ties ties' (l : list A) :
  NoDup (map key l) -> order_by R ties l = order_by R ties' l.
Proof.
  intros Hnd. apply (perm_by_key key); [by rewrite !order_by_perm|apply order_by_keys|].
  by rewrite order_by_perm.
Qed.

Definition page_slice (limit : Z) (l : list A) (k : nat) : list A :=
  firstn (Z.to_nat limit) (skipn ((k - 1) * Z.to_nat limit) l).

Lemma pages_any_order limit (ties : nat -> nat -> nat) (l : list A) :
  1 <= limit <= 100 -> Z.of_nat (length l) + limit <= int64_max ->
  let n := Z.to_nat ((Z.of_nat (length l) + limit - 1) / limit) in
  let rows k := page_slice limit (order_by R (ties k) l) k in
  (forall k, k ∈ seq 1 n -> 1 <= Z.of_nat k /\ Z.of_nat k * limit <= int64_max) /\
  map key (concat (map rows (seq 1 n))) = map key (order_by R (ties O) l) /\
  (NoDup (map key l) -> concat (map rows (seq 1 n)) = order_by R (ties O) l).
Proof.
  intros Hl Hmax n rows.
  pose proof (pages_bound limit (length l) Hl Hmax) as Hb. cbv zeta in Hb.
  rewrite NewPagination_ceil in Hb by lia. cbn [pm_Pages] in Hb. fold n in Hb.
  assert (Hcover : forall (B : Type) (m : list B), length m = length l ->
    concat (map (fun k => firstn (Z.to_nat limit) (skipn ((k - 1) * Z.to_nat limit) m)) (seq 1 n)) = m).
  { intros B m Hm. rewrite <- seq_shift, map_map.
    rewrite (map_ext _ (fun k => firstn (Z.to_nat limit) (skipn (k * Z.to_nat limit) m)))
      by (intros k; by rewrite Nat.sub_succ, Nat.sub_0_r).
    rewrite pages_concat. apply firstn_all2. rewrite Hm. destruct Hb as [[Hn0 Hq]|[_ Hn2]]; nia. }
  split; [|split].
  - intros k [Hk1 Hk2]%elem_of_seq. destruct Hb as [[Hn0 _]|[Hn1 _]]; [lia|nia].
  - rewrite concat_map, map_map.
    rewrite (map_ext _ (fun k => firstn (Z.to_nat limit) (skipn ((k - 1) * Z.to_nat limit)
                                   (map key (order_by R (ties O) l))))).
    + apply Hcover. rewrite length_map. apply Permutation_length, order_by_perm.
    + intros k. unfold rows, page_slice.
      by rewrite (order_by_keys (ties O) (ties k)), <- firstn_map, <- skipn_map.
  - intros Hnd. unfold rows.
    rewrite (map_ext _ (fun k => page_slice limit (order_by R (ties O) l) k))
      by (intros k; by rewrite (order_by_distinct (ties k) (ties O) l Hnd)).
    unfold page_slice. apply Hcover. apply Permutation_length, order_by_perm.
Qed.
End Pages.

(** A listing is the filtered table, sorted. *)
Lemma listing_spec {A} (R : relation A) `{!RelDecision R, !Transitive R, !Total R} p l :
  StronglySorted R (merge_sort R (List.filter p l)) /\
  (forall a, a ∈ merge_sort R (List.filter p l) <-> a ∈ l /\ p a = true) /\
  (length (merge_sort R (List.filter p l)) <= length l)%nat.
Proof.
  split_and!.
  - apply StronglySorted_merge_sort; apply _.
  - intros a. rewrite (merge_sort_Permutation R).
    by rewrite list_elem_of_In, List.filter_In, <- list_elem_of_In.
  - rewrite (Permutation_length (merge_sort_Permutation R _)). apply count_if_le.
Qed.

(** A limit above 100 is not cut to 100: the default of 50 is used. *)
Example limit_not_capped : parsePagination "1" "101" = (1, 50).
Proof. reflexivity. Qed.

(** A page so large that the offset overflows makes it negative. *)
Example page_offset_overflow :
  let '(page, limit) := parsePagination "200000000000000000" "50" in page_offset page limit < 0.
Proof. vm_compute. done. Qed.

Lemma pg_try_tables {P A} `{DatabaseLaws P} cx (q : db -> option A) (p : P) :
  tables (pg_try cx q p).2 = tables p.
Proof.
  unfold pg_try. destruct (pg_run_effect cx (fun d => a ← q d; Some (a, d)) p) as [->|[a E]]; [done|].
  by destruct (q (tables p)); simplify_eq/=.
Qed.
Lemma pg_try_ok {P A} `{DatabaseLaws P} cx (q : db -> option A) (p : P) a p' :
  pg_try cx q p = (Ok a, p') -> q (tables p) = Some a /\ tables p' = tables p.
Proof. unfold pg_try. intros E%pg_run_ok. by destruct (q (tables p)); simplify_eq/=. Qed.
Lemma pg_try_up {A} (q : db -> option A) (w : World MemRedis MemDB) :
  up w -> on_db (pg_try Live q) w =
          (match q (tables (w_db w)) with Some a => Ok a | None => Err "constraint violation" end, w).
Proof.
  destruct w as [[st os] [d ds] h]. intros [_ Hd]. simpl in Hd. subst ds.
  unfold on_db, pg_try. simpl. by destruct (q d).
Qed.
#[export] Hint Resolve parsePagination_range pg_try_tables : fleet.

(** ** Computations that only read

    They leave the contents of Redis, the tables and the queue of events alone,
    whatever fails. *)
Definition read_only {R P A} `{RedisServer R} `{Database P} (c : M (World R P) A) : Prop :=
  forall w, contents (w_redis (c w).2) = contents (w_redis w) /\
            tables (w_db (c w).2) = tables (w_db w) /\ w_hub (c w).2 = w_hub w.

Create HintDb read_only discriminated.
Section ReadOnly.
Context {R P : Type} `{RedisLaws R} `{DatabaseLaws P}.
Notation W := (World R P).

Lemma read_only_ret {A} (a : A) : read_only (R:=R) (P:=P) (retM a).
Proof. done. Qed.
Lemma read_only_bind {A B} (c : M W A) (k : A -> M W B) :
  read_only c -> (forall a, read_only (k a)) -> read_only (bindM c k).
Proof.
  intros Hc Hk w. unfold bindM. specialize (Hc w). destruct (c w) as [a w1]. simpl in *.
  destruct Hc as (<- & <- & <-). apply Hk.
Qed.
Lemma read_only_redis {A} (f : R -> A * R) :
  (forall r, contents (f r).2 = contents r) -> read_only (R:=R) (P:=P) (on_redis f).
Proof. intros Hf w. unfold on_redis. specialize (Hf (w_redis w)). by destruct (f (w_redis w)). Qed.
Lemma read_only_db {A} (f : P -> A * P) :
  (forall p, tables (f p).2 = tables p) -> read_only (R:=R) (P:=P) (on_db f).
Proof. intros Hf w. unfold on_db. specialize (Hf (w_db w)). by destruct (f (w_db w)). Qed.
Lemma read_only_try {A} cx (q : db -> option A) : read_only (R:=R) (P:=P) (on_db (pg_try cx q)).
Proof. apply read_only_db. intros p. apply pg_try_tables. Qed.
Lemma read_only_query {A} cx (q : db -> A) : read_only (R:=R) (P:=P) (on_db (pg_query cx q)).
Proof. apply read_only_db. intros p. apply pg_query_tables. Qed.
Lemma read_only_get cx t k : read_only (R:=R) (P:=P) (on_redis (redis_get cx t k)).
Proof. apply read_only_redis. intros r. apply redis_get_contents. Qed.
Lemma read_only_hmget cx t k fs : read_only (R:=R) (P:=P) (on_redis (redis_hmget cx t k fs)).
Proof. apply read_only_redis. intros r. apply redis_hmget_contents. Qed.
Lemma read_only_hgetall cx t k : read_only (R:=R) (P:=P) (on_redis (redis_hgetall cx t k)).
Proof. apply read_only_redis. intros r. apply redis_hgetall_contents. Qed.
Lemma read_only_opt {A} cx ok (q : db -> option A) : read_only (R:=R) (P:=P) (query_opt cx ok q).
Proof. apply read_only_bind; [apply read_only_try|]. intros []; apply read_only_ret. Qed.
Lemma read_only_json status v : read_only (R:=R) (P:=P) (writeJSON status v).
Proof. done. Qed.
Lemma read_only_error status msg : read_only (R:=R) (P:=P) (write_error status msg).
Proof. done. Qed.
End ReadOnly.
#[export] Hint Resolve read_only_ret read_only_bind read_only_try read_only_query read_only_get
  read_only_hmget read_only_hgetall read_only_opt read_only_json read_only_error : read_only.

(** What [query_opt] gives, whatever fails. *)
Lemma query_opt_result {R P A} `{RedisLaws R} `{DatabaseLaws P} cx ok (q : db -> option A)
    (w : World R P) :
  (query_opt cx ok q w).1 = None \/ (query_opt cx ok q w).1 = q (tables (w_db w)).
Proof.
  unfold query_opt, bindM, on_db. destruct (pg_try cx _ (w_db w)) as [[a|e] p'] eqn:E; [|by left].
  apply pg_try_ok in E as [E _]. simpl. destruct ok; [right|]; done.
Qed.

(** Goes through a handler: its binds, and the cases its code distinguishes. *)
Ltac solve_read_only :=
  repeat (intros; lazymatch goal with
  | |- read_only (bindM _ _) => apply read_only_bind
  | |- read_only (match ?x with _ => _ end) => destruct x
  | |- read_only _ => solve [eauto with read_only]
  end).
