(* ===== verification/Alerts.v ===== *)
(** * [serving/internal/handler/alert.go]

    The attention queue, the acknowledge, resolve and unacknowledge workflow, the
    alert history of a fleet and the lookups they share with the alert detail. *)
From Stdlib Require Import SpecFloat.
From S2P Require Import Prelude GoNum Strconv Json Redis Domain Rfc3339 RedisStore Auth Http Tables.
From S2P Require Import Events Geo Eta Deviation Middleware Helpers.
Local Open Scope Z_scope.
Local Open Scope fleet_scope.

(** ** The workflow *)

(** UPDATE vehicle_alerts SET ... WHERE id = .. AND ..: the rows affected. *)
Definition update_alerts_stmt (p : alert_row -> bool) (f : alert_row -> alert_row) (d : db)
  : option (Z * db) :=
  Some (Z.of_nat (count_if p (db_alerts d)),
        set_alerts d (map (fun a => if p a then f a else a) (db_alerts d)) (db_alert_seq d)).
Definition with_ack (at_ : option Time) (by_ : option string) (a : alert_row) : alert_row :=
  MkAlertRow (al_id a) (al_vehicle_id a) (al_fleet_id a) (al_alert_type a) (al_severity a)
    (al_triggered_value a) (al_created_at a) at_ by_ (al_resolved_at a) (al_resolved_by a).
Definition is_none {A} (o : option A) : bool := match o with None => true | Some _ => false end.
Definition unacknowledged (id : Z) (a : alert_row) : bool :=
  (al_id a =? id) && is_none (al_acknowledged_at a).
Definition unresolved (id : Z) (a : alert_row) : bool :=
  (al_id a =? id) && is_none (al_resolved_at a).
Definition acknowledged (id : Z) (a : alert_row) : bool :=
  (al_id a =? id) && negb (is_none (al_acknowledged_at a)).

(** PostgreSQL refuses a text parameter with a NUL character. *)
Definition with_text {A} (s : string) (stmt : db -> option (A * db)) (d : db) : option (A * db) :=
  if no_nul s then stmt d else None.

Section Workflow.
Context {R P : Type} `{Database P}.
Notation W := (World R P).

(** [operatorBody]: a body that does not decode and one without operator are alike. *)
Definition operator_of (rq : request) : option string :=
  j ← rq_body rq;
  s ← dec_object [("operator"%string, dec_string (fun s _ => s))] j ""%string;
  if bool_decide (s = ""%string) then None else Some s.
Definition alert_id_of (vs : list (string * string)) : option Z := ParseInt (path_value "alert_id" vs).

Definition HandleAcknowledge : handler W := fun _ vs rq =>
  match alert_id_of vs with
  | None => write_error StatusBadRequest "alert_id must be an integer"
  | Some alertID =>
      match operator_of rq with
      | None => write_error StatusBadRequest
                  (String.concat "" ["request body must contain "; quote "operator"; " field"])
      | Some operator =>
          let! r := on_db (pg_run (rq_cx rq) (with_text operator (update_alerts_stmt
                      (unacknowledged alertID) (with_ack (Some (rq_now rq)) (Some operator))))) in
          match r with
          | Err _ => write_error StatusInternalServerError "failed to acknowledge alert"
          | Ok n =>
              if n =? 0 then write_error StatusNotFound "alert not found or already acknowledged"
              else writeJSON StatusOK (json_map [
                     ("alert_id", jint alertID); ("acknowledged_by", JStr operator);
                     ("acknowledged_at", JStr (format_seconds (rq_now rq)))]%string)
          end
      end
  end.

Definition HandleResolve : handler W := fun _ vs rq =>
  match alert_id_of vs with
  | None => write_error StatusBadRequest "alert_id must be an integer"
  | Some alertID =>
      match operator_of rq with
      | None => write_error StatusBadRequest
                  (String.concat "" ["request body must contain "; quote "operator"; " field"])
      | Some operator =>
          let! r := on_db (pg_run (rq_cx rq) (with_text operator (update_alerts_stmt
                      (unresolved alertID) (resolve_row (rq_now rq) operator)))) in
          match r with
          | Err _ => write_error StatusInternalServerError "failed to resolve alert"
          | Ok n =>
              if n =? 0 then write_error StatusNotFound "alert not found or already resolved"
              else writeJSON StatusOK (json_map [
                     ("alert_id", jint alertID); ("resolved_by", JStr operator);
                     ("resolved_at", JStr (format_seconds (rq_now rq)))]%string)
          end
      end
  end.

Definition HandleUnacknowledge : handler W := fun _ vs rq =>
  match alert_id_of vs with
  | None => write_error StatusBadRequest "alert_id must be an integer"
  | Some alertID =>
      let! r := on_db (pg_run (rq_cx rq) (update_alerts_stmt (acknowledged alertID)
                                            (with_ack None None))) in
      match r with
      | Err _ => write_error StatusInternalServerError "failed to unacknowledge alert"
      | Ok n =>
          if n =? 0
          then write_error StatusNotFound "alert not found or not currently acknowledged"
          else writeJSON StatusOK (json_map [
                 ("alert_id", jint alertID); ("status", JStr "returned to attention queue")]%string)
      end
  end.
End Workflow.

(** ** Lookups shared by the read handlers *)
Section Lookups.
Context {R P : Type} `{RedisServer R} `{Database P}.
Notation W := (World R P).

(** The driver and route of a trip in progress of the vehicle, if it has one: with no
    ORDER BY, any one; here the first of the tables. *)
Definition active_trip_names (vehicleID : string) (d : db) : option (string * string) :=
  head (t ← List.filter (fun t => bool_decide (tp_vehicle_id t = vehicleID) &&
                                  bool_decide (tp_status t = TripInProgress)) (db_trips d);
        dr ← List.filter (fun x => bool_decide (dr_driver_id x = tp_driver_id t)) (db_drivers d);
        r ← List.filter (fun x => bool_decide (rr_route_id x = tp_route_id t)) (db_routes d);
        [(dr_full_name dr, rr_route_name r)]).
Definition enrichWithTrip (cx : context) (vehicleID : string) : M W (option (string * string)) :=
  let! r := on_db (pg_query cx (active_trip_names vehicleID)) in
  retM (match r with Ok o => o | Err _ => None end).

Definition isConditionActive (cx : context) (now : Time) (vehicleID : string) (t : AlertType)
  : M W bool :=
  let! r := on_redis (redis_hmget cx now (state_key vehicleID)
                        ["speed_kmh"; "fuel_pct"; "engine_temp"]%string) in
  match r with
  | Ok (speed :: fuel :: temp :: _) =>
      if bool_decide (t = AlertSpeeding) then retM (f_gtb (parseFloat speed) (f_of_Z 100))
      else if bool_decide (t = AlertLowFuel) then retM (f_ltb (parseFloat fuel) (f_of_Z 10))
      else if bool_decide (t = AlertEngineOverheat) then retM (f_gtb (parseFloat temp) (f_of_Z 100))
      else if bool_decide (t = AlertRouteDeviation) then
        let! v := on_redis (redis_get cx now (dev_key vehicleID)) in
        retM (bool_decide (v = Ok (Some "true"%string)))
      else retM false
  | _ => retM false
  end.
End Lookups.

(** ** The attention queue *)
Definition display_name (d : db) (vehicleID : string) : string :=
  match List.filter (fun v => bool_decide (vr_vehicle_id v = vehicleID)) (db_vehicles d) with
  | v :: _ => vr_display_name v
  | [] => vehicleID
  end.
(** An optional filter: an absent or empty parameter does not filter. *)
Definition param_is (param : string) (q : list (string * string)) (v : string) : bool :=
  let p := query_get param q in bool_decide (p = ""%string) || bool_decide (v = p).
Definition in_queue (fleetID : string) (q : list (string * string)) (a : alert_row) : bool :=
  bool_decide (al_fleet_id a = fleetID) && is_none (al_acknowledged_at a) &&
  is_none (al_resolved_at a) && param_is "severity" q (al_severity a) &&
  param_is "alert_type" q (al_alert_type a).
Definition severity_rank (s : AlertSeverity) : Z :=
  if bool_decide (s = SeverityCritical) then 0
  else if bool_decide (s = SeverityWarning) then 1 else 2.
Definition queue_le (a b : alert_row) : Prop :=
  severity_rank (al_severity a) < severity_rank (al_severity b) \/
  (severity_rank (al_severity a) = severity_rank (al_severity b) /\
   al_created_at b <= al_created_at a).
#[export] Instance queue_le_dec : RelDecision queue_le.
Proof. intros a b. unfold queue_le. apply _. Defined.
Definition queue_of (fleetID : string) (q : list (string * string)) (ties : nat -> nat) (d : db)
  : list alert_row := order_by queue_le ties (List.filter (in_queue fleetID q) (db_alerts d)).

(** The text parameters of a query: one with a NUL character is refused. *)
Definition query_texts (fleetID : string) (q : list (string * string)) : bool :=
  no_nul fleetID && no_nul (query_get "severity" q) && no_nul (query_get "alert_type" q).

Record enrichedAlert := MkEnrichedAlert {
  ea_row : alert_row; ea_value : float64; ea_display : string;
  ea_trip : option (string * string); ea_active : bool
}.
(** [domain.Alert], whose nullable fields are omitted when nil. *)
Definition alert_fields (a : alert_row) (v : float64) (full : bool) : list (string * json) :=
  [("id", jint (al_id a)); ("vehicle_id", JStr (al_vehicle_id a)); ("fleet_id", JStr (al_fleet_id a));
   ("alert_type", JStr (al_alert_type a)); ("severity", JStr (al_severity a));
   ("triggered_value", jfloat v); ("created_at", JStr (format_seconds (al_created_at a)))]%string ++
  (if full then
     opt_field "acknowledged_at" (JStr ∘ format_seconds <$> al_acknowledged_at a) ++
     opt_field "acknowledged_by" (JStr <$> al_acknowledged_by a) ++
     opt_field "resolved_at" (JStr ∘ format_seconds <$> al_resolved_at a) ++
     opt_field "resolved_by" (JStr <$> al_resolved_by a)
   else []).
Definition enriched_json (full : bool) (e : enrichedAlert) : json :=
  JObj (alert_fields (ea_row e) (ea_value e) full ++
    [("display_name", JStr (ea_display e)); ("driver_name", jopt JStr (fst <$> ea_trip e));
     ("route_name", jopt JStr (snd <$> ea_trip e));
     ("is_condition_active", JBool (ea_active e))]%string).

Section Queue.
Context {R P : Type} `{RedisServer R} `{Database P}.
Notation W := (World R P).

(** Scanning the rows: one whose value is NULL does not scan and is skipped. *)
Fixpoint enrich_rows (cx : context) (now : Time) (rows : list (alert_row * string))
  : M W (list enrichedAlert) :=
  match rows with
  | [] => retM []
  | (a, name) :: rows' =>
      match al_triggered_value a with
      | None => enrich_rows cx now rows'
      | Some v =>
          let! trip := enrichWithTrip cx (al_vehicle_id a) in
          let! active := isConditionActive cx now (al_vehicle_id a) (al_alert_type a) in
          let! rest := enrich_rows cx now rows' in
          retM (MkEnrichedAlert a v name trip active :: rest)
      end
  end.

(** The total of [COUNT( * )], 0 when the query fails. *)
Definition count_or_zero (cx : context) (ok : bool) (p : db -> list alert_row) : M W Z :=
  let! r := on_db (pg_try cx (fun d => if ok then Some (Z.of_nat (length (p d))) else None)) in
  retM (match r with Ok n => n | Err _ => 0 end).

Definition queue_page (fleetID : string) (q : list (string * string)) (limit offset : Z)
    (ties : nat -> nat) (d : db) : option (list (alert_row * string)) :=
  if query_texts fleetID q then
    l ← limit_offset limit offset (queue_of fleetID q ties d);
    Some (map (fun a => (a, display_name d (al_vehicle_id a))) l)
  else None.

Definition HandleAttentionQueue : handler W := fun _ _ rq =>
  let q := rq_query rq in
  let fleetID := query_get "fleet_id" q in
  if bool_decide (fleetID = ""%string)
  then write_error StatusBadRequest "fleet_id query parameter is required"
  else
    let '(page, limit) := parsePagination (query_get "page" q) (query_get "limit" q) in
    let! total := count_or_zero (rq_cx rq) (query_texts fleetID q)
                    (fun d => List.filter (in_queue fleetID q) (db_alerts d)) in
    let! rows := on_db (pg_try (rq_cx rq)
                          (queue_page fleetID q limit (page_offset page limit) (rq_ties rq))) in
    match rows with
    | Err _ => write_error StatusInternalServerError "failed to query alerts"
    | Ok rows =>
        let! alerts := enrich_rows (rq_cx rq) (rq_now rq) rows in
        writeJSON StatusOK (json_map [
          ("fleet_id", JStr fleetID); ("alerts", JArr (map (enriched_json false) alerts));
          ("pagination", pagination_json (NewPagination page limit total))]%string)
    end.
End Queue.

(** ** The alert history of a fleet *)
Definition time_param (param : string) (q : list (string * string)) : option Time :=
  zt_instant <$> parse_rfc3339 (query_get param q).
Definition in_history (fleetID : string) (q : list (string * string)) (a : alert_row) : bool :=
  bool_decide (al_fleet_id a = fleetID) &&
  match time_param "from" q with Some t => t <=? al_created_at a | None => true end &&
  match time_param "to" q with Some t => al_created_at a <=? t | None => true end &&
  param_is "alert_type" q (al_alert_type a) && param_is "severity" q (al_severity a) &&
  (if bool_decide (query_get "acknowledged" q = "true"%string) then negb (is_none (al_acknowledged_at a))
   else if bool_decide (query_get "acknowledged" q = "false"%string) then is_none (al_acknowledged_at a)
   else true).
Definition recent_first (a b : alert_row) : Prop := al_created_at b <= al_created_at a.
#[export] Instance recent_first_dec : RelDecision recent_first.
Proof. intros a b. apply Z_le_dec. Defined.
Definition history_of (fleetID : string) (q : list (string * string)) (ties : nat -> nat) (d : db)
  : list alert_row := order_by recent_first ties (List.filter (in_history fleetID q) (db_alerts d)).

Section History.
Context {R P : Type} `{Database P}.
Notation W := (World R P).
Definition history_page (fleetID : string) (q : list (string * string)) (limit offset : Z)
    (ties : nat -> nat) (d : db) : option (list (alert_row * string)) :=
  if query_texts fleetID q then
    l ← limit_offset limit offset (history_of fleetID q ties d);
    Some (map (fun a => (a, display_name d (al_vehicle_id a))) l)
  else None.
Definition history_json (row : alert_row * string) : list json :=
  match al_triggered_value row.1 with
  | None => []
  | Some v => [JObj (alert_fields row.1 v true ++ [("display_name"%string, JStr row.2)])]
  end.
Definition HandleFleetAlertHistory : handler W := fun _ vs rq =>
  let fleetID := path_value "fleet_id" vs in
  if bool_decide (fleetID = ""%string)
  then write_error StatusBadRequest "fleet_id path parameter is required"
  else
    let q := rq_query rq in
    let '(page, limit) := parsePagination (query_get "page" q) (query_get "limit" q) in
    let! total := count_or_zero (rq_cx rq) (query_texts fleetID q)
                    (fun d => List.filter (in_history fleetID q) (db_alerts d)) in
    let! rows := on_db (pg_try (rq_cx rq)
                          (history_page fleetID q limit (page_offset page limit) (rq_ties rq))) in
    match rows with
    | Err _ => write_error StatusInternalServerError "failed to query fleet alerts"
    | Ok rows =>
        writeJSON StatusOK (json_map [
          ("fleet_id", JStr fleetID); ("alerts", JArr (concat (map history_json rows)));
          ("pagination", pagination_json (NewPagination page limit total))]%string)
    end.
End History.

(** ** Properties of the workflow *)
Inductive workflow_op := Acknowledge | Resolve | Unacknowledge.
Definition run_op {R P} `{Database P} (o : workflow_op) : handler (World R P) :=
  match o with
  | Acknowledge => HandleAcknowledge
  | Resolve => HandleResolve
  | Unacknowledge => HandleUnacknowledge
  end.
(** Which rows the operation applies to, and what it makes of them. *)
Definition op_guard (o : workflow_op) (id : Z) : alert_row -> bool :=
  match o with
  | Acknowledge => unacknowledged id | Resolve => unresolved id | Unacknowledge => acknowledged id
  end.
Definition op_effect (o : workflow_op) (now : Time) (by_ : string) : alert_row -> alert_row :=
  match o with
  | Acknowledge => with_ack (Some now) (Some by_)
  | Resolve => resolve_row now by_
  | Unacknowledge => with_ack None None
  end.
Definition needs_operator (o : workflow_op) : bool :=
  match o with Unacknowledge => false | _ => true end.
Definition apply_op (p : alert_row -> bool) (f : alert_row -> alert_row) (l : list alert_row)
  : list alert_row := map (fun a => if p a then f a else a) l.

Lemma apply_op_none p f l : count_if p l = 0%nat -> apply_op p f l = l.
Proof.
  induction l as [|a l IH]; simpl; [done|]. rewrite count_if_cons. intros Hc.
  destruct (p a); [lia|]. by rewrite IH.
Qed.
Lemma count_if_exists {A} (p : A -> bool) l : count_if p l <> 0%nat -> exists a, a ∈ l /\ p a = true.
Proof.
  induction l as [|a l IH]; [done|]. rewrite count_if_cons. destruct (p a) eqn:E.
  - intros _. exists a. by split; [left|].
  - intros (b & ? & ?)%IH. exists b. by split; [right|].
Qed.

(** One statement of the workflow and its three answers. *)
Lemma workflow_stmt {P} `{DatabaseLaws P} cx (ok : bool) p f (d : P) :
  let '(r, d') := pg_run cx (fun t => if ok then update_alerts_stmt p f t else None) d in
  let old := db_alerts (tables d) in
  let new := db_alerts (tables d') in
  match r with
  | Ok n => if n =? 0 then new = old /\ count_if p old = 0%nat
            else new = apply_op p f old /\ exists a, a ∈ old /\ p a = true
  | Err _ => new = old \/ new = apply_op p f old
  end.
Proof.
  destruct (pg_run cx _ d) as [[n|e] d'] eqn:E; simpl.
  - apply pg_run_ok in E. destruct ok; [|done]. unfold update_alerts_stmt in E.
    injection E as <- <-. simpl. destruct (Z.eqb_spec (Z.of_nat (count_if p (db_alerts (tables d)))) 0).
    + assert (Hc : count_if p (db_alerts (tables d)) = 0%nat) by lia. split; [|done].
      by apply apply_op_none.
    + split; [done|]. apply count_if_exists. lia.
  - apply pg_run_err in E as [->|[n E]]; [by left|right]. destruct ok; [|done].
    unfold update_alerts_stmt in E. by injection E as _ <-.
Qed.


(** ** Properties of the queue *)
#[export] Instance queue_le_trans : Transitive queue_le.
Proof. intros a b c. unfold queue_le. lia. Qed.
#[export] Instance queue_le_total : Total queue_le.
Proof. intros a b. unfold queue_le. lia. Qed.

(** What the queue is to be: the alerts that wait for attention, of the severity and type
    asked for if any is, the critical ones first, then the warnings, and among those of
    the same urgency the newest first. *)
Definition awaiting (fleetID severity alertType : string) (a : alert_row) : Prop :=
  al_fleet_id a = fleetID /\ al_acknowledged_at a = None /\ al_resolved_at a = None /\
  (severity = ""%string \/ al_severity a = severity) /\
  (alertType = ""%string \/ al_alert_type a = alertType).
#[export] Instance awaiting_dec fleetID severity alertType a :
  Decision (awaiting fleetID severity alertType a).
Proof. unfold awaiting. apply _. Defined.
Definition urgency (severity : string) : Z :=
  if bool_decide (severity = "CRITICAL"%string) then 0
  else if bool_decide (severity = "WARNING"%string) then 1 else 2.
Definition more_urgent (a b : alert_row) : Prop :=
  urgency (al_severity a) < urgency (al_severity b) \/
  (urgency (al_severity a) = urgency (al_severity b) /\ al_created_at b <= al_created_at a).
Definition urgency_key (a : alert_row) : Z * Time := (urgency (al_severity a), al_created_at a).
Definition key_le (x y : Z * Time) : Prop := x.1 < y.1 \/ (x.1 = y.1 /\ y.2 <= x.2).
#[export] Instance key_le_antisymm : AntiSymm eq key_le.
Proof. intros [a b] [c d]. unfold key_le. simpl. intros. f_equal; lia. Qed.

(** A request for page [k] of the queue. *)
Record asks_queue (fleetID severity alertType : string) (limit : Z) (k : nat) (rq : request) : Prop := {
  asks_live : rq_cx rq = Live;
  asks_fleet : query_get "fleet_id" (rq_query rq) = fleetID;
  asks_severity : query_get "severity" (rq_query rq) = severity;
  asks_type : query_get "alert_type" (rq_query rq) = alertType;
  asks_page : query_get "page" (rq_query rq) = FormatInt (Z.of_nat k);
  asks_limit : query_get "limit" (rq_query rq) = FormatInt limit
}.

Lemma is_none_true {A} (o : option A) : is_none o = true <-> o = None.
Proof. by destruct o. Qed.
Lemma in_queue_awaiting fleetID severity alertType q l :
  query_get "severity" q = severity -> query_get "alert_type" q = alertType ->
  List.filter (in_queue fleetID q) l = filter (awaiting fleetID severity alertType) l.
Proof.
  intros <- <-. induction l as [|a l IH]; [done|]. rewrite filter_cons. simpl. rewrite <- IH.
  assert (Hq : in_queue fleetID q a = true <->
    awaiting fleetID (query_get "severity" q) (query_get "alert_type" q) a).
  { unfold in_queue, awaiting, param_is.
    rewrite !andb_true_iff, !orb_true_iff, !bool_decide_eq_true, !is_none_true. tauto. }
  destruct (in_queue fleetID q a), (decide _) as [Ha|Ha]; try done.
  - by destruct Ha; apply Hq.
  - by apply Hq in Ha.
Qed.

(** What the handler answers when the services are up. *)
Lemma queue_answer c vs rq fleetID severity alertType limit k (w : World MemRedis MemDB) :
  up w -> asks_queue fleetID severity alertType limit k rq -> fleetID <> ""%string ->
  no_nul fleetID && no_nul severity && no_nul alertType = true -> 1 <= limit <= 100 ->
  1 <= Z.of_nat k -> Z.of_nat k * limit <= int64_max ->
  let d := tables (w_db w) in
  let listed := filter (awaiting fleetID severity alertType) (db_alerts d) in
  Z.of_nat (length listed) + limit <= int64_max ->
  (HandleAttentionQueue c vs rq w).1 = encode_body StatusOK (json_map [
    ("fleet_id", JStr fleetID);
    ("alerts", JArr (map (enriched_json false) (enrich_rows Live (rq_now rq)
       (map (fun a => (a, display_name d (al_vehicle_id a)))
          (page_slice limit (order_by queue_le (rq_ties rq) listed) k)) w).1));
    ("pagination", pagination_json (MkPaginationMeta (Z.of_nat k) limit (Z.of_nat (length listed))
       ((Z.of_nat (length listed) + limit - 1) / limit)))]%string).
Proof.
  intros Hup [Hcx Hf Hs Ht Hp Hli] Hne Hn Hl Hk Hkl d listed Hmax. unfold HandleAttentionQueue.
  rewrite Hf, bool_decide_false, Hp, Hli, parsePagination_print by (done || nia || lia).
  unfold count_or_zero, bindM. rewrite Hcx, !pg_try_up by done.
  assert (Hq : query_texts fleetID (rq_query rq) = true) by (unfold query_texts; by rewrite Hs, Ht).
  unfold queue_page, queue_of. rewrite Hq. fold d.
  rewrite (in_queue_awaiting _ severity alertType) by done. fold listed. cbn [retM].
  rewrite pg_try_up by done. fold d. rewrite (in_queue_awaiting _ severity alertType) by done. fold listed.
  unfold limit_offset. rewrite page_offset_exact by nia. rewrite (proj2 (Z.ltb_ge _ 0)) by nia. cbn [mbind option_bind].
  rewrite NewPagination_ceil by lia. unfold page_slice.
  replace (Z.to_nat ((Z.of_nat k - 1) * limit)) with ((k - 1) * Z.to_nat limit)%nat
    by (rewrite Z2Nat.inj_mul by lia; f_equal; lia).
  destruct (enrich_rows _ _ _ w) as [es w']. done.
Qed.


(** ** What the read endpoints let through *)

(** The fleet scoping of the history route can be bypassed: [FleetScoped] prefers the
    query parameter [fleet_id] to the path value, the handler reads the path value. A key
    of fleet [a] that names [a] in the query is served the history of any fleet [b]. *)
Theorem fleet_history_scope_bypass {V R P} `{Validator V} `{Database P} c rq (v v' : V)
    (w : World R P) a b :
  rq_header rq "X-Api-Key" <> ""%string -> a <> ""%string ->
  v_FleetID (rq_cx rq) (rq_auth rq) (rq_header rq "X-Api-Key") v = ((a, true), v') ->
  query_get "fleet_id" (rq_query rq) = a ->
  let ctx := MkReqctx (Some (rq_header rq "X-Api-Key")) (Some a) in
  let vs := [("fleet_id", b)]%string in
  Auth (FleetScoped "fleet_id" (lift_handler HandleFleetAlertHistory)) c vs rq (v, w) =
  (let '(resp, w') := HandleFleetAlertHistory ctx vs rq w in (resp, (v', w'))).
Proof.
  intros Hk Ha Hv Hq. simpl. unfold Auth. rewrite bool_decide_false by done. rewrite Hv.
  unfold negb, FleetScoped, requestedFleet. rewrite Hq. rewrite (bool_decide_false (a = _)) by done.
  rewrite (bool_decide_false (a = _)) by done. cbn [FleetIDFromContext ctx_fleet_id default].
  unfold FleetIDFromContext. simpl. rewrite bool_decide_false by done.
  by rewrite bool_decide_false by tauto.
Qed.

(** A vehicle whose state has expired reads as one without fuel: its low-fuel alerts are
    reported as still active. *)
Theorem low_fuel_active_without_state now v (w : World MemRedis MemDB) :
  up w -> live now (state_key v) (mem (w_redis w)) = None ->
  (isConditionActive Live now v AlertLowFuel w).1 = true.
Proof.
  destruct w as [[st os] [d ds] q]. intros [Ho _] Hl. simpl in Ho, Hl. subst os.
  unfold isConditionActive, bindM, on_redis, redis_hmget. simpl. by rewrite Hl.
Qed.

(** ** Examples and witnesses *)
Definition demo_alert (id : Z) (sev : AlertSeverity) (at_ : Time) (ack res : option Time) : alert_row :=
  MkAlertRow id "v1" "fleet-a" AlertSpeeding sev (Some (f_of_Z 120)) at_ ack
    (if is_none ack then None else Some "op"%string) res (if is_none res then None else Some "op"%string).
Definition demo_alerts_db : db :=
  MkDb [] [demo_alert 1 SeverityWarning 0 None None; demo_alert 2 SeverityCritical 1 None None;
           demo_alert 3 SeverityWarning (400 * Second) None None;
           demo_alert 4 SeverityCritical (500 * Second) (Some 0) (Some 1);
           demo_alert 5 SeverityWarning (900 * Second) None (Some 1)] 6 [] [] [] [] [] [] [].
Definition demo_alerts_world : World MemRedis MemDB :=
  MkWorld empty_redis (MkMemDB demo_alerts_db []) [].
Definition demo_get (q : list (string * string)) (body : option json) : request :=
  MkRequest "GET" [] q (fun _ => "") body Live (at_once 0) 0 id.

(** Unacknowledging a resolved alert reports that it is back in the attention queue,
    which it is not. *)
Example unacknowledge_resolved :
  let '(resp, w') := HandleUnacknowledge no_ctx [("alert_id", "4")]%string (demo_get [] None)
                       demo_alerts_world in
  rs_status resp = StatusOK /\
  map al_id (queue_of "fleet-a" [] id (tables (w_db w'))) = [2; 3; 1].
Proof. vm_compute. done. Qed.


(** Two alerts of the same severity raised at the same instant: page 1 and page 2 may both
    show the one and neither the other. *)
Definition tied_db : db :=
  MkDb [] [demo_alert 1 SeverityWarning 0 None None; demo_alert 2 SeverityWarning 0 None None] 3
    [] [] [] [] [] [] [].
Example tied_pages_repeat :
  let page k ties := map (fun p => al_id p.1)
    (default [] (queue_page "fleet-a" [] 1 (page_offset k 1) ties tied_db)) in
  page 1 id = [1] /\ page 2 (fun i => 2 - i)%nat = [1].
Proof. vm_compute. done. Qed.

Definition demo_queue_request (k : nat) : request :=
  demo_get [("fleet_id", "fleet-a"); ("severity", ""); ("alert_type", "");
            ("page", FormatInt (Z.of_nat k)); ("limit", "2")]%string None.
