(* ===== verification/Views.v ===== *)
(** * What the read handlers of vehicles and trips share

    [domain.StopProgress] and its JSON. Each of the two handlers has its own code that
    reads the stops, the estimate and the deviation status of a trip: it is modelled
    twice, in [Vehicles.v] and in [Trips.v]. *)
From Stdlib Require Import SpecFloat.
From S2P Require Import Prelude GoNum Strconv Json Redis Domain Rfc3339 RedisStore Auth Http Tables.
From S2P Require Import Events Geo Heartbeat StopDetector Eta Deviation Helpers Alerts.
Local Open Scope Z_scope.
Local Open Scope fleet_scope.

(** ** The stops of a trip *)
Record StopProgress := MkStopProgress {
  sp_StopID : string; sp_StopName : string; sp_Sequence : Z; sp_Status : string;
  sp_ArrivedAt : option Time; sp_DepartedAt : option Time
}.
Definition sp_le (a b : StopProgress) : Prop := sp_Sequence a <= sp_Sequence b.
#[export] Instance sp_le_dec : RelDecision sp_le.
Proof. intros a b. apply Z_le_dec. Defined.
#[export] Instance sp_le_trans : Transitive sp_le.
Proof. intros a b c. unfold sp_le. lia. Qed.
#[export] Instance sp_le_total : Total sp_le.
Proof. intros a b. unfold sp_le. lia. Qed.
Definition time_json (t : Time) : json := JStr (format_seconds t).
Definition stop_progress_json (sp : StopProgress) : json :=
  JObj ([("stop_id", JStr (sp_StopID sp)); ("stop_name", JStr (sp_StopName sp));
         ("sequence", jint (sp_Sequence sp)); ("status", JStr (sp_Status sp))]%string ++
        opt_field "arrived_at" (time_json <$> sp_ArrivedAt sp) ++
        opt_field "departed_at" (time_json <$> sp_DepartedAt sp)).

Section ReadOnly.
Context {R P : Type} `{RedisLaws R} `{DatabaseLaws P}.
Lemma read_only_get_or_empty cx t k : read_only (R:=R) (P:=P) (get_or_empty cx t k).
Proof. unfold get_or_empty. solve_read_only. Qed.
End ReadOnly.
#[export] Hint Resolve read_only_get_or_empty : read_only.

(** ** With the services up *)
Section Reliable.
Notation W := (World MemRedis MemDB).

Definition string_at (now : Time) (k : string) (st : rstate) : option string :=
  match live now k st with Some (RStr s) => Some s | _ => None end.

Lemma redis_get_up now k (w : W) :
  up w -> exists r, on_redis (redis_get Live now k) w = (r, w).
Proof.
  destruct w as [[st os] [d ds] q]. intros [Ho _]. simpl in Ho. subst os.
  unfold on_redis, redis_get. simpl. destruct (live now k st) as [[]|]; by eexists.
Qed.
Lemma redis_hmget_up now k fs (w : W) :
  up w -> exists r, on_redis (redis_hmget Live now k fs) w = (r, w).
Proof.
  destruct w as [[st os] [d ds] q]. intros [Ho _]. simpl in Ho. subst os.
  unfold on_redis, redis_hmget. simpl. destruct (live now k st) as [[]|]; by eexists.
Qed.
Lemma get_or_empty_up now k (w : W) :
  up w -> get_or_empty Live now k w = (default ""%string (string_at now k (mem (w_redis w))), w).
Proof.
  destruct w as [[st os] [d ds] q]. intros [Ho _]. simpl in Ho. subst os.
  unfold get_or_empty, bindM, on_redis, redis_get, string_at. simpl.
  by destruct (live now k st) as [[]|].
Qed.
Lemma query_opt_up {A} ok (q : db -> option A) (w : W) :
  up w -> query_opt Live ok q w = (if ok then q (tables (w_db w)) else None, w).
Proof.
  destruct w as [[st os] [d ds] h]. intros [_ Hd]. simpl in Hd. subst ds.
  unfold query_opt, bindM, on_db, pg_try, retM. simpl. destruct ok; [|done].
  by destruct (q d).
Qed.
End Reliable.
