(* ===== verification/Vehicles.v ===== *)
(** * [serving/internal/handler/vehicle.go]

    The drill-down panel of a vehicle, assembled from Redis and the database, its
    active trip, and its alert history. Each part of the panel that cannot be read is
    left out, and the answer is 200 all the same. Without an ORDER BY, a query limited
    to one row may return any; here it is the first of the tables. *)
From Stdlib Require Import SpecFloat.
From S2P Require Import Prelude GoNum Strconv Json JsonParse FloatText Redis Domain Rfc3339 RedisStore Auth Http Tables IngestHttp Messages.
From S2P Require Import Events Geo Heartbeat StopDetector Eta Deviation Helpers Alerts Views.
Local Open Scope Z_scope.
Local Open Scope fleet_scope.

(** ** The parts of the panel *)
Record LiveTelemetry := MkLiveTelemetry {
  lt_SpeedKmh : float64; lt_FuelPct : float64; lt_EngineTempC : float64; lt_Battery : float64;
  lt_IsMoving : bool; lt_EngineOn : bool; lt_LastSeenAt : option Z; lt_OnlineStatus : string
}.
Record TripInfo := MkTripInfo {
  ti_TripID : string; ti_RouteName : string; ti_OriginName : string; ti_DestinationName : string;
  ti_Status : string; ti_StopsTotal : Z; ti_StopsCompleted : Z; ti_DeviationStatus : string;
  ti_ETA : option string; ti_Stops : list StopProgress
}.
Record PanelResponse := MkPanelResponse {
  pn_VehicleID : string; pn_LiveState : LiveTelemetry; pn_Identity : option vehicle_row;
  pn_Driver : option driver_row; pn_ActiveTrip : option TripInfo; pn_RecentAlerts : list alert_row
}.

Definition no_live (status : string) : LiveTelemetry :=
  MkLiveTelemetry f_zero f_zero f_zero f_zero false false None status.
Definition live_of_map (m : gmap string string) (status : string) : LiveTelemetry :=
  MkLiveTelemetry (parseMapFloat m "speed_kmh") (parseMapFloat m "fuel_pct")
    (parseMapFloat m "engine_temp") (parseMapFloat m "battery")
    (parseMapBool m "is_moving") (parseMapBool m "engine_on")
    (m !! "received_at"%string ≫= ParseInt) status.

(** ** The queries *)
Definition vehicle_identity (vehicleID : string) (d : db) : option vehicle_row :=
  head (List.filter (fun v => bool_decide (vr_vehicle_id v = vehicleID)) (db_vehicles d)).
Definition active_trip (vehicleID : string) (d : db) : option (trip_row * route_row) :=
  head (t ← List.filter (fun t => bool_decide (tp_vehicle_id t = vehicleID) &&
                                  bool_decide (tp_status t = TripInProgress)) (db_trips d);
        r ← List.filter (fun x => bool_decide (rr_route_id x = tp_route_id t)) (db_routes d);
        [(t, r)]).
Definition trip_driver (tripID : string) (d : db) : option driver_row :=
  head (dr ← db_drivers d;
        t ← List.filter (fun t => bool_decide (tp_driver_id t = dr_driver_id dr) &&
                                  bool_decide (tp_trip_id t = tripID)) (db_trips d);
        [dr]).
(** The open alerts of the vehicle; the panel shows the first five. *)
Definition open_alert (vehicleID : string) (a : alert_row) : bool :=
  bool_decide (al_vehicle_id a = vehicleID) && is_none (al_acknowledged_at a) &&
  is_none (al_resolved_at a).
Definition open_alerts (vehicleID : string) (d : db) : list alert_row :=
  merge_sort queue_le (List.filter (open_alert vehicleID) (db_alerts d)).
Definition recent_alerts (vehicleID : string) (d : db) : list alert_row :=
  firstn 5 (open_alerts vehicleID d).

(** ** The stops, the deviation status and the estimate of the active trip *)
(** The left join of a stop with its progress rows: PENDING without one. *)
Definition progress_entries (d : db) (tripID : string) (s : stop_row) : list StopProgress :=
  let entry := MkStopProgress (rs_stop_id s) (rs_stop_name s) (rs_stop_sequence s) in
  match List.filter (is_progress tripID (rs_stop_id s)) (db_progress d) with
  | [] => [entry StopPending None None]
  | gs => map (fun g => entry (pg_status g) (pg_arrived_at g) (pg_departed_at g)) gs
  end.
Definition stop_progress (tripID routeID : string) (d : db) : list StopProgress :=
  merge_sort sp_le
    (s ← List.filter (fun s => bool_decide (rs_route_id s = routeID)) (db_stops d);
     progress_entries d tripID s).
Definition is_completed (sp : StopProgress) : bool :=
  bool_decide (sp_Status sp = StopArrived) || bool_decide (sp_Status sp = StopDeparted).
Definition stops_total (l : list StopProgress) : Z := Z.of_nat (length l).
Definition stops_completed (l : list StopProgress) : Z := Z.of_nat (count_if is_completed l).
Section PanelTrip.
Context {R P : Type} `{RedisServer R} `{Database P}.
Notation W := (World R P).

(** A failed query leaves the list empty. *)
Definition load_stop_progress (cx : context) (tripID routeID : string) : M W (list StopProgress) :=
  let! r := query_opt cx (no_nul tripID && no_nul routeID)
              (fun d => Some (stop_progress tripID routeID d)) in
  retM (default [] r).
Definition deviation_status (cx : context) (now : Time) (vehicleID : string) : M W string :=
  let! v := get_or_empty cx now (dev_key vehicleID) in
  retM (if bool_decide (v = "true"%string) then "deviated" else "on_route")%string.
Definition trip_eta (cx : context) (now : Time) (tripID : string) : M W (option string) :=
  let! r := on_redis (redis_get cx now (eta_key tripID)) in
  retM (match r with Ok o => o | Err _ => None end).
End PanelTrip.

(** The stops of the route in their order, each once, with the status the stop detector
    works on. *)
Lemma progress_entries_key d tripID s :
  keys d -> exists sp, progress_entries d tripID s = [sp] /\ sp_StopID sp = rs_stop_id s /\
    sp_Sequence sp = rs_stop_sequence s /\ sp_Status sp = stop_status d tripID (rs_stop_id s).
Proof.
  intros Hk. pose proof (joined_statuses_key d tripID (rs_stop_id s) Hk) as Hj.
  unfold joined_statuses in Hj. unfold progress_entries, stop_status in *.
  destruct (List.filter _ _) as [|g [|g' gs]]; [|by eexists|done].
  by eexists.
Qed.

Lemma bind_entries d tripID (l : list stop_row) :
  keys d -> exists sps, (s ← l; progress_entries d tripID s) = sps /\
    map sp_StopID sps = map rs_stop_id l /\ map sp_Sequence sps = map rs_stop_sequence l /\
    Forall (fun sp => sp_Status sp = stop_status d tripID (sp_StopID sp)) sps.
Proof.
  intros Hk. induction l as [|s l (sps & Heq & H1 & H2 & H3)]; [by exists []|].
  destruct (progress_entries_key d tripID s Hk) as (sp & Hsp & K1 & K2 & K3).
  exists (sp :: sps). cbn [mbind list_bind]. rewrite Hsp. cbn [map app]. rewrite Heq, H1, H2, K1, K2.
  split_and!; [done..|]. constructor; [by rewrite K3, K1|done].
Qed.

Lemma stop_progress_spec tripID routeID d :
  keys d ->
  let stops := List.filter (fun s => bool_decide (rs_route_id s = routeID)) (db_stops d) in
  let sps := stop_progress tripID routeID d in
  StronglySorted sp_le sps /\ map sp_StopID sps ≡ₚ map rs_stop_id stops /\
  Forall (fun sp => sp_Status sp = stop_status d tripID (sp_StopID sp)) sps.
Proof.
  intros Hk stops sps. unfold sps, stop_progress. fold stops.
  destruct (bind_entries d tripID stops Hk) as (l & -> & H1 & _ & H3).
  split; [apply StronglySorted_merge_sort; apply _|].
  rewrite (merge_sort_Permutation sp_le). by rewrite H1.
Qed.

Lemma stops_completed_bounds l : 0 <= stops_completed l <= stops_total l.
Proof. unfold stops_completed, stops_total. pose proof (count_if_le is_completed l). lia. Qed.

Section ReadOnlyStops.
Context {R P : Type} `{RedisLaws R} `{DatabaseLaws P}.
Lemma read_only_stops cx t r : read_only (R:=R) (P:=P) (load_stop_progress cx t r).
Proof. unfold load_stop_progress. solve_read_only. Qed.
Lemma read_only_eta cx now t : read_only (R:=R) (P:=P) (trip_eta cx now t).
Proof. unfold trip_eta. solve_read_only. Qed.
End ReadOnlyStops.
#[export] Hint Resolve read_only_stops read_only_eta : read_only.
Section ReadOnlyStatus.
Context {R P : Type} `{RedisLaws R} `{DatabaseLaws P}.
Lemma read_only_deviation cx now v : read_only (R:=R) (P:=P) (deviation_status cx now v).
Proof. unfold deviation_status. solve_read_only. Qed.
End ReadOnlyStatus.
#[export] Hint Resolve read_only_deviation : read_only.
#[export] Hint Resolve stops_completed_bounds : fleet.

Section ReliableTrip.
Notation W := (World MemRedis MemDB).
Lemma trip_eta_up now t (w : W) :
  up w -> trip_eta Live now t w = (string_at now (eta_key t) (mem (w_redis w)), w).
Proof.
  destruct w as [[st os] [d ds] q]. intros [Ho _]. simpl in Ho. subst os.
  unfold trip_eta, bindM, on_redis, redis_get, string_at. simpl.
  by destruct (live now (eta_key t) st) as [[]|].
Qed.
Definition deviation_at (now : Time) (v : string) (st : rstate) : string :=
  if bool_decide (string_at now (dev_key v) st = Some "true"%string) then "deviated" else "on_route".
Lemma deviation_status_up now v (w : W) :
  up w -> deviation_status Live now v w = (deviation_at now v (mem (w_redis w)), w).
Proof.
  intros Hup. unfold deviation_status, deviation_at, bindM. rewrite get_or_empty_up by done. unfold retM.
  f_equal. destruct (string_at _ _ _) as [s|]; simpl; [|done].
  destruct (decide (s = "true"%string)) as [->|Hne]; [done|].
  rewrite !bool_decide_false; congruence.
Qed.
End ReliableTrip.

(** ** JSON. The fleet of an alert is not selected, so it is the empty string. *)
Definition live_json (l : LiveTelemetry) : json := JObj [
  ("speed_kmh", jfloat (lt_SpeedKmh l)); ("fuel_pct", jfloat (lt_FuelPct l));
  ("engine_temp_celsius", jfloat (lt_EngineTempC l)); ("battery_voltage", jfloat (lt_Battery l));
  ("is_moving", JBool (lt_IsMoving l)); ("engine_on", JBool (lt_EngineOn l));
  ("last_seen_at", jopt jint (lt_LastSeenAt l)); ("online_status", JStr (lt_OnlineStatus l))]%string.
Definition identity_json (v : vehicle_row) : json :=
  JObj ([("display_name", JStr (vr_display_name v));
         ("registration_number", JStr (vr_registration_number v));
         ("vehicle_type", JStr (vr_vehicle_type v))]%string ++
        opt_field "capacity_tonnes" (jfloat <$> vr_capacity_tonnes v)).
Definition driver_json (dr : driver_row) : json := JObj [
  ("driver_id", JStr (dr_driver_id dr)); ("full_name", JStr (dr_full_name dr));
  ("phone_number", JStr (dr_phone_number dr)); ("license_number", JStr (dr_license_number dr))]%string.
Definition trip_info_json (t : TripInfo) : json :=
  JObj ([("trip_id", JStr (ti_TripID t)); ("route_name", JStr (ti_RouteName t));
         ("origin_name", JStr (ti_OriginName t)); ("destination_name", JStr (ti_DestinationName t));
         ("status", JStr (ti_Status t)); ("stops_total", jint (ti_StopsTotal t));
         ("stops_completed", jint (ti_StopsCompleted t));
         ("deviation_status", JStr (ti_DeviationStatus t))]%string ++
        opt_field "eta" (JStr <$> ti_ETA t) ++
        [("stops"%string, JArr (map stop_progress_json (ti_Stops t)))]).
Definition without_fleet (a : alert_row) : alert_row :=
  MkAlertRow (al_id a) (al_vehicle_id a) "" (al_alert_type a) (al_severity a)
    (al_triggered_value a) (al_created_at a) (al_acknowledged_at a) (al_acknowledged_by a)
    (al_resolved_at a) (al_resolved_by a).
(** A row whose value is NULL does not scan and is left out. *)
Definition vehicle_alert_json (full : bool) (a : alert_row) : list json :=
  match al_triggered_value a with
  | None => []
  | Some v => [JObj (alert_fields (without_fleet a) v full)]
  end.
Definition panel_json (p : PanelResponse) : json :=
  JObj ([("vehicle_id"%string, JStr (pn_VehicleID p));
         ("live_telemetry"%string, live_json (pn_LiveState p))] ++
        opt_field "identity" (identity_json <$> pn_Identity p) ++
        opt_field "driver" (driver_json <$> pn_Driver p) ++
        opt_field "active_trip" (trip_info_json <$> pn_ActiveTrip p) ++
        [("recent_alerts"%string, JArr (concat (map (vehicle_alert_json false) (pn_RecentAlerts p))))]).

(** ** The handlers *)
Section Vehicles.
Context {R P : Type} `{RedisServer R} `{Database P}.
Notation W := (World R P).

Definition live_telemetry (cx : context) (now : Time) (vehicleID : string) : M W LiveTelemetry :=
  let! stateMap := on_redis (redis_hgetall cx now (state_key vehicleID)) in
  let! online := get_or_empty cx now (online_key vehicleID) in
  let status := if bool_decide (online = ""%string) then StatusOnline else online in
  retM (match stateMap with
        | Ok m => if bool_decide (m = ∅) then no_live status else live_of_map m status
        | Err _ => no_live status
        end).

Definition load_trip_info (cx : context) (now : Time) (vehicleID : string) (t : trip_row)
    (r : route_row) : M W TripInfo :=
  let! stops := load_stop_progress cx (tp_trip_id t) (tp_route_id t) in
  let! dev := deviation_status cx now vehicleID in
  let! eta := trip_eta cx now (tp_trip_id t) in
  retM (MkTripInfo (tp_trip_id t) (rr_route_name r) (rr_origin_name r) (rr_destination_name r)
          (tp_status t) (stops_total stops) (stops_completed stops) dev eta stops).

(** The trip section and the driver, once a trip was found. *)
Definition load_trip (cx : context) (now : Time) (vehicleID : string)
    (found : option (trip_row * route_row)) : M W (option (TripInfo * option driver_row)) :=
  match found with
  | None => retM None
  | Some (t, r) =>
      let! info := load_trip_info cx now vehicleID t r in
      let! driver := query_opt cx (no_nul (tp_trip_id t)) (trip_driver (tp_trip_id t)) in
      retM (Some (info, driver))
  end.

Definition load_panel (cx : context) (now : Time) (vehicleID : string) : M W PanelResponse :=
  let! live := live_telemetry cx now vehicleID in
  let! identity := query_opt cx (no_nul vehicleID) (vehicle_identity vehicleID) in
  let! found := query_opt cx (no_nul vehicleID) (active_trip vehicleID) in
  let! trip := load_trip cx now vehicleID found in
  let! alerts := query_opt cx (no_nul vehicleID) (fun d => Some (recent_alerts vehicleID d)) in
  retM (MkPanelResponse vehicleID live identity (trip ≫= snd) (fst <$> trip) (default [] alerts)).

Definition HandlePanel : handler W := fun _ vs rq =>
  let vehicleID := path_value "vehicle_id" vs in
  if bool_decide (vehicleID = ""%string)
  then write_error StatusBadRequest "vehicle_id path parameter is required"
  else
    let! panel := load_panel (rq_cx rq) (rq_now rq) vehicleID in
    writeJSON StatusOK (panel_json panel).

Definition HandleActiveTrip : handler W := fun _ vs rq =>
  let vehicleID := path_value "vehicle_id" vs in
  if bool_decide (vehicleID = ""%string)
  then write_error StatusBadRequest "vehicle_id path parameter is required"
  else
    let! found := query_opt (rq_cx rq) (no_nul vehicleID) (active_trip vehicleID) in
    writeJSON StatusOK (json_map [
      ("vehicle_id", JStr vehicleID);
      ("active_trip", jopt (fun tr => json_map [
        ("trip_id", JStr (tp_trip_id tr.1)); ("route_name", JStr (rr_route_name tr.2));
        ("origin_name", JStr (rr_origin_name tr.2));
        ("destination_name", JStr (rr_destination_name tr.2));
        ("status", JStr (tp_status tr.1))]) found)]%string).

(** The alert history of a vehicle. *)
Definition in_vehicle_history (vehicleID : string) (q : list (string * string)) (a : alert_row)
  : bool :=
  bool_decide (al_vehicle_id a = vehicleID) &&
  match time_param "from" q with Some t => t <=? al_created_at a | None => true end &&
  match time_param "to" q with Some t => al_created_at a <=? t | None => true end &&
  param_is "alert_type" q (al_alert_type a) && param_is "severity" q (al_severity a).
Definition vehicle_history (vehicleID : string) (q : list (string * string)) (ties : nat -> nat)
    (d : db) : list alert_row :=
  order_by recent_first ties (List.filter (in_vehicle_history vehicleID q) (db_alerts d)).
Definition vehicle_history_page (vehicleID : string) (q : list (string * string))
    (limit offset : Z) (ties : nat -> nat) (d : db) : option (list alert_row) :=
  if query_texts vehicleID q then limit_offset limit offset (vehicle_history vehicleID q ties d)
  else None.
Definition HandleVehicleAlerts : handler W := fun _ vs rq =>
  let vehicleID := path_value "vehicle_id" vs in
  if bool_decide (vehicleID = ""%string)
  then write_error StatusBadRequest "vehicle_id path parameter is required"
  else
    let q := rq_query rq in
    let '(page, limit) := parsePagination (query_get "page" q) (query_get "limit" q) in
    let! total := count_or_zero (rq_cx rq) (query_texts vehicleID q)
                    (fun d => List.filter (in_vehicle_history vehicleID q) (db_alerts d)) in
    let! rows := on_db (pg_try (rq_cx rq) (vehicle_history_page vehicleID q limit
                          (page_offset page limit) (rq_ties rq))) in
    match rows with
    | Err _ => write_error StatusInternalServerError "failed to query alert history"
    | Ok rows =>
        writeJSON StatusOK (json_map [
          ("vehicle_id", JStr vehicleID); ("alerts", JArr (concat (map (vehicle_alert_json true) rows)));
          ("pagination", pagination_json (NewPagination page limit total))]%string)
    end.
End Vehicles.

(** ** Properties *)
Section ReadOnly.
Context {R P : Type} `{RedisLaws R} `{DatabaseLaws P}.
Lemma read_only_live cx now v : read_only (R:=R) (P:=P) (live_telemetry cx now v).
Proof. unfold live_telemetry. solve_read_only. Qed.
Lemma read_only_trip_info cx now v t r : read_only (R:=R) (P:=P) (load_trip_info cx now v t r).
Proof. unfold load_trip_info. solve_read_only. Qed.
End ReadOnly.
#[export] Hint Resolve read_only_live read_only_trip_info : read_only.
Section ReadOnlyPanel.
Context {R P : Type} `{RedisLaws R} `{DatabaseLaws P}.
Lemma read_only_trip cx now v found : read_only (R:=R) (P:=P) (load_trip cx now v found).
Proof. unfold load_trip. solve_read_only. Qed.
Lemma read_only_panel cx now v : read_only (R:=R) (P:=P) (load_panel cx now v).
Proof. unfold load_panel. repeat (apply read_only_bind; [eauto using read_only_trip with read_only|intros]).
  done. Qed.
End ReadOnlyPanel.
#[export] Hint Resolve read_only_trip read_only_panel : read_only.

(** One step of a reading computation: its value, and the tables it leaves. *)
Lemma bind_reads {R P A B} `{RedisLaws R} `{DatabaseLaws P} (c : M (World R P) A)
    (k : A -> M (World R P) B) (Q : B -> Prop) w :
  read_only c ->
  (forall w', tables (w_db w') = tables (w_db w) -> Q (k (c w).1 w').1) -> Q (bindM c k w).1.
Proof.
  intros Hc Hk. unfold bindM. destruct (Hc w) as (_ & Ht & _).
  destruct (c w) as [a w1]. by apply (Hk w1).
Qed.

(** What the panel may show of a vehicle, given the tables. *)
Record trip_shown (t : trip_row) (d : db) (ti : TripInfo) : Prop := {
  trip_shown_id : ti_TripID ti = tp_trip_id t;
  trip_shown_stops : ti_Stops ti = [] \/
    ti_Stops ti = stop_progress (tp_trip_id t) (tp_route_id t) d;
  trip_shown_total : ti_StopsTotal ti = Z.of_nat (length (ti_Stops ti));
  trip_shown_completed : 0 <= ti_StopsCompleted ti <= ti_StopsTotal ti
}.
Record panel_shown (vehicleID : string) (d : db) (p : PanelResponse) : Prop := {
  shown_vehicle : pn_VehicleID p = vehicleID;
  shown_identity : pn_Identity p = None \/ pn_Identity p = vehicle_identity vehicleID d;
  shown_trip : forall ti, pn_ActiveTrip p = Some ti ->
    exists t r, active_trip vehicleID d = Some (t, r) /\ trip_shown t d ti;
  shown_driver : forall dr, pn_Driver p = Some dr ->
    exists ti, pn_ActiveTrip p = Some ti /\ trip_driver (ti_TripID ti) d = Some dr;
  shown_alerts : pn_RecentAlerts p = [] \/ pn_RecentAlerts p = recent_alerts vehicleID d
}.

Section Panel.
Context {R P : Type} `{RedisLaws R} `{DatabaseLaws P}.
Notation W := (World R P).

Lemma load_stop_progress_result cx trip route (w : W) :
  (load_stop_progress cx trip route w).1 = [] \/
  (load_stop_progress cx trip route w).1 = stop_progress trip route (tables (w_db w)).
Proof.
  unfold load_stop_progress, bindM.
  destruct (query_opt_result cx (no_nul trip && no_nul route)
    (fun d => Some (stop_progress trip route d)) w) as [Hq|Hq];
    destruct (query_opt _ _ _ w) as [o w']; simpl in *; subst; auto.
Qed.

Lemma load_trip_info_shown cx now v t r (w : W) :
  trip_shown t (tables (w_db w)) (load_trip_info cx now v t r w).1.
Proof.
  unfold load_trip_info. pose proof (load_stop_progress_result cx (tp_trip_id t) (tp_route_id t) w).
  apply (bind_reads _ _ (trip_shown t _)); [eauto with read_only|]. intros w1 _.
  apply (bind_reads _ _ (trip_shown t _)); [eauto with read_only|]. intros w2 _.
  apply (bind_reads _ _ (trip_shown t _)); [eauto with read_only|]. intros w3 _.
  split; [done|done|done|apply stops_completed_bounds].
Qed.

Lemma load_trip_shown cx now v found d (w : W) :
  tables (w_db w) = d -> found = None \/ found = active_trip v d ->
  forall ti dr, (load_trip cx now v found w).1 = Some (ti, dr) ->
  exists t r, active_trip v d = Some (t, r) /\ trip_shown t d ti /\
    (dr = None \/ dr = trip_driver (tp_trip_id t) d).
Proof.
  intros Hw Hf ti dr. unfold load_trip. destruct found as [[t r]|]; [|done].
  destruct Hf as [|Hf]; [done|]. pose proof (load_trip_info_shown cx now v t r w) as Hinfo.
  rewrite Hw in Hinfo. set (Q := fun o => o = Some (ti, dr) -> exists t r, active_trip v d = Some (t, r) /\
    trip_shown t d ti /\ (dr = None \/ dr = trip_driver (tp_trip_id t) d)).
  apply (bind_reads _ _ Q); [eauto with read_only|]. intros w1 Hw1.
  pose proof (query_opt_result cx (no_nul (tp_trip_id t)) (trip_driver (tp_trip_id t)) w1) as Hd.
  rewrite Hw1, Hw in Hd.
  apply (bind_reads _ _ Q); [eauto with read_only|]. intros w2 _. unfold Q. cbn.
  intros [= <- <-]. eauto.
Qed.

Lemma load_panel_shown cx now v (w : W) :
  panel_shown v (tables (w_db w)) (load_panel cx now v w).1.
Proof.
  unfold load_panel. set (d := tables (w_db w)).
  apply (bind_reads _ _ (panel_shown v d)); [eauto with read_only|]. intros w1 Hw1.
  apply (bind_reads _ _ (panel_shown v d)); [eauto with read_only|]. intros w2 Hw2.
  apply (bind_reads _ _ (panel_shown v d)); [eauto with read_only|]. intros w3 Hw3.
  apply (bind_reads _ _ (panel_shown v d)); [eauto with read_only|]. intros w4 Hw4.
  apply (bind_reads _ _ (panel_shown v d)); [eauto with read_only|]. intros w5 _.
  rewrite Hw1 in Hw2. rewrite Hw2 in Hw3. rewrite Hw3 in Hw4. fold d in Hw1, Hw2, Hw3, Hw4.
  pose proof (query_opt_result cx (no_nul v) (vehicle_identity v) w1) as Hid.
  pose proof (query_opt_result cx (no_nul v) (active_trip v) w2) as Hact.
  pose proof (query_opt_result cx (no_nul v) (fun d => Some (recent_alerts v d)) w4) as Hal.
  rewrite Hw1 in Hid. rewrite Hw2 in Hact. rewrite Hw4 in Hal.
  pose proof (load_trip_shown cx now v _ d w3 Hw3 Hact) as Htrip.
  destruct (load_trip cx now v _ w3).1 as [[ti dr]|]; split; cbn; try done.
  - intros ti' [= <-]. destruct (Htrip _ _ eq_refl) as (t & r & ? & ? & _). eauto.
  - intros dr' ->. destruct (Htrip _ _ eq_refl) as (t & r & _ & [Hid' _ _ _] & [|Hdr]); [done|].
    exists ti. by rewrite Hid', <- Hdr.
  - destruct Hal as [->| ->]; auto.
  - destruct Hal as [->| ->]; auto.
Qed.
End Panel.


Lemma live_telemetry_up now v (w : World MemRedis MemDB) :
  outages (w_redis w) = [] ->
  live_telemetry Live now v w = (
  let st := mem (w_redis w) in
  let online := default ""%string (string_at now (online_key v) st) in
  let status := if bool_decide (online = ""%string) then StatusOnline else online in
  match live now (state_key v) st with
  | Some (RHash m) => if bool_decide (m = ∅) then no_live status else live_of_map m status
  | _ => no_live status
  end, w).
Proof.
  destruct w as [[st os] [d ds] q]. intros Ho. simpl in Ho. subst os.
  unfold live_telemetry, get_or_empty, bindM, on_redis, redis_hgetall, redis_get, string_at.
  cbn [w_redis mem]. destruct (live now (online_key v) st) as [[]|] eqn:Eo;
    destruct (live now (state_key v) st) as [[]|] eqn:Es; cbn; rewrite Es; cbn; by rewrite Eo.
Qed.
(** The live part of the panel is read first. *)
Lemma panel_live {R P} `{RedisServer R} `{Database P} cx now v (w : World R P) :
  pn_LiveState (load_panel cx now v w).1 = (live_telemetry cx now v w).1.
Proof.
  unfold load_panel, bindM, retM. destruct (live_telemetry cx now v w) as [l w1].
  destruct (query_opt _ _ _ w1) as [i w2]. destruct (query_opt _ _ _ w2) as [f w3].
  destruct (load_trip _ _ _ _ w3) as [t w4]. by destruct (query_opt _ _ _ w4).
Qed.
Definition live_of_message (m : TelemetryMessage) (status : string) : LiveTelemetry :=
  MkLiveTelemetry (SpeedKmh m) (FuelPct m) (EngineTempC m) (BatteryVoltage m)
    (IsMoving m) (EngineOn m) (Some (Unix (ReceivedAt m))) status.
Lemma live_of_state m h0 status :
  message_ok m -> in_int64 (Unix (ReceivedAt m)) ->
  live_of_map (hmerge (state_fields m) h0) status = live_of_message m status.
Proof.
  intros Hm Hr. set (h := hmerge (state_fields m) h0).
  assert (Hf : forall f s, (f, s) ∈ state_fields m -> h !! f = Some s)
    by (intros f s; apply state_field, state_fields_nodup).
  unfold live_of_map, parseMapFloat, parseMapBool, map_get.
  rewrite (Hf "speed_kmh" (FormatFloat (SpeedKmh m)))%string by (unfold state_fields; in_list).
  rewrite (Hf "fuel_pct" (FormatFloat (FuelPct m)))%string by (unfold state_fields; in_list).
  rewrite (Hf "engine_temp" (FormatFloat (EngineTempC m)))%string by (unfold state_fields; in_list).
  rewrite (Hf "battery" (FormatFloat (BatteryVoltage m)))%string by (unfold state_fields; in_list).
  rewrite (Hf "is_moving" (bool_field (IsMoving m)))%string by (unfold state_fields; in_list).
  rewrite (Hf "engine_on" (bool_field (EngineOn m)))%string by (unfold state_fields; in_list).
  rewrite (Hf "received_at" (FormatInt (Unix (ReceivedAt m))))%string by (unfold state_fields; in_list).
  cbn [default mbind option_bind]. rewrite ParseInt_FormatInt by done.
  unfold message_ok in Hm. rewrite !Forall_cons in Hm. destruct Hm as (_ & _ & ? & ? & ? & ? & _).
  unfold id. rewrite !ParseFloat_FormatFloat by done. cbn [fst].
  unfold bool_field, live_of_message. by destruct (IsMoving m), (EngineOn m).
Qed.

(** C36. What a device sent is what the panel shows. Let the ingestion service have
    decoded the body of a request into a message, received at a time whose Unix seconds
    are an int64, and the state writer have stored its state in Redis, where the state key
    of the vehicle held no string. Then, while Redis answers and whatever the database
    does, [GET /api/v1/vehicles/{vehicle_id}/panel] answers 200 with a panel whose live part
    has, for the 30 seconds the state lives, exactly the speed, fuel, temperature,
    voltage and flags of the message, last seen when it was received; after that it has
    zeros and was never seen. The vehicle is shown online unless the heartbeat monitor
    recorded otherwise. *)
Theorem panel_of_telemetry body received p t0 st0 db fails hub c vs rq :
  let m := message_of received p in
  let v := VehicleID m in
  let st := run_cmds t0 (state_cmds m) st0 in
  let w := MkWorld (MkMemRedis st []) (MkMemDB db fails) hub : World MemRedis MemDB in
  let online := default ""%string (string_at (rq_now rq) (online_key v) st) in
  let status := if bool_decide (online = ""%string) then StatusOnline else online in
  Decode body ≫= (fun j => dec_payload j zero_payload) = Some p ->
  in_int64 (Unix received) ->
  (forall s, live t0 (state_key v) st0 <> Some (RStr s)) ->
  path_value "vehicle_id" vs = v -> v <> ""%string -> rq_cx rq = Live ->
  exists panel, (HandlePanel c vs rq w).1 = encode_body StatusOK (panel_json panel) /\
    pn_LiveState panel =
    if rq_now rq <? t0 + state_ttl
    then MkLiveTelemetry (SpeedKmh m) (FuelPct m) (EngineTempC m) (BatteryVoltage m)
           (IsMoving m) (EngineOn m) (Some (Unix received)) status
    else no_live status.
Proof.
  intros m v st w online status Hdec Hr Hns Hpath Hv Hcx.
  exists (load_panel (rq_cx rq) (rq_now rq) v w).1. split.
  { unfold HandlePanel. rewrite Hpath, bool_decide_false by done. unfold bindM. by destruct (load_panel _ _ v w). }
  rewrite panel_live, Hcx, live_telemetry_up by done. cbv zeta. cbn [w_redis mem w]. fold online status.
  destruct (state_cmds_live t0 m st0 Hns) as (h0 & Hl). unfold st. rewrite Hl.
  destruct (rq_now rq <? t0 + state_ttl); [|done]. rewrite bool_decide_false.
  - apply (live_of_state m h0); [by apply (message_of_ok _ body)|done].
  - intros Hempty. pose proof (state_field "vehicle_id" (VehicleID m) m h0 (state_fields_nodup m)) as Hf.
    rewrite Hempty, lookup_empty in Hf. by discriminate Hf; left.
Qed.

(** ** Examples and witnesses *)
Definition demo_panel_body : string := Marshal (JObj [
  ("vehicle_id", JStr "v1"); ("fleet_id", JStr "fleet-a");
  ("vehicle_state", JObj [("speed_kmh", JNum "63.5"); ("fuel_pct", JNum "41"); ("battery_voltage", JNum "1.2e1");
     ("engine_temp_celsius", JNum "0.1"); ("is_moving", JBool true); ("engine_on", JBool true)])]%string).
Definition demo_panel_payload : incomingPayload :=
  default zero_payload (Decode demo_panel_body ≫= (fun j => dec_payload j zero_payload)).
Definition demo_panel_request : request :=
  MkRequest "GET" [] [] (fun _ => ""%string) None Live (at_once 0) (7 * Second) id.
Lemma panel_of_telemetry_witness :
  let m := message_of (5 * Second) demo_panel_payload in
  let st := run_cmds (6 * Second) (state_cmds m) (MkRstate ∅ []) in
  let w : World MemRedis MemDB := MkWorld (MkMemRedis st []) (MkMemDB empty_db [true]) [] in
  VehicleID m = "v1"%string /\
  exists panel, (HandlePanel no_ctx [("vehicle_id", "v1")]%string demo_panel_request w).1 =
      encode_body StatusOK (panel_json panel) /\
    pn_LiveState panel =
      MkLiveTelemetry (f_div (f_of_Z 127) (f_of_Z 2)) (f_of_Z 41) (f_div (f_of_Z 1) (f_of_Z 10)) (f_of_Z 12)
        true true (Some 5) "online".
Proof.
  split; [vm_compute; reflexivity|].
  destruct (panel_of_telemetry demo_panel_body (5 * Second) demo_panel_payload (6 * Second) (MkRstate ∅ [])
    empty_db [true] [] no_ctx [("vehicle_id", "v1")]%string demo_panel_request) as (panel & Ha & Hl).
  - vm_compute. reflexivity.
  - vm_compute. split; discriminate.
  - intros s. vm_compute. discriminate.
  - vm_compute. reflexivity.
  - vm_compute. discriminate.
  - reflexivity.
  - exists panel. split; [exact Ha|]. rewrite Hl. vm_compute. reflexivity.
Defined.

(** A vehicle nobody has ever heard of is shown as online. *)
Example unknown_vehicle_online :
  lt_OnlineStatus (live_telemetry Live 0 "nobody" (MkWorld empty_redis (MkMemDB empty_db []) [])).1 =
  "online"%string.
Proof. vm_compute. reflexivity. Qed.

