(* ===== verification/Trips.v ===== *)
(** * [serving/internal/handler/trip.go]

    The list of trips with its filters and pages, and the detail of a trip with its
    stops, estimate and deviation status. *)
From Stdlib Require Import SpecFloat.
From S2P Require Import Prelude GoNum Strconv Json Redis Domain Rfc3339 RedisStore Auth Http Tables.
From S2P Require Import Events Geo Heartbeat StopDetector Eta Deviation Helpers Alerts Views Vehicles.
Local Open Scope Z_scope.
Local Open Scope fleet_scope.

(** ** The list *)

(** The inner join with the vehicles, from which the fleet comes. *)
Definition joined_trips (d : db) : list (trip_row * vehicle_row) :=
  t ← db_trips d;
  v ← List.filter (fun v => bool_decide (vr_vehicle_id v = tp_vehicle_id t)) (db_vehicles d);
  [(t, v)].
Definition in_trip_list (q : list (string * string)) (tv : trip_row * vehicle_row) : bool :=
  param_is "fleet_id" q (vr_fleet_id tv.2) && param_is "status" q (tp_status tv.1) &&
  match time_param "from" q with Some t => t <=? tp_scheduled_departure tv.1 | None => true end &&
  match time_param "to" q with Some t => tp_scheduled_departure tv.1 <=? t | None => true end.
Definition departs_later (a b : trip_row * vehicle_row) : Prop :=
  tp_scheduled_departure b.1 <= tp_scheduled_departure a.1.
#[export] Instance departs_later_dec : RelDecision departs_later.
Proof. intros a b. apply Z_le_dec. Defined.
#[export] Instance departs_later_trans : Transitive departs_later.
Proof. intros a b c. unfold departs_later. lia. Qed.
#[export] Instance departs_later_total : Total departs_later.
Proof. intros a b. unfold departs_later. lia. Qed.
Definition trip_listing (q : list (string * string)) (ties : nat -> nat) (d : db)
  : list (trip_row * vehicle_row) :=
  order_by departs_later ties (List.filter (in_trip_list q) (joined_trips d)).
Definition trip_texts (q : list (string * string)) : bool :=
  no_nul (query_get "fleet_id" q) && no_nul (query_get "status" q).

(** The outer joins with the drivers and routes: the identifier when there is no row. *)
Definition driver_name (d : db) (driverID : string) : string :=
  match List.filter (fun x => bool_decide (dr_driver_id x = driverID)) (db_drivers d) with
  | x :: _ => dr_full_name x | [] => driverID
  end.
Definition route_name (d : db) (routeID : string) : string :=
  match List.filter (fun x => bool_decide (rr_route_id x = routeID)) (db_routes d) with
  | x :: _ => rr_route_name x | [] => routeID
  end.
Record tripListRow := MkTripListRow {
  tl_trip : trip_row; tl_vehicle : vehicle_row; tl_DriverName : string; tl_RouteName : string
}.
Definition list_row (d : db) (tv : trip_row * vehicle_row) : tripListRow :=
  MkTripListRow tv.1 tv.2 (driver_name d (tp_driver_id tv.1)) (route_name d (tp_route_id tv.1)).
Definition trip_page (q : list (string * string)) (limit offset : Z) (ties : nat -> nat) (d : db)
  : option (list tripListRow) :=
  if trip_texts q then
    l ← limit_offset limit offset (trip_listing q ties d); Some (map (list_row d) l)
  else None.
Definition departure_fields (t : trip_row) : list (string * json) :=
  ("scheduled_departure"%string, time_json (tp_scheduled_departure t)) ::
  opt_field "actual_departure" (time_json <$> tp_actual_departure t) ++
  opt_field "completed_at" (time_json <$> tp_completed_at t) ++
  [("created_at"%string, time_json (tp_created_at t))].
Definition trip_list_json (r : tripListRow) : json :=
  let t := tl_trip r in
  JObj ([("trip_id", JStr (tp_trip_id t)); ("vehicle_id", JStr (tp_vehicle_id t));
         ("vehicle_name", JStr (vr_display_name (tl_vehicle r)));
         ("driver_id", JStr (tp_driver_id t)); ("driver_name", JStr (tl_DriverName r));
         ("route_id", JStr (tp_route_id t)); ("route_name", JStr (tl_RouteName r));
         ("fleet_id", JStr (vr_fleet_id (tl_vehicle r))); ("status", JStr (tp_status t))]%string ++
        departure_fields t).

(** ** The detail *)
Record tripDetail := MkTripDetail {
  td_trip : trip_row; td_vehicle : vehicle_row; td_driver : driver_row; td_route : route_row;
  td_Stops : list StopProgress; td_StopsTotal : Z; td_StopsCompleted : Z; td_ETA : option string;
  td_DeviationStatus : string
}.
Definition trip_detail_row (tripID : string) (d : db)
  : option (trip_row * vehicle_row * driver_row * route_row) :=
  head (t ← List.filter (fun t => bool_decide (tp_trip_id t = tripID)) (db_trips d);
        v ← List.filter (fun v => bool_decide (vr_vehicle_id v = tp_vehicle_id t)) (db_vehicles d);
        dr ← List.filter (fun x => bool_decide (dr_driver_id x = tp_driver_id t)) (db_drivers d);
        r ← List.filter (fun x => bool_decide (rr_route_id x = tp_route_id t)) (db_routes d);
        [(t, v, dr, r)]).
Definition trip_detail_json (td : tripDetail) : json :=
  let '(MkTripDetail t v dr r stops total completed eta dev) := td in
  JObj ([("trip_id", JStr (tp_trip_id t)); ("status", JStr (tp_status t))]%string ++
        departure_fields t ++
        [("vehicle", JObj [("vehicle_id", JStr (vr_vehicle_id v));
            ("display_name", JStr (vr_display_name v));
            ("registration_number", JStr (vr_registration_number v));
            ("fleet_id", JStr (vr_fleet_id v))]);
         ("driver", JObj [("driver_id", JStr (dr_driver_id dr));
            ("full_name", JStr (dr_full_name dr)); ("phone_number", JStr (dr_phone_number dr))]);
         ("route", JObj [("route_id", JStr (rr_route_id r)); ("route_name", JStr (rr_route_name r));
            ("origin_name", JStr (rr_origin_name r));
            ("destination_name", JStr (rr_destination_name r));
            ("total_distance_km", jfloat (default f_zero (rr_total_distance_km r)))]);
         ("stops", JArr (map stop_progress_json stops)); ("stops_total", jint total);
         ("stops_completed", jint completed)]%string ++
        opt_field "eta" (JStr <$> eta) ++ [("deviation_status"%string, JStr dev)]).

(** *** The stops, as this handler reads them: the rows of the outer join in the order of
    the stops, scanned one by one into the list and the two counts. *)
Definition detail_join (d : db) (tripID : string) (s : stop_row) : list (stop_row * option progress_row) :=
  match List.filter (fun g => bool_decide (pg_stop_id g = rs_stop_id s) &&
                              bool_decide (pg_trip_id g = tripID)) (db_progress d) with
  | [] => [(s, None)]
  | gs => map (fun g => (s, Some g)) gs
  end.
Definition row_seq_le (a b : stop_row * option progress_row) : Prop :=
  rs_stop_sequence a.1 <= rs_stop_sequence b.1.
#[export] Instance row_seq_le_dec : RelDecision row_seq_le.
Proof. intros a b. apply Z_le_dec. Defined.
#[export] Instance row_seq_le_trans : Transitive row_seq_le.
Proof. intros a b c. unfold row_seq_le. lia. Qed.
#[export] Instance row_seq_le_total : Total row_seq_le.
Proof. intros a b. unfold row_seq_le. lia. Qed.
Definition detail_stop_rows (tripID routeID : string) (d : db) : list (stop_row * option progress_row) :=
  merge_sort row_seq_le
    (s ← List.filter (fun s => bool_decide (rs_route_id s = routeID)) (db_stops d);
     detail_join d tripID s).
Definition detail_stop (row : stop_row * option progress_row) : StopProgress :=
  MkStopProgress (rs_stop_id row.1) (rs_stop_name row.1) (rs_stop_sequence row.1)
    (from_option pg_status StopPending row.2) (row.2 ≫= pg_arrived_at) (row.2 ≫= pg_departed_at).
Definition scan_stop (acc : list StopProgress * Z * Z) (row : stop_row * option progress_row)
  : list StopProgress * Z * Z :=
  let '(stops, total, completed) := acc in
  let sp := detail_stop row in
  (stops ++ [sp], total + 1,
   if bool_decide (sp_Status sp = StopArrived) || bool_decide (sp_Status sp = StopDeparted)
   then completed + 1 else completed).

(** ** The handlers *)
Section Trips.
Context {R P : Type} `{RedisServer R} `{Database P}.
Notation W := (World R P).

Definition HandleList : handler W := fun _ _ rq =>
  let q := rq_query rq in
  let '(page, limit) := parsePagination (query_get "page" q) (query_get "limit" q) in
  let! count := query_opt (rq_cx rq) (trip_texts q)
                  (fun d => Some (length (List.filter (in_trip_list q) (joined_trips d)))) in
  let total := Z.of_nat (default O count) in
  let! rows := on_db (pg_try (rq_cx rq) (trip_page q limit (page_offset page limit) (rq_ties rq))) in
  match rows with
  | Err _ => write_error StatusInternalServerError "failed to query trips"
  | Ok rows =>
      writeJSON StatusOK (json_map [
        ("trips", JArr (map trip_list_json rows));
        ("pagination", pagination_json (NewPagination page limit total))]%string)
  end.

(** The reads that follow the row of the trip. *)
Definition detail_stops (cx : context) (tripID routeID : string) : M W (list StopProgress * Z * Z) :=
  let! rows := on_db (pg_try cx (fun d =>
    if no_nul tripID && no_nul routeID then Some (detail_stop_rows tripID routeID d) else None)) in
  retM (match rows with Ok rows => foldl scan_stop ([], 0, 0) rows | Err _ => ([], 0, 0) end).
Definition detail_eta (cx : context) (now : Time) (tripID : string) : M W (option string) :=
  let! r := on_redis (redis_get cx now ("trip:" ++ tripID ++ ":eta")%string) in
  retM (match r with Ok (Some etaVal) => Some etaVal | _ => None end).
Definition detail_deviation (cx : context) (now : Time) (vehicleID : string) : M W string :=
  let! r := on_redis (redis_get cx now ("vehicle:" ++ vehicleID ++ ":deviation")%string) in
  retM (if bool_decide (r = Ok (Some "true"%string)) then "deviated" else "on_route")%string.
Definition load_detail (cx : context) (now : Time)
    (row : trip_row * vehicle_row * driver_row * route_row) : M W tripDetail :=
  let '(t, v, dr, r) := row in
  let! scanned := detail_stops cx (tp_trip_id t) (tp_route_id t) in
  let! eta := detail_eta cx now (tp_trip_id t) in
  let! dev := detail_deviation cx now (vr_vehicle_id v) in
  let '(stops, total, completed) := scanned in
  retM (MkTripDetail t v dr r stops total completed eta dev).
Definition HandleDetail : handler W := fun _ vs rq =>
  let tripID := path_value "trip_id" vs in
  if bool_decide (tripID = ""%string)
  then write_error StatusBadRequest "trip_id path parameter is required"
  else
    let! found := query_opt (rq_cx rq) (no_nul tripID) (trip_detail_row tripID) in
    match found with
    | None => write_error StatusNotFound "trip not found"
    | Some row =>
        let! td := load_detail (rq_cx rq) (rq_now rq) row in
        writeJSON StatusOK (trip_detail_json td)
    end.
End Trips.

(** ** Properties *)
Section ReadOnly.
Context {R P : Type} `{RedisLaws R} `{DatabaseLaws P}.
Lemma read_only_detail_stops cx t r : read_only (R:=R) (P:=P) (detail_stops cx t r).
Proof. unfold detail_stops. solve_read_only. Qed.
Lemma read_only_detail_eta cx now t : read_only (R:=R) (P:=P) (detail_eta cx now t).
Proof. unfold detail_eta. solve_read_only. Qed.
Lemma read_only_detail_deviation cx now v : read_only (R:=R) (P:=P) (detail_deviation cx now v).
Proof. unfold detail_deviation. solve_read_only. Qed.
Lemma read_only_detail cx now row : read_only (R:=R) (P:=P) (load_detail cx now row).
Proof.
  unfold load_detail. destruct row as [[[t v] dr] r].
  repeat (apply read_only_bind; [auto using read_only_detail_stops, read_only_detail_eta,
    read_only_detail_deviation|intros]). destruct a as [[stops total] completed]. solve_read_only.
Qed.
End ReadOnly.
#[export] Hint Resolve read_only_detail : read_only.

(** What the list is to be: the trips whose vehicle belongs to the fleet asked for (to
    any, when none is), of the status asked for, in the window of departures asked for;
    a bound that is no RFC 3339 time is none. *)
Definition wanted (fleetID status from to : string) (t : trip_row) (v : vehicle_row) : Prop :=
  (fleetID = ""%string \/ vr_fleet_id v = fleetID) /\ (status = ""%string \/ tp_status t = status) /\
  (forall b, parse_rfc3339 from = Some b -> zt_instant b <= tp_scheduled_departure t) /\
  (forall b, parse_rfc3339 to = Some b -> tp_scheduled_departure t <= zt_instant b).
Definition departure_ge (x y : Time) : Prop := y <= x.
#[export] Instance departure_ge_antisymm : AntiSymm eq departure_ge.
Proof. intros x y. unfold departure_ge. lia. Qed.

(** A request for page [k] of the list. *)
Record asks_trips (fleetID status from to : string) (limit : Z) (k : nat) (rq : request) : Prop := {
  trips_live : rq_cx rq = Live;
  trips_fleet : query_get "fleet_id" (rq_query rq) = fleetID;
  trips_status : query_get "status" (rq_query rq) = status;
  trips_from : query_get "from" (rq_query rq) = from;
  trips_to : query_get "to" (rq_query rq) = to;
  trips_page : query_get "page" (rq_query rq) = FormatInt (Z.of_nat k);
  trips_limit : query_get "limit" (rq_query rq) = FormatInt limit
}.

Lemma joined_trip_in d t v :
  (t, v) ∈ joined_trips d <-> t ∈ db_trips d /\ v ∈ db_vehicles d /\ vr_vehicle_id v = tp_vehicle_id t.
Proof.
  unfold joined_trips. rewrite list_elem_of_bind. split.
  - intros (t' & Hv & Ht). apply list_elem_of_bind in Hv as (v' & Hin & Hv).
    apply list_elem_of_singleton in Hin. injection Hin as -> ->.
    by apply elem_of_select in Hv as [Hv Hid%bool_decide_eq_true].
  - intros (Ht & Hv & Hid). exists t. split; [|done]. apply list_elem_of_bind. exists v.
    split; [by left|]. apply elem_of_select. by rewrite bool_decide_eq_true.
Qed.
(** A trip has one vehicle, so it is listed once. *)
Lemma joined_trips_once d : keys d -> NoDup (map (fun tv => tp_trip_id tv.1) (joined_trips d)).
Proof.
  intros Hk. unfold joined_trips. pose proof (key_trip d Hk) as Ht. revert Ht.
  generalize (db_trips d). intros ts. induction ts as [|t ts IH]; intros Hnd; [constructor|].
  simpl in Hnd. apply NoDup_cons in Hnd as [Hn Hnd]. cbn [mbind list_bind]. rewrite map_app.
  destruct (select_key vr_vehicle_id (db_vehicles d) (tp_vehicle_id t) (key_vehicle d Hk))
    as [->|(v & -> & _)]; cbn [mbind list_bind map app]; [by apply IH|].
  apply NoDup_cons. split; [|by apply IH]. intros (tv & E & Hin)%list_elem_of_fmap. apply Hn.
  cbn in E. rewrite E. apply list_elem_of_bind in Hin as (t' & Hin & Ht).
  apply list_elem_of_bind in Hin as (v' & Hin & _). apply list_elem_of_singleton in Hin as ->.
  by apply (list_elem_of_fmap_2 tp_trip_id).
Qed.
Lemma in_trip_list_wanted fleetID status from to q t v :
  query_get "fleet_id" q = fleetID -> query_get "status" q = status ->
  query_get "from" q = from -> query_get "to" q = to ->
  in_trip_list q (t, v) = true <-> wanted fleetID status from to t v.
Proof.
  intros <- <- <- <-. unfold in_trip_list, wanted, param_is, time_param.
  rewrite !andb_true_iff, !orb_true_iff, !bool_decide_eq_true. cbn [fst snd].
  assert (Hle : forall (o : option zoned) (f : Time -> bool) (P : Time -> Prop),
    (forall x, f x = true <-> P x) ->
    match zt_instant <$> o with Some x => f x | None => true end = true <->
    forall b, o = Some b -> P (zt_instant b)).
  { intros [b|] f P Hf; simpl; [rewrite Hf|]; [|done]. split; [by intros ? ? [= <-]|auto]. }
  rewrite (Hle _ (fun x => x <=? tp_scheduled_departure t) (fun x => x <= tp_scheduled_departure t))
    by (intros x; apply Z.leb_le).
  rewrite (Hle _ (fun x => tp_scheduled_departure t <=? x) (fun x => tp_scheduled_departure t <= x))
    by (intros x; apply Z.leb_le). tauto.
Qed.

(** What the handler answers when the services are up. *)
Lemma list_answer c vs rq fleetID status from to limit k (w : World MemRedis MemDB) :
  up w -> asks_trips fleetID status from to limit k rq ->
  no_nul fleetID && no_nul status = true -> 1 <= limit <= 100 ->
  1 <= Z.of_nat k -> Z.of_nat k * limit <= int64_max ->
  let d := tables (w_db w) in
  let listing := trip_listing (rq_query rq) (rq_ties rq) d in
  let total := Z.of_nat (length listing) in
  total + limit <= int64_max ->
  HandleList c vs rq w = (encode_body StatusOK (json_map [
    ("trips", JArr (map (fun tv => trip_list_json (list_row d tv)) (page_slice limit listing k)));
    ("pagination", pagination_json (MkPaginationMeta (Z.of_nat k) limit total
       ((total + limit - 1) / limit)))]%string), w).
Proof.
  intros Hup [Hcx Hf Hs _ _ Hp Hli] Hn Hl Hk Hkl d listing total Hmax. unfold HandleList.
  rewrite Hp, Hli, parsePagination_print by (done || nia || lia).
  assert (Ht : trip_texts (rq_query rq) = true) by (unfold trip_texts; by rewrite Hf, Hs).
  unfold bindM. rewrite Hcx, query_opt_up, Ht, pg_try_up by done. unfold trip_page. rewrite Ht.
  fold d. fold listing. cbn [default].
  unfold limit_offset. rewrite page_offset_exact by nia. rewrite (proj2 (Z.ltb_ge _ 0)) by nia.
  cbn [mbind option_bind].
  assert (Hlen : Z.of_nat (length (List.filter (in_trip_list (rq_query rq)) (joined_trips d))) = total)
    by (unfold total, listing, trip_listing; f_equal; symmetry; apply Permutation_length, order_by_perm).
  unfold id. rewrite Hlen, NewPagination_ceil by lia. unfold page_slice.
  replace (Z.to_nat ((Z.of_nat k - 1) * limit)) with ((k - 1) * Z.to_nat limit)%nat
    by (rewrite Z2Nat.inj_mul by lia; f_equal; lia).
  by rewrite map_map.
Qed.


(** Every trip references a vehicle and a driver, and its identifiers are texts. *)
Record trips_ok (d : db) : Prop := {
  ok_keys : keys d;
  ok_vehicle : Forall (fun t => tp_vehicle_id t ∈ map vr_vehicle_id (db_vehicles d)) (db_trips d);
  ok_driver : Forall (fun t => tp_driver_id t ∈ map dr_driver_id (db_drivers d)) (db_trips d);
  ok_text : Forall (fun t => no_nul (tp_trip_id t) && no_nul (tp_route_id t) = true) (db_trips d)
}.

Lemma filter_key_in {A} (key : A -> string) (l : list A) k :
  k ∈ map key l -> exists x rest, List.filter (fun x => bool_decide (key x = k)) l = x :: rest /\ key x = k.
Proof.
  induction l as [|a l IH]; simpl; [by intros ?%elem_of_nil|]. intros [->|Hin]%elem_of_cons.
  - rewrite bool_decide_true by done. by eexists _, _.
  - case_bool_decide as Hk; [by eexists _, _|by apply IH].
Qed.

Lemma head_in {A} (l : list A) x : head l = Some x -> x ∈ l.
Proof. destruct l; [done|]. intros [= ->]. by left. Qed.

Lemma filter_key_unique {A} (key : A -> string) (l : list A) x :
  NoDup (map key l) -> x ∈ l -> List.filter (fun y => bool_decide (key y = key x)) l = [x].
Proof.
  intros Hnd Hx. destruct (select_key key l (key x) Hnd) as [Hf|(y & Hf & Hy & Hk)].
  - assert (Hin : x ∈ List.filter (fun y => bool_decide (key y = key x)) l).
    { apply list_elem_of_In, List.filter_In. split; [by apply list_elem_of_In|].
      by apply bool_decide_eq_true. }
    by rewrite Hf in Hin; apply elem_of_nil in Hin.
  - rewrite Hf. f_equal. clear Hf. induction l as [|a l IH]; [by apply elem_of_nil in Hx|].
    simpl in Hnd. apply NoDup_cons in Hnd as [Hn Hnd].
    apply elem_of_cons in Hx as [->|Hx], Hy as [->|Hy]; [done| | |by apply IH].
    + destruct Hn. rewrite <- Hk. by apply (list_elem_of_fmap_2 key).
    + destruct Hn. rewrite Hk. by apply (list_elem_of_fmap_2 key).
Qed.

(** The trip the panel shows has a detail. *)
Lemma active_trip_detail d v t r :
  trips_ok d -> active_trip v d = Some (t, r) ->
  t ∈ db_trips d /\ tp_vehicle_id t = v /\
  exists dv dr, trip_detail_row (tp_trip_id t) d = Some (t, dv, dr, r) /\ vr_vehicle_id dv = v.
Proof.
  intros [Hk Hv Hd _] Ha. apply head_in, list_elem_of_bind in Ha as (t' & Ha & Ht).
  apply list_elem_of_bind in Ha as (r' & Ha & Hr). apply list_elem_of_singleton in Ha.
  injection Ha as <- <-. apply list_elem_of_In, List.filter_In in Ht as [Ht%list_elem_of_In Hb].
  apply andb_true_iff in Hb as [Hvid%bool_decide_eq_true _].
  apply list_elem_of_In, List.filter_In in Hr as [Hr%list_elem_of_In Hrid%bool_decide_eq_true].
  split; [done|]. split; [done|].
  rewrite Forall_forall in Hv, Hd. pose proof (Hv t Ht) as Hvt. pose proof (Hd t Ht) as Hdt.
  apply filter_key_in in Hvt as (dv & restv & Hfv & Hdv).
  apply filter_key_in in Hdt as (dr & restd & Hfd & Hdr).
  exists dv, dr. split; [|congruence]. unfold trip_detail_row.
  rewrite (filter_key_unique tp_trip_id) by (done || apply Hk). cbn [mbind list_bind].
  rewrite Hfv. cbn [mbind list_bind]. rewrite Hfd. cbn [mbind list_bind].
  rewrite <- Hrid, (filter_key_unique rr_route_id) by (done || apply Hk). done.
Qed.

Lemma load_stop_progress_up trip route (w : World MemRedis MemDB) :
  up w -> no_nul trip && no_nul route = true ->
  load_stop_progress Live trip route w = (stop_progress trip route (tables (w_db w)), w).
Proof.
  intros Hup Hn. unfold load_stop_progress, bindM. by rewrite query_opt_up, Hn by done.
Qed.

(** *** The two readings of the stops *)
Lemma scan_stops rows stops total completed :
  foldl scan_stop (stops, total, completed) rows =
  (stops ++ map detail_stop rows, total + Z.of_nat (length rows),
   completed + stops_completed (map detail_stop rows)).
Proof.
  revert stops total completed. induction rows as [|row rows IH]; intros stops total completed.
  - cbn. rewrite app_nil_r. apply f_equal2; [apply f_equal2; [done|lia]|].
    unfold stops_completed. cbn. lia.
  - cbn [foldl scan_stop]. rewrite IH. cbn [map length]. rewrite <- app_assoc.
    unfold stops_completed. rewrite count_if_cons. fold (is_completed (detail_stop row)).
    destruct (is_completed (detail_stop row));
      (apply f_equal2; [apply f_equal2; [done|lia]|lia]).
Qed.
Lemma detail_join_entries d tripID s :
  map detail_stop (detail_join d tripID s) = progress_entries d tripID s.
Proof.
  unfold detail_join, progress_entries.
  rewrite (List.filter_ext (fun g => bool_decide (pg_stop_id g = rs_stop_id s) &&
    bool_decide (pg_trip_id g = tripID)) (is_progress tripID (rs_stop_id s)))
    by (intros g; unfold is_progress; apply andb_comm).
  destruct (List.filter _ _) as [|g gs]; [done|]. by rewrite map_map.
Qed.
Lemma detail_rows_entries d tripID (l : list stop_row) :
  map detail_stop (s ← l; detail_join d tripID s) = (s ← l; progress_entries d tripID s).
Proof.
  induction l as [|s l IH]; [done|]. cbn [mbind list_bind] in *.
  by rewrite map_app, detail_join_entries, IH.
Qed.
Lemma detail_stop_rows_spec tripID routeID d :
  map detail_stop (detail_stop_rows tripID routeID d) ≡ₚ stop_progress tripID routeID d /\
  StronglySorted sp_le (map detail_stop (detail_stop_rows tripID routeID d)).
Proof.
  unfold detail_stop_rows, stop_progress. split.
  - rewrite (merge_sort_Permutation sp_le), <- detail_rows_entries.
    apply Permutation_map, merge_sort_Permutation.
  - apply (StronglySorted_map row_seq_le); [done|]. apply StronglySorted_merge_sort; apply _.
Qed.
Lemma stops_completed_perm l l' : l ≡ₚ l' -> stops_completed l = stops_completed l'.
Proof.
  intros Hp. unfold stops_completed. f_equal. induction Hp; rewrite ?count_if_cons; lia.
Qed.

(** *** The detail with the services up *)
Section Reliable.
Notation W := (World MemRedis MemDB).
Lemma detail_stops_up trip route (w : W) :
  up w -> no_nul trip && no_nul route = true ->
  let stops := map detail_stop (detail_stop_rows trip route (tables (w_db w))) in
  detail_stops Live trip route w = ((stops, stops_total stops, stops_completed stops), w).
Proof.
  intros Hup Hn stops. unfold detail_stops, bindM. rewrite pg_try_up, Hn by done. cbn [retM].
  unfold retM. rewrite scan_stops. unfold stops, stops_total. by rewrite length_map.
Qed.
Lemma detail_eta_up now t (w : W) :
  up w -> detail_eta Live now t w = (string_at now (eta_key t) (mem (w_redis w)), w).
Proof.
  destruct w as [[st os] [d ds] q]. intros [Ho _]. simpl in Ho. subst os.
  unfold detail_eta, bindM, on_redis, redis_get, string_at, eta_key. simpl.
  by destruct (live now _ st) as [[]|].
Qed.
Lemma detail_deviation_up now v (w : W) :
  up w -> detail_deviation Live now v w = (deviation_at now v (mem (w_redis w)), w).
Proof.
  destruct w as [[st os] [d ds] q]. intros [Ho _]. simpl in Ho. subst os.
  unfold detail_deviation, bindM, on_redis, redis_get, deviation_at, string_at, dev_key, retM. simpl.
  destruct (live now _ st) as [[s|h]|]; [|done..].
  destruct (decide (s = "true"%string)) as [->|Hne]; [done|].
  rewrite !bool_decide_false by congruence. done.
Qed.
End Reliable.

(** C40. The panel and the trip detail agree. The two handlers have each their own code
    that reads the stops, the estimate and the deviation status; with the services up,
    the trip section of a vehicle's panel and the detail of the trip it names show the
    same route, status, number of stops, number of them arrived at or left, estimate and
    deviation status, and the same stops: those of the route, each with the status and
    times of its progress row, in the order of their numbers; which is the same list
    when no two stops of the route have the same number. *)
Theorem panel_agrees_with_detail now v (w : World MemRedis MemDB) t r :
  let d := tables (w_db w) in
  up w -> trips_ok d -> no_nul v = true -> active_trip v d = Some (t, r) ->
  exists dv dr ti td,
    pn_ActiveTrip (load_panel Live now v w).1 = Some ti /\
    trip_detail_row (tp_trip_id t) d = Some (t, dv, dr, r) /\
    load_detail Live now (t, dv, dr, r) w = (td, w) /\
    (ti_TripID ti, ti_Status ti, ti_RouteName ti) =
      (tp_trip_id (td_trip td), tp_status (td_trip td), rr_route_name (td_route td)) /\
    ti_Stops ti ≡ₚ td_Stops td /\ StronglySorted sp_le (ti_Stops ti) /\
    StronglySorted sp_le (td_Stops td) /\
    (NoDup (map sp_Sequence (td_Stops td)) -> ti_Stops ti = td_Stops td) /\
    ti_StopsTotal ti = td_StopsTotal td /\
    td_StopsTotal td = Z.of_nat (length (td_Stops td)) /\
    ti_StopsCompleted ti = td_StopsCompleted td /\
    td_StopsCompleted td = Z.of_nat (count_if (fun sp =>
      bool_decide (sp_Status sp ∈ ["ARRIVED"; "DEPARTED"]%string)) (td_Stops td)) /\
    ti_ETA ti = td_ETA td /\ ti_DeviationStatus ti = td_DeviationStatus td /\
    map sp_StopID (td_Stops td) ≡ₚ
      map rs_stop_id (List.filter (fun s => bool_decide (rs_route_id s = tp_route_id t)) (db_stops d)) /\
    Forall (fun sp => sp_Status sp = stop_status d (tp_trip_id t) (sp_StopID sp)) (td_Stops td).
Proof.
  intros d Hup Hok Hv Ha.
  destruct (active_trip_detail d v t r Hok Ha) as (Ht & Htv & dv & dr & Hrow & Hdv).
  pose proof (ok_text d Hok) as Htext. rewrite Forall_forall in Htext. specialize (Htext t Ht).
  destruct (stop_progress_spec (tp_trip_id t) (tp_route_id t) d (ok_keys d Hok)) as (Hs & Hp & Hst).
  destruct (detail_stop_rows_spec (tp_trip_id t) (tp_route_id t) d) as [Hperm Hsorted].
  eexists dv, dr, _, _. split; [|split; [exact Hrow|split]].
  - unfold load_panel, bindM. rewrite live_telemetry_up by apply Hup.
    rewrite query_opt_up, Hv by done. rewrite query_opt_up by done. fold d. rewrite Ha.
    unfold load_trip, load_trip_info, bindM.
    rewrite load_stop_progress_up, deviation_status_up, trip_eta_up by done. cbn [retM].
    rewrite query_opt_up by done. cbn [retM]. rewrite query_opt_up by done. reflexivity.
  - unfold load_detail, bindM. rewrite detail_stops_up, detail_eta_up, detail_deviation_up by done.
    reflexivity.
  - cbn [ti_TripID ti_Status ti_RouteName ti_Stops ti_StopsTotal ti_StopsCompleted ti_ETA
      ti_DeviationStatus td_trip td_route td_Stops td_StopsTotal td_StopsCompleted td_ETA
      td_DeviationStatus fst].
    fold d. rewrite Hdv. split_and!; try done.
    + intros Hnd. apply (perm_by_key sp_Sequence); [done| |by rewrite <- Hperm].
      apply (StronglySorted_unique Z.le).
      * exact (StronglySorted_map sp_le Z.le sp_Sequence _ (fun a b Hab => Hab) Hs).
      * exact (StronglySorted_map sp_le Z.le sp_Sequence _ (fun a b Hab => Hab) Hsorted).
      * by rewrite <- Hperm.
    + unfold stops_total. f_equal. symmetry. by apply Permutation_length.
    + symmetry. by apply stops_completed_perm.
    + unfold stops_completed. f_equal. unfold count_if. f_equal. apply List.filter_ext.
      intros sp. unfold is_completed.
      rewrite <- bool_decide_or. apply bool_decide_ext. rewrite !elem_of_cons, elem_of_nil. tauto.
    + by rewrite Hperm.
    + by rewrite Hperm.
Qed.

(** ** Examples and witnesses *)
Definition demo_trip (id v : string) (status : string) (at_ : Time) : trip_row :=
  MkTripRow id v "d1" "r1" status at_ None None 0.
Definition demo_trips_db : db :=
  MkDb [] [] 1
    [MkVehicleRow "v1" "fleet-a" "Truck 1" "TEST-1" "truck" None None true;
     MkVehicleRow "v2" "fleet-b" "Truck 2" "TEST-2" "truck" None None true]
    [MkDriverRow "d1" "Ann" "555" "L1" 0 true]
    [MkRouteRow "r1" "North" "A" f_zero f_zero "B" f_zero f_one f_one None true]
    [demo_stop "s2" 2 1; demo_stop "s1" 1 0] []
    [demo_trip "t1" "v1" TripInProgress (3 * Second); demo_trip "t2" "v2" TripScheduled (9 * Second);
     demo_trip "t3" "v1" TripScheduled (5 * Second)]
    [MkProgressRow "t1" "s1" StopDeparted (Some 0) (Some 1)].
Definition demo_trips_world : World MemRedis MemDB :=
  MkWorld empty_redis (MkMemDB demo_trips_db []) [].

Lemma demo_trips_ok : trips_ok demo_trips_db.
Proof.
  split; [split|..]; try (apply (bool_decide_unpack _); by vm_compute).
Qed.

(** Without a fleet the list shows the trips of every fleet. *)
Example trips_of_every_fleet :
  map (fun tv => vr_fleet_id tv.2) (trip_listing [] id demo_trips_db) =
  ["fleet-b"; "fleet-a"; "fleet-a"]%string.
Proof. vm_compute. reflexivity. Qed.

Definition demo_list_request (k : nat) : request :=
  demo_get [("fleet_id", "fleet-a"); ("status", ""); ("from", ""); ("to", "");
            ("page", FormatInt (Z.of_nat k)); ("limit", "1")]%string None.

Lemma panel_agrees_with_detail_witness :
  exists dv dr ti td,
    pn_ActiveTrip (load_panel Live 0 "v1" demo_trips_world).1 = Some ti /\
    trip_detail_row "t1" demo_trips_db =
      Some (demo_trip "t1" "v1" TripInProgress (3 * Second), dv, dr,
            MkRouteRow "r1" "North" "A" f_zero f_zero "B" f_zero f_one f_one None true) /\
    ti_Stops ti = td_Stops td /\ map sp_Status (td_Stops td) = [StopDeparted; StopPending].
Proof.
  destruct (panel_agrees_with_detail 0 "v1" demo_trips_world
    (demo_trip "t1" "v1" TripInProgress (3 * Second))
    (MkRouteRow "r1" "North" "A" f_zero f_zero "B" f_zero f_one f_one None true)
    (conj eq_refl eq_refl) demo_trips_ok eq_refl ltac:(vm_compute; reflexivity))
    as (dv & dr & ti & td & Hp & Hr & Htd & _ & _ & _ & _ & Hs & _).
  vm_compute in Hr. injection Hr as <- <-. vm_compute in Htd. injection Htd as <-.
  eexists _, _, ti, _. split; [exact Hp|]. split; [reflexivity|].
  split; [apply Hs; apply (bool_decide_unpack _); vm_compute; done|reflexivity].
Defined.
