(* ===== verification/Analytics.v ===== *)
(** * [serving/internal/handler/analytics.go]

    The summary of a fleet: counts over the database, and over the state hashes in
    Redis found by a SCAN. What the successive SCAN calls answer, up to the one that
    returns cursor 0, is a parameter: a list of pages of keys, or of errors. Redis
    promises that a key present all along is in some page, not that it is in one only. *)
From Stdlib Require Import SpecFloat.
From S2P Require Import Prelude GoNum Strconv Json Redis Domain Rfc3339 RedisStore Auth Http Tables.
From S2P Require Import Events Geo Heartbeat StopDetector Eta Deviation Helpers Alerts Views Vehicles Trips.
Local Open Scope Z_scope.
Local Open Scope fleet_scope.

(** ** The live states *)
Record live_counts := MkLiveCounts { n_moving : Z; n_idle : Z; n_parked : Z; n_total : Z }.
Definition no_counts : live_counts := MkLiveCounts 0 0 0 0.
Definition count_vehicle (isMoving engineOn : bool) (c : live_counts) : live_counts :=
  let '(MkLiveCounts m i p t) := c in
  if isMoving then MkLiveCounts (m + 1) i p (t + 1)
  else if engineOn then MkLiveCounts m (i + 1) p (t + 1)
  else MkLiveCounts m i (p + 1) (t + 1).
(** One key: the values of its HMGET. *)
Definition count_values (fleetID : string) (vals : list (option string)) (c : live_counts)
  : live_counts :=
  match vals with
  | Some fleet :: isMoving :: engineOn :: _ =>
      if bool_decide (fleet = fleetID)
      then count_vehicle (parseBool isMoving) (parseBool engineOn) c else c
  | _ => c
  end.

Record AnalyticsSummaryResponse := MkSummary {
  as_FleetID : string; as_TotalVehicles : Z; as_Live : live_counts; as_Offline : Z;
  as_OpenAlerts : Z; as_TripsInProgress : Z
}.
Definition summary_json (s : AnalyticsSummaryResponse) : json :=
  let c := as_Live s in
  JObj [("fleet_id", JStr (as_FleetID s)); ("total_vehicles", jint (as_TotalVehicles s));
    ("live_vehicles", jint (n_total c)); ("active_moving", jint (n_moving c));
    ("idle", jint (n_idle c)); ("parked", jint (n_parked c)); ("offline", jint (as_Offline s));
    ("open_alerts", jint (as_OpenAlerts s));
    ("trips_in_progress", jint (as_TripsInProgress s))]%string.

(** ** The queries *)
Definition registered (fleetID : string) (d : db) : Z :=
  Z.of_nat (count_if (fun v => bool_decide (vr_fleet_id v = fleetID) && vr_active v) (db_vehicles d)).
Definition fleet_open_alerts (fleetID : string) (d : db) : Z :=
  Z.of_nat (count_if (fun a => bool_decide (al_fleet_id a = fleetID) &&
    is_none (al_acknowledged_at a) && is_none (al_resolved_at a)) (db_alerts d)).
Definition fleet_trips (fleetID : string) (d : db) : Z :=
  Z.of_nat (count_if (fun tv => bool_decide (vr_fleet_id tv.2 = fleetID) &&
    bool_decide (tp_status tv.1 = TripInProgress)) (joined_trips d)).

(** ** The handler *)
Section Analytics.
Context {R P : Type} `{RedisServer R} `{Database P}.
Notation W := (World R P).

(** The keys of a page; a key whose HMGET fails is skipped. *)
Fixpoint count_keys (cx : context) (now : Time) (fleetID : string) (keys : list string)
    (c : live_counts) : M W live_counts :=
  match keys with
  | [] => retM c
  | k :: keys' =>
      let! r := on_redis (redis_hmget cx now k ["fleet_id"; "is_moving"; "engine_on"]%string) in
      count_keys cx now fleetID keys'
        (match r with Ok vals => count_values fleetID vals c | Err _ => c end)
  end.
Fixpoint countLiveStates (cx : context) (now : Time) (fleetID : string)
    (scan : list (res (list string))) (c : live_counts) : M W (res live_counts) :=
  match scan with
  | [] => retM (Ok c)
  | Err e :: _ => retM (Err e)
  | Ok keys :: scan' =>
      let! c' := count_keys cx now fleetID keys c in
      countLiveStates cx now fleetID scan' c'
  end.

Definition count_query (cx : context) (fleetID : string) (q : db -> Z) : M W (option Z) :=
  query_opt cx (no_nul fleetID) (fun d => Some (q d)).

Definition HandleSummary (scan : list (res (list string))) : handler W := fun _ vs rq =>
  let fromPath := path_value "fleet_id" vs in
  let fleetID := if bool_decide (fromPath = ""%string) then query_get "fleet_id" (rq_query rq)
                 else fromPath in
  let fail := write_error StatusInternalServerError in
  if bool_decide (fleetID = ""%string)
  then write_error StatusBadRequest "fleet_id path parameter is required"
  else
    let! total := count_query (rq_cx rq) fleetID (registered fleetID) in
    match total with
    | None => fail "failed to count vehicles"
    | Some totalVehicles =>
        let! r := countLiveStates (rq_cx rq) (rq_now rq) fleetID scan no_counts in
        match r with
        | Err _ => fail "failed to read live vehicle states"
        | Ok c =>
            let offline := Z.max 0 (totalVehicles - n_total c) in
            let! open_ := count_query (rq_cx rq) fleetID (fleet_open_alerts fleetID) in
            match open_ with
            | None => fail "failed to count open alerts"
            | Some openAlerts =>
                let! trips := count_query (rq_cx rq) fleetID (fleet_trips fleetID) in
                match trips with
                | None => fail "failed to count in-progress trips"
                | Some tripsInProgress =>
                    writeJSON StatusOK (summary_json
                      (MkSummary fleetID totalVehicles c offline openAlerts tripsInProgress))
                end
            end
        end
    end.
End Analytics.

(** ** Properties *)
Section ReadOnly.
Context {R P : Type} `{RedisLaws R} `{DatabaseLaws P}.
Lemma read_only_count_keys cx now f keys c : read_only (R:=R) (P:=P) (count_keys cx now f keys c).
Proof. revert c. induction keys as [|k keys IH]; intros c; simpl; solve_read_only. Qed.
Lemma read_only_count_query cx f q : read_only (R:=R) (P:=P) (count_query cx f q).
Proof. apply read_only_opt. Qed.
End ReadOnly.
#[export] Hint Resolve read_only_count_keys read_only_count_query : read_only.
Section ReadOnlyScan.
Context {R P : Type} `{RedisLaws R} `{DatabaseLaws P}.
Lemma read_only_live_states cx now f scan c :
  read_only (R:=R) (P:=P) (countLiveStates cx now f scan c).
Proof. revert c. induction scan as [|[keys|e] scan IH]; intros c; simpl; solve_read_only. Qed.
Lemma read_only_summary scan c vs rq : read_only (R:=R) (P:=P) (HandleSummary scan c vs rq).
Proof.
  unfold HandleSummary. case_bool_decide; [done|].
  repeat (apply read_only_bind; [eauto using read_only_live_states with read_only|intros [?|]; [|done]]).
  done.
Qed.
End ReadOnlyScan.
#[export] Hint Resolve read_only_live_states read_only_summary : read_only.

(** What a vehicle does according to its state: nothing, if it has none or is of
    another fleet. *)
Inductive motion := Moving | Idle | Parked.
#[export] Instance motion_eq_dec : EqDecision motion.
Proof. solve_decision. Defined.
Definition flag (h : gmap string string) (k : string) : bool :=
  bool_decide (h !! k = Some "1"%string \/ h !! k = Some "true"%string).
Lemma parseBool_flag h k : parseBool (h !! k) = flag h k.
Proof.
  unfold parseBool, flag. destruct (h !! k) as [s|]; [|by rewrite bool_decide_false by (intros [|]; done)].
  rewrite <- bool_decide_or. apply bool_decide_ext.
  split; intros [E|E]; [left|right|left|right]; congruence.
Qed.
Definition motion_of (now : Time) (st : rstate) (fleetID v : string) : option motion :=
  match live now (state_key v) st with
  | Some (RHash h) =>
      if bool_decide (h !! "fleet_id" = Some fleetID)%string then
        Some (if flag h "is_moving" then Moving else if flag h "engine_on" then Idle else Parked)
      else None
  | _ => None
  end.
Definition vehicles_in (now : Time) (st : rstate) (f : string) (s : option motion) (vs : list string)
  : Z := Z.of_nat (count_if (fun v => match s with
                                      | Some s => bool_decide (motion_of now st f v = Some s)
                                      | None => bool_decide (motion_of now st f v <> None)
                                      end) vs).
Definition counted (now : Time) (st : rstate) (f : string) (vs : list string) : live_counts :=
  let n s := vehicles_in now st f s vs in
  MkLiveCounts (n (Some Moving)) (n (Some Idle)) (n (Some Parked)) (n None).
Definition add_counts (a b : live_counts) : live_counts :=
  MkLiveCounts (n_moving a + n_moving b) (n_idle a + n_idle b) (n_parked a + n_parked b)
    (n_total a + n_total b).

Section Reliable.
Notation W := (World MemRedis MemDB).

(** One HMGET. *)
Lemma count_key_up now f v c (w : W) :
  up w ->
  let '(r, w') := on_redis (redis_hmget Live now (state_key v)
                     ["fleet_id"; "is_moving"; "engine_on"]%string) w in
  w' = w /\
  match r with Ok vals => count_values f vals c | Err _ => c end =
  match motion_of now (mem (w_redis w)) f v with
  | Some Moving => count_vehicle true false c
  | Some Idle => count_vehicle false true c
  | Some Parked => count_vehicle false false c
  | None => c
  end.
Proof.
  destruct w as [[st os] [d ds] q]. intros [Ho _]. simpl in Ho. subst os.
  unfold on_redis, redis_hmget, motion_of. simpl.
  destruct (live now (state_key v) st) as [[s|h]|]; split; try done. simpl.
  destruct (h !! "fleet_id"%string) as [x|]; [|done].
  destruct (decide (x = f)) as [->|Hne].
  - rewrite !bool_decide_true, !parseBool_flag by done. destruct c.
    destruct (flag _ _); [done|]. by destruct (flag _ _).
  - rewrite !bool_decide_false by congruence. done.
Qed.

Lemma count_keys_up now f vs c (w : W) :
  up w -> count_keys Live now f (map state_key vs) c w =
          (add_counts c (counted now (mem (w_redis w)) f vs), w).
Proof.
  intros Hup. revert c. induction vs as [|v vs IH]; intros c; simpl.
  { unfold retM, add_counts, counted, vehicles_in. simpl. rewrite !Z.add_0_r. by destruct c. }
  unfold bindM. pose proof (count_key_up now f v c w Hup) as Hk.
  destruct (on_redis _ w) as [r w']. destruct Hk as [-> Hk]. rewrite IH, Hk. f_equal.
  unfold counted, vehicles_in. rewrite !count_if_cons.
  destruct (motion_of now _ f v) as [[]|], c; unfold add_counts; simpl; f_equal; lia.
Qed.

Lemma vehicles_in_app now st f s vs vs' :
  vehicles_in now st f s (vs ++ vs') = vehicles_in now st f s vs + vehicles_in now st f s vs'.
Proof. unfold vehicles_in. rewrite count_if_app. lia. Qed.

Lemma countLiveStates_up now f pages c (w : W) :
  up w -> countLiveStates Live now f (map (fun vs => Ok (map state_key vs)) pages) c w =
          (Ok (add_counts c (counted now (mem (w_redis w)) f (concat pages))), w).
Proof.
  intros Hup. revert c. induction pages as [|vs pages IH]; intros c; simpl.
  { unfold retM, add_counts, counted, vehicles_in. simpl. rewrite !Z.add_0_r. by destruct c. }
  unfold bindM. rewrite count_keys_up, IH by done. f_equal. f_equal.
  unfold counted. rewrite !vehicles_in_app. unfold add_counts. simpl. f_equal; lia.
Qed.
End Reliable.

Lemma counted_partition now st f vs :
  let c := counted now st f vs in n_total c = n_moving c + n_idle c + n_parked c.
Proof.
  simpl. induction vs as [|v vs IH]; [done|].
  unfold vehicles_in in *. rewrite !count_if_cons.
  destruct (motion_of now st f v) as [[]|]; simpl; lia.
Qed.

(** The vehicles of a set that satisfy [P]. *)
Definition number (P : string -> Prop) `{forall v, Decision (P v)} (vehicles : gset string) : Z :=
  Z.of_nat (size (filter P vehicles)).
Lemma count_if_number (P : string -> Prop) `{forall v, Decision (P v)} p l (X : gset string) :
  NoDup l -> (forall v, v ∈ l <-> v ∈ X) -> (forall v, p v = true <-> P v) ->
  Z.of_nat (count_if p l) = number P X.
Proof.
  intros Hnd Hl Hp. unfold number, count_if. f_equal. unfold size, set_size. simpl.
  apply Permutation_length, NoDup_Permutation.
  - by apply NoDup_ListNoDup, List.NoDup_filter, NoDup_ListNoDup.
  - apply NoDup_elements.
  - intros v. rewrite elem_of_elements, elem_of_filter, <- Hl, <- Hp.
    rewrite !list_elem_of_In, List.filter_In. tauto.
Qed.

(** What the three queries count. *)
Lemma count_if_filter {A} (p : A -> bool) (P : A -> Prop) `{forall x, Decision (P x)} l :
  (forall x, p x = true <-> P x) -> count_if p l = length (filter P l).
Proof.
  intros Hp. induction l as [|x l IH]; [done|]. rewrite count_if_cons, filter_cons, IH.
  destruct (p x) eqn:E.
  - by rewrite decide_True by (by apply Hp).
  - rewrite decide_False; [done|]. intros Hx%Hp. congruence.
Qed.
Definition of_fleet (f : string) (d : db) (t : trip_row) : Prop :=
  Exists (fun v => vr_vehicle_id v = tp_vehicle_id t /\ vr_fleet_id v = f) (db_vehicles d).
#[export] Instance of_fleet_dec f d t : Decision (of_fleet f d t).
Proof. unfold of_fleet. apply _. Defined.
Lemma fleet_trips_count f d :
  keys d ->
  fleet_trips f d =
  Z.of_nat (length (filter (fun t => tp_status t = "IN_PROGRESS"%string /\ of_fleet f d t) (db_trips d))).
Proof.
  intros Hk. unfold fleet_trips, joined_trips. f_equal. induction (db_trips d) as [|t l IH]; [done|].
  cbn [mbind list_bind]. rewrite count_if_app, IH, filter_cons. clear IH.
  assert (Hv : of_fleet f d t <-> exists v,
    List.filter (fun v => bool_decide (vr_vehicle_id v = tp_vehicle_id t)) (db_vehicles d) = [v] /\
    vr_fleet_id v = f).
  { unfold of_fleet. rewrite Exists_exists. split.
    - intros (v & Hin & Hid & Hf).
      destruct (select_key vr_vehicle_id (db_vehicles d) (tp_vehicle_id t) (key_vehicle d Hk))
        as [E|(v' & E & Hin' & Hid')].
      + assert (Hx : v ∈ List.filter (fun v => bool_decide (vr_vehicle_id v = tp_vehicle_id t))
          (db_vehicles d)) by (by apply elem_of_select; rewrite bool_decide_eq_true).
        rewrite E in Hx. by apply elem_of_nil in Hx.
      + exists v'. split; [done|]. replace v' with v; [done|].
        apply (NoDup_map_inj vr_vehicle_id (db_vehicles d)); [apply Hk|done|done|congruence].
    - intros (v & E & Hf). exists v.
      assert (Hx : v ∈ List.filter (fun v => bool_decide (vr_vehicle_id v = tp_vehicle_id t))
          (db_vehicles d)) by (rewrite E; by left).
      by apply elem_of_select in Hx as [? ?%bool_decide_eq_true]. }
  destruct (select_key vr_vehicle_id (db_vehicles d) (tp_vehicle_id t) (key_vehicle d Hk))
    as [E|(v & E & _)]; rewrite E in Hv |- *; cbn [mbind list_bind app].
  - rewrite decide_False; [done|]. intros [_ Ht]. by apply Hv in Ht as (v & [=] & _).
  - rewrite count_if_cons. cbn [fst snd]. rewrite andb_comm.
    change (bool_decide (tp_status t = TripInProgress)) with (bool_decide (tp_status t = "IN_PROGRESS"%string)).
    rewrite <- bool_decide_and. destruct (decide (_ /\ of_fleet f d t)) as [[Hs Ht]|Hn].
    + apply Hv in Ht as (v' & [= <-] & Hf). by rewrite bool_decide_true.
    + rewrite bool_decide_false; [done|]. intros [Hs Hf]. apply Hn. split; [done|]. apply Hv. by exists v.
Qed.


(** ** Examples and witnesses *)
Definition demo_hash (fleet moving engine : string) : rval * option Z :=
  (RHash (<["fleet_id" := fleet]> (<["is_moving" := moving]> {["engine_on" := engine]})), None)%string.
Definition demo_states : rstate :=
  MkRstate (<[state_key "v1" := demo_hash "fleet-a" "1" "1"]>
    (<[state_key "v2" := demo_hash "fleet-a" "0" "1"]>
      {[state_key "v3" := demo_hash "fleet-b" "1" "1"]}))%string [].
Definition demo_fleet_world : World MemRedis MemDB :=
  MkWorld (MkMemRedis demo_states []) (MkMemDB demo_trips_db []) [].
Definition demo_summary_request : request := demo_get [("fleet_id", "fleet-a")]%string None.

Lemma demo_states_live v :
  v ∈ ({["v1"; "v2"; "v3"]} : gset string)%string <-> is_Some (live 0 (state_key v) demo_states).
Proof.
  unfold live, demo_states. cbn [rs_kv]. rewrite !elem_of_union, !elem_of_singleton.
  destruct (decide (v = "v1"%string)) as [->|H1]; [vm_compute; split; eauto|].
  destruct (decide (v = "v2"%string)) as [->|H2]; [vm_compute; split; eauto|].
  destruct (decide (v = "v3"%string)) as [->|H3]; [vm_compute; split; eauto|].
  rewrite !lookup_insert_ne, lookup_singleton_ne by (intros ?%state_key_inj; congruence).
  split; [tauto|by intros [? ?]].
Qed.


(** The live vehicles include those that are not registered as active: here [v2] hides a
    registered vehicle that is silent. *)
Example offline_undercounted :
  let d := MkDb [] [] 1 [MkVehicleRow "v9" "fleet-a" "Truck 9" "TEST-9" "truck" None None true]
             [] [] [] [] [] [] in
  let w := MkWorld (MkMemRedis demo_states []) (MkMemDB d []) [] in
  live 0 (state_key "v9") demo_states = None /\
  (HandleSummary [Ok [state_key "v2"]] no_ctx [] demo_summary_request w).1 =
  encode_body StatusOK (summary_json (MkSummary "fleet-a" 1 (MkLiveCounts 0 1 0 1) 0 0 0)).
Proof. vm_compute. split; reflexivity. Qed.

(** SCAN may answer a key twice; the vehicle is then counted twice. *)
Example scan_duplicates :
  (HandleSummary [Ok [state_key "v2"]; Ok [state_key "v2"]] no_ctx [] demo_summary_request
     demo_fleet_world).1 =
  encode_body StatusOK (summary_json (MkSummary "fleet-a" 1 (MkLiveCounts 0 2 0 2) 0 0 1)).
Proof. vm_compute. reflexivity. Qed.

(** A vehicle that reports moving with its engine off is counted as active. *)
Example moving_with_engine_off :
  let st := MkRstate {[state_key "v1" := demo_hash "fleet-a" "1" "0"]} [] in
  let w : World MemRedis MemDB := MkWorld (MkMemRedis st []) (MkMemDB demo_trips_db []) [] in
  (HandleSummary [Ok [state_key "v1"]] no_ctx [] demo_summary_request w).1 =
  encode_body StatusOK (summary_json (MkSummary "fleet-a" 1 (MkLiveCounts 1 0 0 1) 0 0 1)).
Proof. vm_compute. reflexivity. Qed.
