(* ===== verification/AlertDetail.v ===== *)
(** * [HandleAlertDetail] of [serving/internal/handler/alert.go]

    One alert with its vehicle, the trip in progress, and the telemetry of the vehicle
    when the alert was created. *)
From Stdlib Require Import SpecFloat.
From S2P Require Import Prelude GoNum Strconv Json Redis Domain Rfc3339 RedisStore Auth Http Tables.
From S2P Require Import Events Geo Heartbeat StopDetector Eta Deviation Helpers Alerts Views Vehicles Trips.
Local Open Scope Z_scope.
Local Open Scope fleet_scope.

(** ** The queries *)

(** The row of the alert, with its value (a NULL does not scan) and its vehicle, if the
    vehicle is registered. *)
Definition alert_detail_row (alertID : Z) (d : db) : option (alert_row * float64 * option vehicle_row) :=
  a ← head (List.filter (fun a => al_id a =? alertID) (db_alerts d));
  v ← al_triggered_value a;
  Some (a, v, vehicle_identity (al_vehicle_id a) d).
(** The telephone and the license of the driver of a trip in progress of the vehicle. *)
Definition active_driver (vehicleID : string) (d : db) : option (string * string) :=
  head (dr ← db_drivers d;
        t ← List.filter (fun t => bool_decide (tp_driver_id t = dr_driver_id dr) &&
                                  bool_decide (tp_vehicle_id t = vehicleID) &&
                                  bool_decide (tp_status t = TripInProgress)) (db_trips d);
        [(dr_phone_number dr, dr_license_number dr)]).
(** The latest telemetry at or before an instant. *)
Definition before_alert (vehicleID : string) (at_ : Time) (r : telemetry_row) : bool :=
  bool_decide (tr_vehicle_id r = vehicleID) && (tr_timestamp r <=? at_).
Definition later_telemetry (a b : telemetry_row) : Prop := tr_timestamp b <= tr_timestamp a.
#[export] Instance later_telemetry_dec : RelDecision later_telemetry.
Proof. intros a b. apply Z_le_dec. Defined.
#[export] Instance later_telemetry_trans : Transitive later_telemetry.
Proof. intros a b c. unfold later_telemetry. lia. Qed.
#[export] Instance later_telemetry_total : Total later_telemetry.
Proof. intros a b. unfold later_telemetry. lia. Qed.
Definition telemetry_at (vehicleID : string) (at_ : Time) (d : db) : option telemetry_row :=
  head (merge_sort later_telemetry (List.filter (before_alert vehicleID at_) (db_telemetry d))).

(** ** The response *)
Record VehicleState := MkVehicleState {
  st_VehicleID : string; st_FleetID : string; st_Lat : float64; st_Lng : float64;
  st_SpeedKmh : float64; st_FuelPct : float64; st_EngineTempC : float64; st_Battery : float64;
  st_IsMoving : bool; st_EngineOn : bool; st_Timestamp : Z; st_ReceivedAt : Z
}.
(** Only the selected columns are set; the others keep their zero values. *)
Definition snapshot (r : telemetry_row) : VehicleState :=
  MkVehicleState "" "" (tr_latitude r) (tr_longitude r) (tr_speed_kmh r) (tr_fuel_pct r)
    (tr_engine_temp_celsius r) (tr_battery_voltage r) false false (Unix (tr_timestamp r)) 0.
Definition state_view_json (s : VehicleState) : json := JObj [
  ("vehicle_id", JStr (st_VehicleID s)); ("fleet_id", JStr (st_FleetID s));
  ("lat", jfloat (st_Lat s)); ("lng", jfloat (st_Lng s)); ("speed_kmh", jfloat (st_SpeedKmh s));
  ("fuel_pct", jfloat (st_FuelPct s)); ("engine_temp_celsius", jfloat (st_EngineTempC s));
  ("battery_voltage", jfloat (st_Battery s)); ("is_moving", JBool (st_IsMoving s));
  ("engine_on", JBool (st_EngineOn s)); ("timestamp", jint (st_Timestamp s));
  ("received_at", jint (st_ReceivedAt s))]%string.

Record alertDetail := MkAlertDetail {
  de_alert : enrichedAlert; de_vehicle : option vehicle_row; de_contact : option (string * string);
  de_telemetry : option VehicleState
}.
Definition alert_detail_json (de : alertDetail) : json :=
  let e := de_alert de in
  JObj (alert_fields (ea_row e) (ea_value e) true ++
    [("display_name", JStr (ea_display e)); ("driver_name", jopt JStr (fst <$> ea_trip e));
     ("route_name", jopt JStr (snd <$> ea_trip e));
     ("is_condition_active", JBool (ea_active e));
     ("registration_number", JStr (from_option vr_registration_number "" (de_vehicle de)));
     ("vehicle_type", JStr (from_option vr_vehicle_type "" (de_vehicle de)))]%string ++
    opt_field "driver_phone" (JStr ∘ fst <$> de_contact de) ++
    opt_field "driver_license" (JStr ∘ snd <$> de_contact de) ++
    opt_field "telemetry_at_alert" (state_view_json <$> de_telemetry de)).

(** ** The handler *)
Section AlertDetail.
Context {R P : Type} `{RedisServer R} `{Database P}.
Notation W := (World R P).

Definition load_alert_detail (cx : context) (now : Time)
    (row : alert_row * float64 * option vehicle_row) : M W alertDetail :=
  let '(a, value, vehicle) := row in
  let v := al_vehicle_id a in
  let! trip := enrichWithTrip cx v in
  let! active := isConditionActive cx now v (al_alert_type a) in
  let! contact := match trip with
                  | None => retM None
                  | Some _ => query_opt cx (no_nul v) (active_driver v)
                  end in
  let! tele := query_opt cx (no_nul v) (telemetry_at v (al_created_at a)) in
  retM (MkAlertDetail
          (MkEnrichedAlert a value (from_option vr_display_name v vehicle) trip active)
          vehicle contact (snapshot <$> tele)).

Definition HandleAlertDetail : handler W := fun _ vs rq =>
  match alert_id_of vs with
  | None => write_error StatusBadRequest "alert_id must be an integer"
  | Some alertID =>
      let! found := query_opt (rq_cx rq) true (alert_detail_row alertID) in
      match found with
      | None => write_error StatusNotFound "alert not found"
      | Some row =>
          let! detail := load_alert_detail (rq_cx rq) (rq_now rq) row in
          writeJSON StatusOK (alert_detail_json detail)
      end
  end.
End AlertDetail.

(** ** Properties *)
Section ReadOnly.
Context {R P : Type} `{RedisLaws R} `{DatabaseLaws P}.
Lemma read_only_enrich cx v : read_only (R:=R) (P:=P) (enrichWithTrip cx v).
Proof. unfold enrichWithTrip. solve_read_only. Qed.
Lemma read_only_condition cx now v t : read_only (R:=R) (P:=P) (isConditionActive cx now v t).
Proof. unfold isConditionActive. solve_read_only. Qed.
End ReadOnly.
#[export] Hint Resolve read_only_enrich read_only_condition : read_only.
Section ReadOnlyDetail.
Context {R P : Type} `{RedisLaws R} `{DatabaseLaws P}.
Lemma read_only_alert_detail c vs rq : read_only (R:=R) (P:=P) (HandleAlertDetail c vs rq).
Proof. unfold HandleAlertDetail, load_alert_detail. solve_read_only. Qed.
End ReadOnlyDetail.
#[export] Hint Resolve read_only_alert_detail : read_only.

(** The first row of a sorted selection: the greatest one, if there is any. *)
Lemma head_listing {A} (R : relation A) `{!RelDecision R, !Transitive R, !Total R} p (l : list A) :
  match head (merge_sort R (List.filter p l)) with
  | Some x => x ∈ l /\ p x = true /\ forall y, y ∈ l -> p y = true -> y = x \/ R x y
  | None => forall y, y ∈ l -> p y = false
  end.
Proof.
  destruct (listing_spec R p l) as (Hs & Hin & _).
  destruct (merge_sort R (List.filter p l)) as [|x xs]; simpl.
  - intros y Hy. destruct (p y) eqn:E; [|done].
    by destruct (proj1 (elem_of_nil y) (proj2 (Hin y) (conj Hy E))).
  - destruct (proj1 (Hin x) ltac:(by left)) as [Hx Hp]. split; [done|]. split; [done|].
    intros y Hy Hpy. pose proof (proj2 (Hin y) (conj Hy Hpy)) as Hyx.
    apply elem_of_cons in Hyx as [->|Hyx]; [by left|right].
    apply StronglySorted_inv in Hs as [_ Hall]. rewrite Forall_forall in Hall. by apply Hall.
Qed.

(** What is reported as the telemetry at the alert. *)
Definition telemetry_reported (d : db) (a : alert_row) (s : option VehicleState) : Prop :=
  match s with
  | Some s => exists r, s = snapshot r /\ r ∈ db_telemetry d /\
      tr_vehicle_id r = al_vehicle_id a /\ tr_timestamp r <= al_created_at a /\
      forall r', r' ∈ db_telemetry d -> tr_vehicle_id r' = al_vehicle_id a ->
        tr_timestamp r' <= al_created_at a -> tr_timestamp r' <= tr_timestamp r
  | None => forall r, r ∈ db_telemetry d -> tr_vehicle_id r = al_vehicle_id a ->
      al_created_at a < tr_timestamp r
  end.
Lemma telemetry_at_reported d a :
  telemetry_reported d a (snapshot <$> telemetry_at (al_vehicle_id a) (al_created_at a) d).
Proof.
  pose proof (head_listing later_telemetry (before_alert (al_vehicle_id a) (al_created_at a))
                (db_telemetry d)) as Hh. unfold telemetry_at.
  destruct (head _) as [r|]; simpl.
  - destruct Hh as (Hr & Hp & Hmax). unfold before_alert in Hp.
    apply andb_true_iff in Hp as [Hv%bool_decide_eq_true Ht%Z.leb_le].
    exists r. split_and!; [done..|]. intros r' Hr' Hv' Ht'.
    destruct (Hmax r' Hr') as [->|Hle]; [|lia|exact Hle].
    unfold before_alert. rewrite bool_decide_true by done. by apply Z.leb_le.
  - intros r Hr Hv. specialize (Hh r Hr). unfold before_alert in Hh.
    rewrite bool_decide_true in Hh by done. by apply Z.leb_gt in Hh.
Qed.

(** The detail of an alert. With the services up, an identifier that is not an integer
    is answered 400, one of no alert (or of an alert without a value) 404, and any other
    200 with that alert, the names of its vehicle, the driver's contact only with a trip
    in progress, and as its telemetry the latest of the vehicle not after the alert, or
    none when there is no such telemetry; nothing is changed. *)
Theorem alert_detail_answer c vs rq (w : World MemRedis MemDB) :
  up w -> rq_cx rq = Live ->
  let d := tables (w_db w) in
  let '(resp, w') := HandleAlertDetail c vs rq w in
  w' = w /\
  match alert_id_of vs with
  | None => rs_status resp = StatusBadRequest
  | Some id =>
      match alert_detail_row id d with
      | None => rs_status resp = StatusNotFound
      | Some (a, v, vehicle) =>
          exists de, resp = encode_body StatusOK (alert_detail_json de) /\
            al_id a = id /\ a ∈ db_alerts d /\ al_triggered_value a = Some v /\
            ea_row (de_alert de) = a /\ ea_value (de_alert de) = v /\
            de_vehicle de = vehicle_identity (al_vehicle_id a) d /\
            (de_contact de <> None -> ea_trip (de_alert de) <> None) /\
            (no_nul (al_vehicle_id a) = true -> telemetry_reported d a (de_telemetry de))
      end
  end.
Proof.
  intros Hup Hcx d. unfold HandleAlertDetail. destruct (alert_id_of vs) as [id|]; [|done].
  unfold bindM. rewrite Hcx, query_opt_up by done. fold d.
  destruct (alert_detail_row id d) as [[[a v] vehicle]|] eqn:Erow; [|done].
  unfold alert_detail_row in Erow. destruct (head _) as [a0|] eqn:Eh; [|done].
  cbn [mbind option_bind] in Erow. destruct (al_triggered_value a0) as [v0|] eqn:Ev; [|done].
  cbn [mbind option_bind] in Erow. injection Erow as -> -> <-.
  apply head_in, list_elem_of_In, List.filter_In in Eh as [Ha%list_elem_of_In Hid%Z.eqb_eq].
  unfold load_alert_detail, bindM.
  assert (He : exists o, enrichWithTrip Live (al_vehicle_id a) w = (o, w)).
  { destruct w as [[st os] [d0 ds] q]. destruct Hup as [Ho Hd]. simpl in Ho, Hd. subst os ds. by eexists. }
  destruct He as [trip ->].
  assert (Hc : exists b, isConditionActive Live (rq_now rq) (al_vehicle_id a) (al_alert_type a) w = (b, w)).
  { unfold isConditionActive, bindM.
    destruct (redis_hmget_up (rq_now rq) (state_key (al_vehicle_id a))
                ["speed_kmh"; "fuel_pct"; "engine_temp"]%string w Hup) as [r ->].
    destruct (redis_get_up (rq_now rq) (dev_key (al_vehicle_id a)) w Hup) as [g Hg].
    destruct r as [[|x [|y [|z vals]]]|e]; try by eexists.
    repeat case_bool_decide; rewrite ?Hg; by eexists. }
  destruct Hc as [active ->].
  assert (Hk : exists contact, (match trip with None => retM None
     | Some _ => query_opt Live (no_nul (al_vehicle_id a)) (active_driver (al_vehicle_id a)) end) w =
     (contact, w) /\ (contact <> None -> trip <> None)).
  { destruct trip; [rewrite query_opt_up by done; by eexists|by eexists]. }
  destruct Hk as (contact & -> & Hcontact). rewrite query_opt_up by done. fold d. cbn.
  split; [done|]. eexists. split; [reflexivity|]. split_and!; try done. cbn. intros ->.
  apply telemetry_at_reported.
Qed.

(** ** Examples and witnesses *)

(** A truck that was moving when it was caught speeding is reported as standing with its
    engine off. *)
Definition demo_speeding : telemetry_row :=
  MkTelemetryRow (2 * Second) (3 * Second) "v1" "fleet-a" (f_of_Z 12) (f_of_Z 77) (f_of_Z 120)
    (f_of_Z 50) (f_of_Z 80) (f_of_Z 24) (f_of_Z 1000) true true "".
Definition demo_detail_world : World MemRedis MemDB :=
  MkWorld empty_redis (MkMemDB (set_telemetry demo_alerts_db [demo_speeding]) []) [].
Example snapshot_loses_motion :
  tr_is_moving demo_speeding = true /\
  (fun s => (st_IsMoving s, st_EngineOn s, st_VehicleID s)) <$>
    (snapshot <$> telemetry_at "v1" (3 * Second) (tables (w_db demo_detail_world))) =
  Some (false, false, ""%string).
Proof. vm_compute. split; reflexivity. Qed.

Lemma alert_detail_answer_witness :
  rs_status (HandleAlertDetail no_ctx [("alert_id", "3")]%string (demo_get [] None)
               demo_detail_world).1 = StatusOK /\
  exists de, (HandleAlertDetail no_ctx [("alert_id", "3")]%string (demo_get [] None)
               demo_detail_world).1 = encode_body StatusOK (alert_detail_json de) /\
    telemetry_reported (tables (w_db demo_detail_world))
      (demo_alert 3 SeverityWarning (400 * Second) None None) (de_telemetry de).
Proof.
  split; [vm_compute; reflexivity|].
  pose proof (alert_detail_answer no_ctx [("alert_id", "3")]%string (demo_get [] None)
    demo_detail_world (conj eq_refl eq_refl) eq_refl) as Hans. cbv zeta in Hans.
  destruct (HandleAlertDetail _ _ _ _) as [resp w']. destruct Hans as [_ Hans].
  destruct Hans as (de & Hresp & _ & _ & _ & _ & _ & _ & _ & Ht).
  exists de. split; [exact Hresp|]. exact (Ht eq_refl).
Defined.
