(* ===== verification/ServingHttp.v ===== *)
(** * The serving service's HTTP interface: the routes of [serving/main.go] and
    [handler/health.go]

    The world of the routes is the key validator with the world of the handlers. The
    upgrade of a WebSocket is answered 101; the client it creates is the hub's. *)
From Stdlib Require Import SpecFloat.
From S2P Require Import Prelude GoNum Strconv Json Redis Domain Rfc3339 RedisStore Auth Http Tables.
From S2P Require Import Events Geo Heartbeat StopDetector Eta Deviation Middleware Helpers Alerts Views.
From S2P Require Import Vehicles Trips Analytics AlertDetail Hub.
Local Open Scope Z_scope.
Local Open Scope fleet_scope.

Definition StatusSwitchingProtocols : Z := 101.

Section Server.
Context {V R P : Type} `{Validator V} `{RedisServer R} `{Database P}.
Notation D := (World R P).
Notation W := (V * World R P)%type.
(** The answers of the pings, and what SCAN answers to a summary. *)
Variables ts_ping redis_ping : context -> res unit.
Variable scan : list (res (list string)).

Definition health_dependency (name : string) (r : res unit) : string * json :=
  (name, JStr (match r with Ok _ => "healthy" | Err e => "unhealthy:" ++ e end)%string).
Definition health_handler : handler W := fun _ _ rq w =>
  let db := ts_ping (rq_cx rq) in
  let redis := redis_ping (rq_cx rq) in
  let healthy := is_ok db && is_ok redis in
  let body := JObj [
    ("status", JStr (if healthy then "healthy" else "degraded"));
    ("service", JStr "serving");
    ("timestamp", jopt JStr (format_rfc3339 (UTC (rq_now rq))));
    ("dependencies", json_map [health_dependency "timescaledb" db; health_dependency "redis" redis])]%string in
  (encode_body (if healthy then StatusOK else StatusServiceUnavailable) body, w).
Definition ws_handler : handler W := fun _ _ rq '(v, d) =>
  match ServeWS rq v with
  | (inl resp, v') => (resp, (v', d))
  | (inr _, v') => (MkResponse StatusSwitchingProtocols "", (v', d))
  end.

(** A handler behind the key check, and one behind the fleet check too. *)
Definition keyed (h : handler D) : handler W := Auth (lift_handler h).
Definition scoped (h : handler W) : handler W := Auth (FleetScoped "fleet_id" h).

Definition serving_routes : list (pattern * handler W) := [
  (("GET", [Lit "health"]), health_handler);
  (("GET", [Lit "ws"]), ws_handler);
  (("GET", [Lit "api"; Lit "v1"; Lit "whoami"]), Auth whoamiHandler);
  (("GET", [Lit "api"; Lit "v1"; Lit "fleet"; Wild "fleet_id"; Lit "ping"]),
   scoped fleetPingHandler);
  (("GET", [Lit "api"; Lit "v1"; Lit "analytics"; Lit "summary"]),
   scoped (lift_handler (HandleSummary scan)));
  (("GET", [Lit "api"; Lit "v1"; Lit "vehicles"; Wild "vehicle_id"; Lit "panel"]),
   keyed HandlePanel);
  (("GET", [Lit "api"; Lit "v1"; Lit "vehicles"; Wild "vehicle_id"; Lit "active-trip"]),
   keyed HandleActiveTrip);
  (("GET", [Lit "api"; Lit "v1"; Lit "vehicles"; Wild "vehicle_id"; Lit "alerts"]),
   keyed HandleVehicleAlerts);
  (("GET", [Lit "api"; Lit "v1"; Lit "alerts"]), keyed HandleAttentionQueue);
  (("GET", [Lit "api"; Lit "v1"; Lit "alerts"; Wild "alert_id"]), keyed HandleAlertDetail);
  (("POST", [Lit "api"; Lit "v1"; Lit "alerts"; Wild "alert_id"; Lit "acknowledge"]),
   keyed HandleAcknowledge);
  (("POST", [Lit "api"; Lit "v1"; Lit "alerts"; Wild "alert_id"; Lit "resolve"]),
   keyed HandleResolve);
  (("POST", [Lit "api"; Lit "v1"; Lit "alerts"; Wild "alert_id"; Lit "unacknowledge"]),
   keyed HandleUnacknowledge);
  (("GET", [Lit "api"; Lit "v1"; Lit "fleet"; Wild "fleet_id"; Lit "alerts"]),
   scoped (lift_handler HandleFleetAlertHistory));
  (("GET", [Lit "api"; Lit "v1"; Lit "trips"]), keyed HandleList);
  (("GET", [Lit "api"; Lit "v1"; Lit "trips"; Wild "trip_id"]), keyed HandleDetail)
]%string.
Definition serve_request (rq : request) : M W response := serve serving_routes rq.
End Server.

(** ** Properties *)
Section Effects.
Context {R P : Type} `{RedisServer R} `{Database P}.
Notation D := (World R P).
(** Nothing the services keep is different; only the alerts' workflow columns may be. *)
Definition unchanged (w w' : D) : Prop :=
  contents (w_redis w') = contents (w_redis w) /\ tables (w_db w') = tables (w_db w) /\
  w_hub w' = w_hub w.
Definition alerts_changed (w w' : D) : Prop :=
  contents (w_redis w') = contents (w_redis w) /\ w_hub w' = w_hub w /\
  exists o id now by_, tables (w_db w') =
    set_alerts (tables (w_db w)) (apply_op (op_guard o id) (op_effect o now by_) (db_alerts (tables (w_db w))))
      (db_alert_seq (tables (w_db w))).
End Effects.
Definition key_accepted {V} `{Validator V} (rq : request) (v : V) : Prop :=
  rq_header rq "X-Api-Key" <> ""%string /\
  (v_FleetID (rq_cx rq) (rq_auth rq) (rq_header rq "X-Api-Key") v).1.2 = true.

Section Routes.
Context {V R P : Type} `{Validator V} `{RedisLaws R} `{DatabaseLaws P}.
Notation D := (World R P).
Notation W := (V * World R P)%type.

(** What a handler for the method [m] may do. *)
Definition effect (m : string) (w w' : D) : Prop :=
  unchanged w w' \/ (m = "POST"%string /\ alerts_changed w w').
Definition api_handler (m : string) (h : handler W) : Prop := forall c vs rq v w,
  let '(resp, (_, w')) := h c vs rq (v, w) in
  (key_accepted rq v \/ (w' = w /\ rs_status resp = StatusUnauthorized)) /\ effect m w w'.
Definition effects (m : string) (h : handler W) : Prop := forall c vs rq v w,
  effect m w (h c vs rq (v, w)).2.2.

Lemma unchanged_refl (w : D) : unchanged w w.
Proof. done. Qed.
Lemma Auth_api m next : effects m next -> api_handler m (Auth next).
Proof.
  intros Hn c vs rq v w. unfold Auth. case_bool_decide as Hk.
  { simpl. split; [by right|left; apply unchanged_refl]. }
  destruct (v_FleetID _ _ _ v) as [[f []] v'] eqn:E; simpl.
  - specialize (Hn (MkReqctx (Some (rq_header rq "X-Api-Key")) (Some f)) vs rq v' w).
    destruct (next _ vs rq (v', w)) as [resp [v2 w']]. split; [|done].
    left. split; [done|]. by rewrite E.
  - split; [by right|left; apply unchanged_refl].
Qed.
Lemma FleetScoped_effects m p next : effects m next -> effects m (FleetScoped p next).
Proof.
  intros Hn c vs rq v w. unfold FleetScoped.
  case_bool_decide; [left; apply unchanged_refl|].
  destruct (_ || _); [left; apply unchanged_refl|apply Hn].
Qed.
Lemma lift_read_only m (h : handler D) :
  (forall c vs rq, read_only (h c vs rq)) -> effects m (lift_handler h).
Proof.
  intros Hh c vs rq v w. unfold lift_handler. specialize (Hh c vs rq w).
  destruct (h c vs rq w) as [resp w']. by left.
Qed.

(** One of the three statements of the workflow. *)
Lemma workflow_effect o : effects "POST" (lift_handler (run_op (R:=R) (P:=P) o)).
Proof.
  intros c vs rq v w. unfold lift_handler.
  assert (Hs : forall ok id now by_ cx, let p' := (pg_run cx (fun t : db => if (ok : bool)
      then update_alerts_stmt (op_guard o id) (op_effect o now by_) t else None) (w_db w)).2 in
    tables p' = tables (w_db w) \/ tables p' = set_alerts (tables (w_db w))
      (apply_op (op_guard o id) (op_effect o now by_) (db_alerts (tables (w_db w))))
      (db_alert_seq (tables (w_db w)))).
  { intros ok id now by_ cx p'. unfold p'.
    destruct (pg_run_effect cx (fun t : db => if ok then update_alerts_stmt (op_guard o id)
      (op_effect o now by_) t else None) (w_db w)) as [->|[a E]]; [by left|].
    destruct ok; [|done]. right. by injection E as _ <-. }
  destruct o; simpl run_op; unfold HandleAcknowledge, HandleResolve, HandleUnacknowledge;
    (destruct (alert_id_of vs) as [id|]; [|left; apply unchanged_refl]);
    [destruct (operator_of rq) as [by_|]; [|left; apply unchanged_refl]..|];
    unfold bindM, on_db, with_text; cbn [op_guard op_effect] in Hs.
  - specialize (Hs (no_nul by_) id (rq_now rq) by_ (rq_cx rq)). simpl in Hs.
    destruct (pg_run _ _ (w_db w)) as [[n|e] p']; [destruct (n =? 0)|]; simpl in *;
      (destruct Hs as [Hs|Hs]; [left; by split_and!|right; split; [done|]; split; [done|]; split; [done|];
        by exists Acknowledge, id, (rq_now rq), by_]).
  - specialize (Hs (no_nul by_) id (rq_now rq) by_ (rq_cx rq)). simpl in Hs.
    destruct (pg_run _ _ (w_db w)) as [[n|e] p']; [destruct (n =? 0)|]; simpl in *;
      (destruct Hs as [Hs|Hs]; [left; by split_and!|right; split; [done|]; split; [done|]; split; [done|];
        by exists Resolve, id, (rq_now rq), by_]).
  - specialize (Hs true id (rq_now rq) ""%string (rq_cx rq)). simpl in Hs.
    destruct (pg_run _ _ (w_db w)) as [[n|e] p']; [destruct (n =? 0)|]; simpl in *;
      (destruct Hs as [Hs|Hs]; [left; by split_and!|right; split; [done|]; split; [done|]; split; [done|];
        by exists Unacknowledge, id, (rq_now rq), ""%string]).
Qed.
End Routes.

(** The handlers that read. *)
Section Readers.
Context {R P : Type} `{RedisLaws R} `{DatabaseLaws P}.
Lemma read_only_rows cx now rows : read_only (R:=R) (P:=P) (enrich_rows cx now rows).
Proof. induction rows as [|[a name] rows IH]; simpl; solve_read_only. Qed.
Lemma read_only_count cx ok p : read_only (R:=R) (P:=P) (count_or_zero cx ok p).
Proof. unfold count_or_zero. solve_read_only. Qed.
End Readers.
#[export] Hint Resolve read_only_rows read_only_count : read_only.
Section ReadHandlers.
Context {R P : Type} `{RedisLaws R} `{DatabaseLaws P}.
Lemma read_only_queue c vs rq : read_only (R:=R) (P:=P) (HandleAttentionQueue c vs rq).
Proof. unfold HandleAttentionQueue. solve_read_only. Qed.
Lemma read_only_history c vs rq : read_only (R:=R) (P:=P) (HandleFleetAlertHistory c vs rq).
Proof. unfold HandleFleetAlertHistory. solve_read_only. Qed.
Lemma read_only_vehicle_alerts c vs rq : read_only (R:=R) (P:=P) (HandleVehicleAlerts c vs rq).
Proof. unfold HandleVehicleAlerts. solve_read_only. Qed.
Lemma read_only_active_trip c vs rq : read_only (R:=R) (P:=P) (HandleActiveTrip c vs rq).
Proof. unfold HandleActiveTrip. solve_read_only. Qed.
Lemma read_only_panel_handler c vs rq : read_only (R:=R) (P:=P) (HandlePanel c vs rq).
Proof. unfold HandlePanel. solve_read_only. Qed.
Lemma read_only_trip_list c vs rq : read_only (R:=R) (P:=P) (HandleList c vs rq).
Proof. unfold HandleList. solve_read_only. Qed.
Lemma read_only_trip_detail c vs rq : read_only (R:=R) (P:=P) (HandleDetail c vs rq).
Proof. unfold HandleDetail. solve_read_only. Qed.
End ReadHandlers.
#[export] Hint Resolve read_only_queue read_only_history read_only_vehicle_alerts
  read_only_active_trip read_only_panel_handler read_only_trip_list read_only_trip_detail
  : read_only.

Section Api.
Context {V R P : Type} `{Validator V} `{RedisLaws R} `{DatabaseLaws P}.
Variables ts_ping redis_ping : context -> res unit.
Variable scan : list (res (list string)).
Notation D := (World R P).
Notation W := (V * World R P)%type.
Notation table := (serving_routes (V:=V) (R:=R) (P:=P) ts_ping redis_ping scan).

Lemma keyed_reads (h : handler D) m :
  (forall c vs rq, read_only (h c vs rq)) -> api_handler (V:=V) m (keyed h).
Proof. intros Hh. by apply Auth_api, lift_read_only. Qed.
Lemma scoped_reads (h : handler D) m :
  (forall c vs rq, read_only (h c vs rq)) -> api_handler (V:=V) m (scoped (lift_handler h)).
Proof. intros Hh. by apply Auth_api, FleetScoped_effects, lift_read_only. Qed.

(** Every route is a read but for those of the workflow, and those under [/api] are
    behind the key check. *)
Lemma api_effects m h : api_handler (V:=V) (R:=R) (P:=P) m h -> effects m h.
Proof.
  intros Ha c vs rq v w. specialize (Ha c vs rq v w).
  destruct (h c vs rq (v, w)) as [resp [v' w']]. apply Ha.
Qed.
#[local] Hint Opaque HandleSummary HandlePanel HandleActiveTrip HandleVehicleAlerts HandleAttentionQueue
  HandleAlertDetail HandleFleetAlertHistory HandleList HandleDetail : read_only.
Lemma routes_spec : Forall (fun e : pattern * handler W => effects e.1.1 e.2 /\
  (forall rest vs, match_path e.1.2 ("api" :: rest)%string = Some vs -> api_handler e.1.1 e.2)) table.
Proof.
  assert (Hs : forall m, effects m (whoamiHandler (V:=V) (D:=D))) by (by left).
  assert (Hp : forall m, effects m (fleetPingHandler (V:=V) (D:=D))) by (by left).
  assert (Hapi : forall e : pattern * handler W, api_handler e.1.1 e.2 -> effects e.1.1 e.2 /\
    (forall rest vs, match_path e.1.2 ("api" :: rest)%string = Some vs -> api_handler e.1.1 e.2)) by (intros e He; eauto using api_effects).
  unfold serving_routes. repeat apply Forall_cons_2; [..|apply Forall_nil_2].
  1: by split; [left|].
  1: { split; [|done]. intros c vs rq v w. simpl. unfold ws_handler.
       destruct (ServeWS rq v) as [[resp|cl] v']; by left. }
  all: apply Hapi; simpl fst; simpl snd.
  1: apply Auth_api, Hs.
  1: apply Auth_api, FleetScoped_effects, Hp.
  all: first [apply keyed_reads; eauto with read_only; fail
             |apply scoped_reads; eauto with read_only; fail
             |apply Auth_api, (workflow_effect Acknowledge)
             |apply Auth_api, (workflow_effect Resolve)
             |apply Auth_api, (workflow_effect Unacknowledge)].
Qed.
(** What a request does to the world, whatever its route. *)
Lemma request_effect rq v w :
  exists m, effect m w (serve_request ts_ping redis_ping scan rq (v, w)).2.2 /\
    (m = "POST"%string -> rq_method rq = "POST"%string).
Proof.
  unfold serve_request, serve. destruct (find_route table rq) as [[h vs]|] eqn:E.
  - apply find_route_in in E as (m & ps & Hin & Hm & _). exists m.
    destruct (proj1 (Forall_forall _ _) routes_spec _ Hin) as [He _]. split; [apply He|].
    intros ->. unfold match_method in Hm. apply orb_prop in Hm as [Hm|Hm]; [|done].
    by apply bool_decide_eq_true in Hm.
  - exists "GET"%string. split; [left; apply unchanged_refl|done].
Qed.

(** C27. The requests of the serving API. Under [/api] a request is answered 401, 404
    or 405 and leaves Redis, the tables and the hub as they are, unless the validator
    accepts its key. And whatever is asked, and whatever fails on the way, the most an
    API request changes is what one workflow statement does to the alerts' columns, and
    only a POST does that: every other request is a read. *)
Theorem api_requests (rq : request) (v : V) (w : D) rest :
  rq_path rq = ("api" :: rest)%string ->
  let '(resp, (_, w')) := serve_request ts_ping redis_ping scan rq (v, w) in
  (key_accepted rq v \/
   (w' = w /\ rs_status resp ∈ [StatusUnauthorized; StatusNotFound; StatusMethodNotAllowed])) /\
  (unchanged w w' \/ (rq_method rq = "POST"%string /\ alerts_changed w w')).
Proof.
  intros Hpath. pose proof (request_effect rq v w) as (m & He & Hm).
  assert (Hkey : let '(resp, (_, w')) := serve_request ts_ping redis_ping scan rq (v, w) in
    key_accepted rq v \/
    (w' = w /\ rs_status resp ∈ [StatusUnauthorized; StatusNotFound; StatusMethodNotAllowed])).
  { unfold serve_request, serve. destruct (find_route table rq) as [[h vs]|] eqn:E.
    - apply find_route_in in E as (m' & ps & Hin & _ & Hps). rewrite Hpath in Hps.
      destruct (proj1 (Forall_forall _ _) routes_spec _ Hin) as [_ Ha]. simpl in Ha.
      specialize (Ha rest vs Hps no_ctx vs rq v w). destruct (h no_ctx vs rq (v, w)) as [resp [v' w']].
      destruct Ha as [[?|[-> ->]] _]; [by left|right; split; [done|left]].
    - right. split; [done|]. unfold mux_error. destruct (path_known _ _); simpl; set_solver. }
  destruct (serve_request ts_ping redis_ping scan rq (v, w)) as [resp [v' w']]. split; [done|].
  simpl in He. destruct He as [?|[-> ?]]; [by left|right]. auto.
Qed.
End Api.

(** ** Example and witness *)
#[local] Existing Instance Serving.Validator_serving.
Definition demo_keys : Authenticator * MemRedis :=
  (Serving.NewAuthenticator (Serving.MkConfig ["static"]%string 60),
   MkMemRedis (put (auth_key "key-b") (RStr "fleet-b") None (MkRstate ∅ [])) []).
Definition demo_call (method : string) (path : list string) (key : string) : request :=
  MkRequest method path [("fleet_id", "fleet-a")]%string
    (fun h => if bool_decide (h = "X-Api-Key"%string) then key else ""%string)
    (Some (JObj [("operator", JStr "ann")]%string)) Live (at_once 0) 0 id.
Definition demo_serve (rq : request) : response * (Authenticator * MemRedis * World MemRedis MemDB) :=
  serve_request (fun _ => Ok tt) (fun _ => Ok tt) [] rq (demo_keys, demo_alerts_world).
Definition ack_path : list string := ["api"; "v1"; "alerts"; "1"; "acknowledge"]%string.

(** The alert routes check no fleet: a key of [fleet-b] acknowledges an alert of
    [fleet-a] and lists its queue; the fleet-scoped summary refuses the same key. *)
Example cross_tenant_alerts :
  let '(resp, (_, w')) := demo_serve (demo_call "POST" ack_path "key-b") in
  rs_status resp = StatusOK /\
  map al_acknowledged_by (List.filter (fun a => al_id a =? 1) (db_alerts (tables (w_db w')))) =
    [Some "ann"%string] /\
  rs_status (demo_serve (demo_call "GET" ["api"; "v1"; "alerts"]%string "key-b")).1 = StatusOK /\
  rs_status (demo_serve (demo_call "GET" ["api"; "v1"; "analytics"; "summary"]%string "key-b")).1
    = StatusForbidden.
Proof. vm_compute. done. Qed.

Lemma api_requests_witness :
  let post key := demo_call "POST" ack_path key in
  map (fun key => rs_status (demo_serve (post key)).1) ["static"; ""; "key-c"]%string
    = [StatusOK; StatusUnauthorized; StatusUnauthorized] /\
  forall key, let '(resp, (_, w')) := demo_serve (post key) in
    (key_accepted (post key) demo_keys \/
     (w' = demo_alerts_world /\
      rs_status resp ∈ [StatusUnauthorized; StatusNotFound; StatusMethodNotAllowed])) /\
    (unchanged demo_alerts_world w' \/
     (rq_method (post key) = "POST"%string /\ alerts_changed demo_alerts_world w')).
Proof.
  split; [vm_compute; reflexivity|]. intros key.
  exact (api_requests (fun _ => Ok tt) (fun _ => Ok tt) [] (demo_call "POST" ack_path key)
           demo_keys demo_alerts_world ["v1"; "alerts"; "1"; "acknowledge"]%string eq_refl).
Defined.

(** ** One name space for vehicles and keys

    The keys of a vehicle are ["vehicle:" ++ id ++ ":" ++ field], an API key's is
    ["vehicle:auth:" ++ key]: the fields of a vehicle called [auth] are API keys. *)
Lemma auth_vehicle_key : online_key "auth" = auth_key "online_status".
Proof. reflexivity. Qed.

(** Once such a vehicle is online, anybody is authenticated with the key [online_status]. *)
Example vehicle_called_auth :
  let d := MkDb [] [] 1 [demo_vehicle "auth" "fleet-a" true] [] [] [] [] [] [] in
  let st := put (state_key "auth") (RHash (hmerge [("received_at", "100")]%string ∅)) None (MkRstate ∅ []) in
  let w := MkWorld (MkMemRedis st []) (MkMemDB d []) [] in
  let w' := (heartbeat_tick (NewHeartbeatMonitor 10 60) Live (120 * Second) w).2 in
  let login r := (Serving.FleetID Live (at_once (121 * Second)) "online_status" (demo_auth0, r)).1 in
  login (w_redis w) = (""%string, false) /\ login (w_redis w') = ("online"%string, true).
Proof. vm_compute. auto. Qed.
