(* ===== verification/Stores.v ===== *)
(** * Processes and their connections: the stores' constructors

    [ingestion/internal/store] and [serving/internal/store]: [NewTimescaleStore],
    [NewRedisStore], [Ping] and [Close], for each service, and the monad in which a [main]
    function runs: it records every call it makes to the outside, keeps its deferred calls,
    and may be ended by [log.Fatalf] or by a panic. pgx, go-redis, [net/http] and [os/signal]
    are the parameter [Outside]. *)
From Stdlib Require Import Ascii.
From S2P Require Import Prelude GoNum Strconv Redis Config Tables InitDb Timescale.
Local Open Scope Z_scope.
Local Open Scope fleet_scope.

(** [redis.Options], the fields the constructors set. *)
Record redis_options := MkRedisOptions {
  ro_Addr : string; ro_Password : string; ro_DB : Z; ro_PoolSize : Z; ro_MinIdleConns : Z
}.

(** The libraries, on a world [W]: what a pool, a client or the server answers is theirs,
    and may change from call to call. [signal_ctx] is the context that SIGTERM and SIGINT
    end. *)
Class Outside (W Pool Client : Type) := {
  signal_ctx : W -> context;
  await_signal : W -> W;
  pgxpool_New : context -> string -> M W (res Pool);
  pool_Ping : context -> Pool -> M W (res unit);
  pool_Close : Pool -> W -> W;
  redis_NewClient : redis_options -> M W Client;
  client_Ping : context -> Client -> M W (res unit);
  client_Close : Client -> M W (res unit);
  http_Shutdown : Z -> M W (res unit);
  time_Sleep : Z -> W -> W
}.

(** The calls a process makes, with what the outside answered where [main] looks at it.
    [G] is what it starts as goroutines. *)
Inductive call (Pool Client G : Type) :=
| NotifyContext | StopNotify
| OpenPool (connStr : string) (r : res Pool) | PingPool (p : Pool) (r : res unit) | ClosePool (p : Pool)
| OpenRedis (o : redis_options) (c : Client) | PingRedis (c : Client) (r : res unit) | CloseRedis (c : Client)
| Go (g : G)
| AwaitDone
| WithTimeout (d : Z) | CancelTimeout | Shutdown (r : res unit)
| Sleep (d : Z).
Arguments NotifyContext {Pool Client G}.
Arguments StopNotify {Pool Client G}.
Arguments OpenPool {Pool Client G} connStr r.
Arguments PingPool {Pool Client G} p r.
Arguments ClosePool {Pool Client G} p.
Arguments OpenRedis {Pool Client G} o c.
Arguments PingRedis {Pool Client G} c r.
Arguments CloseRedis {Pool Client G} c.
Arguments Go {Pool Client G} g.
Arguments AwaitDone {Pool Client G}.
Arguments WithTimeout {Pool Client G} d.
Arguments CancelTimeout {Pool Client G}.
Arguments Shutdown {Pool Client G} r.
Arguments Sleep {Pool Client G} d.

(** ** The monad of [main] *)
Inductive outcome (A : Type) := Returns (a : A) | Fatal (msg : string) | Panics.
Arguments Returns {A} a.
Arguments Fatal {A} msg.
Arguments Panics {A}.
(** How a process ends: [main] returned; [log.Fatalf], status 1; a panic, status 2. *)
Inductive exit_status := Exited | FatalExit (msg : string) | Crashed.

Section Process.
Context {W Pool Client : Type} `{Outside W Pool Client} {G : Type}.
Notation call := (call Pool Client G).

(** [defers]: the deferred calls, the last one first. *)
Record process := MkProcess { ps_world : W; ps_trace : list call; ps_defers : list (M W call) }.
Definition Proc (A : Type) : Type := process -> outcome A * process.
Definition retP {A} (a : A) : Proc A := fun s => (Returns a, s).
Definition bindP {A B} (m : Proc A) (k : A -> Proc B) : Proc B := fun s =>
  match m s with
  | (Returns a, s') => k a s'
  | (Fatal msg, s') => (Fatal msg, s')
  | (Panics, s') => (Panics, s')
  end.
Definition fatal {A} (msg : string) : Proc A := fun s => (Fatal msg, s).
Definition panic {A} : Proc A := fun s => (Panics, s).
(** A call to the outside, recorded with its answer. *)
Definition outside {A} (c : A -> call) (f : M W A) : Proc A := fun s =>
  let '(a, w') := f (ps_world s) in
  (Returns a, MkProcess w' (ps_trace s ++ [c a]) (ps_defers s)).
Definition silently (f : W -> W) : M W unit := fun w => (tt, f w).
Definition defer (d : M W call) : Proc unit := fun s =>
  (Returns tt, MkProcess (ps_world s) (ps_trace s) (d :: ps_defers s)).
Definition current_ctx : Proc context := fun s => (Returns (signal_ctx (ps_world s)), s).
Fixpoint times (n : nat) (m : Proc unit) : Proc unit :=
  match n with O => retP tt | S n' => bindP m (fun _ => times n' m) end.

(** The deferred calls run when [main] returns or panics; [log.Fatalf] exits at once. *)
Fixpoint run_deferred (ds : list (M W call)) (w : W) (tr : list call) : W * list call :=
  match ds with
  | [] => (w, tr)
  | d :: ds' => let '(c, w') := d w in run_deferred ds' w' (tr ++ [c])
  end.
Definition run_main (m : Proc unit) (w : W) : exit_status * list call :=
  match m (MkProcess w [] []) with
  | (Returns _, s) => (Exited, (run_deferred (ps_defers s) (ps_world s) (ps_trace s)).2)
  | (Fatal msg, s) => (FatalExit msg, ps_trace s)
  | (Panics, s) => (Crashed, (run_deferred (ps_defers s) (ps_world s) (ps_trace s)).2)
  end.
(** A deferred call. *)
Definition closing (c : call) (f : W -> W) : M W call := fun w => (c, f w).
End Process.
Arguments process W Pool Client G : clear implicits.
Arguments Proc W Pool Client G A : clear implicits.

Notation "'do!' x ':=' c 'in' k" := (bindP c (fun x => k))
  (at level 10, x name, c at level 100, k at level 200,
   format "'[v' 'do!'  x  ':='  c  'in' '/' k ']'") : fleet_scope.
Notation "c ';;' k" := (bindP c (fun _ => k))
  (at level 100, k at level 200, right associativity) : fleet_scope.

(** ** The stores of the ingestion service *)
Module IngestionStore.
Section Stores.
Context {W Pool Client : Type} `{Outside W Pool Client} {G : Type}.
Notation Proc := (Proc W Pool Client G).

Record TimescaleStore := MkTimescaleStore { pool : Pool }.
Definition connStr (cfg : Ingestion.Config) : string :=
  ("postgres://" ++ Ingestion.DBUser cfg ++ ":" ++ Ingestion.DBPassword cfg ++ "@" ++
   Ingestion.DBHost cfg ++ ":" ++ Ingestion.DBPort cfg ++ "/" ++ Ingestion.DBName cfg ++
   "?pool_max_conns=" ++ FormatInt (Ingestion.DBMaxConns cfg))%string.
Definition NewTimescaleStore (ctx : context) (cfg : Ingestion.Config) : Proc (res TimescaleStore) :=
  do! r := outside (OpenPool (connStr cfg)) (pgxpool_New ctx (connStr cfg)) in
  match r with
  | Err err => retP (Err ("failed to create db pool: " ++ err)%string)
  | Ok p =>
      do! ping := outside (PingPool p) (pool_Ping ctx p) in
      match ping with
      | Err err =>
          outside (fun _ => ClosePool p) (silently (pool_Close p)) ;;
          retP (Err ("failed to ping db: " ++ err)%string)
      | Ok _ => retP (Ok (MkTimescaleStore p))
      end
  end.
Definition TimescaleStore_Close (s : TimescaleStore) : M W (call Pool Client G) :=
  closing (ClosePool (pool s)) (pool_Close (pool s)).
Definition TimescaleStore_Ping (ctx : context) (s : TimescaleStore) : M W (res unit) :=
  pool_Ping ctx (pool s).

Record RedisStore := MkRedisStore { client : Client }.
Definition options (cfg : Ingestion.Config) : redis_options :=
  MkRedisOptions (Ingestion.RedisAddr cfg) (Ingestion.RedisPassword cfg) (Ingestion.RedisDB cfg) 20 5.
Definition NewRedisStore (ctx : context) (cfg : Ingestion.Config) : Proc (res RedisStore) :=
  do! c := outside (OpenRedis (options cfg)) (redis_NewClient (options cfg)) in
  do! ping := outside (PingRedis c) (client_Ping ctx c) in
  match ping with
  | Err err => retP (Err ("failed to connect to redis: " ++ err)%string)
  | Ok _ => retP (Ok (MkRedisStore c))
  end.
Definition RedisStore_Close (s : RedisStore) : M W (call Pool Client G) :=
  closing (CloseRedis (client s)) (fun w => (client_Close (client s) w).2).
Definition RedisStore_Ping (ctx : context) (s : RedisStore) : M W (res unit) :=
  client_Ping ctx (client s).
End Stores.
End IngestionStore.

(** ** The stores of the serving service *)
Module ServingStore.
Section Stores.
Context {W Pool Client : Type} `{Outside W Pool Client} {G : Type}.
Notation Proc := (Proc W Pool Client G).

Record TimescaleStore := MkTimescaleStore { pool : Pool }.
Definition connStr (cfg : Serving.Config) : string :=
  ("postgres://" ++ Serving.DBUser cfg ++ ":" ++ Serving.DBPassword cfg ++ "@" ++
   Serving.DBHost cfg ++ ":" ++ Serving.DBPort cfg ++ "/" ++ Serving.DBName cfg ++
   "?pool_max_conns=" ++ FormatInt (Serving.DBMaxConns cfg))%string.
Definition NewTimescaleStore (ctx : context) (cfg : Serving.Config) : Proc (res TimescaleStore) :=
  do! r := outside (OpenPool (connStr cfg)) (pgxpool_New ctx (connStr cfg)) in
  match r with
  | Err err => retP (Err ("failed to create db pool: " ++ err)%string)
  | Ok p =>
      do! ping := outside (PingPool p) (pool_Ping ctx p) in
      match ping with
      | Err err =>
          outside (fun _ => ClosePool p) (silently (pool_Close p)) ;;
          retP (Err ("failed to ping db: " ++ err)%string)
      | Ok _ => retP (Ok (MkTimescaleStore p))
      end
  end.
Definition TimescaleStore_Ping (ctx : context) (s : TimescaleStore) : M W (res unit) :=
  pool_Ping ctx (pool s).
Definition TimescaleStore_Close (s : TimescaleStore) : M W (call Pool Client G) :=
  closing (ClosePool (pool s)) (pool_Close (pool s)).

Record RedisStore := MkRedisStore { client : Client }.
Definition options (cfg : Serving.Config) : redis_options :=
  MkRedisOptions (Serving.RedisAddr cfg) (Serving.RedisPassword cfg) (Serving.RedisDB cfg) 10 3.
Definition NewRedisStore (ctx : context) (cfg : Serving.Config) : Proc (res RedisStore) :=
  do! c := outside (OpenRedis (options cfg)) (redis_NewClient (options cfg)) in
  do! ping := outside (PingRedis c) (client_Ping ctx c) in
  match ping with
  | Err err => retP (Err ("failed to connect to redis: " ++ err)%string)
  | Ok _ => retP (Ok (MkRedisStore c))
  end.
Definition RedisStore_Ping (ctx : context) (s : RedisStore) : M W (res unit) :=
  client_Ping ctx (client s).
Definition RedisStore_Close (s : RedisStore) : M W (call Pool Client G) :=
  closing (CloseRedis (client s)) (fun w => (client_Close (client s) w).2).
End Stores.
End ServingStore.

(** ** The connections of the two scripts *)
Definition redisGetEnv (env : Env) (key fallback : string) : string :=
  if bool_decide (env key <> ""%string) then env key else fallback.
(** The pool's sizes are left to the library, whose defaults zero stands for. *)
Definition seed_options (env : Env) : redis_options :=
  MkRedisOptions (redisGetEnv env "REDIS_ADDR" "localhost:6379") (redisGetEnv env "REDIS_PASSWORD" "") 0 0 0.

Lemma append_assoc (a b c : string) : ((a ++ b) ++ c)%string = (a ++ b ++ c)%string.
Proof. induction a as [|x a IH]; [done|]. exact (f_equal (String x) IH). Qed.
(** The script and the services connect to the same database, whatever the environment. *)
Lemma init_db_same_database env :
  ServingStore.connStr (Serving.Load env) =
  (InitDb.connStr env ++ "?pool_max_conns=" ++ FormatInt (Serving.DBMaxConns (Serving.Load env)))%string.
Proof.
  unfold ServingStore.connStr, InitDb.connStr, dbGetEnv. fold (getEnv env). cbn [Serving.DBUser Serving.DBPassword
    Serving.DBHost Serving.DBPort Serving.DBName Serving.Load].
  by rewrite !append_assoc.
Qed.
(** The seeding script always writes to database 0, the services read [REDIS_DB]. *)
Example seed_ignores_REDIS_DB :
  let env : Env := fun k => if bool_decide (k = "REDIS_DB"%string) then "1"%string else ""%string in
  (ro_DB (seed_options env), Serving.RedisDB (Serving.Load env), Ingestion.RedisDB (Ingestion.Load env))
  = (0, 1, 1).
Proof. vm_compute. reflexivity. Qed.

(** ** The connection string *)

(** What a string holds before a character is determined by it. *)
Lemma cut_at c (a b x y : string) :
  char_in c a = false -> char_in c b = false ->
  (a ++ String c x)%string = (b ++ String c y)%string -> a = b /\ x = y.
Proof.
  revert b. induction a as [|d a IH]; intros [|e b]; simpl; intros Ha Hb E; injection E.
  - by intros ->.
  - intros _ <-. by rewrite Ascii.eqb_refl in Hb.
  - intros _ ->. by rewrite Ascii.eqb_refl in Ha.
  - intros E' ->. apply orb_false_elim in Ha as [_ Ha], Hb as [_ Hb].
    by destruct (IH b Ha Hb E') as [-> ->].
Qed.
Lemma prefix_inj (p x y : string) : (p ++ x)%string = (p ++ y)%string -> x = y.
Proof. induction p as [|c p IH]; simpl; [done|]. intros E. injection E. exact IH. Qed.

(** Each part lacks the delimiter that ends it. *)
Definition delimited (cfg : Serving.Config) : bool :=
  negb (char_in ":"%char (Serving.DBUser cfg) || char_in "@"%char (Serving.DBPassword cfg) ||
        char_in ":"%char (Serving.DBHost cfg) || char_in "/"%char (Serving.DBPort cfg) ||
        char_in "?"%char (Serving.DBName cfg)).
Definition database_of (cfg : Serving.Config) : list string * Z :=
  ([Serving.DBUser cfg; Serving.DBPassword cfg; Serving.DBHost cfg; Serving.DBPort cfg;
    Serving.DBName cfg], Serving.DBMaxConns cfg).

(** The connection string determines the settings it was made from, when no part holds
    the delimiter that ends it. *)
Theorem connStr_determines env1 env2 :
  let c1 := Serving.Load env1 in let c2 := Serving.Load env2 in
  delimited c1 = true -> delimited c2 = true ->
  ServingStore.connStr c1 = ServingStore.connStr c2 -> database_of c1 = database_of c2.
Proof.
  intros c1 c2. assert (Hn : forall env, in_int64 (Serving.DBMaxConns (Serving.Load env))).
  { intros env. pose proof (wrap32_range (getEnvInt env "DB_MAX_CONNS" 10)) as Hr.
    unfold in_int64, int64_min, int64_max. simpl. lia. }
  pose proof (Hn env1) as Hn1. pose proof (Hn env2) as Hn2. fold c1 in Hn1. fold c2 in Hn2.
  generalize dependent c1. generalize dependent c2. clear. intros c2 Hn2 c1 Hn1.
  unfold delimited, ServingStore.connStr, database_of.
  rewrite !negb_true_iff, !orb_false_iff. intros [[[[? ?] ?] ?] ?] [[[[? ?] ?] ?] ?] E.
  apply prefix_inj in E.
  apply cut_at in E as [-> E]; [|done..]. apply cut_at in E as [-> E]; [|done..].
  apply cut_at in E as [-> E]; [|done..]. apply cut_at in E as [-> E]; [|done..].
  apply cut_at in E as [-> E]; [|done..]. apply (prefix_inj "pool_max_conns=") in E.
  apply (f_equal ParseInt) in E. rewrite !ParseInt_FormatInt in E by done. by injection E as ->.
Qed.

(** Nothing is escaped: with an at sign in it the string no longer says where the password
    ends and the host begins. *)
Example connStr_ambiguous :
  let env password host : Env := fun k =>
    if bool_decide (k = "DB_PASSWORD"%string) then password
    else if bool_decide (k = "DB_HOST"%string) then host else ""%string in
  ServingStore.connStr (Serving.Load (env "s3cret@db" "localhost")%string) =
  ServingStore.connStr (Serving.Load (env "s3cret" "db@localhost")%string).
Proof. vm_compute. reflexivity. Qed.

(** ** The columns [BatchInsert] names, against the table the script creates

    Each is a column of the table, none is generated, and every column it leaves out is
    nullable or has a default. *)
Example telemetry_columns_fit :
  let names := map co_name (tb_columns vehicle_telemetry) in
  forallb (fun x => bool_decide (x ∈ names)) telemetryColumns = true /\
  base.filter (fun x => x ∉ telemetryColumns) names = ["received_at"; "location"]%string /\
  forallb (fun c => bool_decide (co_name c ∈ telemetryColumns) || negb (co_notnull c) ||
                    negb (bool_decide (co_default c = None)))
    (tb_columns vehicle_telemetry) = true.
Proof. vm_compute. auto. Qed.
