(* ===== verification/Startup.v ===== *)
(** * The two processes: [ingestion/main.go] and [serving/main.go]

    Each [main] connects to the database and to Redis, starts its goroutines, waits for a
    signal and shuts down; its deferred calls release what it holds. [life_step] is the
    protocol both keep, over the calls [Stores] records. *)
From S2P Require Import Prelude GoNum Strconv Redis Auth Config Dispatcher Writers Events Hub Geo Heartbeat StopDetector Eta Deviation Jobs Stores.
Local Open Scope Z_scope.
Local Open Scope fleet_scope.

(** What the processes start: each with what it was made from. [ListenAndServe] is the
    HTTP server, on an address, with the keys its routes are checked against. *)
Inductive goroutine :=
| HubRun (h : Hub)
| HeartbeatRun (h : HeartbeatMonitor) | DeviationRun (interval : Z) | StopsRun (interval : Z)
| ETARun (interval : Z)
| DispatcherRun (d : Dispatcher) | DBWriterRun (w : DBWriter) | StateWriterRun | AlertEvaluatorRun
| ListenAndServe (addr : string) (keys : Authenticator).
(** It panics as soon as it runs: [time.NewTicker] refuses its period. *)
Definition doomed (g : goroutine) : bool :=
  match g with
  | HeartbeatRun h => negb (ticker_ok (hb_interval h))
  | DeviationRun i | StopsRun i | ETARun i => negb (ticker_ok i)
  | DBWriterRun w => negb (ticker_ok (flush_period w))
  | _ => false
  end.

Section Mains.
Context {W Pool Client : Type} `{Outside W Pool Client}.
Notation call := (call Pool Client goroutine).
Notation Proc := (Proc W Pool Client goroutine).

Definition go (g : goroutine) : Proc unit := outside (fun _ => Go g) (silently id).
Definition await_done : Proc unit := outside (fun _ => AwaitDone) (silently await_signal).
(** [signal.NotifyContext] with its deferred [stop], [context.WithTimeout] with its [cancel]. *)
Definition notify_context : Proc unit :=
  outside (fun _ => NotifyContext) (silently id) ;; defer (closing StopNotify id).
Definition with_timeout (d : Z) : Proc unit :=
  outside (fun _ => WithTimeout d) (silently id) ;; defer (closing CancelTimeout id).
(** The error of [Shutdown] is at most logged. *)
Definition shut_down (d : Z) : Proc unit :=
  with_timeout d ;; outside Shutdown (http_Shutdown d) ;; retP tt.

(** The HTTP server of the serving service, and the end of its [main]. *)
Definition serve_until_done (addr : string) (keys : Authenticator) : Proc unit :=
  go (ListenAndServe addr keys) ;;
  await_done ;;
  shut_down (10 * Second).

(** [serving/main.go]; [env] is the environment after [godotenv.Load]. *)
Definition serving_main (env : Env) : Proc unit :=
  let cfg := Serving.Load env in
  notify_context ;;
  do! ctx := current_ctx in
  do! ts := ServingStore.NewTimescaleStore ctx cfg in
  match ts with
  | Err err => fatal ("TimescaleDB: " ++ err)%string
  | Ok tsStore =>
      defer (ServingStore.TimescaleStore_Close tsStore) ;;
      do! ctx := current_ctx in
      do! rs := ServingStore.NewRedisStore ctx cfg in
      match rs with
      | Err err => fatal ("Redis: " ++ err)%string
      | Ok redisStore =>
          defer (ServingStore.RedisStore_Close redisStore) ;;
          let authenticator := Auth.Serving.NewAuthenticator
            (Auth.Serving.MkConfig (Serving.ValidAPIKeys cfg) (Serving.AuthCacheTTLSeconds cfg)) in
          go (HubRun NewHub) ;;
          go (HeartbeatRun (NewHeartbeatMonitor (Serving.HeartbeatIntervalSeconds cfg)
                (Serving.StalenessThresholdSeconds cfg))) ;;
          go (DeviationRun (NewDeviationDetector (Serving.DeviationDetectorIntervalSeconds cfg))) ;;
          go (StopsRun (NewStopDetector (Serving.StopDetectorIntervalSeconds cfg))) ;;
          go (ETARun (NewETAEstimator (Serving.StopDetectorIntervalSeconds cfg))) ;;
          serve_until_done (":" ++ Serving.HTTPPort cfg) authenticator
      end
  end.

(** [ingestion/main.go]. *)
Definition ingestion_main (env : Env) : Proc unit :=
  let cfg := Ingestion.Load env in
  notify_context ;;
  do! ctx := current_ctx in
  do! ts := IngestionStore.NewTimescaleStore ctx cfg in
  match ts with
  | Err err => fatal ("TimescaleDB: " ++ err)%string
  | Ok tsStore =>
      defer (IngestionStore.TimescaleStore_Close tsStore) ;;
      do! ctx := current_ctx in
      do! rs := IngestionStore.NewRedisStore ctx cfg in
      match rs with
      | Err err => fatal ("Redis: " ++ err)%string
      | Ok redisStore =>
          defer (IngestionStore.RedisStore_Close redisStore) ;;
          let authenticator := Auth.Ingestion.NewAuthenticator cfg in
          match NewDispatcher (Ingestion.DBChannelSize cfg) (Ingestion.StateChannelSize cfg)
                  (Ingestion.AlertChannelSize cfg) with
          | None => panic
          | Some dispatcher =>
              go (DispatcherRun dispatcher) ;;
              times (Z.to_nat (Ingestion.DBWriterWorkers cfg))
                (go (DBWriterRun (NewDBWriter (Ingestion.DBBatchSize cfg) (Ingestion.DBFlushIntervalMS cfg)))) ;;
              times (Z.to_nat (Ingestion.StateWriterWorkers cfg)) (go StateWriterRun) ;;
              times (Z.to_nat (Ingestion.AlertWorkers cfg)) (go AlertEvaluatorRun) ;;
              go (ListenAndServe (":" ++ Ingestion.HTTPPort cfg) authenticator) ;;
              await_done ;;
              shut_down (10 * Second) ;;
              outside (fun _ => Sleep (2 * Second)) (silently (time_Sleep (2 * Second)))
          end
      end
  end.

(** How a process ends, with the calls it made: as its [main] does, or because a goroutine
    it started panicked at some point, which runs no deferred call of [main]. *)
Inductive ends (m : Proc unit) (w : W) : exit_status -> list call -> Prop :=
| ends_main : ends m w (run_main m w).1 (run_main m w).2
| ends_goroutine t1 t2 g :
    (run_main m w).2 = t1 ++ t2 -> Go g ∈ t1 -> doomed g = true -> ends m w Crashed t1.
End Mains.

(** ** The protocol of a process *)
Section Life.
Context {Pool Client : Type}.
Notation call := (call Pool Client goroutine).

Inductive resource := Signals | DB (p : Pool) | Cache (c : Client) | Timeout.
Record life := MkLife {
  held : list resource;             (* what is to be released, the newest first *)
  db_up : option Pool;              (* what has answered a ping *)
  redis_up : option Client;
  failed : bool;                    (* a connection failed *)
  started : list goroutine;
  stopping : bool;                  (* the signal came *)
  down : bool                       (* the HTTP server was shut down *)
}.
Definition new_life : life := MkLife [] None None false [] false false.
(** Connections are released only when nothing was started or the server is down. *)
Definition idle (l : life) : Prop := started l = [] \/ down l = true.

Inductive life_step : life -> call -> life -> Prop :=
| lf_notify l :
    life_step l NotifyContext (MkLife (Signals :: held l) (db_up l) (redis_up l) (failed l)
      (started l) (stopping l) (down l))
| lf_stop l hs :
    held l = Signals :: hs -> idle l ->
    life_step l StopNotify (MkLife hs (db_up l) (redis_up l) (failed l) (started l) (stopping l) (down l))
| lf_no_pool l s err :
    life_step l (OpenPool s (Err err)) (MkLife (held l) (db_up l) (redis_up l) true
      (started l) (stopping l) (down l))
| lf_pool l s p :
    life_step l (OpenPool s (Ok p)) (MkLife (DB p :: held l) (db_up l) (redis_up l) (failed l)
      (started l) (stopping l) (down l))
| lf_ping_pool l p r :
    DB p ∈ held l ->
    life_step l (PingPool p r) (MkLife (held l) (if is_ok r then Some p else db_up l) (redis_up l)
      (failed l || negb (is_ok r)) (started l) (stopping l) (down l))
| lf_close_pool l p hs :
    held l = DB p :: hs -> idle l ->
    life_step l (ClosePool p) (MkLife hs None (redis_up l) (failed l) (started l) (stopping l) (down l))
| lf_redis l o c :
    life_step l (OpenRedis o c) (MkLife (Cache c :: held l) (db_up l) (redis_up l) (failed l)
      (started l) (stopping l) (down l))
| lf_ping_redis l c r :
    Cache c ∈ held l ->
    life_step l (PingRedis c r) (MkLife (held l) (db_up l) (if is_ok r then Some c else redis_up l)
      (failed l || negb (is_ok r)) (started l) (stopping l) (down l))
| lf_close_redis l c hs :
    held l = Cache c :: hs -> idle l ->
    life_step l (CloseRedis c) (MkLife hs (db_up l) None (failed l) (started l) (stopping l) (down l))
| lf_go l g :
    is_Some (db_up l) -> is_Some (redis_up l) -> failed l = false -> stopping l = false ->
    life_step l (Go g) (MkLife (held l) (db_up l) (redis_up l) (failed l) (started l ++ [g])
      (stopping l) (down l))
| lf_await l :
    life_step l AwaitDone (MkLife (held l) (db_up l) (redis_up l) (failed l) (started l) true (down l))
| lf_timeout l d :
    life_step l (WithTimeout d) (MkLife (Timeout :: held l) (db_up l) (redis_up l) (failed l)
      (started l) (stopping l) (down l))
| lf_cancel l hs :
    held l = Timeout :: hs ->
    life_step l CancelTimeout (MkLife hs (db_up l) (redis_up l) (failed l) (started l) (stopping l) (down l))
| lf_shutdown l r :
    Timeout ∈ held l -> stopping l = true ->
    life_step l (Shutdown r) (MkLife (held l) (db_up l) (redis_up l) (failed l) (started l) (stopping l) true)
| lf_sleep l d : down l = true -> life_step l (Sleep d) l.

Inductive life_run : life -> list call -> life -> Prop :=
| life_nil l : life_run l [] l
| life_cons l c l1 tr l2 : life_step l c l1 -> life_run l1 tr l2 -> life_run l (c :: tr) l2.

Lemma life_run_app l tr1 l1 tr2 l2 :
  life_run l tr1 l1 -> life_run l1 tr2 l2 -> life_run l (tr1 ++ tr2) l2.
Proof. induction 1; simpl; [done|]. intros. econstructor; eauto. Qed.
Lemma life_run_prefix l tr1 tr2 l2 :
  life_run l (tr1 ++ tr2) l2 -> exists l1, life_run l tr1 l1 /\ life_run l1 tr2 l2.
Proof.
  revert l. induction tr1 as [|c tr1 IH]; intros l Hr; simpl in *; [exists l; split; [constructor|done]|].
  inversion Hr as [|? ? l1 ? ? Hs Hr']; subst. destruct (IH l1 Hr') as (l3 & H1 & H2).
  exists l3. split; [by econstructor|done].
Qed.
(** Starting goroutines, one after the other. *)
Lemma life_run_go gs p c l :
  db_up l = Some p -> redis_up l = Some c -> failed l = false -> stopping l = false ->
  life_run l (map Go gs) (MkLife (held l) (Some p) (Some c) false (started l ++ gs) false (down l)).
Proof.
  revert l. induction gs as [|g gs IH]; intros [hs u r f st sp dn]; simpl; intros -> -> -> ->.
  - rewrite app_nil_r. constructor.
  - econstructor; [by apply lf_go; simpl; eauto|].
    replace (st ++ g :: gs) with ((st ++ [g]) ++ gs) by (by rewrite <- (assoc_L (++))).
    by apply (IH (MkLife hs (Some p) (Some c) false (st ++ [g]) false dn)).
Qed.

(** The runs of both [main]s: the goroutines they start, none when making one's queues
    panics, and what they do between the shutdown of the server and their return. *)
Inductive boot (parts : option (list goroutine)) (last : list call) : exit_status -> list call -> Prop :=
| boot_no_pool s err msg : boot parts last (FatalExit msg) [NotifyContext; OpenPool s (Err err)]
| boot_no_ping s p err msg :
    boot parts last (FatalExit msg) [NotifyContext; OpenPool s (Ok p); PingPool p (Err err); ClosePool p]
| boot_no_redis s p u o c err msg :
    boot parts last (FatalExit msg)
      [NotifyContext; OpenPool s (Ok p); PingPool p (Ok u); OpenRedis o c; PingRedis c (Err err)]
| boot_panic s p u o c v :
    parts = None ->
    boot parts last Crashed
      [NotifyContext; OpenPool s (Ok p); PingPool p (Ok u); OpenRedis o c; PingRedis c (Ok v);
       CloseRedis c; ClosePool p; StopNotify]
| boot_all s p u o c v gs d r :
    parts = Some gs ->
    boot parts last Exited
      ([NotifyContext; OpenPool s (Ok p); PingPool p (Ok u); OpenRedis o c; PingRedis c (Ok v)] ++
       map Go gs ++ [AwaitDone; WithTimeout d; Shutdown r] ++ last ++
       [CancelTimeout; CloseRedis c; ClosePool p; StopNotify]).

Ltac life_steps := repeat first
  [ apply life_nil
  | eapply life_cons; [econstructor; simpl; unfold idle; simpl; rewrite ?elem_of_cons; auto; done|simpl] ].

Lemma boot_accepted parts last e tr :
  boot parts last e tr -> Forall (fun c => exists d, c = Sleep d) last ->
  exists l, life_run new_life tr l /\
    match e with
    | Exited => held l = [] /\ down l = true /\ failed l = false /\ parts = Some (started l)
    | FatalExit _ => failed l = true /\ started l = []
    | Crashed => held l = [] /\ started l = [] /\ parts = None
    end.
Proof.
  intros Hb Hl. destruct Hb as [s err msg|s p err msg|s p u o c err msg|s p u o c v Hp|s p u o c v gs d r Hp].
  - eexists. split; [life_steps|done].
  - eexists. split; [life_steps|done].
  - eexists. split; [life_steps|done].
  - eexists. split; [life_steps|done].
  - set (l1 := MkLife [Timeout; Cache c; DB p; Signals] (Some p) (Some c) false gs true true).
    assert (Hlast : life_run l1 last l1).
    { induction Hl as [|x last [d' ->] _ IH]; [constructor|]. by econstructor; [apply lf_sleep|]. }
    eexists. split.
    + do 5 (eapply life_cons; [econstructor; simpl; rewrite ?elem_of_cons; auto; done|]). simpl.
      eapply life_run_app; [by apply life_run_go|]. simpl.
      eapply life_cons; [constructor|]. eapply life_cons; [constructor|].
      eapply life_cons; [constructor; [by left|done]|]. eapply life_run_app; [exact Hlast|].
      unfold l1. life_steps.
    + done.
Qed.
End Life.

(** ** What each [main] starts *)
Definition serving_parts (cfg : Serving.Config) : list goroutine :=
  let j := serving_jobs cfg in
  [HubRun NewHub; HeartbeatRun (ji_heartbeat j); DeviationRun (ji_deviation j);
   StopsRun (ji_stops j); ETARun (ji_eta j);
   ListenAndServe (":" ++ Serving.HTTPPort cfg)
     (Auth.Serving.NewAuthenticator
        (Auth.Serving.MkConfig (Serving.ValidAPIKeys cfg) (Serving.AuthCacheTTLSeconds cfg)))].
Definition ingestion_parts (cfg : Ingestion.Config) : option (list goroutine) :=
  d ← NewDispatcher (Ingestion.DBChannelSize cfg) (Ingestion.StateChannelSize cfg)
        (Ingestion.AlertChannelSize cfg);
  Some (DispatcherRun d ::
    replicate (Z.to_nat (Ingestion.DBWriterWorkers cfg))
      (DBWriterRun (NewDBWriter (Ingestion.DBBatchSize cfg) (Ingestion.DBFlushIntervalMS cfg))) ++
    replicate (Z.to_nat (Ingestion.StateWriterWorkers cfg)) StateWriterRun ++
    replicate (Z.to_nat (Ingestion.AlertWorkers cfg)) AlertEvaluatorRun ++
    [ListenAndServe (":" ++ Ingestion.HTTPPort cfg) (Auth.Ingestion.NewAuthenticator cfg)]).

(** Some goroutine panics exactly when [Jobs] says the service does not start. *)
Lemma serving_doomed cfg : Exists (fun g => doomed g = true) (serving_parts cfg) -> serving_start cfg = None.
Proof.
  unfold serving_parts, serving_start. generalize (serving_jobs cfg). intros [h dv st et]. cbn.
  rewrite !Exists_cons, Exists_nil. cbn. rewrite !negb_true_iff.
  intros [?|[E|[E|[E|[E|[?|[]]]]]]]; try done; rewrite E; by rewrite ?andb_false_r.
Qed.
Lemma ingestion_doomed cfg gs :
  ingestion_parts cfg = Some gs -> Exists (fun g => doomed g = true) gs -> ingestion_start cfg = None.
Proof.
  unfold ingestion_parts, ingestion_start. destruct (NewDispatcher _ _ _) as [d|]; [|done]. simpl.
  intros [= <-]. rewrite Exists_cons, !Exists_app, !Exists_exists. simpl.
  assert (Hr : forall n g, (exists x, x ∈ replicate n g /\ doomed x = true) -> doomed g = true /\ n <> O).
  { intros n g (x & [-> Hn]%elem_of_replicate & Hx). done. }
  intros [?|[H|[H|[H|(x & ->%list_elem_of_singleton & Hx)]]]]; try done;
    apply Hr in H as [Hd Hn]; try done.
  simpl in Hd. apply negb_true_iff in Hd. destruct (Z.to_nat _); [done|]. simpl. by rewrite Hd.
Qed.

Section Boots.
Context {W Pool Client : Type} `{Outside W Pool Client}.

Lemma times_go n (g : goroutine) (s : process W Pool Client goroutine) :
  times n (go g) s =
    (Returns tt, MkProcess (ps_world s) (ps_trace s ++ map Go (replicate n g)) (ps_defers s)).
Proof.
  revert s. induction n as [|n IH]; intros [w tr ds]; simpl; [by rewrite app_nil_r|].
  unfold bindP, go, outside, silently. simpl. rewrite IH. simpl. by rewrite <- (assoc_L (++)).
Qed.

Lemma serving_boots env w :
  boot (Some (serving_parts (Serving.Load env))) []
    (run_main (serving_main env) w).1 (run_main (serving_main env) w).2.
Proof.
  unfold run_main, serving_main, ServingStore.NewTimescaleStore, ServingStore.NewRedisStore.
  set (cfg := Serving.Load env).
  unfold notify_context, serve_until_done, with_timeout, shut_down, await_done, go, bindP, outside, defer, silently, current_ctx, retP, fatal.
  cbn [ps_world ps_trace ps_defers app].
  destruct (pgxpool_New _ _ _) as [[p|err] w1]; [|constructor]. cbn.
  destruct (pool_Ping _ _ _) as [[u|err] w2]; [|cbn; constructor]. cbn.
  destruct (redis_NewClient _ _) as [c w3]. cbn.
  destruct (client_Ping _ _ _) as [[v|err] w4]; [|cbn; constructor]. cbn.
  destruct (http_Shutdown _ _) as [r w5]. cbn.
  exact (boot_all (Some (serving_parts cfg)) [] _ p u _ c v (serving_parts cfg) _ r eq_refl).
Qed.

Lemma ingestion_boots env w :
  boot (ingestion_parts (Ingestion.Load env)) [Sleep (2 * Second)]
    (run_main (ingestion_main env) w).1 (run_main (ingestion_main env) w).2.
Proof.
  unfold run_main, ingestion_main, IngestionStore.NewTimescaleStore, IngestionStore.NewRedisStore.
  set (cfg := Ingestion.Load env). unfold ingestion_parts.
  unfold notify_context, with_timeout, shut_down, await_done, bindP, outside, defer, silently, current_ctx, retP, fatal.
  cbn [ps_world ps_trace ps_defers app].
  destruct (pgxpool_New _ _ _) as [[p|err] w1]; [|constructor]. cbn.
  destruct (pool_Ping _ _ _) as [[u|err] w2]; [|cbn; constructor]. cbn.
  destruct (redis_NewClient _ _) as [c w3]. cbn.
  destruct (client_Ping _ _ _) as [[v|err] w4]; [|cbn; constructor]. cbn.
  destruct (NewDispatcher _ _ _) as [d|]; cbn; [|by constructor].
  rewrite !times_go. cbn. destruct (http_Shutdown _ _) as [r w5]. cbn.
  match goal with |- boot ?parts ?last _ _ =>
    refine (eq_ind _ (boot parts last Exited) (boot_all parts last _ p u _ c v _ _ r eq_refl) _ _) end.
  cbn. rewrite !map_app. cbn. by rewrite <- !(assoc_L (++)).
Qed.
End Boots.

(** The two services, with what they start and whether their settings allow it. *)
Inductive service := ServingService | IngestionService.
Definition main_of {W Pool Client} `{Outside W Pool Client} (s : service)
  : Env -> Proc W Pool Client goroutine unit :=
  match s with ServingService => serving_main | IngestionService => ingestion_main end.
Definition parts_of (s : service) (env : Env) : option (list goroutine) :=
  match s with
  | ServingService => Some (serving_parts (Serving.Load env))
  | IngestionService => ingestion_parts (Ingestion.Load env)
  end.
Definition starts (s : service) (env : Env) : Prop :=
  match s with
  | ServingService => is_Some (serving_start (Serving.Load env))
  | IngestionService => is_Some (ingestion_start (Ingestion.Load env))
  end.

Lemma main_boots {W Pool Client} `{Outside W Pool Client} s env w :
  exists last, Forall (fun c => exists d, c = Sleep d) last /\
    boot (parts_of s env) last (run_main (main_of s env) w).1 (run_main (main_of s env) w).2.
Proof.
  destruct s; simpl.
  - exists []. split; [constructor|apply serving_boots].
  - exists [Sleep (2 * Second)]. split; [|apply ingestion_boots].
    constructor; [by eexists|constructor].
Qed.
Lemma doomed_service s env gs g :
  parts_of s env = Some gs -> g ∈ gs -> doomed g = true -> ~ starts s env.
Proof.
  intros Hp Hin Hd. assert (He : Exists (fun g => doomed g = true) gs) by (apply Exists_exists; eauto).
  destruct s; simpl in *.
  - injection Hp as <-. rewrite serving_doomed by done. by intros [? [=]].
  - rewrite (ingestion_doomed _ _ Hp He). by intros [? [=]].
Qed.
Lemma life_run_started {Pool Client} (l l' : life (Pool:=Pool) (Client:=Client)) tr g :
  life_run l tr l' -> Go g ∈ tr \/ g ∈ started l -> g ∈ started l'.
Proof.
  induction 1 as [l|l c l1 tr l2 Hs _ IH]; [by intros [?%elem_of_nil|]|].
  rewrite elem_of_cons. intros Hg. apply IH. destruct Hg as [[<-|?]|Hg]; [|by left|right].
  - right. inversion Hs; subst; simpl. apply elem_of_app. right. by left.
  - destruct Hs; simpl; try done. apply elem_of_app. by left.
Qed.

(** C21. What a process does between its start and its end. Whatever the libraries answer
    and the environment holds, the calls of either service keep the protocol of
    [life_step]: nothing is started unless the database and Redis have both answered,
    connections are released newest first, and once anything runs only after the signal
    and the shutdown of the HTTP server. A process whose [main] returns has started
    exactly what it is configured to, in order, and has released everything it acquired;
    one that [log.Fatalf] ends had a failed connection and started nothing; and one that
    panics has settings on which its service does not start. *)
Theorem process_lifecycle {W Pool Client : Type} `{Outside W Pool Client} s env w e tr
  (Hends : ends (main_of s env) w e tr) :
  exists l, life_run new_life tr l /\
    match e with
    | Exited => held l = [] /\ down l = true /\ parts_of s env = Some (started l)
    | FatalExit _ => failed l = true /\ started l = []
    | Crashed => ~ starts s env
    end.
Proof.
  destruct (main_boots s env w) as (last & Hlast & Hb).
  destruct (boot_accepted _ _ _ _ Hb Hlast) as (l & Hr & He). clear Hb Hlast last.
  destruct Hends as [|t1 t2 g Et Hg Hd].
  - exists l. split; [done|]. destruct (run_main _ w).1; [tauto|tauto|].
    destruct He as (_ & _ & Hp). destruct s; [done|]. simpl in *. unfold ingestion_start, ingestion_parts in *.
    destruct (NewDispatcher _ _ _); [done|]. by intros [? [=]].
  - rewrite Et in Hr. pose proof (life_run_started _ _ _ g Hr) as Hin.
    rewrite elem_of_app in Hin. specialize (Hin (or_introl (or_introl Hg))).
    apply life_run_prefix in Hr as (l1 & Hr & _). exists l1. split; [done|].
    destruct (run_main _ w).1; [|destruct He as [_ He]|destruct He as (_ & He & _)];
      [|by rewrite He in Hin; apply elem_of_nil in Hin..].
    destruct He as (_ & _ & _ & Hp). by eapply doomed_service.
Qed.

(** ** Witnesses: libraries on which everything connects, or Redis does not answer *)
Definition demo_outside (redis_answers : bool) : Outside unit string redis_options := {|
  signal_ctx := fun _ => Live;
  await_signal := id;
  pgxpool_New := fun _ s => retM (Ok s);
  pool_Ping := fun _ _ => retM (Ok tt);
  pool_Close := fun _ => id;
  redis_NewClient := retM;
  client_Ping := fun _ _ => retM (if redis_answers then Ok tt else Err "connection refused"%string);
  client_Close := fun _ => retM (Ok tt);
  http_Shutdown := fun _ => retM (Ok tt);
  time_Sleep := fun _ => id
|}.
Definition with_env (k v : string) : Env := fun k' => if bool_decide (k' = k) then v else ""%string.

Lemma process_lifecycle_witness :
  let run b s env := @run_main unit string redis_options goroutine (@main_of _ _ _ (demo_outside b) s env) tt in
  (run true ServingService (fun _ => ""%string)).1 = Exited /\
  (exists l, life_run new_life (run true ServingService (fun _ => ""%string)).2 l /\ held l = []) /\
  (exists l, life_run new_life (run false IngestionService (fun _ => ""%string)).2 l /\ started l = []) /\
  ~ starts IngestionService (with_env "DB_CHANNEL_SIZE" "-1").
Proof.
  intros run.
  assert (Hrun : forall b s env, exists l, life_run new_life (run b s env).2 l /\
    match (run b s env).1 with
    | Exited => held l = [] /\ down l = true /\ parts_of s env = Some (started l)
    | FatalExit _ => failed l = true /\ started l = []
    | Crashed => ~ starts s env
    end).
  { intros b s env. unfold run. eapply (@process_lifecycle _ _ _ (demo_outside b) s env tt).
    exact (@ends_main _ _ _ (@main_of _ _ _ (demo_outside b) s env) tt). }
  assert (E1 : (run true ServingService (fun _ => ""%string)).1 = Exited) by (vm_compute; reflexivity).
  assert (E2 : (run false IngestionService (fun _ => ""%string)).1 =
    FatalExit "Redis: failed to connect to redis: connection refused") by (vm_compute; reflexivity).
  assert (E3 : (run true IngestionService (with_env "DB_CHANNEL_SIZE" "-1")).1 = Crashed)
    by (vm_compute; reflexivity).
  split; [exact E1|]. split; [|split].
  - destruct (Hrun true ServingService (fun _ => ""%string)) as (l & Hl & He). rewrite E1 in He.
    exact (ex_intro _ l (conj Hl (proj1 He))).
  - destruct (Hrun false IngestionService (fun _ => ""%string)) as (l & Hl & He). rewrite E2 in He.
    exact (ex_intro _ l (conj Hl (proj2 He))).
  - destruct (Hrun true IngestionService (with_env "DB_CHANNEL_SIZE" "-1")) as (l & Hl & He).
    rewrite E3 in He. exact He.
Defined.
