(* ===== verification/Schema.v ===== *)
(** * The schema as an invariant of both services

    [well_formed] says what the constraints of [scripts/init_db/init_db.go] promise of the
    tables: primary keys, foreign keys, CHECKs, the exclusion constraint, text without
    NUL. [evolves] relates two moments of the database: the registries are not
    touched, telemetry and alerts are only appended, and of a row that stays only the
    columns of its workflow change. Every operation of both services, as a whole and
    whatever fails in it, respects both. *)
From Stdlib Require Import SpecFloat.
From S2P Require Import Prelude GoNum Strconv Json Redis Domain Rfc3339 RedisStore Auth Http Tables.
From S2P Require Import Timescale Dispatcher Writers Pipeline AlertEvaluator Events Geo Heartbeat.
From S2P Require Import StopDetector Eta Deviation Middleware Helpers Alerts Views.
From S2P Require Import Vehicles Trips Analytics AlertDetail Hub ServingHttp.
Local Open Scope Z_scope.
Local Open Scope fleet_scope.

(** ** The constraints *)
Record well_formed (d : db) : Prop := {
  wf_keys : keys d;
  wf_driver : NoDup (map dr_driver_id (db_drivers d));
  wf_config : NoDup (map fc_fleet_id (db_fleet_config d));
  wf_alert_ids : NoDup (map al_id (db_alerts d));
  wf_alert_seq : Forall (fun a => al_id a < db_alert_seq d) (db_alerts d);
  wf_alert_checks : Forall (fun a => alert_checks a = true) (db_alerts d);
  wf_dedup : NoOverlap (db_alerts d);
  wf_telemetry : Forall (fun r => no_nul (tr_vehicle_id r) && no_nul (tr_fleet_id r) = true)
                   (db_telemetry d);
  wf_stops : Forall (fun s => rs_route_id s ∈ map rr_route_id (db_routes d)) (db_stops d);
  wf_trips : Forall (fun t => chk_trip_status (tp_status t) = true /\
      tp_vehicle_id t ∈ map vr_vehicle_id (db_vehicles d) /\
      tp_driver_id t ∈ map dr_driver_id (db_drivers d) /\
      tp_route_id t ∈ map rr_route_id (db_routes d)) (db_trips d);
  wf_progress : Forall (fun g => chk_stop_status (pg_status g) = true /\
      pg_trip_id g ∈ map tp_trip_id (db_trips d) /\
      pg_stop_id g ∈ map rs_stop_id (db_stops d)) (db_progress d)
}.

(** ** What never changes *)

(** An alert without the columns of its workflow, a trip without its outcome, a progress
    row without its progress. *)
Definition alert_core (a : alert_row) : alert_row :=
  MkAlertRow (al_id a) (al_vehicle_id a) (al_fleet_id a) (al_alert_type a) (al_severity a)
    (al_triggered_value a) (al_created_at a) None None None None.
Definition trip_core (t : trip_row) : trip_row :=
  MkTripRow (tp_trip_id t) (tp_vehicle_id t) (tp_driver_id t) (tp_route_id t) ""
    (tp_scheduled_departure t) (tp_actual_departure t) None (tp_created_at t).
Definition progress_core (g : progress_row) : string * string := (pg_trip_id g, pg_stop_id g).

Record evolves (d d' : db) : Prop := {
  ev_vehicles : db_vehicles d' = db_vehicles d;
  ev_drivers : db_drivers d' = db_drivers d;
  ev_routes : db_routes d' = db_routes d;
  ev_stops : db_stops d' = db_stops d;
  ev_config : db_fleet_config d' = db_fleet_config d;
  ev_telemetry : db_telemetry d `prefix_of` db_telemetry d';
  ev_alerts : map alert_core (db_alerts d) `prefix_of` map alert_core (db_alerts d');
  ev_trips : map trip_core (db_trips d') = map trip_core (db_trips d);
  ev_progress : map progress_core (db_progress d') = map progress_core (db_progress d)
}.
#[export] Instance evolves_preorder : PreOrder evolves.
Proof.
  split; [by split|]. intros d1 d2 d3 [] []. split; try congruence; by etrans.
Qed.

(** One statement, or a whole operation: it evolves the tables, and keeps them
    well-formed. *)
Definition legal (d d' : db) : Prop := evolves d d' /\ (well_formed d -> well_formed d').
#[export] Instance legal_preorder : PreOrder legal.
Proof.
  split; [by split|]. intros d1 d2 d3 [E1 W1] [E2 W2]. split; [by etrans|auto].
Qed.
Definition legal_stmt {A} (stmt : db -> option (A * db)) : Prop :=
  forall d a d', stmt d = Some (a, d') -> legal d d'.

(** ** The statements *)

(** Rows are rewritten in place: what depends on their core only is kept. *)
Section Core.
Context {A B : Type} (core : A -> B).
Lemma map_core (f : A -> A) l : (forall x, core (f x) = core x) -> map core (map f l) = map core l.
Proof. intros Hf. rewrite map_map. by apply map_ext. Qed.
Lemma map_by_core {C} (g : A -> C) (h : B -> C) l l' :
  (forall x, g x = h (core x)) -> map core l' = map core l -> map g l' = map g l.
Proof. intros Hg Hl. rewrite !(map_ext _ _ Hg), <- !(map_map core h). by rewrite Hl. Qed.
Lemma Forall_by_core (Q : A -> Prop) (Q' : B -> Prop) l l' :
  (forall x, Q x <-> Q' (core x)) -> map core l' = map core l -> Forall Q l -> Forall Q l'.
Proof.
  intros HQ Hl H. assert (H' : Forall Q' (map core l)) by (apply Forall_map; by eapply Forall_impl; [|apply HQ]).
  rewrite <- Hl, Forall_map in H'. by eapply Forall_impl; [|apply HQ].
Qed.
End Core.

Lemma NoOverlap_core l l' :
  map alert_core l' = map alert_core l -> NoOverlap l -> NoOverlap l'.
Proof.
  intros Hl Hn i j a b Hij Hi Hj.
  assert (Hat : forall k x, l' !! k = Some x -> exists y, l !! k = Some y /\ alert_core y = alert_core x).
  { intros k x Hk. assert (Hk' : map alert_core l !! k = Some (alert_core x))
      by (rewrite <- Hl; by rewrite list_lookup_fmap, Hk).
    apply list_lookup_fmap_Some in Hk' as (y & Hy & ?). by exists y. }
  destruct (Hat i a Hi) as (a0 & Ha0 & Ea), (Hat j b Hj) as (b0 & Hb0 & Eb).
  specialize (Hn i j a0 b0 Hij Ha0 Hb0).
  change (dedup_excl (alert_core a0) (alert_core b0) = false) in Hn.
  change (dedup_excl (alert_core a) (alert_core b) = false). congruence.
Qed.

Lemma legal_alerts l d :
  map alert_core l = map alert_core (db_alerts d) -> legal d (set_alerts d l (db_alert_seq d)).
Proof.
  intros Hl. split; [split; simpl; try done; by rewrite Hl|].
  intros [Hk Hd Hc H1 H2 H3 H4 H5 H6 H7 H8]. split; simpl; try done.
  - by destruct Hk.
  - by rewrite (map_by_core alert_core al_id al_id _ l (fun _ => eq_refl) Hl).
  - by apply (Forall_by_core alert_core _ (fun a => al_id a < db_alert_seq d) (db_alerts d)).
  - by apply (Forall_by_core alert_core _ (fun a => alert_checks a = true) (db_alerts d)).
  - by apply (NoOverlap_core (db_alerts d)).
Qed.
Lemma legal_update p f d n d' :
  (forall a, alert_core (f a) = alert_core a) ->
  update_alerts_stmt p f d = Some (n, d') -> legal d d'.
Proof.
  intros Hf [= _ <-]. apply legal_alerts, map_core. intros a. by destruct (p a).
Qed.

(** Appending an alert that meets the constraints. *)
Lemma legal_append d a :
  al_id a = db_alert_seq d -> alert_checks a = true -> excl_conflict d a = false ->
  legal d (append_alert d a).
Proof.
  intros Hid Hchk Hex. split.
  { split; simpl; try done. rewrite map_app. by apply prefix_app_r. }
  intros [Hk Hd Hc H1 H2 H3 H4 H5 H6 H7 H8]. split; simpl; try done.
  - by destruct Hk.
  - rewrite map_app. apply NoDup_app. split; [done|]. split; [|apply NoDup_singleton].
    intros x (b & -> & Hb)%list_elem_of_fmap Hx. apply list_elem_of_singleton in Hx.
    rewrite Forall_forall in H2. specialize (H2 b Hb). simpl in H2. lia.
  - apply Forall_app. split; [|by apply Forall_singleton; lia].
    eapply Forall_impl; [exact H2|]. simpl. lia.
  - apply Forall_app. by rewrite Forall_singleton.
  - by apply NoOverlap_snoc.
Qed.
Lemma legal_burn d : legal d (set_alerts d (db_alerts d) (db_alert_seq d + 1)).
Proof.
  split; [by split|]. intros [[K1 K2 K3 K4 K5] Hd Hc H1 H2 H3 H4 H5 H6 H7 H8].
  split; simpl; try done. eapply Forall_impl; [exact H2|]. simpl. lia.
Qed.

Lemma legal_copy t ms : legal_stmt (copy_stmt t ms).
Proof.
  intros d a d' Hs. unfold copy_stmt in Hs. destruct (forallb copyable ms) eqn:Hc; [|done].
  injection Hs as _ <-. split.
  { split; simpl; try done. by apply prefix_app_r. }
  intros [[K1 K2 K3 K4 K5] Hd Hcf H1 H2 H3 H4 H5 H6 H7 H8]. split; simpl; try done.
  apply Forall_app. split; [done|]. apply Forall_map, Forall_forall. intros m Hm. simpl.
  rewrite forallb_forall in Hc. by apply Hc, list_elem_of_In.
Qed.
Lemma legal_insert t v f ty sev x : legal_stmt (insert_alert_stmt t v f ty sev x).
Proof.
  intros d a d' Hs. unfold insert_alert_stmt in Hs. destruct (alert_checks _) eqn:Hc; [|done].
  destruct (excl_conflict _ _) eqn:He; injection Hs as _ <-; [apply legal_burn|by apply legal_append].
Qed.
Lemma legal_deviation t v sev km : legal_stmt (insert_deviation_stmt t v sev km).
Proof.
  intros d a d' Hs. unfold insert_deviation_stmt in Hs. revert Hs.
  set (rows := List.filter _ _). generalize (PreOrder_Reflexive (R:=legal) d).
  generalize d at 2 3 as d0. intros d0 Hd0. revert d0 Hd0.
  induction rows as [|r rows IH]; intros d0 Hd0; simpl; [by intros [= _ <-]|].
  destruct (_ && _) eqn:Hc.
  - apply andb_prop in Hc as [Hc He%negb_true_iff]. apply IH. etrans; [exact Hd0|]. by apply legal_append.
  - clear IH. intros Hs. exfalso. revert Hs. induction rows as [|r' rows IH]; simpl; [done|auto].
Qed.
Lemma legal_resolve t v : legal_stmt (auto_resolve_stmt t v).
Proof.
  intros d a d' [= _ <-]. apply legal_alerts, map_core. intros b. by destruct (open_deviation v b).
Qed.
Lemma legal_mark t s status ar dp :
  chk_stop_status status = true -> legal_stmt (mark_stmt t s status ar dp).
Proof.
  intros Hst d a d' [= _ <-]. set (f := fun g : progress_row => _).
  assert (Hf : map progress_core (map f (db_progress d)) = map progress_core (db_progress d))
    by (apply map_core; intros g; unfold f; by destruct (is_progress t s g)).
  split; [by split|]. intros [[K1 K2 K3 K4 K5] Hd Hc H1 H2 H3 H4 H5 H6 H7 H8].
  split; simpl; try done.
  - split; simpl; try done. change (NoDup (map progress_core (map f (db_progress d)))). by rewrite Hf.
  - apply Forall_map. eapply Forall_impl; [exact H8|]. intros g (? & ? & ?). simpl. unfold f.
    by destruct (is_progress t s g).
Qed.
Lemma legal_complete now t : legal_stmt (complete_stmt now t).
Proof.
  intros d a d' [= _ <-].
  assert (Hf : forall x, trip_core (complete_row now t x) = trip_core x)
    by (intros x; unfold complete_row; by case_bool_decide).
  assert (Hid : map tp_trip_id (map (complete_row now t) (db_trips d)) = map tp_trip_id (db_trips d))
    by (apply (map_by_core trip_core tp_trip_id tp_trip_id); [done|by apply map_core]).
  split; [split; simpl; try done; by apply map_core|].
  intros [[K1 K2 K3 K4 K5] Hd Hc H1 H2 H3 H4 H5 H6 H7 H8]. split; simpl; try done.
  - split; simpl; try done. by rewrite Hid.
  - apply Forall_map. eapply Forall_impl; [exact H7|]. intros x (? & ? & ? & ?). simpl.
    unfold complete_row. by case_bool_decide.
  - by rewrite Hid.
Qed.

(** ** Computations that respect the schema *)
Create HintDb schema discriminated.
Section Lawful.
Context {R P : Type} `{RedisLaws R} `{DatabaseLaws P}.
Notation D := (World R P).
Definition lawful {A} (c : M D A) : Prop :=
  forall w, legal (tables (w_db w)) (tables (w_db (c w).2)).

Lemma lawful_ret {A} (a : A) : lawful (retM a).
Proof. intros w. reflexivity. Qed.
Lemma lawful_bind {A B} (c : M D A) (k : A -> M D B) :
  lawful c -> (forall a, lawful (k a)) -> lawful (bindM c k).
Proof.
  intros Hc Hk w. unfold bindM. specialize (Hc w). destruct (c w) as [a w1]. by etrans; [|apply Hk].
Qed.
Lemma lawful_forM {A} (f : A -> M D unit) l : (forall a, lawful (f a)) -> lawful (forM f l).
Proof.
  intros Hf w. apply (forM_invariant (fun w' => legal (tables (w_db w)) (tables (w_db w'))));
    [|done]. intros x w0 _ Hw. by etrans; [|apply Hf].
Qed.
Lemma lawful_redis {A} (f : R -> A * R) : lawful (on_redis (P:=P) f).
Proof. intros w. unfold on_redis. by destruct (f (w_redis w)). Qed.
Lemma lawful_hub f : lawful (on_hub (R:=R) (P:=P) f).
Proof. intros w. reflexivity. Qed.
Lemma lawful_read {A} (c : M D A) : read_only c -> lawful c.
Proof. intros Hc w. destruct (Hc w) as (_ & -> & _). reflexivity. Qed.
Lemma run_legal {A} cx (stmt : db -> option (A * db)) (p : P) :
  legal_stmt stmt -> legal (tables p) (tables (pg_run cx stmt p).2).
Proof. intros Hs. destruct (pg_run_effect cx stmt p) as [->|[a E]]; [done|by eapply Hs]. Qed.
Lemma lawful_run {A} cx (stmt : db -> option (A * db)) :
  legal_stmt stmt -> lawful (on_db (R:=R) (pg_run cx stmt)).
Proof.
  intros Hs w. unfold on_db. pose proof (run_legal cx stmt (w_db w) Hs).
  by destruct (pg_run cx stmt (w_db w)).
Qed.
Lemma lawful_query {A} cx (q : db -> A) : lawful (on_db (R:=R) (pg_query (P:=P) cx q)).
Proof. apply lawful_read, read_only_query. Qed.
End Lawful.
#[export] Hint Resolve lawful_ret lawful_bind lawful_forM lawful_redis lawful_hub lawful_query
  lawful_run legal_mark legal_complete legal_deviation legal_resolve : schema.
Ltac solve_lawful :=
  repeat (intros; lazymatch goal with
  | |- lawful (bindM _ _) => apply lawful_bind
  | |- lawful (forM _ _) => apply lawful_forM
  | |- lawful (match ?x with _ => _ end) => destruct x
  | |- lawful _ => solve [eauto with schema]
  end).

Section Ticks.
Context {R P : Type} `{Trig} `{RedisLaws R} `{DatabaseLaws P}.
Notation D := (World R P).
Lemma lawful_get cx t k : lawful (R:=R) (P:=P) (get_or_empty cx t k).
Proof. unfold get_or_empty. solve_lawful. Qed.
Lemma lawful_offline cx t v f k l : lawful (R:=R) (P:=P) (setOffline cx t v f k l).
Proof. unfold setOffline, set_key. apply lawful_bind; [apply lawful_get|]. solve_lawful. Qed.
Lemma lawful_heartbeat h cx t : lawful (R:=R) (P:=P) (heartbeat_tick h cx t).
Proof.
  unfold heartbeat_tick, loadFleetThresholds, heartbeat_check, set_key.
  repeat (intros; first [apply lawful_offline|apply lawful_get|progress solve_lawful]).
Qed.
Lemma lawful_stops cx t : lawful (R:=R) (P:=P) (stop_tick cx t).
Proof.
  unfold stop_tick, processTrip, process_stop, markStop, completeTrip. solve_lawful.
Qed.
Lemma lawful_eta sh cx t : lawful (R:=R) (P:=P) (eta_tick sh cx t).
Proof. unfold eta_tick, computeAndStore. solve_lawful. Qed.
Lemma lawful_load cx l : lawful (R:=R) (P:=P) (load_stops cx l).
Proof. induction l as [|t l IH]; simpl; solve_lawful. Qed.
Lemma lawful_deviation cx t : lawful (R:=R) (P:=P) (deviation_tick cx t).
Proof.
  unfold deviation_tick, loadActiveTrips, checkTrip, fireAlert, autoResolve.
  repeat (intros; first [apply lawful_load|progress solve_lawful]).
Qed.
End Ticks.

(** ** The operations of the two services *)
Section Services.
Context {R P : Type} `{Trig} `{RedisLaws R} `{DatabaseLaws P}.
Notation D := (World R P).

Lemma legal_BatchInsert cx t b (p : P) : legal (tables p) (tables (BatchInsert cx t b p).2).
Proof.
  simpl. unfold Timescale_BatchInsert. destruct b as [|m b]; [reflexivity|].
  pose proof (run_legal cx _ p (legal_copy t (m :: b))) as Hl.
  by destruct (pg_run cx _ p) as [[[]|e] p'].
Qed.
Lemma legal_evaluate rules clk msg (p : P) (r : R) :
  legal (tables p) (tables (AlertEvaluator_evaluate rules clk msg (p, r)).2.1).
Proof.
  unfold AlertEvaluator_evaluate.
  apply (forM_invariant (fun w => legal (tables p) (tables w.1))); [|reflexivity].
  clear r. intros rule [p0 r] _ Hl. simpl in Hl. unfold evaluate_rule. destruct (negb _); [done|].
  destruct (TryClaimAlertDedup _ _ _ _ _) as [[[]|e] r1]; [|done..].
  pose proof (run_legal Live _ p0 (legal_insert (rc_insert (clk (rule_Type rule))) (VehicleID msg)
    (FleetID msg) (rule_Type rule) (rule_Severity rule) (getTriggerValue msg (rule_Type rule)))) as Hi.
  change (InsertAlert ?a ?b ?c ?d ?e ?f ?g ?h) with (Timescale_InsertAlert a b c d e f g h).
  unfold Timescale_InsertAlert. destruct (pg_run Live _ p0) as [[u|e] p1]; simpl in Hi.
  - destruct (PublishAlert _ _ _ _ _) as [u2 r2]. simpl. by etrans.
  - destruct (ReleaseAlertDedup _ _ _ _ _) as [u2 r2]. simpl. by etrans.
Qed.

Context {V : Type} `{Validator V}.
(** The operations: a flush attempt of a writer, the evaluation of a message, a tick of a
    job, a request to the dashboard's API (with the validator as it then is, the answers
    of the pings and those of SCAN). *)
Inductive operation :=
| Flush (cx : context) (t : Time) (b : list msg)
| Evaluate (clk : AlertType -> rule_clock) (m : msg)
| HeartbeatTick (h : HeartbeatMonitor) (cx : context) (t : Time)
| StopTick (cx : context) (t : Time)
| EtaTick (shuffle : list (string * nextStop) -> list (string * nextStop)) (cx : context) (t : Time)
| DeviationTick (cx : context) (t : Time)
| Request (ping1 ping2 : context -> res unit) (scan : list (res (list string))) (rq : request) (v : V).
Definition perform (w : D) (o : operation) : D :=
  match o with
  | Flush cx t b => MkWorld (w_redis w) (BatchInsert cx t b (w_db w)).2 (w_hub w)
  | Evaluate clk m =>
      let '(p, r) := (AlertEvaluator_evaluate DefaultAlertRules clk m (w_db w, w_redis w)).2 in
      MkWorld r p (w_hub w)
  | HeartbeatTick h cx t => (heartbeat_tick h cx t w).2
  | StopTick cx t => (stop_tick cx t w).2
  | EtaTick sh cx t => (eta_tick sh cx t w).2
  | DeviationTick cx t => (deviation_tick cx t w).2
  | Request ping1 ping2 scan rq v => (serve_request ping1 ping2 scan rq (v, w)).2.2
  end.

Lemma legal_effect m (w w' : D) : effect m w w' -> legal (tables (w_db w)) (tables (w_db w')).
Proof.
  intros [(_ & -> & _)|(_ & _ & _ & o & id & now & by_ & ->)]; [reflexivity|].
  apply legal_alerts, map_core. intros a. destruct (op_guard o id a); [|done]. by destruct o.
Qed.
Lemma legal_request ping1 ping2 scan rq v (w : D) :
  legal (tables (w_db w)) (tables (w_db (perform w (Request ping1 ping2 scan rq v)))).
Proof.
  destruct (request_effect (R:=R) (P:=P) ping1 ping2 scan rq v w) as (m & He & _).
  by eapply legal_effect.
Qed.
Lemma legal_perform o (w : D) : legal (tables (w_db w)) (tables (w_db (perform w o))).
Proof.
  destruct o; [apply legal_BatchInsert| |apply lawful_heartbeat|apply lawful_stops|apply lawful_eta
    |apply lawful_deviation|apply legal_request].
  simpl. pose proof (legal_evaluate DefaultAlertRules clk m (w_db w) (w_redis w)) as Hl.
  by destruct (AlertEvaluator_evaluate _ _ _ _) as [u [p r]].
Qed.

(** C19. The schema is an invariant. Whatever the two services do, in whatever order and
    whatever fails, the tables keep every constraint of [init_db.go] (the primary and
    foreign keys, the CHECKs, the exclusion constraint); no telemetry row, alert, trip or
    progress row is ever deleted or reordered; the registries never change; and a stored
    alert or trip keeps all its columns but those of its workflow. *)
Theorem services_keep_schema (ops : list operation) (w : D) :
  well_formed (tables (w_db w)) ->
  let d := tables (w_db w) in
  let d' := tables (w_db (foldl perform w ops)) in
  well_formed d' /\ evolves d d'.
Proof.
  assert (Hl : legal (tables (w_db w)) (tables (w_db (foldl perform w ops)))).
  { revert w. induction ops as [|o ops IH]; intros w; simpl; [reflexivity|].
    etrans; [apply legal_perform|apply IH]. }
  destruct Hl. by split; [auto|].
Qed.
End Services.

(** ** Witness: a trip in progress, its vehicle at the last stop *)
Definition demo_schema_db : db :=
  MkDb [] [demo_alert 1 SeverityWarning 0 None None] 2
    [MkVehicleRow "v1" "fleet-a" "Truck 1" "TEST-1" "truck" None None true]
    [MkDriverRow "d1" "Ann" "1" "L1" 0 true]
    [MkRouteRow "r1" "North" "A" f_zero f_zero "B" f_zero f_one f_one None true]
    [MkStopRow "s1" "r1" 1 "B" f_zero f_one f_one] [MkFleetConfigRow "fleet-a" 60]
    [MkTripRow "t1" "v1" "d1" "r1" TripInProgress 0 None None 0]
    [MkProgressRow "t1" "s1" StopPending None None].
Definition demo_schema_world : World MemRedis MemDB :=
  MkWorld (MkMemRedis (put (state_key "v1") (RHash {["lat" := "0"; "lng" := "1"; "received_at" := "9"]})
                        None (MkRstate ∅ [])) []) (MkMemDB demo_schema_db [false; true]) [].
#[local] Existing Instance Serving.Validator_serving.
Definition demo_ops : list (operation (V:=Authenticator * MemRedis)) := [
  Flush Live 1 [demo_speed 120]; Flush Live 2 [demo_speed 130]; Flush Cancelled 3 [demo_speed 140];
  Evaluate (at_instant Second) (demo_speed 130); StopTick Live (2 * Second);
  HeartbeatTick (NewHeartbeatMonitor 30 60) Live (3 * Second); DeviationTick Live (4 * Second);
  Request (fun _ => Ok tt) (fun _ => Ok tt) [] (demo_call "POST" ack_path "key-b") demo_keys].

Lemma demo_schema_well_formed : well_formed demo_schema_db.
Proof.
  split; try (apply (bool_decide_unpack _); vm_compute; reflexivity).
  - split; apply (bool_decide_unpack _); vm_compute; reflexivity.
  - apply (NoOverlap_snoc []); [apply NoOverlap_nil|reflexivity].
Qed.
Lemma services_keep_schema_witness :
  let d' := tables (w_db (@foldl _ _ (perform (H:=flat_trig)) demo_schema_world demo_ops)) in
  (length (db_telemetry d'), length (db_alerts d'), map tp_status (db_trips d'),
   map al_acknowledged_by (db_alerts d')) =
    (1%nat, 1%nat, [TripCompleted], [Some "ann"%string]) /\
  well_formed d' /\ evolves demo_schema_db d'.
Proof.
  split; [vm_compute; reflexivity|].
  exact (services_keep_schema (H:=flat_trig) demo_ops demo_schema_world demo_schema_well_formed).
Defined.
